(** * UnderFlaw chess engine: a shallow embedding of the search core

    The development follows the C sources file by file
    (bitboard.h, types.h, magic.h, position.c, movegen.c, see.c, tt.c,
    movepicker.c, search.c, threads.c, uci.c).  C integers are modelled by
    [Z]; unsigned 64-bit bitboards are kept in the range [0, 2^64) by the
    operations below, and a read past the end of a constant table is
    modelled by [None]. *)

From Stdlib Require Import Btauto.
From stdpp Require Import base numbers option list sorting gmap.

Local Open Scope Z_scope.

(* ===================================================================== *)
(** * Part I: definitions                                                  *)
(* ===================================================================== *)

(** ** Machine integers *)

(** [uint64_t] wrap-around. *)
Definition u64 (x : Z) : Z := x mod 2 ^ 64.

(** Conversion to [int16_t] ([Score], [TTEntry.depth]). *)
Definition s16 (x : Z) : Z := (x + 32768) mod 65536 - 32768.

(** Conversion to [int] (32 bits, two's complement). *)
Definition s32 (x : Z) : Z := (x + 2147483648) mod 4294967296 - 2147483648.

(** Conversion to [uint8_t]. *)
Definition u8 (x : Z) : Z := x mod 256.

(** C truth value of an integer. *)
Definition nz (x : Z) : bool := negb (x =? 0).

(** Array read with the index given as a C [int]; [None] is a read outside
    the array. *)
Definition lookupZ {A} (l : list A) (i : Z) : option A :=
  if i <? 0 then None else l !! Z.to_nat i.

(** Array read for tables whose index is in range at every call site. *)
Definition getZ (l : list Z) (i : Z) : Z := default 0 (lookupZ l i).

(** Array write [l[i] = v]. *)
Definition setZ {A} (l : list A) (i : Z) (v : A) : list A :=
  if i <? 0 then l else <[Z.to_nat i := v]> l.

(** The integers [lo, lo+1, ..., lo+n-1]. *)
Definition range (lo : Z) (n : nat) : list Z := seqZ lo (Z.of_nat n).

(** ** bitboard.h *)

Definition RANK_3 : Z := 0x0000000000FF0000.
Definition RANK_6 : Z := 0x0000FF0000000000.
Definition FILE_A : Z := 0x0101010101010101.
Definition FILE_H : Z := 0x8080808080808080.

(** [1ULL << sq]; the sources only form it for [0 <= sq < 64]. *)
Definition bit (sq : Z) : Z := u64 (Z.shiftl 1 sq).

(** [~b] on a 64-bit word. *)
Definition bb_not (b : Z) : Z := Z.lxor b (2 ^ 64 - 1).

(** [b << n] and [b >> n] on a 64-bit word. *)
Definition shl (b n : Z) : Z := u64 (Z.shiftl b n).
Definition shr (b n : Z) : Z := Z.shiftr b n.

Definition SQ (file rank : Z) : Z := rank * 8 + file.
Definition SQ_FILE (sq : Z) : Z := Z.land sq 7.
Definition SQ_RANK (sq : Z) : Z := Z.shiftr sq 3.

Fixpoint ctz_pos (p : positive) : Z :=
  match p with
  | xO q => 1 + ctz_pos q
  | _ => 0
  end.

(** [LSB(bb)] is [__builtin_ctzll]; it is only called on non-zero words
    (the value 64 stands for the undefined result at 0). *)
Definition LSB (bb : Z) : Z :=
  match bb with
  | Zpos p => ctz_pos p
  | _ => 64
  end.

Fixpoint popcount_pos (p : positive) : Z :=
  match p with
  | xH => 1
  | xO q => popcount_pos q
  | xI q => 1 + popcount_pos q
  end.

Definition POPCOUNT (bb : Z) : Z :=
  match bb with
  | Zpos p => popcount_pos p
  | _ => 0
  end.

(** [BB_FOREACH(sq, bb)] visits the set bits from the least significant
    one upwards; [bb_squares] is the list of squares it visits. *)
Definition bb_squares (bb : Z) : list Z :=
  filter (fun sq => Z.testbit bb sq = true) (range 0 64).

(** ** types.h *)

Definition PAWN : Z := 0.
Definition KNIGHT : Z := 1.
Definition BISHOP : Z := 2.
Definition ROOK : Z := 3.
Definition QUEEN : Z := 4.
Definition KING : Z := 5.

Definition WHITE : Z := 0.
Definition BLACK : Z := 1.

Definition SQ_A1 : Z := 0.
Definition SQ_C1 : Z := 2.
Definition SQ_D1 : Z := 3.
Definition SQ_E1 : Z := 4.
Definition SQ_F1 : Z := 5.
Definition SQ_G1 : Z := 6.
Definition SQ_H1 : Z := 7.
Definition SQ_A8 : Z := 56.
Definition SQ_C8 : Z := 58.
Definition SQ_D8 : Z := 59.
Definition SQ_E8 : Z := 60.
Definition SQ_F8 : Z := 61.
Definition SQ_G8 : Z := 62.
Definition SQ_H8 : Z := 63.

Definition MOVE_NONE : Z := 0.

Definition MOVE_FROM (m : Z) : Z := Z.land m 0x3F.
Definition MOVE_TO (m : Z) : Z := Z.land (Z.shiftr m 6) 0x3F.
Definition MOVE_PROMO (m : Z) : Z := Z.land (Z.shiftr m 12) 0xF.
Definition MOVE_FLAG (m : Z) : Z := Z.land (Z.shiftr m 16) 0x3.

Definition FLAG_QUIET : Z := 0.
Definition FLAG_CAPTURE : Z := 1.
Definition FLAG_SPECIAL : Z := 2.

Definition MAKE_MOVE (from to promo flag : Z) : Z :=
  Z.lor (Z.lor (Z.lor from (Z.shiftl to 6)) (Z.shiftl promo 12))
        (Z.shiftl flag 16).

Definition MOVE_IS_CAPTURE (m : Z) : bool := MOVE_FLAG m =? FLAG_CAPTURE.
Definition MOVE_IS_SPECIAL (m : Z) : bool := MOVE_FLAG m =? FLAG_SPECIAL.

Definition SCORE_INFINITE : Z := 32000.
Definition SCORE_MATE : Z := 31000.

(** [piece_value] of types.h (used by the material count). *)
Definition piece_value (piece : Z) : Z :=
  getZ [100; 320; 330; 500; 900; 0] piece.

(** ** magic.h: sliding attacks by direct ray walks *)

(** One ray of [get_rook_attacks] / [get_bishop_attacks]: starting at
    [(r, f)], add squares while they are on the board, stopping after the
    first occupied one.  Each C loop tests only the coordinate that can
    leave the board in its direction; for a start square on the board this
    is the same as the full test used here. *)
Fixpoint ray (n : nat) (r f dr df occupied attacks : Z) : Z :=
  match n with
  | O => attacks
  | S n' =>
      if (0 <=? r) && (r <? 8) && (0 <=? f) && (f <? 8) then
        let attacks' := Z.lor attacks (bit (r * 8 + f)) in
        if nz (Z.land occupied (bit (r * 8 + f))) then attacks'
        else ray n' (r + dr) (f + df) dr df occupied attacks'
      else attacks
  end.

Definition get_rook_attacks (sq occupied : Z) : Z :=
  let rank := Z.shiftr sq 3 in
  let file := Z.land sq 7 in
  let a := ray 8 rank (file + 1) 0 1 occupied 0 in
  let a := ray 8 rank (file - 1) 0 (-1) occupied a in
  let a := ray 8 (rank + 1) file 1 0 occupied a in
  ray 8 (rank - 1) file (-1) 0 occupied a.

Definition get_bishop_attacks (sq occupied : Z) : Z :=
  let rank := Z.shiftr sq 3 in
  let file := Z.land sq 7 in
  let a := ray 8 (rank + 1) (file + 1) 1 1 occupied 0 in
  let a := ray 8 (rank + 1) (file - 1) 1 (-1) occupied a in
  let a := ray 8 (rank - 1) (file + 1) (-1) 1 occupied a in
  ray 8 (rank - 1) (file - 1) (-1) (-1) occupied a.

Definition get_queen_attacks (sq occupied : Z) : Z :=
  Z.lor (get_rook_attacks sq occupied) (get_bishop_attacks sq occupied).

(** [init_basic_attacks]: the entry of a leaper table for square [sq]. *)
Definition leaper_attacks (deltas : list Z) (reach : Z) (sq : Z) : Z :=
  foldl (fun acc d =>
           let to_sq := sq + d in
           if (0 <=? to_sq) && (to_sq <? 64)
              && (Z.abs (SQ_RANK to_sq - SQ_RANK sq) <=? reach)
              && (Z.abs (SQ_FILE to_sq - SQ_FILE sq) <=? reach)
           then Z.lor acc (bit to_sq) else acc)
        0 deltas.

Definition knight_attacks (sq : Z) : Z :=
  leaper_attacks [-17; -15; -10; -6; 6; 10; 15; 17] 2 sq.

Definition king_attacks (sq : Z) : Z :=
  leaper_attacks [-9; -8; -7; -1; 1; 7; 8; 9] 1 sq.

(** ** position.h: the board state *)

(** NNUE accumulator (types.h): two vectors of [int16_t] and a flag. *)
Record Accumulator := mkAccumulator {
  acc_white : list Z;
  acc_black : list Z;
  computed_accumulation : Z
}.

(** [Position].  [pieces] is the array [pieces[2][6]] in memory order
    (index [color * 6 + piece]); [occupied] is [occupied[2]];
    [castling_rooks] is [castling_rooks[4]]. *)
Record Position := mkPosition {
  pieces : list Z;
  occupied : list Z;
  all : Z;
  to_move : Z;
  castling : Z;
  enpassant : Z;
  halfmove : Z;
  fullmove : Z;
  castling_rooks : list Z;
  zobrist : Z;
  pawn_hash : Z;
  accumulator : Accumulator
}.

Record UndoInfo := mkUndoInfo {
  undo_move : Z;
  undo_captured : Z;
  undo_moving_piece : Z;
  undo_castling : Z;
  undo_enpassant : Z;
  undo_halfmove : Z;
  undo_zobrist : Z;
  undo_pawn_hash : Z;
  undo_accumulator : Accumulator
}.

#[global] Instance Accumulator_eq_dec : EqDecision Accumulator.
Proof. solve_decision. Defined.

#[global] Instance Position_eq_dec : EqDecision Position.
Proof. solve_decision. Defined.

(** Field updates. *)
Definition with_pieces (v : list Z) (p : Position) : Position :=
  mkPosition v (occupied p) (all p) (to_move p) (castling p) (enpassant p)
    (halfmove p) (fullmove p) (castling_rooks p) (zobrist p) (pawn_hash p)
    (accumulator p).
Definition with_occupied (v : list Z) (p : Position) : Position :=
  mkPosition (pieces p) v (all p) (to_move p) (castling p) (enpassant p)
    (halfmove p) (fullmove p) (castling_rooks p) (zobrist p) (pawn_hash p)
    (accumulator p).
Definition with_all (v : Z) (p : Position) : Position :=
  mkPosition (pieces p) (occupied p) v (to_move p) (castling p) (enpassant p)
    (halfmove p) (fullmove p) (castling_rooks p) (zobrist p) (pawn_hash p)
    (accumulator p).
Definition with_to_move (v : Z) (p : Position) : Position :=
  mkPosition (pieces p) (occupied p) (all p) v (castling p) (enpassant p)
    (halfmove p) (fullmove p) (castling_rooks p) (zobrist p) (pawn_hash p)
    (accumulator p).
Definition with_castling (v : Z) (p : Position) : Position :=
  mkPosition (pieces p) (occupied p) (all p) (to_move p) v (enpassant p)
    (halfmove p) (fullmove p) (castling_rooks p) (zobrist p) (pawn_hash p)
    (accumulator p).
Definition with_enpassant (v : Z) (p : Position) : Position :=
  mkPosition (pieces p) (occupied p) (all p) (to_move p) (castling p) v
    (halfmove p) (fullmove p) (castling_rooks p) (zobrist p) (pawn_hash p)
    (accumulator p).
Definition with_halfmove (v : Z) (p : Position) : Position :=
  mkPosition (pieces p) (occupied p) (all p) (to_move p) (castling p)
    (enpassant p) v (fullmove p) (castling_rooks p) (zobrist p) (pawn_hash p)
    (accumulator p).
Definition with_fullmove (v : Z) (p : Position) : Position :=
  mkPosition (pieces p) (occupied p) (all p) (to_move p) (castling p)
    (enpassant p) (halfmove p) v (castling_rooks p) (zobrist p) (pawn_hash p)
    (accumulator p).
Definition with_zobrist (v : Z) (p : Position) : Position :=
  mkPosition (pieces p) (occupied p) (all p) (to_move p) (castling p)
    (enpassant p) (halfmove p) (fullmove p) (castling_rooks p) v (pawn_hash p)
    (accumulator p).
Definition with_pawn_hash (v : Z) (p : Position) : Position :=
  mkPosition (pieces p) (occupied p) (all p) (to_move p) (castling p)
    (enpassant p) (halfmove p) (fullmove p) (castling_rooks p) (zobrist p) v
    (accumulator p).
Definition with_accumulator (v : Accumulator) (p : Position) : Position :=
  mkPosition (pieces p) (occupied p) (all p) (to_move p) (castling p)
    (enpassant p) (halfmove p) (fullmove p) (castling_rooks p) (zobrist p)
    (pawn_hash p) v.

(** [pos->pieces[color][piece]] and [pos->occupied[color]]. *)
Definition piece_bb (p : Position) (color piece : Z) : Z :=
  getZ (pieces p) (color * 6 + piece).
Definition occupied_bb (p : Position) (color : Z) : Z :=
  getZ (occupied p) color.
Definition castling_rook (p : Position) (i : Z) : Z :=
  getZ (castling_rooks p) i.

(** ** position.c: Zobrist keys *)

Definition xorshift64 (x : Z) : Z :=
  let x := Z.lxor x (shl x 13) in
  let x := Z.lxor x (shr x 7) in
  Z.lxor x (shl x 17).

Fixpoint xorshift_stream (n : nat) (state : Z) : list Z :=
  match n with
  | O => []
  | S n' => let x := xorshift64 state in x :: xorshift_stream n' x
  end.

(** [zobrist_init] draws, in this order, [zobrist_piece[2][6][64]],
    [zobrist_castle[16]], [zobrist_enpassant[8]] and [zobrist_to_move]
    from the generator seeded with 0x0123456789ABCDEF. *)
Definition zobrist_keys : list Z :=
  Eval vm_compute in xorshift_stream 793 0x0123456789ABCDEF.

Definition zobrist_piece (color piece sq : Z) : Z :=
  getZ zobrist_keys ((color * 6 + piece) * 64 + sq).
Definition zobrist_castle (i : Z) : Z := getZ zobrist_keys (768 + i).
Definition zobrist_enpassant (i : Z) : Z := getZ zobrist_keys (784 + i).
Definition zobrist_to_move : Z := getZ zobrist_keys 792.

(** ** position.c: piece manipulation and queries *)

(** The loop [for (piece = 0; piece < 6; piece++) if (pos->pieces[color][piece]
    & (1ULL << sq)) { ...; break; }], returning -1 when no piece matches. *)
Definition piece_on (p : Position) (color sq : Z) : Z :=
  default (-1)
    (head (filter (fun piece => nz (Z.land (piece_bb p color piece) (bit sq)) = true)
                  (range 0 6))).

Definition position_piece_at (p : Position) (sq : Z) : Z :=
  default (-1)
    (head (omap (fun piece =>
                   if nz (Z.land (piece_bb p WHITE piece) (bit sq))
                   then Some piece
                   else if nz (Z.land (piece_bb p BLACK piece) (bit sq))
                        then Some (piece + 6)
                        else None)
                (range 0 6))).

Definition position_set_piece (p : Position) (piece color sq : Z) : Position :=
  let p := with_pieces (setZ (pieces p) (color * 6 + piece)
                          (Z.lor (piece_bb p color piece) (bit sq))) p in
  let p := with_occupied (setZ (occupied p) color
                            (Z.lor (occupied_bb p color) (bit sq))) p in
  with_all (Z.lor (all p) (bit sq)) p.

Definition position_remove_piece (p : Position) (piece color sq : Z) : Position :=
  let p := with_pieces (setZ (pieces p) (color * 6 + piece)
                          (Z.land (piece_bb p color piece) (bb_not (bit sq)))) p in
  let p := with_occupied (setZ (occupied p) color
                            (Z.land (occupied_bb p color) (bb_not (bit sq)))) p in
  with_all (Z.land (all p) (bb_not (bit sq))) p.

Definition position_move_piece (p : Position) (piece color from to : Z) : Position :=
  let from_to := Z.lor (bit from) (bit to) in
  let p := with_pieces (setZ (pieces p) (color * 6 + piece)
                          (Z.lxor (piece_bb p color piece) from_to)) p in
  let p := with_occupied (setZ (occupied p) color
                            (Z.lxor (occupied_bb p color) from_to)) p in
  with_all (Z.lxor (all p) from_to) p.

Definition position_in_check (p : Position) : bool :=
  let color := to_move p in
  let king := piece_bb p color KING in
  if king =? 0 then false else
  let king_sq := LSB king in
  let enemy := Z.lxor color 1 in
  let enemy_pawns := piece_bb p enemy PAWN in
  let pawn_check :=
    if color =? WHITE then
      (SQ_RANK king_sq <? 7) &&
      ((0 <? SQ_FILE king_sq) && nz (Z.land enemy_pawns (bit (king_sq + 7)))
       || (SQ_FILE king_sq <? 7) && nz (Z.land enemy_pawns (bit (king_sq + 9))))
    else
      (0 <? SQ_RANK king_sq) &&
      ((0 <? SQ_FILE king_sq) && nz (Z.land enemy_pawns (bit (king_sq - 9)))
       || (SQ_FILE king_sq <? 7) && nz (Z.land enemy_pawns (bit (king_sq - 7)))) in
  if pawn_check then true
  else if nz (Z.land (knight_attacks king_sq) (piece_bb p enemy KNIGHT)) then true
  else
    let occ := all p in
    if nz (Z.land (get_rook_attacks king_sq occ)
             (Z.lor (piece_bb p enemy ROOK) (piece_bb p enemy QUEEN))) then true
    else if nz (Z.land (get_bishop_attacks king_sq occ)
                  (Z.lor (piece_bb p enemy BISHOP) (piece_bb p enemy QUEEN))) then true
    else nz (Z.land (king_attacks king_sq) (piece_bb p enemy KING)).

Definition position_material_count (p : Position) (color : Z) : Z :=
  foldl (fun total piece =>
           total + POPCOUNT (piece_bb p color piece) * piece_value piece)
        0 (range 0 5).

Definition position_hash (p : Position) : Z :=
  let hash :=
    foldl (fun h cp =>
             foldl (fun h sq => Z.lxor h (zobrist_piece (cp / 6) (cp mod 6) sq))
                   h (bb_squares (piece_bb p (cp / 6) (cp mod 6))))
          0 (range 0 12) in
  let hash := Z.lxor hash (zobrist_castle (castling p)) in
  let hash := if 0 <=? enpassant p
              then Z.lxor hash (zobrist_enpassant (SQ_FILE (enpassant p)))
              else hash in
  if to_move p =? BLACK then Z.lxor hash zobrist_to_move else hash.

Definition position_pawn_hash (p : Position) : Z :=
  foldl (fun h color =>
           foldl (fun h sq => Z.lxor h (zobrist_piece color PAWN sq))
                 h (bb_squares (piece_bb p color PAWN)))
        0 (range 0 2).

Definition with_undo_captured (v : Z) (u : UndoInfo) : UndoInfo :=
  mkUndoInfo (undo_move u) v (undo_moving_piece u) (undo_castling u)
    (undo_enpassant u) (undo_halfmove u) (undo_zobrist u) (undo_pawn_hash u)
    (undo_accumulator u).
Definition with_undo_moving_piece (v : Z) (u : UndoInfo) : UndoInfo :=
  mkUndoInfo (undo_move u) (undo_captured u) v (undo_castling u)
    (undo_enpassant u) (undo_halfmove u) (undo_zobrist u) (undo_pawn_hash u)
    (undo_accumulator u).

(** [pos->zobrist ^= k] and [pos->pawn_hash ^= k]. *)
Definition xor_zobrist (k : Z) (p : Position) : Position :=
  with_zobrist (Z.lxor (zobrist p) k) p.
Definition xor_pawn_hash (k : Z) (p : Position) : Position :=
  with_pawn_hash (Z.lxor (pawn_hash p) k) p.

(** [pos->castling &= ~mask]. *)
Definition clear_castling (mask : Z) (p : Position) : Position :=
  with_castling (Z.land (castling p) (Z.lnot mask)) p.

(** The contents of a local [UndoInfo] before [position_make_move] fills
    it in. *)
Definition undo_blank : UndoInfo :=
  mkUndoInfo 0 0 0 0 0 0 0 0 (mkAccumulator [] [] 0).

(** The king and rook destinations of a castling move. *)
Definition castle_king_to (color : Z) (is_kingside : bool) : Z :=
  if color =? WHITE then (if is_kingside then SQ_G1 else SQ_C1)
  else (if is_kingside then SQ_G8 else SQ_C8).
Definition castle_rook_to (color : Z) (is_kingside : bool) : Z :=
  if color =? WHITE then (if is_kingside then SQ_F1 else SQ_D1)
  else (if is_kingside then SQ_F8 else SQ_D8).

(** ** position.c: [position_make_move] and [position_unmake_move]

    The body of [position_make_move] is split at its own block comments;
    each block is one function below, and [position_make_move] chains them
    in source order. *)

(** "Handle captures" *)
Definition make_capture (pos : Position) (enemy to : Z) (undo : UndoInfo)
  : Position * UndoInfo :=
  let victim := piece_on pos enemy to in
  if 0 <=? victim then
    let pos := position_remove_piece pos victim enemy to in
    let pos := xor_zobrist (zobrist_piece enemy victim to) pos in
    let pos := if victim =? PAWN
               then xor_pawn_hash (zobrist_piece enemy victim to) pos
               else pos in
    (* Update castling rights if a rook is captured *)
    let pos := if to =? castling_rook pos 0 then clear_castling 1 pos
               else if to =? castling_rook pos 1 then clear_castling 2 pos
               else if to =? castling_rook pos 2 then clear_castling 4 pos
               else if to =? castling_rook pos 3 then clear_castling 8 pos
               else pos in
    (pos, with_undo_captured victim undo)
  else (pos, undo).

(** "Handle en passant capture" *)
Definition make_en_passant (pos : Position) (moving_piece enemy from to : Z)
    (undo : UndoInfo) : Position * UndoInfo :=
  if (moving_piece =? PAWN) && (to =? enpassant pos) then
    let captured_sq := SQ (SQ_FILE to) (SQ_RANK from) in
    let pos := position_remove_piece pos PAWN enemy captured_sq in
    let pos := xor_zobrist (zobrist_piece enemy PAWN captured_sq) pos in
    let pos := xor_pawn_hash (zobrist_piece enemy PAWN captured_sq) pos in
    (pos, with_undo_captured PAWN undo)
  else (pos, undo).

(** "Update castling rights for King or Rook move" *)
Definition make_castling_rights (pos : Position) (moving_piece color from : Z)
  : Position :=
  if moving_piece =? KING then
    (if color =? WHITE then clear_castling 3 pos else clear_castling 12 pos)
  else if moving_piece =? ROOK then
    (if color =? WHITE then
       (if from =? castling_rook pos 0 then clear_castling 1 pos
        else if from =? castling_rook pos 1 then clear_castling 2 pos
        else pos)
     else
       (if from =? castling_rook pos 2 then clear_castling 4 pos
        else if from =? castling_rook pos 3 then clear_castling 8 pos
        else pos))
  else pos.

(** "Actually move the king/piece" *)
Definition make_relocate (pos : Position) (move moving_piece color from to : Z)
  : Position :=
  if (moving_piece =? KING) && MOVE_IS_SPECIAL move then
    let is_kingside :=
      to =? castling_rook pos (if color =? WHITE then 0 else 2) in
    let king_to := castle_king_to color is_kingside in
    let rook_to := castle_rook_to color is_kingside in
    let rook_sq := to in
    let pos := position_move_piece pos KING color from king_to in
    let pos := xor_zobrist (zobrist_piece color KING from) pos in
    let pos := xor_zobrist (zobrist_piece color KING king_to) pos in
    let pos := position_move_piece pos ROOK color rook_sq rook_to in
    let pos := xor_zobrist (zobrist_piece color ROOK rook_sq) pos in
    xor_zobrist (zobrist_piece color ROOK rook_to) pos
  else
    let pos := position_move_piece pos moving_piece color from to in
    let pos := xor_zobrist (zobrist_piece color moving_piece from) pos in
    let pos := xor_zobrist (zobrist_piece color moving_piece to) pos in
    if moving_piece =? PAWN then
      let pos := xor_pawn_hash (zobrist_piece color PAWN from) pos in
      xor_pawn_hash (zobrist_piece color PAWN to) pos
    else pos.

(** "Promotions" *)
Definition make_promotion (pos : Position) (promo color to : Z) : Position :=
  if 0 <? promo then
    let pos := position_remove_piece pos PAWN color to in
    let pos := position_set_piece pos promo color to in
    let pos := xor_zobrist (zobrist_piece color PAWN to) pos in
    let pos := xor_zobrist (zobrist_piece color promo to) pos in
    xor_pawn_hash (zobrist_piece color PAWN to) pos
  else pos.

(** "Update en passant state" *)
Definition make_ep_state (pos : Position) (moving_piece from to : Z)
  : Position :=
  let pos := if 0 <=? enpassant pos
             then xor_zobrist (zobrist_enpassant (SQ_FILE (enpassant pos))) pos
             else pos in
  let pos := with_enpassant (-1) pos in
  if (moving_piece =? PAWN) && (Z.abs (to - from) =? 16) then
    let pos := with_enpassant (Z.quot (from + to) 2) pos in
    xor_zobrist (zobrist_enpassant (SQ_FILE (enpassant pos))) pos
  else pos.

(** "Counters" *)
Definition make_counters (pos : Position) (moving_piece color : Z)
    (undo : UndoInfo) : Position :=
  let pos := if (moving_piece =? PAWN) || (0 <=? undo_captured undo)
             then with_halfmove 0 pos
             else with_halfmove (halfmove pos + 1) pos in
  if color =? BLACK then with_fullmove (fullmove pos + 1) pos else pos.

(** "Final zobrist updates" *)
Definition make_castle_keys (pos : Position) (undo : UndoInfo) : Position :=
  let pos := xor_zobrist (zobrist_castle (undo_castling undo)) pos in
  xor_zobrist (zobrist_castle (castling pos)) pos.

Section Engine.

(** The NNUE collaborator (nnue.c): its weights come from a network file. *)
Variable nnue_available : bool.
Variable nnue_refresh_accumulator : Position -> Accumulator.
Variable nnue_update_accumulator :
  Accumulator -> Z -> Z -> Z -> Z -> Z -> Z -> Accumulator.

(** "NNUE Accumulator Update" *)
Definition make_nnue (pos : Position) (move moving_piece promo color enemy
    from to : Z) (undo : UndoInfo) : Position :=
  if nnue_available then
    if (moving_piece =? KING) || (0 <? promo) || (0 <=? undo_enpassant undo)
       || MOVE_IS_SPECIAL move then
      with_accumulator (nnue_refresh_accumulator pos) pos
    else
      let w_king := LSB (piece_bb pos WHITE KING) in
      let b_king := LSB (piece_bb pos BLACK KING) in
      let acc := nnue_update_accumulator (accumulator pos) moving_piece
                   color from 0 w_king b_king in
      let acc := nnue_update_accumulator acc moving_piece color to 1
                   w_king b_king in
      let acc := if 0 <=? undo_captured undo
                 then nnue_update_accumulator acc (undo_captured undo) enemy
                        to 0 w_king b_king
                 else acc in
      with_accumulator acc pos
  else pos.

Definition position_make_move (pos : Position) (move : Z) (undo : UndoInfo)
  : Position * UndoInfo :=
  let undo := mkUndoInfo move (-1) (undo_moving_piece undo) (castling pos)
                (enpassant pos) (halfmove pos) (zobrist pos) (pawn_hash pos)
                (accumulator pos) in
  let from := MOVE_FROM move in
  let to := MOVE_TO move in
  let promo := MOVE_PROMO move in
  let color := to_move pos in
  let enemy := Z.lxor color 1 in
  (* Find moving piece *)
  let moving_piece := piece_on pos color from in
  if moving_piece <? 0 then (pos, undo) else
  let undo := with_undo_moving_piece moving_piece undo in
  let '(pos, undo) := make_capture pos enemy to undo in
  let '(pos, undo) := make_en_passant pos moving_piece enemy from to undo in
  let pos := make_castling_rights pos moving_piece color from in
  let pos := make_relocate pos move moving_piece color from to in
  let pos := make_promotion pos promo color to in
  let pos := make_ep_state pos moving_piece from to in
  let pos := make_counters pos moving_piece color undo in
  let pos := make_castle_keys pos undo in
  let pos := make_nnue pos move moving_piece promo color enemy from to undo in
  let pos := with_to_move enemy pos in
  let pos := xor_zobrist zobrist_to_move pos in
  (pos, undo).

(** The first half of [position_unmake_move]: the pieces go back. *)
Definition unmake_relocate (pos : Position) (move moving_piece color from to
    promo : Z) : Position :=
  if (moving_piece =? KING) && MOVE_IS_SPECIAL move then
    let is_kingside :=
      to =? castling_rook pos (if color =? WHITE then 0 else 2) in
    let king_to := castle_king_to color is_kingside in
    let rook_to := castle_rook_to color is_kingside in
    let rook_sq := to in
    let pos := position_move_piece pos ROOK color rook_to rook_sq in
    position_move_piece pos KING color king_to from
  else if 0 <? promo then
    let pos := position_remove_piece pos promo color to in
    position_set_piece pos PAWN color from
  else position_move_piece pos moving_piece color to from.

Definition unmake_captured (pos : Position) (moving_piece color from to : Z)
    (undo : UndoInfo) : Position :=
  if 0 <=? undo_captured undo then
    if (moving_piece =? PAWN) && (to =? undo_enpassant undo) then
      let captured_sq := SQ (SQ_FILE to) (SQ_RANK from) in
      position_set_piece pos PAWN (Z.lxor color 1) captured_sq
    else position_set_piece pos (undo_captured undo) (Z.lxor color 1) to
  else pos.

(** "Sync occupied bitboards" *)
Definition sync_occupied (pos : Position) : Position :=
  let union color :=
    foldl (fun acc p => Z.lor acc (piece_bb pos color p)) 0 (range 0 6) in
  let pos := with_occupied [union WHITE; union BLACK] pos in
  with_all (Z.lor (occupied_bb pos WHITE) (occupied_bb pos BLACK)) pos.

Definition position_unmake_move (pos : Position) (move : Z) (undo : UndoInfo)
  : Position :=
  let color := Z.lxor (to_move pos) 1 in
  let from := MOVE_FROM move in
  let to := MOVE_TO move in
  let promo := MOVE_PROMO move in
  let moving_piece := undo_moving_piece undo in
  let pos := unmake_relocate pos move moving_piece color from to promo in
  let pos := unmake_captured pos moving_piece color from to undo in
  let pos := with_to_move color pos in
  let pos := with_castling (undo_castling undo) pos in
  let pos := with_enpassant (undo_enpassant undo) pos in
  let pos := with_halfmove (undo_halfmove undo) pos in
  let pos := with_zobrist (undo_zobrist undo) pos in
  let pos := with_pawn_hash (undo_pawn_hash undo) pos in
  let pos := with_accumulator (undo_accumulator undo) pos in
  sync_occupied pos.

(** [apply(m); undo(m)] on a fresh undo record. *)
Definition make_unmake (pos : Position) (move : Z) : Position :=
  let '(pos', undo) := position_make_move pos move undo_blank in
  position_unmake_move pos' move undo.

(** ** movegen.c *)

(** [MoveList]: the moves stored so far, in order; [count] is the length
    of the list and never exceeds 256. *)
Definition push_move (lst : list Z) (m : Z) : list Z :=
  if Z.of_nat (length lst) <? 256 then lst ++ [m] else lst.

Definition add_move (lst : list Z) (from to flag : Z) : list Z :=
  push_move lst (MAKE_MOVE from to 0 flag).

Definition add_pawn_moves (lst : list Z) (pos : Position) (from to flag : Z)
  : list Z :=
  let rank := SQ_RANK to in
  let color := to_move pos in
  if (color =? WHITE) && (rank =? 7) || (color =? BLACK) && (rank =? 0) then
    foldl (fun l promo => push_move l (MAKE_MOVE from to (promo - KNIGHT + 1) flag))
          lst (range KNIGHT 4)
  else add_move lst from to flag.

(** Pawn captures and en passant: the same text in [movegen_all] and
    [movegen_captures]. *)
Definition gen_pawn_captures (pos : Position) (lst : list Z) : list Z :=
  let color := to_move pos in
  let enemies := occupied_bb pos (Z.lxor color 1) in
  let pawns := piece_bb pos color PAWN in
  let en_passant (lst : list Z) (rank : Z) :=
    if 0 <=? enpassant pos then
      let ep_file := SQ_FILE (enpassant pos) in
      let lst :=
        if 0 <? ep_file then
          let pawn_sq := SQ (ep_file - 1) rank in
          if nz (Z.land pawns (bit pawn_sq))
          then add_move lst pawn_sq (enpassant pos) FLAG_CAPTURE else lst
        else lst in
      if ep_file <? 7 then
        let pawn_sq := SQ (ep_file + 1) rank in
        if nz (Z.land pawns (bit pawn_sq))
        then add_move lst pawn_sq (enpassant pos) FLAG_CAPTURE else lst
      else lst
    else lst in
  if color =? WHITE then
    let capture_left := Z.land (Z.land (shl pawns 7) (bb_not FILE_H)) enemies in
    let lst := foldl (fun l sq => add_pawn_moves l pos (sq - 7) sq FLAG_CAPTURE)
                      lst (bb_squares capture_left) in
    let capture_right := Z.land (Z.land (shl pawns 9) (bb_not FILE_A)) enemies in
    let lst := foldl (fun l sq => add_pawn_moves l pos (sq - 9) sq FLAG_CAPTURE)
                      lst (bb_squares capture_right) in
    en_passant lst 4
  else
    let capture_left := Z.land (Z.land (shr pawns 7) (bb_not FILE_A)) enemies in
    let lst := foldl (fun l sq => add_pawn_moves l pos (sq + 7) sq FLAG_CAPTURE)
                      lst (bb_squares capture_left) in
    let capture_right := Z.land (Z.land (shr pawns 9) (bb_not FILE_H)) enemies in
    let lst := foldl (fun l sq => add_pawn_moves l pos (sq + 9) sq FLAG_CAPTURE)
                      lst (bb_squares capture_right) in
    en_passant lst 3.

Definition gen_pawn_pushes (pos : Position) (lst : list Z) : list Z :=
  let color := to_move pos in
  let empty := bb_not (all pos) in
  let pawns := piece_bb pos color PAWN in
  if color =? WHITE then
    let push_1 := Z.land (shl pawns 8) empty in
    let lst := foldl (fun l sq => add_pawn_moves l pos (sq - 8) sq FLAG_QUIET)
                      lst (bb_squares push_1) in
    let push_2 := Z.land (shl (Z.land push_1 RANK_3) 8) empty in
    foldl (fun l sq => add_move l (sq - 16) sq FLAG_QUIET) lst (bb_squares push_2)
  else
    let push_1 := Z.land (shr pawns 8) empty in
    let lst := foldl (fun l sq => add_pawn_moves l pos (sq + 8) sq FLAG_QUIET)
                      lst (bb_squares push_1) in
    let push_2 := Z.land (shr (Z.land push_1 RANK_6) 8) empty in
    foldl (fun l sq => add_move l (sq + 16) sq FLAG_QUIET) lst (bb_squares push_2).

(** The moves of the pieces of one type in [movegen_all]: for each piece
    square, every target that is not an own piece, flagged as a capture
    when an enemy stands there. *)
Definition gen_piece_moves (pos : Position) (attacks : Z -> Z) (from_bb : Z)
    (lst : list Z) : list Z :=
  let color := to_move pos in
  let enemies := occupied_bb pos (Z.lxor color 1) in
  foldl (fun l sq =>
           let moves := Z.land (attacks sq) (bb_not (occupied_bb pos color)) in
           foldl (fun l to =>
                    add_move l sq to
                      (if nz (Z.land enemies (bit to)) then FLAG_CAPTURE
                       else FLAG_QUIET))
                 l (bb_squares moves))
        lst (bb_squares from_bb).

(** The same in [movegen_captures]: only enemy-occupied targets. *)
Definition gen_piece_captures (pos : Position) (attacks : Z -> Z) (from_bb : Z)
    (lst : list Z) : list Z :=
  let enemies := occupied_bb pos (Z.lxor (to_move pos) 1) in
  foldl (fun l sq =>
           let moves := Z.land (attacks sq) enemies in
           foldl (fun l to => add_move l sq to FLAG_CAPTURE) l (bb_squares moves))
        lst (bb_squares from_bb).

(** The two path loops of the castling code,
    [for (s = start + step;; s += step) { if (s != king_sq && s != rook_sq &&
    (all & bit s)) blocked; if (s == target) break; }].
    The C loop has no bound of its own; it ends at [target] or at a blocker.
    [n] bounds the walk by the board size, and running out counts as
    blocked. *)
Fixpoint path_blocked (n : nat) (pos : Position) (king_sq rook_sq : Z)
    (s step target : Z) : bool :=
  match n with
  | O => true
  | S n' =>
      if negb (s =? king_sq) && negb (s =? rook_sq)
         && nz (Z.land (all pos) (bit s)) then true
      else if s =? target then false
      else path_blocked n' pos king_sq rook_sq (s + step) step target
  end.

(** The inline attack test of the castling code for square [s]. *)
Definition castle_square_attacked (pos : Position) (enemy s : Z) : bool :=
  if nz (Z.land (knight_attacks s) (piece_bb pos enemy KNIGHT)) then true
  else if nz (Z.land (king_attacks s) (piece_bb pos enemy KING)) then true
  else
    let occ := all pos in
    if nz (Z.land (get_bishop_attacks s occ)
             (Z.lor (piece_bb pos enemy BISHOP) (piece_bb pos enemy QUEEN)))
    then true
    else if nz (Z.land (get_rook_attacks s occ)
                  (Z.lor (piece_bb pos enemy ROOK) (piece_bb pos enemy QUEEN)))
    then true
    else
      let pawns := piece_bb pos enemy PAWN in
      let p_mask :=
        if enemy =? WHITE then
          Z.lor (Z.land (shr (bit s) 7) (bb_not FILE_A))
                (Z.land (shr (bit s) 9) (bb_not FILE_H))
        else
          Z.lor (Z.land (shl (bit s) 7) (bb_not FILE_H))
                (Z.land (shl (bit s) 9) (bb_not FILE_A)) in
      nz (Z.land p_mask pawns).

(** [for (s = king_sq;; s += k_step) { if attacked: stop; if (s == target_k)
    break; }], bounded like [path_blocked]. *)
Fixpoint path_attacked (n : nat) (pos : Position) (enemy s step target : Z)
  : bool :=
  match n with
  | O => true
  | S n' =>
      if castle_square_attacked pos enemy s then true
      else if s =? target then false
      else path_attacked n' pos enemy (s + step) step target
  end.

Definition gen_castling (pos : Position) (king_sq : Z) (lst : list Z) : list Z :=
  let color := to_move pos in
  foldl (fun lst i =>
    let castling_bit := if color =? WHITE then Z.shiftl 1 i else Z.shiftl 4 i in
    if nz (Z.land (castling pos) castling_bit) then
      let rook_sq := castling_rook pos (if color =? WHITE then i else 2 + i) in
      if negb (nz (Z.land (piece_bb pos color ROOK) (bit rook_sq))) then lst
      else
        let target_k := castle_king_to color (i =? 0) in
        let target_r := castle_rook_to color (i =? 0) in
        let k_step := if king_sq <? target_k then 1 else -1 in
        if path_blocked 64 pos king_sq rook_sq (king_sq + k_step) k_step target_k
        then lst
        else
          let r_step := if rook_sq <? target_r then 1 else -1 in
          if path_blocked 64 pos king_sq rook_sq (rook_sq + r_step) r_step target_r
          then lst
          else if position_in_check pos then lst
          else
            let enemy := Z.lxor color 1 in
            if path_attacked 64 pos enemy king_sq k_step target_k then lst
            else add_move lst king_sq rook_sq FLAG_SPECIAL
    else lst)
  lst (range 0 2).

Definition movegen_all (pos : Position) : list Z :=
  let color := to_move pos in
  let lst := gen_pawn_pushes pos [] in
  let lst := gen_pawn_captures pos lst in
  let lst := gen_piece_moves pos knight_attacks (piece_bb pos color KNIGHT) lst in
  let lst := gen_piece_moves pos (fun sq => get_bishop_attacks sq (all pos))
                (piece_bb pos color BISHOP) lst in
  let lst := gen_piece_moves pos (fun sq => get_rook_attacks sq (all pos))
                (piece_bb pos color ROOK) lst in
  let lst := gen_piece_moves pos (fun sq => get_queen_attacks sq (all pos))
                (piece_bb pos color QUEEN) lst in
  let kings := piece_bb pos color KING in
  if nz kings then
    let sq := LSB kings in
    let lst := gen_piece_moves pos king_attacks (bit sq) lst in
    gen_castling pos sq lst
  else lst.

Definition movegen_captures (pos : Position) : list Z :=
  let color := to_move pos in
  let lst := gen_pawn_captures pos [] in
  let lst := gen_piece_captures pos knight_attacks (piece_bb pos color KNIGHT) lst in
  let lst := gen_piece_captures pos (fun sq => get_bishop_attacks sq (all pos))
                (piece_bb pos color BISHOP) lst in
  let lst := gen_piece_captures pos (fun sq => get_rook_attacks sq (all pos))
                (piece_bb pos color ROOK) lst in
  let lst := gen_piece_captures pos (fun sq => get_queen_attacks sq (all pos))
                (piece_bb pos color QUEEN) lst in
  let kings := piece_bb pos color KING in
  if nz kings then
    gen_piece_captures pos king_attacks (bit (LSB kings)) lst
  else lst.

Definition movegen_is_pseudo_legal (pos : Position) (move : Z) : bool :=
  let from := MOVE_FROM move in
  let to := MOVE_TO move in
  let color := to_move pos in
  let piece := piece_on pos color from in
  if piece =? -1 then false
  else if nz (Z.land (occupied_bb pos color) (bit to)) then false
  else if piece =? PAWN then
    let pawn_bb := bit from in
    let empty := bb_not (all pos) in
    let enemies := occupied_bb pos (Z.lxor color 1) in
    let tobit := bit to in
    if color =? WHITE then
      if nz (Z.land (Z.land (shl pawn_bb 8) empty) tobit) then true
      else if (SQ_RANK from =? 1)
              && nz (Z.land (Z.land (Z.land (shl pawn_bb 16) empty)
                               (shl (Z.land empty RANK_3) 8)) tobit) then true
      else if nz (Z.land (Z.land (Z.land (shl pawn_bb 7) (bb_not FILE_H)) enemies) tobit)
      then true
      else if nz (Z.land (Z.land (Z.land (shl pawn_bb 9) (bb_not FILE_A)) enemies) tobit)
      then true
      else if (enpassant pos =? to) && negb (enpassant pos =? -1) then
        if nz (Z.land (Z.land (shl pawn_bb 7) (bb_not FILE_H)) tobit) then true
        else nz (Z.land (Z.land (shl pawn_bb 9) (bb_not FILE_A)) tobit)
      else false
    else
      if nz (Z.land (Z.land (shr pawn_bb 8) empty) tobit) then true
      else if (SQ_RANK from =? 6)
              && nz (Z.land (Z.land (Z.land (shr pawn_bb 16) empty)
                               (shr (Z.land empty RANK_6) 8)) tobit) then true
      else if nz (Z.land (Z.land (Z.land (shr pawn_bb 7) (bb_not FILE_A)) enemies) tobit)
      then true
      else if nz (Z.land (Z.land (Z.land (shr pawn_bb 9) (bb_not FILE_H)) enemies) tobit)
      then true
      else if (enpassant pos =? to) && negb (enpassant pos =? -1) then
        if nz (Z.land (Z.land (shr pawn_bb 7) (bb_not FILE_A)) tobit) then true
        else nz (Z.land (Z.land (shr pawn_bb 9) (bb_not FILE_H)) tobit)
      else false
  else
    let targets :=
      if piece =? KNIGHT then knight_attacks from
      else if piece =? BISHOP then get_bishop_attacks from (all pos)
      else if piece =? ROOK then get_rook_attacks from (all pos)
      else if piece =? QUEEN then get_queen_attacks from (all pos)
      else if piece =? KING then king_attacks from
      else 0 in
    nz (Z.land targets (bit to)).

Definition movegen_is_legal (pos : Position) (move : Z) : bool :=
  let '(temp, _) := position_make_move pos move undo_blank in
  (* the side that just moved must not have left its king in check *)
  let temp := with_to_move (Z.lxor (to_move temp) 1) temp in
  negb (position_in_check temp).

(** ** see.c *)

Definition see_values : list Z := [100; 320; 330; 500; 900; 20000; 0].

Definition get_attackers (pos : Position) (sq occ : Z) : Z :=
  let attackers := 0 in
  (* White pawns at sq-7 (not file A) or sq-9 (not file H) attack sq *)
  let attackers :=
    if 7 <? sq then
      let attackers :=
        if negb (Z.rem sq 8 =? 0)
           && nz (Z.land (piece_bb pos WHITE PAWN) (bit (sq - 9)))
        then Z.lor attackers (bit (sq - 9)) else attackers in
      if negb (Z.rem sq 8 =? 7)
         && nz (Z.land (piece_bb pos WHITE PAWN) (bit (sq - 7)))
      then Z.lor attackers (bit (sq - 7)) else attackers
    else attackers in
  (* Black pawns at sq+7 (not file H) or sq+9 (not file A) attack sq *)
  let attackers :=
    if sq <? 56 then
      let attackers :=
        if negb (Z.rem sq 8 =? 7)
           && nz (Z.land (piece_bb pos BLACK PAWN) (bit (sq + 9)))
        then Z.lor attackers (bit (sq + 9)) else attackers in
      if negb (Z.rem sq 8 =? 0)
         && nz (Z.land (piece_bb pos BLACK PAWN) (bit (sq + 7)))
      then Z.lor attackers (bit (sq + 7)) else attackers
    else attackers in
  let both piece := Z.lor (piece_bb pos WHITE piece) (piece_bb pos BLACK piece) in
  let attackers := Z.lor attackers (Z.land (knight_attacks sq) (both KNIGHT)) in
  let attackers := Z.lor attackers (Z.land (king_attacks sq) (both KING)) in
  let attackers :=
    Z.lor attackers (Z.land (get_bishop_attacks sq occ)
                       (Z.lor (both BISHOP) (both QUEEN))) in
  Z.lor attackers (Z.land (get_rook_attacks sq occ)
                     (Z.lor (both ROOK) (both QUEEN))).

(** "Find smallest attacker for current color": the first piece type
    [p] in [PAWN..KING] with [attackers & occupied & pieces[color][p]]
    non-empty, with the square [LSB] picks. *)
Definition smallest_attacker (pos : Position) (attackers occ color : Z)
  : option (Z * Z) :=
  head (omap (fun p =>
                let b := Z.land (Z.land attackers occ) (piece_bb pos color p) in
                if nz b then Some (p, LSB b) else None)
             (range PAWN 6)).

(** "Update sliding attackers (X-rays)" after [next_piece] has captured. *)
Definition see_xrays (pos : Position) (to occ attackers next_piece : Z) : Z :=
  let both piece :=
    Z.lor (piece_bb pos WHITE piece) (piece_bb pos BLACK piece) in
  let attackers :=
    if (next_piece =? PAWN) || (next_piece =? BISHOP) || (next_piece =? QUEEN)
    then Z.lor attackers (Z.land (get_bishop_attacks to occ)
                            (Z.lor (both BISHOP) (both QUEEN)))
    else attackers in
  if (next_piece =? ROOK) || (next_piece =? QUEEN)
  then Z.lor attackers (Z.land (get_rook_attacks to occ)
                          (Z.lor (both ROOK) (both QUEEN)))
  else attackers.

(** The exchange loop [while (d < 31)].  [n] is [31 - d]; the result is the
    final [d] with the [gain] array.  [None] is a read of [see_values]
    outside its seven entries. *)
Fixpoint see_loop (n : nat) (pos : Position) (to d : Z) (gain : list Z)
    (occ attackers color next_piece : Z) : option (Z * list Z) :=
  match n with
  | O => Some (d, gain)
  | S n' =>
      let d := d + 1 in
      v ← lookupZ see_values next_piece;
      let gain := setZ gain d (s16 (v - getZ gain (d - 1))) in
      match smallest_attacker pos attackers occ color with
      | None => Some (d - 1, gain)
      | Some (p, found_sq) =>
          let next_piece := p in
          let occ := Z.land occ (bb_not (bit found_sq)) in
          let attackers := see_xrays pos to occ attackers next_piece in
          see_loop n' pos to d gain occ attackers (Z.lxor color 1) next_piece
      end
  end.

(** [while (--d > 0) gain[d-1] = -max(-gain[d-1], gain[d]);] where the
    argument is [d] before the first decrement. *)
Fixpoint see_unwind (d : nat) (gain : list Z) : list Z :=
  match d with
  | O => gain
  | S d' =>
      let k := Z.of_nat d' in
      if 0 <? k then
        see_unwind d'
          (setZ gain (k - 1)
             (s16 (- Z.max (- getZ gain (k - 1)) (getZ gain k))))
      else gain
  end.

Definition see (pos : Position) (move : Z) : option Z :=
  let from := MOVE_FROM move in
  let to := MOVE_TO move in
  let captured := position_piece_at pos to in
  if (captured =? -1) && negb (MOVE_IS_SPECIAL move) then Some 0
  else
    let captured := if captured =? -1 then PAWN else captured in
    let attacker := position_piece_at pos from in
    if attacker =? -1 then Some 0
    else
      g0 ← lookupZ see_values captured;
      let gain := setZ (replicate 32 0) 0 (s16 g0) in
      let occ := all pos in
      let attackers := get_attackers pos to occ in
      let occ := Z.land occ (bb_not (bit from)) in
      let color := Z.lxor (to_move pos) 1 in
      '(d, gain) ← see_loop 31 pos to 0 gain occ attackers color attacker;
      Some (getZ (see_unwind (Z.to_nat d) gain) 0).

Definition see_ge (pos : Position) (move threshold : Z) : option bool :=
  s ← see pos move; Some (threshold <=? s).

(** ** tt.h / tt.c: the clustered transposition table *)

Definition TT_FLAG_NONE : Z := 0.
Definition TT_FLAG_LOWER : Z := 1.
Definition TT_FLAG_UPPER : Z := 2.
Definition TT_FLAG_EXACT : Z := 3.

Definition TT_CLUSTER_SIZE : nat := 4.

Record TTEntry := mkTTEntry {
  tte_key : Z;          (* uint64_t *)
  tte_score : Z;        (* Score *)
  tte_best_move : Z;    (* Move *)
  tte_depth : Z;        (* int16_t *)
  tte_flag : Z;         (* uint8_t *)
  tte_generation : Z    (* uint8_t *)
}.

#[global] Instance TTEntry_eq_dec : EqDecision TTEntry.
Proof. solve_decision. Defined.

(** A zeroed slot, as [calloc] and [tt_clear] leave it. *)
Definition tte_zero : TTEntry := mkTTEntry 0 0 0 0 0 0.

(** [TranspositionTable].  [tt_clusters] maps a cluster index to its four
    entries; an index that was never written holds the zeroed cluster. *)
Record TranspositionTable := mkTT {
  tt_clusters : gmap Z (list TTEntry);
  tt_num_clusters : Z;
  tt_count : Z;
  tt_generation : Z
}.

Definition cluster_zero : list TTEntry := replicate TT_CLUSTER_SIZE tte_zero.

Definition tt_cluster_index (tt : TranspositionTable) (key : Z) : Z :=
  Z.land key (tt_num_clusters tt - 1).

Definition tt_cluster (tt : TranspositionTable) (index : Z) : list TTEntry :=
  default cluster_zero (tt_clusters tt !! index).

Definition tt_set_cluster (tt : TranspositionTable) (index : Z)
    (c : list TTEntry) : TranspositionTable :=
  mkTT (<[index := c]> (tt_clusters tt)) (tt_num_clusters tt) (tt_count tt)
       (tt_generation tt).

(** [tt_create]: [floor_pow2(size_mb * 2^20 / sizeof(TTCluster))] zeroed
    clusters.  [sizeof_cluster] is the size the compiler gives
    [TTCluster]. *)
Fixpoint floor_pow2 (n : nat) (power limit : Z) : Z :=
  match n with
  | O => power
  | S n' => if power * 2 <=? limit then floor_pow2 n' (power * 2) limit
            else power
  end.

Definition tt_create (sizeof_cluster size_mb : Z) : TranspositionTable :=
  let bytes := u64 (size_mb * 1024 * 1024) in
  let num := Z.quot bytes sizeof_cluster in
  mkTT ∅ (floor_pow2 64 1 num) 0 0.

Definition tt_new_search (tt : TranspositionTable) : TranspositionTable :=
  let g := u8 (tt_generation tt + 1) in
  mkTT (tt_clusters tt) (tt_num_clusters tt) (tt_count tt)
       (if g =? 0 then 1 else g).

Definition replacement_value (entry : TTEntry) (current_gen : Z) : Z :=
  if tte_key entry =? 0 then -1000
  else
    let value := 0 in
    let value := value + tte_depth entry * 4 in
    let value := if tte_flag entry =? TT_FLAG_EXACT then value + 16 else value in
    let age := current_gen - tte_generation entry in
    let age := if age <? 0 then age + 256 else age in
    value - age * 2.

(** State of the first pass over a cluster: either the entry holding the
    key was met (the function then returns), or the worst entry so far
    ([replace_entry], [replace_value_score]). *)
Inductive Scan :=
| Matched (i : nat)
| Worst (replace_entry : option nat) (replace_value_score : Z).

Definition scan_step (key gen : Z) (st : Scan) (ie : nat * TTEntry) : Scan :=
  match st with
  | Matched _ => st
  | Worst r v =>
      if tte_key ie.2 =? key then Matched ie.1
      else
        let value := replacement_value ie.2 gen in
        if value <? v then Worst (Some ie.1) value else st
  end.

Definition scan_cluster (key gen : Z) (entries : list TTEntry) : Scan :=
  foldl (scan_step key gen) (Worst None 1000000) (imap pair entries).

(** One step of a "track the worst entry" loop over the slots for which
    [skip] does not hold: [st] is ([second_worst], [second_worst_value]). *)
Definition min_step (gen : Z) (skip : nat -> bool) (st : option nat * Z)
    (ie : nat * TTEntry) : option nat * Z :=
  if skip ie.1 then st
  else if replacement_value ie.2 gen <? st.2
       then (Some ie.1, replacement_value ie.2 gen) else st.

(** The second pass: the worst entry among those other than
    [replace_entry]. *)
Definition second_worst (gen : Z) (replace_entry : nat) (entries : list TTEntry)
  : option nat :=
  fst (foldl (min_step gen (fun i => bool_decide (i = replace_entry)))
             (None, 1000000) (imap pair entries)).

(** The six stores that fill an entry. *)
Definition tt_write (key score best_move depth flag gen : Z) : TTEntry :=
  mkTTEntry key score best_move (s16 depth) (u8 flag) gen.

(** [tt_store_with_move] on an allocated table ([tt] and [tt->clusters]
    non-null; with a null table the function returns at once). *)
Definition tt_store_with_move (tt : TranspositionTable)
    (key score best_move depth flag : Z) : TranspositionTable :=
  let index := tt_cluster_index tt key in
  let cluster := tt_cluster tt index in
  let gen := tt_generation tt in
  match scan_cluster key gen cluster with
  | Matched i =>
      match cluster !! i with
      | Some entry =>
          if (tte_depth entry <=? depth)
             || (flag =? TT_FLAG_EXACT) && negb (tte_flag entry =? TT_FLAG_EXACT)
          then
            (* Preserve best move if new one is MOVE_NONE *)
            let best_move :=
              if (best_move =? MOVE_NONE)
                 && negb (tte_best_move entry =? MOVE_NONE)
              then tte_best_move entry else best_move in
            tt_set_cluster tt index
              (<[i := tt_write key score best_move depth flag gen]> cluster)
          else tt
      | None => tt
      end
  | Worst None _ => tt
  | Worst (Some r) _ =>
      let r :=
        match cluster !! r with
        | Some replace_entry =>
            (* don't replace a deep exact entry with a shallow non-exact *)
            if (tte_flag replace_entry =? TT_FLAG_EXACT)
               && negb (flag =? TT_FLAG_EXACT)
               && (depth + 3 <? tte_depth replace_entry)
               && (tte_generation replace_entry =? gen)
            then default r (second_worst gen r cluster)
            else r
        | None => r
        end in
      let count :=
        if tte_key (default tte_zero (cluster !! r)) =? 0
        then u64 (tt_count tt + 1) else tt_count tt in
      mkTT (<[index := <[r := tt_write key score best_move depth flag gen]> cluster]>
              (tt_clusters tt))
           (tt_num_clusters tt) count gen
  end.

Definition tt_store (tt : TranspositionTable) (key score depth flag : Z)
  : TranspositionTable :=
  tt_store_with_move tt key score MOVE_NONE depth flag.

(** [tt_lookup]: [score] and [flag] are the caller's variables behind the
    two out-pointers; the result is the return value, their new contents
    and the table (a hit refreshes the entry's generation). *)
Definition tt_lookup (tt : TranspositionTable) (key score depth flag : Z)
  : Z * Z * Z * TranspositionTable :=
  let index := tt_cluster_index tt key in
  let cluster := tt_cluster tt index in
  match list_find (fun e => tte_key e = key) cluster with
  | Some (i, entry) =>
      let entry' := mkTTEntry (tte_key entry) (tte_score entry)
                      (tte_best_move entry) (tte_depth entry) (tte_flag entry)
                      (tt_generation tt) in
      let tt' := tt_set_cluster tt index (<[i := entry']> cluster) in
      if depth <=? tte_depth entry
      then (1, tte_score entry, tte_flag entry, tt')
      else (0, score, tte_flag entry, tt')
  | None => (0, score, flag, tt)
  end.

Definition tt_get_best_move (tt : TranspositionTable) (key : Z) : Z :=
  let cluster := tt_cluster tt (tt_cluster_index tt key) in
  match list_find (fun e => tte_key e = key) cluster with
  | Some (_, entry) => tte_best_move entry
  | None => MOVE_NONE
  end.

(** ** movepicker.h / movepicker.c *)

Inductive MovePickerStage :=
| STAGE_TT_MOVE
| STAGE_GENERATE_CAPTURES
| STAGE_GOOD_CAPTURES
| STAGE_KILLERS
| STAGE_GENERATE_QUIETS
| STAGE_QUIETS
| STAGE_BAD_CAPTURES
| STAGE_DONE.

Record ScoredMove := mkScoredMove { sm_move : Z; sm_score : Z }.

(** [MovePicker].  The three move arrays are kept as lists whose lengths
    are [num_captures], [num_bad_captures] and [num_quiets]; [mp_history]
    is the [int history[6][64]] argument, [None] for a null pointer. *)
Record MovePicker := mkMovePicker {
  mp_pos : Position;
  mp_tt_move : Z;
  mp_killer1 : Z;
  mp_killer2 : Z;
  mp_countermove : Z;
  mp_history : option (list Z);
  mp_stage : MovePickerStage;
  mp_captures : list ScoredMove;
  mp_capture_index : Z;
  mp_bad_captures : list ScoredMove;
  mp_bad_capture_index : Z;
  mp_quiets : list ScoredMove;
  mp_quiet_index : Z;
  mp_killer_index : Z;
  mp_quiescence_mode : Z
}.

Definition with_stage (v : MovePickerStage) (mp : MovePicker) : MovePicker :=
  mkMovePicker (mp_pos mp) (mp_tt_move mp) (mp_killer1 mp) (mp_killer2 mp)
    (mp_countermove mp) (mp_history mp) v (mp_captures mp)
    (mp_capture_index mp) (mp_bad_captures mp) (mp_bad_capture_index mp)
    (mp_quiets mp) (mp_quiet_index mp) (mp_killer_index mp)
    (mp_quiescence_mode mp).
Definition with_captures (good bad : list ScoredMove) (mp : MovePicker)
  : MovePicker :=
  mkMovePicker (mp_pos mp) (mp_tt_move mp) (mp_killer1 mp) (mp_killer2 mp)
    (mp_countermove mp) (mp_history mp) (mp_stage mp) good
    (mp_capture_index mp) bad (mp_bad_capture_index mp)
    (mp_quiets mp) (mp_quiet_index mp) (mp_killer_index mp)
    (mp_quiescence_mode mp).
Definition with_capture_index (v : Z) (mp : MovePicker) : MovePicker :=
  mkMovePicker (mp_pos mp) (mp_tt_move mp) (mp_killer1 mp) (mp_killer2 mp)
    (mp_countermove mp) (mp_history mp) (mp_stage mp) (mp_captures mp)
    v (mp_bad_captures mp) (mp_bad_capture_index mp)
    (mp_quiets mp) (mp_quiet_index mp) (mp_killer_index mp)
    (mp_quiescence_mode mp).
Definition with_bad_captures (v : list ScoredMove) (mp : MovePicker)
  : MovePicker :=
  mkMovePicker (mp_pos mp) (mp_tt_move mp) (mp_killer1 mp) (mp_killer2 mp)
    (mp_countermove mp) (mp_history mp) (mp_stage mp) (mp_captures mp)
    (mp_capture_index mp) v (mp_bad_capture_index mp)
    (mp_quiets mp) (mp_quiet_index mp) (mp_killer_index mp)
    (mp_quiescence_mode mp).
Definition with_bad_capture_index (v : Z) (mp : MovePicker) : MovePicker :=
  mkMovePicker (mp_pos mp) (mp_tt_move mp) (mp_killer1 mp) (mp_killer2 mp)
    (mp_countermove mp) (mp_history mp) (mp_stage mp) (mp_captures mp)
    (mp_capture_index mp) (mp_bad_captures mp) v
    (mp_quiets mp) (mp_quiet_index mp) (mp_killer_index mp)
    (mp_quiescence_mode mp).
Definition with_quiets (v : list ScoredMove) (mp : MovePicker) : MovePicker :=
  mkMovePicker (mp_pos mp) (mp_tt_move mp) (mp_killer1 mp) (mp_killer2 mp)
    (mp_countermove mp) (mp_history mp) (mp_stage mp) (mp_captures mp)
    (mp_capture_index mp) (mp_bad_captures mp) (mp_bad_capture_index mp)
    v (mp_quiet_index mp) (mp_killer_index mp) (mp_quiescence_mode mp).
Definition with_quiet_index (v : Z) (mp : MovePicker) : MovePicker :=
  mkMovePicker (mp_pos mp) (mp_tt_move mp) (mp_killer1 mp) (mp_killer2 mp)
    (mp_countermove mp) (mp_history mp) (mp_stage mp) (mp_captures mp)
    (mp_capture_index mp) (mp_bad_captures mp) (mp_bad_capture_index mp)
    (mp_quiets mp) v (mp_killer_index mp) (mp_quiescence_mode mp).
Definition with_killer_index (v : Z) (mp : MovePicker) : MovePicker :=
  mkMovePicker (mp_pos mp) (mp_tt_move mp) (mp_killer1 mp) (mp_killer2 mp)
    (mp_countermove mp) (mp_history mp) (mp_stage mp) (mp_captures mp)
    (mp_capture_index mp) (mp_bad_captures mp) (mp_bad_capture_index mp)
    (mp_quiets mp) (mp_quiet_index mp) v (mp_quiescence_mode mp).

Definition PIECE_VALUES : list Z := [100; 320; 330; 500; 900; 20000; 0].

(** [sort_moves]: insertion sort by descending score.  [sift key rp] is the
    inner [while] loop: [rp] is the sorted prefix [moves[0..i-1]] read from
    its last element backwards; elements with a smaller score than [key]
    move one place up and [key] is stored below them. *)
Fixpoint sift (key : ScoredMove) (rp : list ScoredMove) : list ScoredMove :=
  match rp with
  | [] => [key]
  | x :: rest =>
      if sm_score x <? sm_score key then x :: sift key rest
      else key :: x :: rest
  end.

Definition sort_moves (moves : list ScoredMove) : list ScoredMove :=
  reverse (foldl (fun rp key => sift key rp) [] moves).

(** Score a capture move (MVV-LVA); [None] is a read of [PIECE_VALUES]
    outside its seven entries. *)
Definition score_capture (pos : Position) (move : Z) : option Z :=
  let to := MOVE_TO move in
  let from := MOVE_FROM move in
  let victim := position_piece_at pos to in
  let victim := if (victim =? -1) && (to =? enpassant pos) then PAWN
                else victim in
  let attacker := position_piece_at pos from in
  if (victim =? -1) || (attacker =? -1) then Some 0
  else
    v ← lookupZ PIECE_VALUES victim;
    a ← lookupZ PIECE_VALUES attacker;
    Some (v * 10 - a).

(** Score a quiet move; [None] is a read outside the history array. *)
Definition score_quiet (mp : MovePicker) (move : Z) : option Z :=
  let from := MOVE_FROM move in
  let to := MOVE_TO move in
  if move =? mp_killer1 mp then Some 1000000
  else if move =? mp_killer2 mp then Some 900000
  else if move =? mp_countermove mp then Some 800000
  else
    match mp_history mp with
    | Some history =>
        let piece := position_piece_at (mp_pos mp) from in
        if negb (piece =? -1) then lookupZ history (piece * 64 + to)
        else Some 0
    | None => Some 0
    end.

Definition movepicker_init (pos : Position)
    (tt_move killer1 killer2 countermove : Z) (history : list Z) : MovePicker :=
  mkMovePicker pos tt_move killer1 killer2 countermove (Some history)
    STAGE_TT_MOVE [] 0 [] 0 [] 0 0 0.

Definition movepicker_init_quiescence (pos : Position) (tt_move : Z)
  : MovePicker :=
  mkMovePicker pos tt_move MOVE_NONE MOVE_NONE MOVE_NONE None
    STAGE_TT_MOVE [] 0 [] 0 [] 0 0 1.

(** Storing one more move in an array of [capacity] entries; [None] is a
    write past its end. *)
Definition store_scored (capacity : Z) (arr : list ScoredMove) (m s : Z)
  : option (list ScoredMove) :=
  if Z.of_nat (length arr) <? capacity then Some (arr ++ [mkScoredMove m s])
  else None.

(** The body of [case STAGE_GENERATE_CAPTURES] up to the sort. *)
Definition generate_captures (mp : MovePicker)
  : option (list ScoredMove * list ScoredMove) :=
  let pos := mp_pos mp in
  foldl (fun (st : option (list ScoredMove * list ScoredMove)) m =>
           '(good, bad) ← st;
           if m =? mp_tt_move mp then Some (good, bad)
           else if negb (movegen_is_legal pos m) then Some (good, bad)
           else
             s ← see pos m;
             if 0 <=? s then
               c ← score_capture pos m;
               good' ← store_scored 64 good m (c + s);
               Some (good', bad)
             else
               bad' ← store_scored 64 bad m s;
               Some (good, bad'))
        (Some (mp_captures mp, mp_bad_captures mp))
        (movegen_captures pos).

(** The body of [case STAGE_GENERATE_QUIETS] up to the sort. *)
Definition generate_quiets (mp : MovePicker) : option (list ScoredMove) :=
  let pos := mp_pos mp in
  foldl (fun (st : option (list ScoredMove)) m =>
           quiets ← st;
           if (m =? mp_tt_move mp) || (m =? mp_killer1 mp)
              || (m =? mp_killer2 mp) || (m =? mp_countermove mp)
              || MOVE_IS_CAPTURE m || negb (movegen_is_legal pos m)
           then Some quiets
           else
             s ← score_quiet mp m;
             store_scored 256 quiets m s)
        (Some (mp_quiets mp))
        (movegen_all pos).

(** [movepicker_next], one function per [case] label; each falls through
    to the next one as the [switch] does.  The result is the returned move
    with the updated picker. *)
Definition next_done (mp : MovePicker) : option (Z * MovePicker) :=
  Some (MOVE_NONE, mp).

Definition next_bad_captures (mp : MovePicker) : option (Z * MovePicker) :=
  let mp :=
    if (mp_bad_capture_index mp =? 0) && (0 <? Z.of_nat (length (mp_bad_captures mp)))
    then with_bad_captures (sort_moves (mp_bad_captures mp)) mp
    else mp in
  if mp_bad_capture_index mp <? Z.of_nat (length (mp_bad_captures mp)) then
    m ← lookupZ (mp_bad_captures mp) (mp_bad_capture_index mp);
    Some (sm_move m, with_bad_capture_index (mp_bad_capture_index mp + 1) mp)
  else next_done (with_stage STAGE_DONE mp).

Definition next_quiets (mp : MovePicker) : option (Z * MovePicker) :=
  if mp_quiet_index mp <? Z.of_nat (length (mp_quiets mp)) then
    m ← lookupZ (mp_quiets mp) (mp_quiet_index mp);
    Some (sm_move m, with_quiet_index (mp_quiet_index mp + 1) mp)
  else next_bad_captures (with_stage STAGE_BAD_CAPTURES mp).

Definition next_generate_quiets (mp : MovePicker) : option (Z * MovePicker) :=
  quiets ← generate_quiets mp;
  next_quiets (with_stage STAGE_QUIETS (with_quiets (sort_moves quiets) mp)).

(** [while (mp->killer_index < 2)] followed by the counter-move test. *)
Fixpoint next_killers (n : nat) (mp : MovePicker) : option (Z * MovePicker) :=
  let pos := mp_pos mp in
  if mp_killer_index mp <? 2 then
    match n with
    | O => None
    | S n' =>
        let killer := if mp_killer_index mp =? 0 then mp_killer1 mp
                      else mp_killer2 mp in
        let mp := with_killer_index (mp_killer_index mp + 1) mp in
        if negb (killer =? MOVE_NONE) && negb (killer =? mp_tt_move mp)
           && negb (MOVE_IS_CAPTURE killer)
           && movegen_is_pseudo_legal pos killer
           && movegen_is_legal pos killer
        then Some (killer, mp)
        else next_killers n' mp
    end
  else if negb (mp_countermove mp =? MOVE_NONE)
          && negb (mp_countermove mp =? mp_tt_move mp)
          && negb (mp_countermove mp =? mp_killer1 mp)
          && negb (mp_countermove mp =? mp_killer2 mp)
          && negb (MOVE_IS_CAPTURE (mp_countermove mp))
          && movegen_is_pseudo_legal pos (mp_countermove mp)
          && movegen_is_legal pos (mp_countermove mp)
  then Some (mp_countermove mp, with_stage STAGE_GENERATE_QUIETS mp)
  else next_generate_quiets (with_stage STAGE_GENERATE_QUIETS mp).

Definition next_good_captures (mp : MovePicker) : option (Z * MovePicker) :=
  if mp_capture_index mp <? Z.of_nat (length (mp_captures mp)) then
    m ← lookupZ (mp_captures mp) (mp_capture_index mp);
    Some (sm_move m, with_capture_index (mp_capture_index mp + 1) mp)
  else if nz (mp_quiescence_mode mp) then
    Some (MOVE_NONE, with_stage STAGE_DONE mp)
  else next_killers 2 (with_stage STAGE_KILLERS mp).

Definition next_generate_captures (mp : MovePicker) : option (Z * MovePicker) :=
  '(good, bad) ← generate_captures mp;
  next_good_captures
    (with_stage STAGE_GOOD_CAPTURES (with_captures (sort_moves good) bad mp)).

Definition next_tt_move (mp : MovePicker) : option (Z * MovePicker) :=
  let pos := mp_pos mp in
  let mp := with_stage STAGE_GENERATE_CAPTURES mp in
  if negb (mp_tt_move mp =? MOVE_NONE)
     && movegen_is_pseudo_legal pos (mp_tt_move mp)
     && movegen_is_legal pos (mp_tt_move mp)
  then Some (mp_tt_move mp, mp)
  else next_generate_captures mp.

Definition movepicker_next (mp : MovePicker) : option (Z * MovePicker) :=
  match mp_stage mp with
  | STAGE_TT_MOVE => next_tt_move mp
  | STAGE_GENERATE_CAPTURES => next_generate_captures mp
  | STAGE_GOOD_CAPTURES => next_good_captures mp
  | STAGE_KILLERS => next_killers 2 mp
  | STAGE_GENERATE_QUIETS => next_generate_quiets mp
  | STAGE_QUIETS => next_quiets mp
  | STAGE_BAD_CAPTURES => next_bad_captures mp
  | STAGE_DONE => next_done mp
  end.

(** The caller's loop [while ((move = movepicker_next(&mp)) != MOVE_NONE)]:
    the moves it sees, in order.  [fuel] bounds the number of calls. *)
Fixpoint picker_moves (fuel : nat) (mp : MovePicker) : option (list Z) :=
  match fuel with
  | O => None
  | S fuel' =>
      '(m, mp') ← movepicker_next mp;
      if m =? MOVE_NONE then Some []
      else rest ← picker_moves fuel' mp'; Some (m :: rest)
  end.

(** The first [n] moves a picker hands out, with the picker afterwards. *)
Fixpoint picker_take (n : nat) (mp : MovePicker)
  : option (list Z * MovePicker) :=
  match n with
  | O => Some ([], mp)
  | S n' =>
      '(m, mp) ← movepicker_next mp;
      '(rest, mp) ← picker_take n' mp;
      Some (m :: rest, mp)
  end.

(** ** search.h: the per-worker search state

    The fields of [SearchState] that [quiescence] and [alpha_beta] read or
    write.  Arrays are finite maps from the flattened index to the value;
    an index never written holds 0, as after the [memset] of
    [search_create].  The global [search_stats] and [tb_hits_in_search]
    counters and the [printf] diagnostics are write-only and left out. *)
Record SearchState := mkSearchState {
  ss_tt : TranspositionTable;   (* TranspositionTable *tt *)
  ss_max_time_ms : Z;
  ss_nodes_limit : Z;
  ss_nodes : Z;
  ss_qnodes : Z;
  ss_tt_hits : Z;
  ss_start_time_ms : Z;
  ss_killer_moves : gmap Z Z;   (* killer_moves[MAX_DEPTH][2], index ply * 2 + slot *)
  ss_history : gmap Z Z;   (* history[2][6][64], index (color * 6 + piece) * 64 + sq *)
  ss_counter_moves : gmap Z Z;   (* counter_moves[6][64], index piece * 64 + sq *)
  ss_countermove_history : gmap Z Z;   (* countermove_history[6][64][6][64] *)
  ss_capture_history : gmap Z Z;   (* capture_history[6][64][6] *)
  ss_prev_piece : gmap Z Z;   (* prev_piece[MAX_DEPTH] *)
  ss_prev_to : gmap Z Z;   (* prev_to[MAX_DEPTH] *)
  ss_followup_history : gmap Z Z;   (* followup_history[6][64][6][64] *)
  ss_repetition_history : gmap Z Z;   (* repetition_history[MAX_GAME_MOVES] *)
  ss_repetition_ply : Z;
  ss_last_move : gmap Z Z;   (* last_move[MAX_DEPTH] *)
  ss_ply : Z;
  ss_contempt : Z;
  ss_excluded_move : Z;
  ss_lmr_reductions : Z;
  ss_null_cutoffs : Z;
  ss_futility_prunes : Z;
  ss_rfp_prunes : Z;
  ss_lmp_prunes : Z;
  ss_see_prunes : Z;
  ss_probcut_prunes : Z;
  ss_extensions : Z;
  ss_polls : nat   (* number of polls of the stop flag and clock so far (not a C field) *)
}.

Definition set_ss_tt (v : TranspositionTable) (s : SearchState) : SearchState :=
  mkSearchState v (ss_max_time_ms s) (ss_nodes_limit s) (ss_nodes s)
    (ss_qnodes s) (ss_tt_hits s) (ss_start_time_ms s) (ss_killer_moves s)
    (ss_history s) (ss_counter_moves s) (ss_countermove_history s)
    (ss_capture_history s) (ss_prev_piece s) (ss_prev_to s)
    (ss_followup_history s) (ss_repetition_history s) (ss_repetition_ply s)
    (ss_last_move s) (ss_ply s) (ss_contempt s) (ss_excluded_move s)
    (ss_lmr_reductions s) (ss_null_cutoffs s) (ss_futility_prunes s)
    (ss_rfp_prunes s) (ss_lmp_prunes s) (ss_see_prunes s) (ss_probcut_prunes
    s) (ss_extensions s) (ss_polls s).
Definition set_ss_nodes (v : Z) (s : SearchState) : SearchState :=
  mkSearchState (ss_tt s) (ss_max_time_ms s) (ss_nodes_limit s) v (ss_qnodes
    s) (ss_tt_hits s) (ss_start_time_ms s) (ss_killer_moves s) (ss_history s)
    (ss_counter_moves s) (ss_countermove_history s) (ss_capture_history s)
    (ss_prev_piece s) (ss_prev_to s) (ss_followup_history s)
    (ss_repetition_history s) (ss_repetition_ply s) (ss_last_move s) (ss_ply
    s) (ss_contempt s) (ss_excluded_move s) (ss_lmr_reductions s)
    (ss_null_cutoffs s) (ss_futility_prunes s) (ss_rfp_prunes s)
    (ss_lmp_prunes s) (ss_see_prunes s) (ss_probcut_prunes s) (ss_extensions
    s) (ss_polls s).
Definition set_ss_qnodes (v : Z) (s : SearchState) : SearchState :=
  mkSearchState (ss_tt s) (ss_max_time_ms s) (ss_nodes_limit s) (ss_nodes s) v
    (ss_tt_hits s) (ss_start_time_ms s) (ss_killer_moves s) (ss_history s)
    (ss_counter_moves s) (ss_countermove_history s) (ss_capture_history s)
    (ss_prev_piece s) (ss_prev_to s) (ss_followup_history s)
    (ss_repetition_history s) (ss_repetition_ply s) (ss_last_move s) (ss_ply
    s) (ss_contempt s) (ss_excluded_move s) (ss_lmr_reductions s)
    (ss_null_cutoffs s) (ss_futility_prunes s) (ss_rfp_prunes s)
    (ss_lmp_prunes s) (ss_see_prunes s) (ss_probcut_prunes s) (ss_extensions
    s) (ss_polls s).
Definition set_ss_tt_hits (v : Z) (s : SearchState) : SearchState :=
  mkSearchState (ss_tt s) (ss_max_time_ms s) (ss_nodes_limit s) (ss_nodes s)
    (ss_qnodes s) v (ss_start_time_ms s) (ss_killer_moves s) (ss_history s)
    (ss_counter_moves s) (ss_countermove_history s) (ss_capture_history s)
    (ss_prev_piece s) (ss_prev_to s) (ss_followup_history s)
    (ss_repetition_history s) (ss_repetition_ply s) (ss_last_move s) (ss_ply
    s) (ss_contempt s) (ss_excluded_move s) (ss_lmr_reductions s)
    (ss_null_cutoffs s) (ss_futility_prunes s) (ss_rfp_prunes s)
    (ss_lmp_prunes s) (ss_see_prunes s) (ss_probcut_prunes s) (ss_extensions
    s) (ss_polls s).
Definition set_ss_killer_moves (v : gmap Z Z) (s : SearchState) : SearchState :=
  mkSearchState (ss_tt s) (ss_max_time_ms s) (ss_nodes_limit s) (ss_nodes s)
    (ss_qnodes s) (ss_tt_hits s) (ss_start_time_ms s) v (ss_history s)
    (ss_counter_moves s) (ss_countermove_history s) (ss_capture_history s)
    (ss_prev_piece s) (ss_prev_to s) (ss_followup_history s)
    (ss_repetition_history s) (ss_repetition_ply s) (ss_last_move s) (ss_ply
    s) (ss_contempt s) (ss_excluded_move s) (ss_lmr_reductions s)
    (ss_null_cutoffs s) (ss_futility_prunes s) (ss_rfp_prunes s)
    (ss_lmp_prunes s) (ss_see_prunes s) (ss_probcut_prunes s) (ss_extensions
    s) (ss_polls s).
Definition set_ss_history (v : gmap Z Z) (s : SearchState) : SearchState :=
  mkSearchState (ss_tt s) (ss_max_time_ms s) (ss_nodes_limit s) (ss_nodes s)
    (ss_qnodes s) (ss_tt_hits s) (ss_start_time_ms s) (ss_killer_moves s) v
    (ss_counter_moves s) (ss_countermove_history s) (ss_capture_history s)
    (ss_prev_piece s) (ss_prev_to s) (ss_followup_history s)
    (ss_repetition_history s) (ss_repetition_ply s) (ss_last_move s) (ss_ply
    s) (ss_contempt s) (ss_excluded_move s) (ss_lmr_reductions s)
    (ss_null_cutoffs s) (ss_futility_prunes s) (ss_rfp_prunes s)
    (ss_lmp_prunes s) (ss_see_prunes s) (ss_probcut_prunes s) (ss_extensions
    s) (ss_polls s).
Definition set_ss_counter_moves (v : gmap Z Z) (s : SearchState) : SearchState :=
  mkSearchState (ss_tt s) (ss_max_time_ms s) (ss_nodes_limit s) (ss_nodes s)
    (ss_qnodes s) (ss_tt_hits s) (ss_start_time_ms s) (ss_killer_moves s)
    (ss_history s) v (ss_countermove_history s) (ss_capture_history s)
    (ss_prev_piece s) (ss_prev_to s) (ss_followup_history s)
    (ss_repetition_history s) (ss_repetition_ply s) (ss_last_move s) (ss_ply
    s) (ss_contempt s) (ss_excluded_move s) (ss_lmr_reductions s)
    (ss_null_cutoffs s) (ss_futility_prunes s) (ss_rfp_prunes s)
    (ss_lmp_prunes s) (ss_see_prunes s) (ss_probcut_prunes s) (ss_extensions
    s) (ss_polls s).
Definition set_ss_countermove_history (v : gmap Z Z) (s : SearchState) : SearchState :=
  mkSearchState (ss_tt s) (ss_max_time_ms s) (ss_nodes_limit s) (ss_nodes s)
    (ss_qnodes s) (ss_tt_hits s) (ss_start_time_ms s) (ss_killer_moves s)
    (ss_history s) (ss_counter_moves s) v (ss_capture_history s)
    (ss_prev_piece s) (ss_prev_to s) (ss_followup_history s)
    (ss_repetition_history s) (ss_repetition_ply s) (ss_last_move s) (ss_ply
    s) (ss_contempt s) (ss_excluded_move s) (ss_lmr_reductions s)
    (ss_null_cutoffs s) (ss_futility_prunes s) (ss_rfp_prunes s)
    (ss_lmp_prunes s) (ss_see_prunes s) (ss_probcut_prunes s) (ss_extensions
    s) (ss_polls s).
Definition set_ss_capture_history (v : gmap Z Z) (s : SearchState) : SearchState :=
  mkSearchState (ss_tt s) (ss_max_time_ms s) (ss_nodes_limit s) (ss_nodes s)
    (ss_qnodes s) (ss_tt_hits s) (ss_start_time_ms s) (ss_killer_moves s)
    (ss_history s) (ss_counter_moves s) (ss_countermove_history s) v
    (ss_prev_piece s) (ss_prev_to s) (ss_followup_history s)
    (ss_repetition_history s) (ss_repetition_ply s) (ss_last_move s) (ss_ply
    s) (ss_contempt s) (ss_excluded_move s) (ss_lmr_reductions s)
    (ss_null_cutoffs s) (ss_futility_prunes s) (ss_rfp_prunes s)
    (ss_lmp_prunes s) (ss_see_prunes s) (ss_probcut_prunes s) (ss_extensions
    s) (ss_polls s).
Definition set_ss_prev_piece (v : gmap Z Z) (s : SearchState) : SearchState :=
  mkSearchState (ss_tt s) (ss_max_time_ms s) (ss_nodes_limit s) (ss_nodes s)
    (ss_qnodes s) (ss_tt_hits s) (ss_start_time_ms s) (ss_killer_moves s)
    (ss_history s) (ss_counter_moves s) (ss_countermove_history s)
    (ss_capture_history s) v (ss_prev_to s) (ss_followup_history s)
    (ss_repetition_history s) (ss_repetition_ply s) (ss_last_move s) (ss_ply
    s) (ss_contempt s) (ss_excluded_move s) (ss_lmr_reductions s)
    (ss_null_cutoffs s) (ss_futility_prunes s) (ss_rfp_prunes s)
    (ss_lmp_prunes s) (ss_see_prunes s) (ss_probcut_prunes s) (ss_extensions
    s) (ss_polls s).
Definition set_ss_prev_to (v : gmap Z Z) (s : SearchState) : SearchState :=
  mkSearchState (ss_tt s) (ss_max_time_ms s) (ss_nodes_limit s) (ss_nodes s)
    (ss_qnodes s) (ss_tt_hits s) (ss_start_time_ms s) (ss_killer_moves s)
    (ss_history s) (ss_counter_moves s) (ss_countermove_history s)
    (ss_capture_history s) (ss_prev_piece s) v (ss_followup_history s)
    (ss_repetition_history s) (ss_repetition_ply s) (ss_last_move s) (ss_ply
    s) (ss_contempt s) (ss_excluded_move s) (ss_lmr_reductions s)
    (ss_null_cutoffs s) (ss_futility_prunes s) (ss_rfp_prunes s)
    (ss_lmp_prunes s) (ss_see_prunes s) (ss_probcut_prunes s) (ss_extensions
    s) (ss_polls s).
Definition set_ss_followup_history (v : gmap Z Z) (s : SearchState) : SearchState :=
  mkSearchState (ss_tt s) (ss_max_time_ms s) (ss_nodes_limit s) (ss_nodes s)
    (ss_qnodes s) (ss_tt_hits s) (ss_start_time_ms s) (ss_killer_moves s)
    (ss_history s) (ss_counter_moves s) (ss_countermove_history s)
    (ss_capture_history s) (ss_prev_piece s) (ss_prev_to s) v
    (ss_repetition_history s) (ss_repetition_ply s) (ss_last_move s) (ss_ply
    s) (ss_contempt s) (ss_excluded_move s) (ss_lmr_reductions s)
    (ss_null_cutoffs s) (ss_futility_prunes s) (ss_rfp_prunes s)
    (ss_lmp_prunes s) (ss_see_prunes s) (ss_probcut_prunes s) (ss_extensions
    s) (ss_polls s).
Definition set_ss_repetition_history (v : gmap Z Z) (s : SearchState) : SearchState :=
  mkSearchState (ss_tt s) (ss_max_time_ms s) (ss_nodes_limit s) (ss_nodes s)
    (ss_qnodes s) (ss_tt_hits s) (ss_start_time_ms s) (ss_killer_moves s)
    (ss_history s) (ss_counter_moves s) (ss_countermove_history s)
    (ss_capture_history s) (ss_prev_piece s) (ss_prev_to s)
    (ss_followup_history s) v (ss_repetition_ply s) (ss_last_move s) (ss_ply
    s) (ss_contempt s) (ss_excluded_move s) (ss_lmr_reductions s)
    (ss_null_cutoffs s) (ss_futility_prunes s) (ss_rfp_prunes s)
    (ss_lmp_prunes s) (ss_see_prunes s) (ss_probcut_prunes s) (ss_extensions
    s) (ss_polls s).
Definition set_ss_repetition_ply (v : Z) (s : SearchState) : SearchState :=
  mkSearchState (ss_tt s) (ss_max_time_ms s) (ss_nodes_limit s) (ss_nodes s)
    (ss_qnodes s) (ss_tt_hits s) (ss_start_time_ms s) (ss_killer_moves s)
    (ss_history s) (ss_counter_moves s) (ss_countermove_history s)
    (ss_capture_history s) (ss_prev_piece s) (ss_prev_to s)
    (ss_followup_history s) (ss_repetition_history s) v (ss_last_move s)
    (ss_ply s) (ss_contempt s) (ss_excluded_move s) (ss_lmr_reductions s)
    (ss_null_cutoffs s) (ss_futility_prunes s) (ss_rfp_prunes s)
    (ss_lmp_prunes s) (ss_see_prunes s) (ss_probcut_prunes s) (ss_extensions
    s) (ss_polls s).
Definition set_ss_last_move (v : gmap Z Z) (s : SearchState) : SearchState :=
  mkSearchState (ss_tt s) (ss_max_time_ms s) (ss_nodes_limit s) (ss_nodes s)
    (ss_qnodes s) (ss_tt_hits s) (ss_start_time_ms s) (ss_killer_moves s)
    (ss_history s) (ss_counter_moves s) (ss_countermove_history s)
    (ss_capture_history s) (ss_prev_piece s) (ss_prev_to s)
    (ss_followup_history s) (ss_repetition_history s) (ss_repetition_ply s) v
    (ss_ply s) (ss_contempt s) (ss_excluded_move s) (ss_lmr_reductions s)
    (ss_null_cutoffs s) (ss_futility_prunes s) (ss_rfp_prunes s)
    (ss_lmp_prunes s) (ss_see_prunes s) (ss_probcut_prunes s) (ss_extensions
    s) (ss_polls s).
Definition set_ss_ply (v : Z) (s : SearchState) : SearchState :=
  mkSearchState (ss_tt s) (ss_max_time_ms s) (ss_nodes_limit s) (ss_nodes s)
    (ss_qnodes s) (ss_tt_hits s) (ss_start_time_ms s) (ss_killer_moves s)
    (ss_history s) (ss_counter_moves s) (ss_countermove_history s)
    (ss_capture_history s) (ss_prev_piece s) (ss_prev_to s)
    (ss_followup_history s) (ss_repetition_history s) (ss_repetition_ply s)
    (ss_last_move s) v (ss_contempt s) (ss_excluded_move s) (ss_lmr_reductions
    s) (ss_null_cutoffs s) (ss_futility_prunes s) (ss_rfp_prunes s)
    (ss_lmp_prunes s) (ss_see_prunes s) (ss_probcut_prunes s) (ss_extensions
    s) (ss_polls s).
Definition set_ss_excluded_move (v : Z) (s : SearchState) : SearchState :=
  mkSearchState (ss_tt s) (ss_max_time_ms s) (ss_nodes_limit s) (ss_nodes s)
    (ss_qnodes s) (ss_tt_hits s) (ss_start_time_ms s) (ss_killer_moves s)
    (ss_history s) (ss_counter_moves s) (ss_countermove_history s)
    (ss_capture_history s) (ss_prev_piece s) (ss_prev_to s)
    (ss_followup_history s) (ss_repetition_history s) (ss_repetition_ply s)
    (ss_last_move s) (ss_ply s) (ss_contempt s) v (ss_lmr_reductions s)
    (ss_null_cutoffs s) (ss_futility_prunes s) (ss_rfp_prunes s)
    (ss_lmp_prunes s) (ss_see_prunes s) (ss_probcut_prunes s) (ss_extensions
    s) (ss_polls s).
Definition set_ss_lmr_reductions (v : Z) (s : SearchState) : SearchState :=
  mkSearchState (ss_tt s) (ss_max_time_ms s) (ss_nodes_limit s) (ss_nodes s)
    (ss_qnodes s) (ss_tt_hits s) (ss_start_time_ms s) (ss_killer_moves s)
    (ss_history s) (ss_counter_moves s) (ss_countermove_history s)
    (ss_capture_history s) (ss_prev_piece s) (ss_prev_to s)
    (ss_followup_history s) (ss_repetition_history s) (ss_repetition_ply s)
    (ss_last_move s) (ss_ply s) (ss_contempt s) (ss_excluded_move s) v
    (ss_null_cutoffs s) (ss_futility_prunes s) (ss_rfp_prunes s)
    (ss_lmp_prunes s) (ss_see_prunes s) (ss_probcut_prunes s) (ss_extensions
    s) (ss_polls s).
Definition set_ss_null_cutoffs (v : Z) (s : SearchState) : SearchState :=
  mkSearchState (ss_tt s) (ss_max_time_ms s) (ss_nodes_limit s) (ss_nodes s)
    (ss_qnodes s) (ss_tt_hits s) (ss_start_time_ms s) (ss_killer_moves s)
    (ss_history s) (ss_counter_moves s) (ss_countermove_history s)
    (ss_capture_history s) (ss_prev_piece s) (ss_prev_to s)
    (ss_followup_history s) (ss_repetition_history s) (ss_repetition_ply s)
    (ss_last_move s) (ss_ply s) (ss_contempt s) (ss_excluded_move s)
    (ss_lmr_reductions s) v (ss_futility_prunes s) (ss_rfp_prunes s)
    (ss_lmp_prunes s) (ss_see_prunes s) (ss_probcut_prunes s) (ss_extensions
    s) (ss_polls s).
Definition set_ss_futility_prunes (v : Z) (s : SearchState) : SearchState :=
  mkSearchState (ss_tt s) (ss_max_time_ms s) (ss_nodes_limit s) (ss_nodes s)
    (ss_qnodes s) (ss_tt_hits s) (ss_start_time_ms s) (ss_killer_moves s)
    (ss_history s) (ss_counter_moves s) (ss_countermove_history s)
    (ss_capture_history s) (ss_prev_piece s) (ss_prev_to s)
    (ss_followup_history s) (ss_repetition_history s) (ss_repetition_ply s)
    (ss_last_move s) (ss_ply s) (ss_contempt s) (ss_excluded_move s)
    (ss_lmr_reductions s) (ss_null_cutoffs s) v (ss_rfp_prunes s)
    (ss_lmp_prunes s) (ss_see_prunes s) (ss_probcut_prunes s) (ss_extensions
    s) (ss_polls s).
Definition set_ss_rfp_prunes (v : Z) (s : SearchState) : SearchState :=
  mkSearchState (ss_tt s) (ss_max_time_ms s) (ss_nodes_limit s) (ss_nodes s)
    (ss_qnodes s) (ss_tt_hits s) (ss_start_time_ms s) (ss_killer_moves s)
    (ss_history s) (ss_counter_moves s) (ss_countermove_history s)
    (ss_capture_history s) (ss_prev_piece s) (ss_prev_to s)
    (ss_followup_history s) (ss_repetition_history s) (ss_repetition_ply s)
    (ss_last_move s) (ss_ply s) (ss_contempt s) (ss_excluded_move s)
    (ss_lmr_reductions s) (ss_null_cutoffs s) (ss_futility_prunes s) v
    (ss_lmp_prunes s) (ss_see_prunes s) (ss_probcut_prunes s) (ss_extensions
    s) (ss_polls s).
Definition set_ss_lmp_prunes (v : Z) (s : SearchState) : SearchState :=
  mkSearchState (ss_tt s) (ss_max_time_ms s) (ss_nodes_limit s) (ss_nodes s)
    (ss_qnodes s) (ss_tt_hits s) (ss_start_time_ms s) (ss_killer_moves s)
    (ss_history s) (ss_counter_moves s) (ss_countermove_history s)
    (ss_capture_history s) (ss_prev_piece s) (ss_prev_to s)
    (ss_followup_history s) (ss_repetition_history s) (ss_repetition_ply s)
    (ss_last_move s) (ss_ply s) (ss_contempt s) (ss_excluded_move s)
    (ss_lmr_reductions s) (ss_null_cutoffs s) (ss_futility_prunes s)
    (ss_rfp_prunes s) v (ss_see_prunes s) (ss_probcut_prunes s) (ss_extensions
    s) (ss_polls s).
Definition set_ss_see_prunes (v : Z) (s : SearchState) : SearchState :=
  mkSearchState (ss_tt s) (ss_max_time_ms s) (ss_nodes_limit s) (ss_nodes s)
    (ss_qnodes s) (ss_tt_hits s) (ss_start_time_ms s) (ss_killer_moves s)
    (ss_history s) (ss_counter_moves s) (ss_countermove_history s)
    (ss_capture_history s) (ss_prev_piece s) (ss_prev_to s)
    (ss_followup_history s) (ss_repetition_history s) (ss_repetition_ply s)
    (ss_last_move s) (ss_ply s) (ss_contempt s) (ss_excluded_move s)
    (ss_lmr_reductions s) (ss_null_cutoffs s) (ss_futility_prunes s)
    (ss_rfp_prunes s) (ss_lmp_prunes s) v (ss_probcut_prunes s) (ss_extensions
    s) (ss_polls s).
Definition set_ss_probcut_prunes (v : Z) (s : SearchState) : SearchState :=
  mkSearchState (ss_tt s) (ss_max_time_ms s) (ss_nodes_limit s) (ss_nodes s)
    (ss_qnodes s) (ss_tt_hits s) (ss_start_time_ms s) (ss_killer_moves s)
    (ss_history s) (ss_counter_moves s) (ss_countermove_history s)
    (ss_capture_history s) (ss_prev_piece s) (ss_prev_to s)
    (ss_followup_history s) (ss_repetition_history s) (ss_repetition_ply s)
    (ss_last_move s) (ss_ply s) (ss_contempt s) (ss_excluded_move s)
    (ss_lmr_reductions s) (ss_null_cutoffs s) (ss_futility_prunes s)
    (ss_rfp_prunes s) (ss_lmp_prunes s) (ss_see_prunes s) v (ss_extensions s)
    (ss_polls s).
Definition set_ss_extensions (v : Z) (s : SearchState) : SearchState :=
  mkSearchState (ss_tt s) (ss_max_time_ms s) (ss_nodes_limit s) (ss_nodes s)
    (ss_qnodes s) (ss_tt_hits s) (ss_start_time_ms s) (ss_killer_moves s)
    (ss_history s) (ss_counter_moves s) (ss_countermove_history s)
    (ss_capture_history s) (ss_prev_piece s) (ss_prev_to s)
    (ss_followup_history s) (ss_repetition_history s) (ss_repetition_ply s)
    (ss_last_move s) (ss_ply s) (ss_contempt s) (ss_excluded_move s)
    (ss_lmr_reductions s) (ss_null_cutoffs s) (ss_futility_prunes s)
    (ss_rfp_prunes s) (ss_lmp_prunes s) (ss_see_prunes s) (ss_probcut_prunes
    s) v (ss_polls s).
Definition set_ss_polls (v : nat) (s : SearchState) : SearchState :=
  mkSearchState (ss_tt s) (ss_max_time_ms s) (ss_nodes_limit s) (ss_nodes s)
    (ss_qnodes s) (ss_tt_hits s) (ss_start_time_ms s) (ss_killer_moves s)
    (ss_history s) (ss_counter_moves s) (ss_countermove_history s)
    (ss_capture_history s) (ss_prev_piece s) (ss_prev_to s)
    (ss_followup_history s) (ss_repetition_history s) (ss_repetition_ply s)
    (ss_last_move s) (ss_ply s) (ss_contempt s) (ss_excluded_move s)
    (ss_lmr_reductions s) (ss_null_cutoffs s) (ss_futility_prunes s)
    (ss_rfp_prunes s) (ss_lmp_prunes s) (ss_see_prunes s) (ss_probcut_prunes
    s) (ss_extensions s) v.

Definition MAX_DEPTH : Z := 128.
Definition MAX_GAME_MOVES : Z := 1024.
Definition HISTORY_MAX : Z := 50000.
Definition SCORE_TB_WIN : Z := 30000.

Definition DRAW_NONE : Z := 0.
Definition DRAW_INSUFFICIENT_MATERIAL : Z := 1.
Definition DRAW_FORTRESS : Z := 2.

(** Array read and write in the search state. *)
Definition arr_get (a : gmap Z Z) (i : Z) : Z := default 0 (a !! i).
Definition arr_set (a : gmap Z Z) (i v : Z) : gmap Z Z := <[i := v]> a.

Definition history_index (color piece sq : Z) : Z := (color * 6 + piece) * 64 + sq.
Definition pair_index (piece sq : Z) : Z := piece * 64 + sq.
Definition cont_index (prev_piece prev_to piece sq : Z) : Z :=
  ((prev_piece * 64 + prev_to) * 6 + piece) * 64 + sq.
Definition capture_index (attacker sq victim : Z) : Z :=
  (attacker * 64 + sq) * 6 + victim.

Definition piece_in_range (piece sq : Z) : bool :=
  (0 <=? piece) && (piece <? 6) && (0 <=? sq) && (sq <? 64).

(** ** search.c: move-ordering helpers *)

Definition store_killer_move (s : SearchState) (ply move : Z) : SearchState :=
  if negb (arr_get (ss_killer_moves s) (ply * 2) =? move) then
    let k := arr_set (ss_killer_moves s) (ply * 2 + 1)
               (arr_get (ss_killer_moves s) (ply * 2)) in
    set_ss_killer_moves (arr_set k (ply * 2) move) s
  else s.

(** The gravity update "entry += bonus - entry * abs(bonus) / HISTORY_MAX",
    each operation in [int] (two's complement wrap-around), followed by
    the clamp to [-HISTORY_MAX, HISTORY_MAX]. *)
Definition gravity (entry bonus : Z) : Z :=
  let entry :=
    s32 (entry
         + s32 (bonus - Z.quot (s32 (entry * s32 (Z.abs bonus))) HISTORY_MAX)) in
  let entry := if HISTORY_MAX <? entry then HISTORY_MAX else entry in
  if entry <? - HISTORY_MAX then - HISTORY_MAX else entry.

(** The same with [-=], as in [penalize_history]. *)
Definition gravity_penalty (entry penalty : Z) : Z :=
  let entry :=
    s32 (entry
         - s32 (penalty
                - Z.quot (s32 (entry * s32 (Z.abs penalty))) HISTORY_MAX)) in
  let entry := if HISTORY_MAX <? entry then HISTORY_MAX else entry in
  if entry <? - HISTORY_MAX then - HISTORY_MAX else entry.

Definition update_history (s : SearchState) (color piece to_sq depth : Z)
  : SearchState :=
  let bonus := s32 (depth * depth) in
  let i := history_index color piece to_sq in
  set_ss_history
    (arr_set (ss_history s) i (gravity (arr_get (ss_history s) i) bonus)) s.

Definition penalize_history (s : SearchState) (color piece to_sq depth : Z)
  : SearchState :=
  let penalty := s32 (depth * depth) in
  let i := history_index color piece to_sq in
  set_ss_history
    (arr_set (ss_history s) i
       (gravity_penalty (arr_get (ss_history s) i) penalty)) s.

Definition update_countermove (s : SearchState) (prev_piece prev_to move : Z)
  : SearchState :=
  if piece_in_range prev_piece prev_to
  then set_ss_counter_moves
         (arr_set (ss_counter_moves s) (pair_index prev_piece prev_to) move) s
  else s.

Definition get_countermove (s : SearchState) (prev_piece prev_to : Z) : Z :=
  if piece_in_range prev_piece prev_to
  then arr_get (ss_counter_moves s) (pair_index prev_piece prev_to)
  else MOVE_NONE.

Definition update_countermove_history (s : SearchState)
    (prev_piece prev_to piece to_sq depth : Z) : SearchState :=
  if piece_in_range prev_piece prev_to && piece_in_range piece to_sq then
    let bonus := s32 (depth * depth) in
    let i := cont_index prev_piece prev_to piece to_sq in
    set_ss_countermove_history
      (arr_set (ss_countermove_history s) i
         (gravity (arr_get (ss_countermove_history s) i) bonus)) s
  else s.

Definition update_capture_history (s : SearchState)
    (attacker to_sq victim depth : Z) : SearchState :=
  if piece_in_range attacker to_sq && (0 <=? victim) && (victim <? 6) then
    let bonus := s32 (depth * depth) in
    let i := capture_index attacker to_sq victim in
    set_ss_capture_history
      (arr_set (ss_capture_history s) i
         (gravity (arr_get (ss_capture_history s) i) bonus)) s
  else s.

Definition update_followup_history (s : SearchState)
    (prev_piece prev_to piece to_sq depth : Z) : SearchState :=
  if piece_in_range prev_piece prev_to && piece_in_range piece to_sq then
    let bonus := s32 (depth * depth) in
    let i := cont_index prev_piece prev_to piece to_sq in
    set_ss_followup_history
      (arr_set (ss_followup_history s) i
         (gravity (arr_get (ss_followup_history s) i) bonus)) s
  else s.

(** ** search.c: repetition detection *)

Definition add_repetition_position (s : SearchState) (key : Z) : SearchState :=
  if ss_repetition_ply s <? MAX_GAME_MOVES then
    set_ss_repetition_ply (ss_repetition_ply s + 1)
      (set_ss_repetition_history
         (arr_set (ss_repetition_history s) (ss_repetition_ply s) key) s)
  else s.

Definition remove_repetition_position (s : SearchState) : SearchState :=
  if 0 <? ss_repetition_ply s
  then set_ss_repetition_ply (ss_repetition_ply s - 1) s
  else s.

(** The scan [for (i = repetition_ply - 2; i >= 0; i--)]. *)
Definition check_repetition (s : SearchState) (key : Z) : bool :=
  if ss_repetition_ply s <? 2 then false
  else
    existsb (fun i => arr_get (ss_repetition_history s) i =? key)
            (range 0 (Z.to_nat (ss_repetition_ply s - 1))).

(** The history slice [state->history[color]] handed to the picker as
    [int history[6][64]]. *)
Definition history_slice (s : SearchState) (color : Z) : list Z :=
  map (fun i => arr_get (ss_history s) (color * 384 + i)) (range 0 384).

(** ** A monad for the bodies of [quiescence] and [alpha_beta]

    The C functions work on two objects behind pointers, [SearchState
    *state] and [Position *pos], and leave through [return] from many
    places.  A computation takes the pair of objects and gives back either
    the value of the statement just run ([Next]) or the value the function
    returns ([Return]), with the updated pair; [None] is an undefined step
    (a table read out of bounds, or the recursion budget used up). *)

Record Ctx := mkCtx { ctx_state : SearchState; ctx_pos : Position }.

Inductive Flow (A : Type) :=
| Next (a : A)
| Return (score : Z).
#[global] Arguments Next {A} a.
#[global] Arguments Return {A} score.

Definition Search (A : Type) : Type := Ctx -> option (Flow A * Ctx).

#[global] Instance search_ret : MRet Search :=
  fun A a c => Some (Next a, c).

#[global] Instance search_bind : MBind Search :=
  fun A B k m c =>
    match m c with
    | Some (Next a, c') => k a c'
    | Some (Return r, c') => Some (Return r, c')
    | None => None
    end.

(** [return r;] *)
Definition sreturn {A} (r : Z) : Search A := fun c => Some (Return r, c).

(** An undefined step. *)
Definition undefined {A} : Search A := fun _ => None.

(** Reading and writing [*state] and [*pos]. *)
Definition gets {A} (f : SearchState -> A) : Search A :=
  fun c => Some (Next (f (ctx_state c)), c).
Definition modify (f : SearchState -> SearchState) : Search unit :=
  fun c => Some (Next (), mkCtx (f (ctx_state c)) (ctx_pos c)).
Definition get_pos : Search Position :=
  fun c => Some (Next (ctx_pos c), c).
Definition set_pos (p : Position) : Search unit :=
  fun c => Some (Next (), mkCtx (ctx_state c) p).

(** A value that may be undefined. *)
Definition defined {A} (o : option A) : Search A :=
  fun c => match o with Some a => Some (Next a, c) | None => None end.

(** A statement run only under a test: [if (b) { m }]. *)
Definition when (b : bool) (m : Search unit) : Search unit :=
  if b then m else mret ().

(** [if (b) return r;] *)
Definition return_if (b : bool) (r : Z) : Search unit :=
  if b then sreturn r else mret ().

(** [if (c) x else y] with the test [c] reading the state. *)
Definition ifM {A} (c : Search bool) (x y : Search A) : Search A :=
  mbind (fun b : bool => if b then x else y) c.

(** The C function whose body is [m]. *)
Definition run_body (m : Search Z) : Ctx -> option (Z * Ctx) :=
  fun c =>
    match m c with
    | Some (Next r, c') => Some (r, c')
    | Some (Return r, c') => Some (r, c')
    | None => None
    end.

(** A call [f(state, pos, ...)] of such a function. *)
Definition call (f : Ctx -> option (Z * Ctx)) : Search Z :=
  fun c =>
    match f c with
    | Some (r, c') => Some (Next r, c')
    | None => None
    end.

(** A call [f(state, &temp, ...)] on a local copy [temp]; the copy is
    dropped afterwards. *)
Definition call_on (temp : Position) (f : Ctx -> option (Z * Ctx)) : Search Z :=
  fun c =>
    match f (mkCtx (ctx_state c) temp) with
    | Some (r, c') => Some (Next r, mkCtx (ctx_state c') (ctx_pos c))
    | None => None
    end.

(** The collaborators of the search. *)
Variable evaluate : Position -> Z.                  (* evaluation.c *)
Variable phase_eval : Position -> Z.                (* evaluation.c *)
Variable is_theoretical_draw : Position -> Z.       (* evaluation.c *)
Variable apply_contempt : Z -> Z -> Z -> Z.         (* evaluation.c *)
Variable tb_available : bool.                       (* tablebase.c *)
Variable tb_probe_in_search : Position -> Z -> Z -> option Z.
Variable LMR_TABLE : Z -> Z -> Z.     (* filled with floating-point logs *)
(** The stop flag and the clock as seen at the n-th poll. *)
Variable threads_should_stop : nat -> bool.         (* threads.c *)
Variable get_time_ms : nat -> Z.

(** [evaluate_position] hands back a [Score], a 16-bit integer. *)
Definition evaluate_position (pos : Position) : Z := s16 (evaluate pos).

Definition is_time_up_at (s : SearchState) : bool :=
  let n := ss_polls s in
  if threads_should_stop n then true
  else if ss_max_time_ms s <=? 0 then false
  else if (0 <? ss_nodes_limit s) && (ss_nodes_limit s <=? ss_nodes s) then true
  (* Don't check time until we've searched at least some nodes *)
  else if ss_nodes s <? 100 then false
  (* Check time periodically (every 4096 nodes) *)
  else if Z.land (ss_nodes s) 0xFFF =? 0 then
    let current := get_time_ms n in
    let elapsed := s32 (current - ss_start_time_ms s) in
    if ss_max_time_ms s <=? elapsed then true
    else if Z.quot (s32 (ss_max_time_ms s * 4)) 5 <=? elapsed
    then 20 <? ss_ply s
    else false
  else false.

(** [is_time_up(state)]: one poll of the stop flag and the clock. *)
Definition is_time_up : Search bool :=
  up ← gets is_time_up_at;
  modify (fun s => set_ss_polls (S (ss_polls s)) s);;
  mret up.

Definition get_lmr_reduction (s : SearchState) (pos : Position)
    (depth move_count : Z) (is_pv is_capture gives_check : bool) (move : Z) : Z :=
  if (depth <? 3) || (move_count <? 4) then 0
  else
    let reduction :=
      LMR_TABLE (if depth <? 64 then depth else 63)
                (if move_count <? 64 then move_count else 63) in
    let reduction := if is_pv && (0 <? reduction) then reduction - 1 else reduction in
    let reduction := if is_capture && (0 <? reduction) then reduction - 1 else reduction in
    let reduction := if gives_check && (0 <? reduction) then reduction - 1 else reduction in
    let to := MOVE_TO move in
    let from := MOVE_FROM move in
    let color := to_move pos in
    let moving_piece := piece_on pos color from in
    let reduction :=
      if 0 <=? moving_piece then
        let history_score :=
          arr_get (ss_history s) (history_index color moving_piece to) in
        let reduction :=
          if (1000 <? history_score) && (0 <? reduction) then reduction - 2
          else if (500 <? history_score) && (0 <? reduction) then reduction - 1
          else if history_score <? -500 then reduction + 2
          else if history_score <? -200 then reduction + 1
          else reduction in
        if 5 <=? depth then
          let cmh_score :=
            if 0 <? ss_ply s then
              let prev_piece := arr_get (ss_prev_piece s) (ss_ply s - 1) in
              let prev_to := arr_get (ss_prev_to s) (ss_ply s - 1) in
              if piece_in_range prev_piece prev_to
              then arr_get (ss_countermove_history s)
                     (cont_index prev_piece prev_to moving_piece to)
              else 0
            else 0 in
          let reduction := if (800 <? cmh_score) && (0 <? reduction)
                           then reduction - 1 else reduction in
          if cmh_score <? -400 then reduction + 1 else reduction
        else reduction
      else reduction in
    let reduction := if depth - 1 <=? reduction then depth - 2 else reduction in
    if reduction <? 0 then 0 else reduction.

Definition get_futility_margin (pos : Position) (depth : Z) : Z :=
  let margin := 100 + 150 * depth in
  let phase := phase_eval pos in
  let margin := if phase <? 64 then Z.quot (margin * 120) 100 else margin in
  if 200 <? phase then Z.quot (margin * 80) 100 else margin.

(** The quiet-move branch of [score_move_for_ordering] (the ordering used
    for the root move list): history plus a third of the countermove
    history, plus a third of the follow-up history, plus 200 for landing
    on the destination of the opponent's last move. *)
Definition quiet_ordering_score (s : SearchState) (pos : Position)
    (move ply : Z) : Z :=
  let from := MOVE_FROM move in
  let to := MOVE_TO move in
  let color := to_move pos in
  let moving_piece := piece_on pos color from in
  if 0 <=? moving_piece then
    let hist_score := arr_get (ss_history s) (history_index color moving_piece to) in
    let prev_piece := arr_get (ss_prev_piece s) (ply - 1) in
    let prev_to := arr_get (ss_prev_to s) (ply - 1) in
    let hist_score :=
      if (0 <? ply) && piece_in_range prev_piece prev_to
      then hist_score
           + Z.quot (arr_get (ss_countermove_history s)
                       (cont_index prev_piece prev_to moving_piece to)) 3
      else hist_score in
    let hist_score :=
      if (0 <? ply) && piece_in_range prev_piece prev_to
      then hist_score
           + Z.quot (arr_get (ss_followup_history s)
                       (cont_index prev_piece prev_to moving_piece to)) 3
      else hist_score in
    if 0 <? ply then
      let opponent_last := arr_get (ss_last_move s) (ply - 1) in
      if negb (opponent_last =? MOVE_NONE) && (to =? MOVE_TO opponent_last)
      then hist_score + 200 else hist_score
    else hist_score
  else 0.

(** ** search.c: [quiescence] *)

(** The picker keeps pointers to the position and to the history slice of
    the side to move; both objects change while the picker is alive, and
    each call of [movepicker_next] reads them as they are then. *)
Definition movepicker_sync (mp : MovePicker) (pos : Position)
    (history : option (list Z)) : MovePicker :=
  mkMovePicker pos (mp_tt_move mp) (mp_killer1 mp) (mp_killer2 mp)
    (mp_countermove mp) history (mp_stage mp) (mp_captures mp)
    (mp_capture_index mp) (mp_bad_captures mp) (mp_bad_capture_index mp)
    (mp_quiets mp) (mp_quiet_index mp) (mp_killer_index mp)
    (mp_quiescence_mode mp).

(** The number of moves one picker can hand out is bounded by its arrays
    (two of 256 entries, the TT move, two killers and the counter move). *)
Definition MAX_PICKS : nat := 520.

(** The transposition-table block of [quiescence]: the probe at depth 0.
    Its value is the TT move and the window after the probe. *)
Definition quiescence_probe (alpha beta : Z) : Search (Z * Z * Z) :=
  tt ← gets ss_tt;
  pos ← get_pos;
  let '(found, tt_score, tt_flag, tt') :=
    tt_lookup tt (zobrist pos) 0 0 0 in
  modify (set_ss_tt tt');;
  if nz found then
    modify (fun s => set_ss_tt_hits (ss_tt_hits s + 1) s);;
    tt ← gets ss_tt;
    let tt_move := tt_get_best_move tt (zobrist pos) in
    return_if (tt_flag =? TT_FLAG_EXACT) tt_score;;
    let alpha :=
      if tt_flag =? TT_FLAG_LOWER
      then (if tt_score <? alpha then alpha else tt_score) else alpha in
    let beta :=
      if tt_flag =? TT_FLAG_UPPER
      then (if beta <? tt_score then beta else tt_score) else beta in
    return_if (beta <=? alpha) tt_score;;
    mret (tt_move, alpha, beta)
  else mret (MOVE_NONE, alpha, beta).

(** The capture loop of [quiescence]; [rec] is the recursive call. *)
Fixpoint quiescence_loop (rec : Z -> Z -> Ctx -> option (Z * Ctx)) (n : nat)
    (mp : MovePicker) (beta alpha best_move : Z) {struct n} : Search Z :=
  match n with
  | O => undefined
  | S n' =>
      pos ← get_pos;
      '(move, mp) ← defined (movepicker_next (movepicker_sync mp pos None));
      if move =? MOVE_NONE then
        modify (fun s =>
          set_ss_tt (tt_store_with_move (ss_tt s) (zobrist pos) alpha
                       best_move 0 TT_FLAG_EXACT) s);;
        sreturn alpha
      else
        (* SEE pruning - skip bad captures *)
        see_val ← defined (see pos move);
        if see_val <? 0 then quiescence_loop rec n' mp beta alpha best_move
        else
          let '(made, undo) := position_make_move pos move undo_blank in
          set_pos made;;
          r ← call (rec (s16 (- beta)) (s16 (- alpha)));
          let score := s16 (- r) in
          after ← get_pos;
          set_pos (position_unmake_move after move undo);;
          up ← is_time_up;
          return_if up alpha;;
          if alpha <? score then
            if beta <=? score then
              let best_move := move in
              pos ← get_pos;
              modify (fun s =>
                set_ss_tt (tt_store_with_move (ss_tt s) (zobrist pos) beta
                             best_move 0 TT_FLAG_LOWER) s);;
              sreturn beta
            else quiescence_loop rec n' mp beta score move
          else quiescence_loop rec n' mp beta alpha best_move
  end.

(** The body of [quiescence] after the time test. *)
Definition quiescence_body (rec : Z -> Z -> Ctx -> option (Z * Ctx))
    (alpha beta : Z) : Search Z :=
  modify (fun s => set_ss_qnodes (ss_qnodes s + 1) s);;
  '(tt_move, alpha, beta) ← quiescence_probe alpha beta;
  pos ← get_pos;
  let stand_pat := evaluate_position pos in
  return_if (beta <=? stand_pat) beta;;
  (* Delta pruning *)
  let delta := 900 in
  return_if (stand_pat + delta <? alpha) alpha;;
  let alpha := if alpha <? stand_pat then stand_pat else alpha in
  (* Use move picker for captures *)
  let mp := movepicker_init_quiescence pos tt_move in
  quiescence_loop rec MAX_PICKS mp beta alpha MOVE_NONE.

(** [quiescence(state, pos, alpha, beta)]; [fuel] bounds the depth of the
    recursion. *)
Fixpoint quiescence (fuel : nat) (alpha beta : Z) : Ctx -> option (Z * Ctx) :=
  match fuel with
  | O => fun _ => None
  | S fuel' =>
      run_body (
        up ← is_time_up;
        pos ← get_pos;
        return_if up (evaluate_position pos);;
        quiescence_body (quiescence fuel') alpha beta)
  end.

(** ** search.c: [alpha_beta]

    The function is cut into the blocks its comments announce.  [rec] is
    the recursive call [alpha_beta(state, pos, depth, alpha, beta)] and
    [recq] the call [quiescence(state, pos, alpha, beta)].  The counters
    of the global [search_stats] and the diagnostic [printf] are write-only
    for the search and are left out. *)

(** The last piece type whose bitboard holds [sq] (a scan without
    [break]). *)
Definition piece_on_last (p : Position) (color sq : Z) : Z :=
  default (-1)
    (last (filter (fun piece => nz (Z.land (piece_bb p color piece) (bit sq)) = true)
                  (range 0 6))).

(** Depth limit, clock, node count and the draw tests. *)
Definition alpha_beta_entry : Search unit :=
  ply ← gets ss_ply;
  pos ← get_pos;
  (* Max ply check to prevent stack overflow from check extensions *)
  return_if (MAX_DEPTH - 1 <=? ply) (evaluate_position pos);;
  up ← is_time_up;
  return_if up (evaluate_position pos);;
  modify (fun s => set_ss_nodes (ss_nodes s + 1) s);;
  contempt ← gets ss_contempt;
  let draw_score := s16 (apply_contempt 0 (to_move pos) contempt) in
  (* Check for 50-move rule *)
  return_if (100 <=? halfmove pos) draw_score;;
  (* Check for repetition *)
  repeated ← gets (fun s => check_repetition s (zobrist pos));
  return_if repeated draw_score;;
  (* Check for insufficient material or fortress (theoretical draws) *)
  let draw_type := is_theoretical_draw pos in
  return_if ((draw_type =? DRAW_INSUFFICIENT_MATERIAL)
             || (draw_type =? DRAW_FORTRESS)) draw_score.

(** The tablebase probe. *)
Definition alpha_beta_tablebase (depth alpha beta : Z) : Search unit :=
  ply ← gets ss_ply;
  pos ← get_pos;
  if tb_available && (0 <? ply) then
    match tb_probe_in_search pos depth ply with
    | Some tb_score =>
        let tb_score := s16 tb_score in
        (* For decisive results, we can return immediately *)
        if (SCORE_TB_WIN - 1000 <? tb_score) || (tb_score <? - SCORE_TB_WIN + 1000)
        then
          let flag :=
            if beta <=? tb_score then TT_FLAG_LOWER
            else if tb_score <=? alpha then TT_FLAG_UPPER
            else TT_FLAG_EXACT in
          modify (fun s =>
            set_ss_tt (tt_store (ss_tt s) (zobrist pos) tb_score (depth + 6) flag) s);;
          sreturn tb_score
        else mret ()
    | None => mret ()
    end
  else mret ().

(** The transposition-table probe; its value is the TT move, [tt_score]
    and [tt_flag]. *)
Definition alpha_beta_probe (depth alpha beta : Z) (is_pv : bool)
  : Search (Z * Z * Z) :=
  pos ← get_pos;
  tt ← gets ss_tt;
  let tt_move := tt_get_best_move tt (zobrist pos) in
  let '(found, tt_score, tt_flag, tt') := tt_lookup tt (zobrist pos) 0 depth 0 in
  modify (set_ss_tt tt');;
  (if nz found then
     modify (fun s => set_ss_tt_hits (ss_tt_hits s + 1) s);;
     if is_pv then mret ()
     else
       return_if (tt_flag =? TT_FLAG_EXACT) tt_score;;
       return_if ((tt_flag =? TT_FLAG_LOWER) && (beta <=? tt_score)) tt_score;;
       return_if ((tt_flag =? TT_FLAG_UPPER) && (tt_score <=? alpha)) tt_score
   else mret ());;
  mret (tt_move, tt_score, tt_flag).

(** Internal iterative deepening; its value is the TT move afterwards. *)
Definition alpha_beta_iid (rec : Z -> Z -> Z -> Ctx -> option (Z * Ctx))
    (depth alpha beta : Z) (is_pv : bool) (tt_move : Z) : Search Z :=
  if ((if is_pv then 6 else 8) <=? depth) && (tt_move =? MOVE_NONE) then
    let iid_depth := if is_pv then depth - 2 else Z.quot depth 2 in
    if 0 <? iid_depth then
      call (rec iid_depth alpha beta);;
      pos ← get_pos;
      tt ← gets ss_tt;
      mret (tt_get_best_move tt (zobrist pos))
    else mret tt_move
  else mret tt_move.

(** Check extension (but limit to avoid explosion); its value is
    [base_extension]. *)
Definition alpha_beta_check_extension (depth : Z) (in_check : bool) : Search Z :=
  ply ← gets ss_ply;
  if in_check && (depth <? 10) && (ply <? Z.quot MAX_DEPTH 2) then
    modify (fun s => set_ss_extensions (ss_extensions s + 1) s);;
    mret 1
  else mret 0.

(** Reverse futility pruning. *)
Definition alpha_beta_rfp (depth beta : Z) (is_pv in_check : bool)
    (static_eval : Z) : Search unit :=
  if negb is_pv && negb in_check && (depth <=? 4)
     && (Z.abs beta <? SCORE_MATE - 100) then
    let rfp_margin := 70 * depth in
    if beta <=? static_eval - rfp_margin then
      modify (fun s => set_ss_rfp_prunes (ss_rfp_prunes s + 1) s);;
      sreturn static_eval
    else mret ()
  else mret ().

(** Razoring: if static eval is far below alpha, drop into qsearch. *)
Definition alpha_beta_razoring (recq : Z -> Z -> Ctx -> option (Z * Ctx))
    (depth alpha : Z) (is_pv in_check : bool) (static_eval : Z) : Search unit :=
  if negb is_pv && negb in_check && (depth <=? 3) then
    let razor_margin := 300 + 100 * depth in
    if static_eval + razor_margin <? alpha then
      razor_score ← call (recq (s16 (alpha - razor_margin))
                               (s16 (alpha - razor_margin + 1)));
      return_if (razor_score + razor_margin <=? alpha) razor_score
    else mret ()
  else mret ().

(** ProbCut. *)
Definition alpha_beta_probcut (rec : Z -> Z -> Z -> Ctx -> option (Z * Ctx))
    (recq : Z -> Z -> Ctx -> option (Z * Ctx))
    (depth beta : Z) (is_pv in_check : bool) : Search unit :=
  if negb is_pv && negb in_check && (5 <=? depth)
     && (Z.abs beta <? SCORE_MATE - 100) then
    let prob_margin := 200 in
    let prob_beta := s16 (beta + prob_margin) in
    (* Do a shallow qsearch to check *)
    prob_score ← call (recq (s16 (prob_beta - 1)) prob_beta);
    if prob_beta <=? prob_score then
      (* Verify with reduced depth search *)
      verify ← call (rec (depth - 4) (s16 (prob_beta - 1)) prob_beta);
      if prob_beta <=? verify then
        modify (fun s => set_ss_probcut_prunes (ss_probcut_prunes s + 1) s);;
        sreturn verify
      else mret ()
    else mret ()
  else mret ().

(** The reduction [R] of the null-move search. *)
Definition null_move_reduction (pos : Position) (depth beta static_eval : Z) : Z :=
  let R := 3 + Z.quot depth 6 in
  let eval_margin := static_eval - beta in
  let R := if 200 <? eval_margin then R + 1 else R in
  let R := if 400 <? eval_margin then R + 1 else R in
  let phase := phase_eval pos in
  let R := if (phase <? 64) && (3 <? R) then R - 1 else R in
  let R := if depth - 2 <? R then depth - 2 else R in
  if R <? 1 then 1 else R.

(** Null move pruning with safety measures. *)
Definition alpha_beta_null_move (rec : Z -> Z -> Z -> Ctx -> option (Z * Ctx))
    (depth beta : Z) (is_pv in_check : bool) (static_eval : Z) : Search unit :=
  pos ← get_pos;
  if negb is_pv && (3 <=? depth) && negb in_check && (beta <=? static_eval) then
    let our_pieces :=
      POPCOUNT (Z.land (Z.land (occupied_bb pos (to_move pos))
                               (bb_not (piece_bb pos (to_move pos) PAWN)))
                       (bb_not (piece_bb pos (to_move pos) KING))) in
    if 1 <? our_pieces then
      (* Make null move *)
      let temp :=
        with_enpassant (-1)
          (with_zobrist (Z.lxor (zobrist pos) zobrist_to_move)
             (with_to_move (Z.lxor (to_move pos) 1) pos)) in
      if negb (position_in_check temp) then
        let R := null_move_reduction pos depth beta static_eval in
        r ← call_on temp (rec (depth - R - 1) (s16 (- beta)) (s16 (- beta + 1)));
        let null_score := s16 (- r) in
        if beta <=? null_score then
          modify (fun s => set_ss_null_cutoffs (ss_null_cutoffs s + 1) s);;
          if 8 <? depth then
            verify ← call (rec (depth - R - 1) (s16 (beta - 1)) beta);
            return_if (beta <=? verify) beta
          else sreturn beta
        else mret ()
      else mret ()
    else mret ()
  else mret ().

(** The test in front of the singular-extension block. *)
Definition singular_guard (s : SearchState)
    (depth tt_move tt_flag tt_score : Z) : bool :=
  (0 <? ss_ply s) && (8 <=? depth) && negb (tt_move =? MOVE_NONE)
  && ((tt_flag =? TT_FLAG_LOWER) || (tt_flag =? TT_FLAG_EXACT))
  && (Z.abs tt_score <? SCORE_MATE - 1000)
  && (ss_excluded_move s =? MOVE_NONE).

(** Singular extensions: the test search.  Its value is
    [singular_extension]. *)
Definition alpha_beta_singular (rec : Z -> Z -> Z -> Ctx -> option (Z * Ctx))
    (depth tt_move tt_flag tt_score : Z) : Search Z :=
  ifM (gets (fun s => singular_guard s depth tt_move tt_flag tt_score))
    (let margin := 2 * depth in
     let singular_beta := s16 (tt_score - margin) in
     saved_excluded ← gets ss_excluded_move;
     modify (set_ss_excluded_move tt_move);;
     let singular_depth :=
       if 10 <? depth then depth - 3 else Z.quot (depth - 1) 2 in
     value ← call (rec singular_depth (s16 (singular_beta - 1)) singular_beta);
     modify (set_ss_excluded_move saved_excluded);;
     mret (if value <? singular_beta then 1 else 0))
    (mret 0).

(** *** The move loop of [alpha_beta] *)

(** What is fixed while the loop runs. *)
Record NodeInfo := mkNodeInfo {
  ni_depth : Z;
  ni_beta : Z;
  ni_is_pv : bool;
  ni_in_check : bool;
  ni_static_eval : Z;
  ni_can_futility : bool;
  ni_base_extension : Z;
  ni_tt_move : Z;
  ni_singular_extension : Z;
  ni_color : Z            (* the side whose history slice the picker holds *)
}.

(** The locals the loop updates. *)
Record LoopVars := mkLoopVars {
  lv_alpha : Z;
  lv_best_score : Z;
  lv_best_move : Z;
  lv_legal_moves : Z;
  lv_quiets_tried : list Z;       (* Move quiets_tried[64] *)
  lv_captures_tried : list Z      (* Move captures_tried[32] *)
}.

(** [if (count < capacity) tried[count++] = move;] *)
Definition track_move (capacity : Z) (tried : list Z) (move : Z) : list Z :=
  if Z.of_nat (length tried) <? capacity then tried ++ [move] else tried.

(** The razoring test inside the loop. *)
Definition loop_razoring (recq : Z -> Z -> Ctx -> option (Z * Ctx))
    (nd : NodeInfo) (alpha : Z) : Search unit :=
  let depth := ni_depth nd in
  let beta := ni_beta nd in
  if negb (ni_is_pv nd) && negb (ni_in_check nd) && (depth <=? 3)
     && negb (ni_static_eval nd =? - SCORE_INFINITE) then
    let razor_margin := 350 + depth * 150 in
    if (ni_static_eval nd <? beta - razor_margin) && (depth <=? 1) then
      val ← call (recq alpha beta);
      val ← (if alpha <? val then call (recq (s16 val) beta) else mret val);
      return_if (val <? beta) (s16 val)
    else mret ()
  else mret ().

(** The pruning tests in front of the move; the value [true] stands for
    [continue]. *)
Definition loop_pruning (recq : Z -> Z -> Ctx -> option (Z * Ctx))
    (nd : NodeInfo) (alpha legal_moves move : Z) : Search bool :=
  let depth := ni_depth nd in
  let is_capture := MOVE_IS_CAPTURE move in
  let is_promotion := 0 <? MOVE_PROMO move in
  (* Futility pruning for quiet moves (don't prune first move) *)
  if ni_can_futility nd && negb is_capture && negb is_promotion
     && (0 <? legal_moves) then
    modify (fun s => set_ss_futility_prunes (ss_futility_prunes s + 1) s);;
    mret true
  else
    loop_razoring recq nd alpha;;
    (* Skip very late quiet moves at low depths *)
    if negb (ni_is_pv nd) && negb (ni_in_check nd) && (depth <=? 7)
       && negb is_capture && negb is_promotion && (0 <? legal_moves)
       && (3 + 2 * depth * depth <? legal_moves) then
      modify (fun s => set_ss_lmp_prunes (ss_lmp_prunes s + 1) s);;
      mret true
    else
      (* Skip quiet moves with bad SEE at low depths *)
      if negb (ni_is_pv nd) && (depth <=? 4) && negb (ni_in_check nd)
         && negb is_capture && (0 <? legal_moves) then
        pos ← get_pos;
        see_val ← defined (see pos move);
        if see_val <? -50 * depth then
          modify (fun s => set_ss_see_prunes (ss_see_prunes s + 1) s);;
          mret true
        else mret false
      else mret false.

(** The extension of the move. *)
Definition loop_extension (nd : NodeInfo) (move moving_piece : Z) : Search Z :=
  let depth := ni_depth nd in
  let to_sq := MOVE_TO move in
  let is_capture := MOVE_IS_CAPTURE move in
  pos ← get_pos;
  let extension := ni_base_extension nd in
  (* Singular extension for TT move *)
  extension ←
    (if (move =? ni_tt_move nd) && nz (ni_singular_extension nd) then
       modify (fun s => set_ss_extensions (ss_extensions s + 1) s);;
       mret 1
     else mret extension);
  (* Recapture extension - if we recapture on the same square *)
  recapture ←
    gets (fun s =>
      (0 <? ss_ply s) && is_capture
      && (let last := arr_get (ss_last_move s) (ss_ply s - 1) in
          negb (last =? MOVE_NONE) && (MOVE_TO last =? to_sq)));
  extension ←
    (if recapture && (extension =? 0) && (depth <? 8) then
       modify (fun s => set_ss_extensions (ss_extensions s + 1) s);;
       mret 1
     else mret extension);
  (* Pawn push to 7th rank extension *)
  if (moving_piece =? PAWN) && (extension =? 0)
     && (((to_move pos =? WHITE) && (SQ_RANK to_sq =? 6))
         || ((to_move pos =? BLACK) && (SQ_RANK to_sq =? 1))) then
    modify (fun s => set_ss_extensions (ss_extensions s + 1) s);;
    mret 1
  else mret extension.

(** The searches of one move (first move, late-move reduction,
    re-searches); its value is [score]. *)
Definition loop_search (rec : Z -> Z -> Z -> Ctx -> option (Z * Ctx))
    (nd : NodeInfo) (alpha legal_moves extension move : Z)
    (gives_check : bool) : Search Z :=
  let depth := ni_depth nd in
  let beta := ni_beta nd in
  let is_capture := MOVE_IS_CAPTURE move in
  if legal_moves =? 1 then
    (* First move - full window search *)
    r ← call (rec (depth - 1 + extension) (s16 (- beta)) (s16 (- alpha)));
    mret (s16 (- r))
  else
    pos ← get_pos;
    (* Late Move Reductions *)
    reduction ←
      (if (3 <=? depth) && (3 <? legal_moves) && negb is_capture
          && negb (ni_in_check nd) && negb gives_check then
         reduction ← gets (fun s =>
           get_lmr_reduction s pos depth legal_moves (ni_is_pv nd)
             is_capture gives_check move);
         modify (fun s => set_ss_lmr_reductions (ss_lmr_reductions s + 1) s);;
         mret reduction
       else mret 0);
    (* Null window search with possible reduction *)
    r ← call (rec (depth - 1 + extension - reduction)
                  (s16 (- alpha - 1)) (s16 (- alpha)));
    let score := s16 (- r) in
    (* Re-search if LMR failed high *)
    score ←
      (if (0 <? reduction) && (alpha <? score) then
         r ← call (rec (depth - 1 + extension) (s16 (- alpha - 1)) (s16 (- alpha)));
         mret (s16 (- r))
       else mret score);
    (* Full re-search if null window failed high in PV *)
    if ni_is_pv nd && (alpha <? score) && (score <? beta) then
      r ← call (rec (depth - 1 + extension) (s16 (- beta)) (s16 (- alpha)));
      mret (s16 (- r))
    else mret score.

(** The penalty on a capture that did not cut:
    "entry -= penalty - entry * abs(penalty) / HISTORY_MAX" in [int], with
    the lower clamp only. *)
Definition capture_penalty (s : SearchState) (cpiece cto cvictim depth : Z)
  : SearchState :=
  let i := capture_index cpiece cto cvictim in
  let entry := arr_get (ss_capture_history s) i in
  let penalty := s32 (depth * depth) in
  let entry :=
    s32 (entry
         - s32 (penalty
                - Z.quot (s32 (entry * s32 (Z.abs penalty))) HISTORY_MAX)) in
  let entry := if entry <? - HISTORY_MAX then - HISTORY_MAX else entry in
  set_ss_capture_history (arr_set (ss_capture_history s) i entry) s.

(** Beta cutoff - update all move ordering heuristics. *)
Definition cutoff_quiet (pos : Position) (depth move moving_piece : Z)
    (quiets_tried : list Z) (s : SearchState) : SearchState :=
  let color := to_move pos in
  let to_sq := MOVE_TO move in
  let s := store_killer_move s (ss_ply s) move in
  let s := update_history s color moving_piece to_sq depth in
  let s :=
    if 0 <? ss_ply s then
      let prev_p := arr_get (ss_prev_piece s) (ss_ply s - 1) in
      let prev_t := arr_get (ss_prev_to s) (ss_ply s - 1) in
      let s := update_countermove s prev_p prev_t move in
      let s := update_countermove_history s prev_p prev_t moving_piece to_sq depth in
      update_followup_history s prev_p prev_t moving_piece to_sq depth
    else s in
  (* Penalize quiet moves that didn't cause cutoff *)
  foldl (fun s qm =>
           let qpiece := piece_on pos color (MOVE_FROM qm) in
           if 0 <=? qpiece then penalize_history s color qpiece (MOVE_TO qm) depth
           else s)
        s (take (length quiets_tried - 1) quiets_tried).

Definition cutoff_capture (pos : Position) (depth move moving_piece : Z)
    (captures_tried : list Z) (s : SearchState) : SearchState :=
  let color := to_move pos in
  let to_sq := MOVE_TO move in
  (* Update capture history for the cutoff capture *)
  let victim := piece_on pos (Z.lxor color 1) to_sq in
  let s :=
    if (0 <=? moving_piece) && (0 <=? victim)
    then update_capture_history s moving_piece to_sq victim depth else s in
  (* Penalize captures that didn't cause cutoff *)
  foldl (fun s cm =>
           let cpiece := piece_on_last pos color (MOVE_FROM cm) in
           let cvictim := piece_on_last pos (Z.lxor color 1) (MOVE_TO cm) in
           if (0 <=? cpiece) && (0 <=? cvictim)
           then capture_penalty s cpiece (MOVE_TO cm) cvictim depth else s)
        s (take (length captures_tried - 1) captures_tried).

(** The move loop; its value is the locals at the end of the loop (after
    [break] or when the picker is exhausted). *)
Fixpoint alpha_beta_loop (rec : Z -> Z -> Z -> Ctx -> option (Z * Ctx))
    (recq : Z -> Z -> Ctx -> option (Z * Ctx)) (n : nat) (nd : NodeInfo)
    (mp : MovePicker) (lv : LoopVars) {struct n} : Search LoopVars :=
  match n with
  | O => undefined
  | S n' =>
      pos ← get_pos;
      history ← gets (fun s => history_slice s (ni_color nd));
      '(move, mp) ← defined (movepicker_next (movepicker_sync mp pos (Some history)));
      if move =? MOVE_NONE then mret lv
      else
        let to_sq := MOVE_TO move in
        (* Find moving piece and validate move source *)
        let moving_piece := piece_on pos (to_move pos) (MOVE_FROM move) in
        (* Skip invalid moves (e.g. from TT collision) *)
        if moving_piece =? -1 then alpha_beta_loop rec recq n' nd mp lv
        else
          let is_capture := MOVE_IS_CAPTURE move in
          skip ← loop_pruning recq nd (lv_alpha lv) (lv_legal_moves lv) move;
          if (skip : bool) then alpha_beta_loop rec recq n' nd mp lv
          else
            extension ← loop_extension nd move moving_piece;
            pos ← get_pos;
            let '(made, undo) := position_make_move pos move undo_blank in
            (* Filter illegal moves (leaves king in check) *)
            let is_illegal :=
              position_in_check (with_to_move (Z.lxor (to_move made) 1) made) in
            if is_illegal then
              set_pos (position_unmake_move made move undo);;
              alpha_beta_loop rec recq n' nd mp lv
            else
              set_pos made;;
              let legal_moves := lv_legal_moves lv + 1 in
              (* Check if move gives check (for LMR adjustment) *)
              let gives_check := position_in_check made in
              modify (fun s => add_repetition_position s (zobrist made));;
              modify (fun s =>
                set_ss_last_move (arr_set (ss_last_move s) (ss_ply s) move) s);;
              modify (fun s =>
                set_ss_prev_piece
                  (arr_set (ss_prev_piece s) (ss_ply s) moving_piece) s);;
              modify (fun s =>
                set_ss_prev_to (arr_set (ss_prev_to s) (ss_ply s) to_sq) s);;
              modify (fun s => set_ss_ply (ss_ply s + 1) s);;
              (* Track moves tried for history penalty *)
              let captures_tried :=
                if is_capture then track_move 32 (lv_captures_tried lv) move
                else lv_captures_tried lv in
              let quiets_tried :=
                if is_capture then lv_quiets_tried lv
                else track_move 64 (lv_quiets_tried lv) move in
              score ← loop_search rec nd (lv_alpha lv) legal_moves extension
                        move gives_check;
              modify (fun s => set_ss_ply (ss_ply s - 1) s);;
              after ← get_pos;
              set_pos (position_unmake_move after move undo);;
              (* Remove position from repetition history *)
              modify remove_repetition_position;;
              up ← is_time_up;
              pos ← get_pos;
              return_if up
                (if negb (lv_best_score lv =? - SCORE_INFINITE)
                 then lv_best_score lv else evaluate_position pos);;
              if lv_best_score lv <? score then
                if lv_alpha lv <? score then
                  if ni_beta nd <=? score then
                    modify (if is_capture
                            then cutoff_capture pos (ni_depth nd) move
                                   moving_piece captures_tried
                            else cutoff_quiet pos (ni_depth nd) move
                                   moving_piece quiets_tried);;
                    mret (mkLoopVars score score move legal_moves
                            quiets_tried captures_tried)
                  else
                    alpha_beta_loop rec recq n' nd mp
                      (mkLoopVars score score move legal_moves
                         quiets_tried captures_tried)
                else
                  alpha_beta_loop rec recq n' nd mp
                    (mkLoopVars (lv_alpha lv) score move legal_moves
                       quiets_tried captures_tried)
              else
                alpha_beta_loop rec recq n' nd mp
                  (mkLoopVars (lv_alpha lv) (lv_best_score lv) (lv_best_move lv)
                     legal_moves quiets_tried captures_tried)
  end.

(** The picker of the node: TT move, the two killers of the ply, the
    counter move to the previous move and the history slice of the side
    to move. *)
Definition alpha_beta_picker (tt_move : Z) : Search MovePicker :=
  pos ← get_pos;
  countermove ← gets (fun s =>
    let prev_p := if 0 <? ss_ply s then arr_get (ss_prev_piece s) (ss_ply s - 1)
                  else -1 in
    let prev_t := if 0 <? ss_ply s then arr_get (ss_prev_to s) (ss_ply s - 1)
                  else 0 in
    get_countermove s prev_p prev_t);
  killer1 ← gets (fun s => arr_get (ss_killer_moves s) (ss_ply s * 2));
  killer2 ← gets (fun s => arr_get (ss_killer_moves s) (ss_ply s * 2 + 1));
  history ← gets (fun s => history_slice s (to_move pos));
  mret (movepicker_init pos tt_move killer1 killer2 countermove history).

(** [alpha_beta(state, pos, depth, alpha, beta)] with the recursive calls
    as parameters. *)
Definition alpha_beta_body (rec : Z -> Z -> Z -> Ctx -> option (Z * Ctx))
    (recq : Z -> Z -> Ctx -> option (Z * Ctx))
    (depth alpha beta : Z) : Search Z :=
  let is_pv := 1 <? beta - alpha in
  alpha_beta_entry;;
  alpha_beta_tablebase depth alpha beta;;
  '(tt_move, tt_score, tt_flag) ← alpha_beta_probe depth alpha beta is_pv;
  (* Terminal node *)
  (if depth <=? 0 then r ← call (recq alpha beta); sreturn r else mret ());;
  tt_move ← alpha_beta_iid rec depth alpha beta is_pv tt_move;
  pos ← get_pos;
  let in_check := position_in_check pos in
  base_extension ← alpha_beta_check_extension depth in_check;
  let static_eval := evaluate_position pos in
  alpha_beta_rfp depth beta is_pv in_check static_eval;;
  alpha_beta_razoring recq depth alpha is_pv in_check static_eval;;
  alpha_beta_probcut rec recq depth beta is_pv in_check;;
  alpha_beta_null_move rec depth beta is_pv in_check static_eval;;
  (* Futility pruning *)
  pos ← get_pos;
  let futility_margin_val := get_futility_margin pos depth in
  let can_futility :=
    negb is_pv && negb in_check && (depth <=? 3)
    && (static_eval + futility_margin_val <=? alpha) in
  singular_extension ← alpha_beta_singular rec depth tt_move tt_flag tt_score;
  mp ← alpha_beta_picker tt_move;
  pos ← get_pos;
  let nd := mkNodeInfo depth beta is_pv in_check static_eval can_futility
              base_extension tt_move singular_extension (to_move pos) in
  lv ← alpha_beta_loop rec recq MAX_PICKS nd mp
         (mkLoopVars alpha (- SCORE_INFINITE) MOVE_NONE 0 [] []);
  (* Check for mate or stalemate *)
  ply ← gets ss_ply;
  return_if ((lv_legal_moves lv =? 0) && in_check) (s16 (- SCORE_MATE + ply));;
  return_if (lv_legal_moves lv =? 0) 0;;
  (* Store in transposition table with best move *)
  let flag :=
    if lv_best_score lv <=? lv_alpha lv then TT_FLAG_UPPER
    else if beta <=? lv_best_score lv then TT_FLAG_LOWER
    else TT_FLAG_EXACT in
  pos ← get_pos;
  modify (fun s =>
    set_ss_tt (tt_store_with_move (ss_tt s) (zobrist pos) (lv_best_score lv)
                 (lv_best_move lv) depth flag) s);;
  mret (lv_best_score lv).

Fixpoint alpha_beta (fuel : nat) (depth alpha beta : Z)
  : Ctx -> option (Z * Ctx) :=
  match fuel with
  | O => fun _ => None
  | S fuel' =>
      run_body (alpha_beta_body (alpha_beta fuel') (quiescence fuel')
                  depth alpha beta)
  end.

End Engine.

(** ** threads.c: the vote at the end of [threads_start_search] *)

(** The two result fields of a [Thread] that the vote reads once every
    worker has been joined. *)
Record Thread := mkThread {
  thread_best_move : Z;   (* Move *)
  thread_best_score : Z   (* Score *)
}.

(** The body of the loop [for (i = 1; i < num_threads; i++)] on the
    running ([best_move], [best_score]). *)
Definition vote_step (st : Z * Z) (thread : Thread) : Z * Z :=
  if negb (thread_best_move thread =? MOVE_NONE)
     && (st.2 + 50 <? thread_best_score thread)
  then (thread_best_move thread, thread_best_score thread)
  else st.

(** "Find best result among all threads": [main] is [threads[0]],
    [helpers] are [threads[1..num_threads-1]] in order. *)
Definition threads_vote (main : Thread) (helpers : list Thread) : Z * Z :=
  foldl vote_step (thread_best_move main, thread_best_score main) helpers.

(** The value [threads_start_search] returns. *)
Definition threads_start_search_result (main : Thread) (helpers : list Thread)
  : Z :=
  (threads_vote main helpers).1.

(** ** uci.h / uci.c: time allocation *)

Definition TM_PHASE_OPENING : Z := 0.
Definition TM_PHASE_MIDDLE : Z := 1.
Definition TM_PHASE_ENDGAME : Z := 2.

Record TimeControl := mkTimeControl {
  wtime : Z;
  btime : Z;
  winc : Z;
  binc : Z;
  movestogo : Z;
  movetime : Z;
  tc_depth : Z;
  infinite : Z;
  ponder : Z
}.

Record TimeAllocation := mkTimeAllocation {
  allocated_time : Z;
  max_time : Z;
  optimal_time : Z;
  panic_time : Z
}.

Section TimeManager.

(** The evaluator's game phase (evaluation.c), 0 = endgame .. 256 =
    opening. *)
Variable phase_eval : Position -> Z.

Definition get_game_phase_for_time (pos : Position) : Z :=
  let phase := phase_eval pos in
  if 200 <? phase then TM_PHASE_OPENING
  else if 80 <? phase then TM_PHASE_MIDDLE
  else TM_PHASE_ENDGAME.

(** The clock of the side to move. *)
Definition remaining_clock (tc : TimeControl) (pos : Position) : Z :=
  if to_move pos =? WHITE then wtime tc else btime tc.

(** [allocate_time].  [int] arithmetic is written with its 32-bit
    wrap-around ([s32]); [None] is the division by zero the C code runs
    into when [movestogo] is -3. *)
Definition allocate_time (tc : TimeControl) (pos : Position) (last_score : Z)
  : option TimeAllocation :=
  (* Fixed time per move *)
  if 0 <? movetime tc then
    Some (mkTimeAllocation (movetime tc) (movetime tc) (movetime tc)
            (Z.quot (movetime tc) 2))
  (* Infinite mode *)
  else if nz (infinite tc) then
    Some (mkTimeAllocation 86400000 86400000 86400000 86400000)
  else
    let remaining_time := remaining_clock tc pos in
    let increment := if to_move pos =? WHITE then winc tc else binc tc in
    let moves_to_go := movestogo tc in
    (* No time info - use default *)
    if remaining_time <=? 0 then Some (mkTimeAllocation 5000 10000 5000 2000)
    else
      let game_phase := get_game_phase_for_time pos in
      (* Estimate moves remaining if not specified *)
      let moves_to_go :=
        if moves_to_go =? 0 then
          (if game_phase =? TM_PHASE_OPENING then 35
           else if game_phase =? TM_PHASE_MIDDLE then 25
           else if game_phase =? TM_PHASE_ENDGAME then 15
           else 25)
        else moves_to_go in
      if s32 (moves_to_go + 3) =? 0 then None
      else
        (* Base time calculation *)
        let base_time := Z.quot remaining_time (s32 (moves_to_go + 3)) in
        let base_time :=
          if 0 <? increment
          then s32 (base_time + Z.quot (s32 (increment * 3)) 4)
          else base_time in
        (* Game phase adjustments *)
        let base_time :=
          if game_phase =? TM_PHASE_OPENING
          then Z.quot (s32 (base_time * 80)) 100
          else if game_phase =? TM_PHASE_MIDDLE then base_time
          else if game_phase =? TM_PHASE_ENDGAME
          then Z.quot (s32 (base_time * 120)) 100
          else base_time in
        (* Score-based adjustments *)
        let base_time :=
          if negb (last_score =? 0) then
            let abs_score := if 0 <? last_score then last_score
                             else s32 (- last_score) in
            if 300 <? abs_score then
              (if 0 <? last_score then Z.quot (s32 (base_time * 70)) 100
               else Z.quot (s32 (base_time * 140)) 100)
            else if 100 <? abs_score then
              (if 0 <? last_score then Z.quot (s32 (base_time * 85)) 100
               else Z.quot (s32 (base_time * 115)) 100)
            else base_time
          else base_time in
        (* Emergency time handling *)
        let emergency_threshold :=
          if 0 <? increment then s32 (30 * increment) else 30000 in
        let base_time :=
          if remaining_time <? emergency_threshold then
            let base_time := Z.quot remaining_time 10 in
            if 0 <? increment
            then s32 (Z.quot remaining_time 15 + Z.quot increment 2)
            else base_time
          else base_time in
        (* Sudden death handling *)
        let base_time :=
          if (increment =? 0) && (movestogo tc =? 0)
          then Z.quot remaining_time 40 else base_time in
        (* Calculate time bounds *)
        let optimal := base_time in
        let max := s32 (base_time * 3) in
        let max := if Z.quot remaining_time 4 <? max
                   then Z.quot remaining_time 4 else max in
        let allocated := base_time in
        let panic := Z.quot base_time 3 in
        let panic := if panic <? 100 then 100 else panic in
        (* Safety bounds: never use more than half remaining time *)
        let allocated := if Z.quot remaining_time 2 <? allocated
                         then Z.quot remaining_time 2 else allocated in
        (* Minimum time *)
        let allocated := if allocated <? 50 then 50 else allocated in
        (* Max time safety *)
        let max := if s32 (remaining_time - 50) <? max
                   then s32 (remaining_time - 50) else max in
        let max := if max <? allocated then allocated else max in
        Some (mkTimeAllocation allocated max optimal panic).

End TimeManager.

(** ** tt.c: clearing and the fill estimates *)

(** [tt_clear] on an allocated table: every slot zeroed. *)
Definition tt_clear (tt : TranspositionTable) : TranspositionTable :=
  mkTT ∅ (tt_num_clusters tt) 0 0.

(** [tt_usage]: "(int)((tt->count * 1000) / total_slots)" in 64-bit
    unsigned arithmetic. *)
Definition tt_usage (tt : TranspositionTable) : Z :=
  let total_slots := u64 (tt_num_clusters tt * Z.of_nat TT_CLUSTER_SIZE) in
  s32 (Z.quot (u64 (tt_count tt * 1000)) total_slots).

(** The number of slots of a cluster that hold a key. *)
Definition cluster_filled (c : list TTEntry) : Z :=
  Z.of_nat (length (filter (fun e => tte_key e <> 0) c)).

(** [tt_hashfull]: the first 1000 clusters are sampled. *)
Definition tt_hashfull (tt : TranspositionTable) : Z :=
  let sample_size :=
    if tt_num_clusters tt <? 1000 then s32 (tt_num_clusters tt) else 1000 in
  let filled :=
    foldl (fun filled c => filled + cluster_filled (tt_cluster tt c))
          0 (range 0 (Z.to_nat sample_size)) in
  Z.quot (filled * 1000) (sample_size * Z.of_nat TT_CLUSTER_SIZE).

(** ** tt.c: the evaluation hash table *)

Record EvalEntry := mkEvalEntry {
  ee_key : Z;          (* uint64_t *)
  ee_score : Z;        (* int16_t *)
  ee_game_phase : Z    (* int16_t *)
}.

Definition ee_zero : EvalEntry := mkEvalEntry 0 0 0.

(** [EvalHashTable]; an index that was never written holds the zeroed
    entry [calloc] left. *)
Record EvalHashTable := mkEvalHashTable {
  eht_entries : gmap Z EvalEntry;
  eht_size : Z;
  eht_hits : Z;
  eht_probes : Z
}.

(** [eval_tt_create]; [sizeof_entry] is the size the compiler gives
    [EvalEntry]. *)
Definition eval_tt_create (sizeof_entry size_kb : Z) : EvalHashTable :=
  let bytes := u64 (size_kb * 1024) in
  let size := Z.quot bytes sizeof_entry in
  mkEvalHashTable ∅ (floor_pow2 64 1 size) 0 0.

Definition eval_tt_clear (eht : EvalHashTable) : EvalHashTable :=
  mkEvalHashTable ∅ (eht_size eht) 0 0.

Definition eval_index (eht : EvalHashTable) (key : Z) : Z :=
  Z.land key (eht_size eht - 1).

Definition eval_entry (eht : EvalHashTable) (index : Z) : EvalEntry :=
  default ee_zero (eht_entries eht !! index).

(** [eval_tt_store]: always replaces the slot of the key. *)
Definition eval_tt_store (eht : EvalHashTable) (key score game_phase : Z)
  : EvalHashTable :=
  mkEvalHashTable
    (<[eval_index eht key := mkEvalEntry key (s16 score) (s16 game_phase)]>
       (eht_entries eht))
    (eht_size eht) (eht_hits eht) (eht_probes eht).

(** [eval_tt_probe]: [score] and [game_phase] are the caller's variables
    behind the out-pointers; the result is the return value, their new
    contents and the table with its counters. *)
Definition eval_tt_probe (eht : EvalHashTable) (key score game_phase : Z)
  : Z * Z * Z * EvalHashTable :=
  let probes := u64 (eht_probes eht + 1) in
  let entry := eval_entry eht (eval_index eht key) in
  if ee_key entry =? key then
    (1, ee_score entry, ee_game_phase entry,
     mkEvalHashTable (eht_entries eht) (eht_size eht)
       (u64 (eht_hits eht + 1)) probes)
  else
    (0, score, game_phase,
     mkEvalHashTable (eht_entries eht) (eht_size eht) (eht_hits eht) probes).

(** ** search.c: between the iterations of [iterative_deepening] *)

(** [for (i = 0; i < n; i++) a[i] = (a[i] * num) / 5;] on a table of
    [int]. *)
Definition decay_table (num : Z) (n : nat) (a : gmap Z Z) : gmap Z Z :=
  foldl (fun a i => arr_set a i (Z.quot (s32 (arr_get a i * num)) 5)) a
        (range 0 n).

Definition decay_capture_history (s : SearchState) : SearchState :=
  set_ss_capture_history
    (decay_table 3 (6 * 64 * 6) (ss_capture_history s)) s.

Definition decay_history (s : SearchState) : SearchState :=
  let s := set_ss_history (decay_table 4 (2 * 6 * 64) (ss_history s)) s in
  let s := set_ss_countermove_history
             (decay_table 4 (6 * 64 * 6 * 64) (ss_countermove_history s)) s in
  decay_capture_history s.

(** The fields of [SearchState] that only the driver of the iterations
    reads and writes. *)
Record IterationState := mkIterationState {
  it_previous_score : Z;                (* int *)
  it_aspiration_fail_high_count : Z;    (* int *)
  it_aspiration_fail_low_count : Z;     (* int *)
  it_iteration_scores : list Z;         (* Score iteration_scores[32] *)
  it_iteration_count : Z;               (* int *)
  it_score_volatility : Z;              (* int *)
  it_last_iteration_instability : Z;    (* int *)
  it_aspiration_consecutive_fails : Z   (* int *)
}.

(** The loop [for (i = 1; i < count; i++)] over the score swings. *)
Definition max_swing (scores : list Z) (count : Z) : Z :=
  foldl (fun max_swing i =>
           let swing := Z.abs (getZ scores i - getZ scores (i - 1)) in
           if max_swing <? swing then swing else max_swing)
        0 (range 1 (Z.to_nat (count - 1))).

Definition update_search_stability (st : IterationState) (iteration_score : Z)
  : IterationState :=
  let '(scores, count) :=
    if it_iteration_count st <? 32 then
      (setZ (it_iteration_scores st) (it_iteration_count st) iteration_score,
       it_iteration_count st + 1)
    else
      (* Shift scores and add new one *)
      let shifted :=
        foldl (fun a i => setZ a i (getZ a (i + 1))) (it_iteration_scores st)
              (range 0 31) in
      (setZ shifted 31 iteration_score, it_iteration_count st) in
  if 2 <=? count then
    let max_swing := max_swing scores count in
    mkIterationState (it_previous_score st) (it_aspiration_fail_high_count st)
      (it_aspiration_fail_low_count st) scores count max_swing
      (if 100 <? max_swing then 1 else 0)
      (it_aspiration_consecutive_fails st)
  else
    mkIterationState (it_previous_score st) (it_aspiration_fail_high_count st)
      (it_aspiration_fail_low_count st) scores count (it_score_volatility st)
      (it_last_iteration_instability st) (it_aspiration_consecutive_fails st).

(** [get_aspiration_window]: the pair ([*alpha], [*beta]).  [center],
    [*alpha] and [*beta] are of type [Score], a 16-bit integer; [delta] is
    an [int]. *)
Definition get_aspiration_window (st : IterationState) (depth : Z) : Z * Z :=
  if depth <=? 4 then (- SCORE_INFINITE, SCORE_INFINITE)
  else
    let center := s16 (it_previous_score st) in
    let delta := 25 in
    let delta := if 0 <? it_score_volatility st
                 then s32 (delta + Z.quot (it_score_volatility st) 10)
                 else delta in
    let delta := if 200 <? Z.abs center then Z.quot (Z.abs center) 8
                 else delta in
    let delta := if 500 <? Z.abs center then 100 else delta in
    let delta := if 0 <? it_aspiration_consecutive_fails st
                 then s32 (delta + s32 (50 * it_aspiration_consecutive_fails st))
                 else delta in
    let delta := if 0 <? it_aspiration_fail_high_count st
                 then s32 (delta + s32 (25 * it_aspiration_fail_high_count st))
                 else delta in
    let delta := if 0 <? it_aspiration_fail_low_count st
                 then s32 (delta + s32 (25 * it_aspiration_fail_low_count st))
                 else delta in
    let delta := if 2 <=? it_aspiration_consecutive_fails st then 1000
                 else if 400 <? delta then 400 else delta in
    let alpha := s16 (center - delta) in
    let beta := s16 (center + delta) in
    let alpha := if alpha <? - SCORE_INFINITE then - SCORE_INFINITE else alpha in
    let beta := if SCORE_INFINITE <? beta then SCORE_INFINITE else beta in
    (alpha, beta).

(** ** bitboard.h: iteration over the set bits *)

(** [pop_lsb]: the index of the lowest set bit and the word without it
    ([*bb &= *bb - 1] in 64-bit unsigned arithmetic). *)
Definition pop_lsb (bb : Z) : Z * Z :=
  (LSB bb, Z.land bb (u64 (bb - 1))).

(** The squares [BB_FOREACH(sq, bb)] visits, in order:
    [for (_bb = bb; _bb; _bb &= _bb - 1) sq = LSB(_bb)].  A 64-bit word
    ends the loop after at most 64 rounds; [n] bounds them. *)
Fixpoint bb_foreach (n : nat) (bb : Z) : list Z :=
  match n with
  | O => []
  | S n' =>
      if nz bb then LSB bb :: bb_foreach n' (Z.land bb (u64 (bb - 1)))
      else []
  end.

(** ** uci.c: moves as text

    A C string is the list of its characters up to the terminator; a
    character is its code. *)

Section UciMoves.

Variable nnue_available : bool.
Variable nnue_refresh_accumulator : Position -> Accumulator.
Variable nnue_update_accumulator :
  Accumulator -> Z -> Z -> Z -> Z -> Z -> Z -> Accumulator.
(** The global flag [uci_chess960] of search.c. *)
Variable uci_chess960 : bool.

(** The first lines of [parse_move]: origin, destination and promotion
    code read off the text (of at least four characters). *)
Definition parse_squares (movestr : list Z) : Z * Z * Z :=
  let from := SQ (getZ movestr 0 - 97) (getZ movestr 1 - 49) in
  let to := SQ (getZ movestr 2 - 97) (getZ movestr 3 - 49) in
  let promo :=
    if 4 <? Z.of_nat (length movestr) then
      let c := getZ movestr 4 in
      if c =? 110 then KNIGHT - KNIGHT + 1
      else if c =? 98 then BISHOP - KNIGHT + 1
      else if c =? 114 then ROOK - KNIGHT + 1
      else if c =? 113 then QUEEN - KNIGHT + 1
      else 0
    else 0 in
  (from, to, promo).

(** One round of the loop of [parse_move]: does it return [m]? *)
Definition parse_match (pos : Position) (from to promo : Z) (m : Z) : bool :=
  let m_from := MOVE_FROM m in
  let m_to := MOVE_TO m in
  (* Normal match *)
  (m_from =? from) && (m_to =? to)
  && ((promo =? 0) || (MOVE_PROMO m =? promo))
  && movegen_is_legal nnue_available nnue_refresh_accumulator
       nnue_update_accumulator pos m
  (* Castling match (standard notation e1g1 -> internal e1h1) *)
  || negb uci_chess960 && MOVE_IS_SPECIAL m
     && (let standard_to :=
           if m_from =? SQ_E1 then
             (if m_to =? castling_rook pos 0 then SQ_G1
              else if m_to =? castling_rook pos 1 then SQ_C1
              else -1)
           else if m_from =? SQ_E8 then
             (if m_to =? castling_rook pos 2 then SQ_G8
              else if m_to =? castling_rook pos 3 then SQ_C8
              else -1)
           else -1 in
         (standard_to =? to)
         && movegen_is_legal nnue_available nnue_refresh_accumulator
              nnue_update_accumulator pos m).

Definition parse_move (pos : Position) (movestr : list Z) : Z :=
  if Z.of_nat (length movestr) <? 4 then MOVE_NONE
  else
    let '(from, to, promo) := parse_squares movestr in
    (* Generate all legal moves and find matching one *)
    default MOVE_NONE
      (head (filter (fun m => parse_match pos from to promo m = true)
                    (movegen_all pos))).

(** [move_to_string]: the text written to [str].  The letter of the
    promotion is read from the string "nbrq"; code 5 reads its terminator
    and ends the text after four characters, a larger code reads past the
    string ([None]). *)
Definition move_to_string (move : Z) : option (list Z) :=
  let from := MOVE_FROM move in
  let to := MOVE_TO move in
  let promo := MOVE_PROMO move in
  (* Convert FRC castling to standard notation if not in Chess960 mode *)
  let to :=
    if negb uci_chess960 && MOVE_IS_SPECIAL move
       && ((to =? 0) || (to =? 7) || (to =? 56) || (to =? 63)) then
      if from =? 4 then
        (if to =? 7 then 6 else if to =? 0 then 2 else to)
      else if from =? 60 then
        (if to =? 63 then 62 else if to =? 56 then 58 else to)
      else to
    else to in
  let str := [97 + SQ_FILE from; 49 + SQ_RANK from;
              97 + SQ_FILE to; 49 + SQ_RANK to] in
  if 0 <? promo then
    c ← lookupZ [110; 98; 114; 113; 0] (promo - 1);
    Some (if c =? 0 then str else str ++ [c])
  else Some str.

End UciMoves.

(** ** Sample inputs *)

(** [position_init]: [memset] to zero, no en-passant square. *)
Definition position_init : Position :=
  mkPosition (replicate 12 0) [0; 0] 0 0 0 (-1) 0 0 [0; 0; 0; 0] 0 0
    (mkAccumulator (replicate 256 0) (replicate 256 0) 0).

(** The position [position_from_fen] builds (without a network loaded) for
    a board with the pieces [placement] (piece, color, square), standard
    castling rooks and the given counters: pieces set one by one, derived
    bitboards recomputed, both hashes rebuilt from scratch. *)
Definition position_setup (placement : list (Z * Z * Z))
    (stm rights ep half full : Z) : Position :=
  let p := foldl (fun p '(piece, color, sq) => position_set_piece p piece color sq)
                 position_init placement in
  let p := mkPosition (pieces p) (occupied p) (all p) stm rights ep half full
             [SQ_H1; SQ_A1; SQ_H8; SQ_A8] 0 0 (accumulator p) in
  let p := with_zobrist (position_hash p) p in
  with_pawn_hash (position_pawn_hash p) p.

(** Sanity conditions every position reached in play satisfies: the twelve
    piece sets are pairwise disjoint 64-bit words, the occupancy words are
    their unions, each side has exactly one king, both hashes agree with
    their from-scratch values, and the side that is not to move is not in
    check. *)
Definition position_ok (p : Position) : bool :=
  let bbs := map (fun i => getZ (pieces p) i) (range 0 12) in
  let union color :=
    foldl (fun acc pc => Z.lor acc (piece_bb p color pc)) 0 (range 0 6) in
  (length (pieces p) =? 12)%nat
  && (length (occupied p) =? 2)%nat
  && (length (castling_rooks p) =? 4)%nat
  && forallb (fun b => (0 <=? b) && (b <? 2 ^ 64)) bbs
  && (foldl Z.add 0 (map POPCOUNT bbs) =? POPCOUNT (all p))
  && (occupied_bb p WHITE =? union WHITE)
  && (occupied_bb p BLACK =? union BLACK)
  && (all p =? Z.lor (union WHITE) (union BLACK))
  && (POPCOUNT (piece_bb p WHITE KING) =? 1)
  && (POPCOUNT (piece_bb p BLACK KING) =? 1)
  && ((to_move p =? WHITE) || (to_move p =? BLACK))
  && (zobrist p =? position_hash p)
  && (pawn_hash p =? position_pawn_hash p)
  && negb (position_in_check (with_to_move (Z.lxor (to_move p) 1) p)).

(** The standard start position after 1. e4 (Black to move). *)
Definition back_rank : list Z :=
  [ROOK; KNIGHT; BISHOP; QUEEN; KING; BISHOP; KNIGHT; ROOK].

Definition pos_after_e4 : Position :=
  position_setup
    (imap (fun i pc => (pc, WHITE, Z.of_nat i)) back_rank
     ++ map (fun f => (PAWN, WHITE, 8 + f)) [0; 1; 2; 3; 5; 6; 7]
     ++ [(PAWN, WHITE, 28)]
     ++ map (fun f => (PAWN, BLACK, 48 + f)) (range 0 8)
     ++ imap (fun i pc => (pc, BLACK, 56 + Z.of_nat i)) back_rank)
    BLACK 15 20 0 1.

(** 1... e5 *)
Definition move_e7e5 : Z := MAKE_MOVE 52 36 0 FLAG_QUIET.

(** White king e1, white pawn e4, black knight d5, black king h8; White to
    move.  The pawn can take the knight ([4k... ] style minimal middlegame
    fragment). *)
Definition pos_pawn_takes_knight : Position :=
  position_setup
    [(KING, WHITE, 4); (PAWN, WHITE, 28); (KNIGHT, BLACK, 35); (KING, BLACK, 63)]
    WHITE 0 (-1) 0 1.

Definition move_e4xd5 : Z := MAKE_MOVE 28 35 0 FLAG_CAPTURE.

(** Black king e8, black pawn e5, white knight d4, white king h1; Black to
    move.  The pawn takes an undefended knight. *)
Definition pos_black_pawn_takes_knight : Position :=
  position_setup
    [(KING, WHITE, 7); (KNIGHT, WHITE, 27); (PAWN, BLACK, 36); (KING, BLACK, 60)]
    BLACK 0 (-1) 0 1.

Definition move_e5xd4 : Z := MAKE_MOVE 36 27 0 FLAG_CAPTURE.

(** White king e1 and rook h1 with the king-side right, black king e8;
    White to move. *)
Definition pos_castle : Position :=
  position_setup
    [(KING, WHITE, 4); (ROOK, WHITE, 7); (KING, BLACK, 60)]
    WHITE 1 (-1) 0 1.

(** O-O, encoded as king square to rook square. *)
Definition move_castle : Z := MAKE_MOVE SQ_E1 SQ_H1 0 FLAG_SPECIAL.

(** A zeroed [int history[6][64]]. *)
Definition history_zero : list Z := replicate 384 0.

(** The engine as it starts: [nnue_available = 0], so neither NNUE routine
    is ever called. *)
Definition no_network_refresh (p : Position) : Accumulator := accumulator p.
Definition no_network_update (a : Accumulator) (_ _ _ _ _ _ : Z) : Accumulator := a.

Definition make_move0 := position_make_move false no_network_refresh no_network_update.
Definition make_unmake0 := make_unmake false no_network_refresh no_network_update.
Definition is_legal0 := movegen_is_legal false no_network_refresh no_network_update.
Definition movepicker_next0 := movepicker_next false no_network_refresh no_network_update.
Definition picker_moves0 := picker_moves false no_network_refresh no_network_update.

(** The legal moves of a position: the generated moves that pass
    [movegen_is_legal]. *)
Definition legal_moves (pos : Position) : list Z :=
  filter (fun m => is_legal0 pos m = true) (movegen_all pos).

(** ** Notions used to state the SEE claims *)

(** All pieces of one colour, as the union of its six piece sets. *)
Definition side_pieces (pos : Position) (color : Z) : Z :=
  foldl (fun acc p => Z.lor acc (piece_bb pos color p)) 0 (range 0 6).

(** The target square of [move] is attacked by no piece of the side that
    is not to move (on the board as it stands). *)
Definition undefended (pos : Position) (move : Z) : Prop :=
  Z.land (get_attackers pos (MOVE_TO move) (all pos))
         (side_pieces pos (Z.lxor (to_move pos) 1)) = 0.

(** The claim's value of an undefended capture: victim minus attacker,
    by piece type, in the table of see.c. *)
Definition piece_type (index : Z) : Z := if index <? 6 then index else index - 6.

Definition victim_minus_attacker (pos : Position) (move : Z) : Z :=
  getZ see_values (piece_type (position_piece_at pos (MOVE_TO move)))
  - getZ see_values (piece_type (position_piece_at pos (MOVE_FROM move))).

(** Range of [int16_t]. *)
Definition in_s16 (x : Z) : Prop := -32768 <= x <= 32767.

(** A middlegame value of the evaluator's phase, for running the time
    manager on sample inputs. *)
Definition phase_middle (_ : Position) : Z := 128.

(** Two undo records that agree on everything but [captured]. *)
Definition undo_saved (u u' : UndoInfo) : Prop :=
  undo_moving_piece u' = undo_moving_piece u
  /\ undo_castling u' = undo_castling u
  /\ undo_enpassant u' = undo_enpassant u
  /\ undo_halfmove u' = undo_halfmove u
  /\ undo_zobrist u' = undo_zobrist u
  /\ undo_pawn_hash u' = undo_pawn_hash u
  /\ undo_accumulator u' = undo_accumulator u.

(** ** Notions used to state the transposition-table claim *)

(** Entries as the table's own stores leave them: depth in [int16_t],
    generation in [uint8_t]. *)
Definition entry_ok (e : TTEntry) : Prop :=
  in_s16 (tte_depth e) /\ 0 <= tte_generation e <= 255.

(** A table whose materialised clusters have four well-formed entries. *)
Definition tt_wf (tt : TranspositionTable) : Prop :=
  0 <= tt_generation tt <= 255
  /\ forall index c, tt_clusters tt !! index = Some c ->
       length c = TT_CLUSTER_SIZE /\ Forall entry_ok c.

(** [i] is the first slot of the cluster that holds [key]. *)
Definition first_with_key (key : Z) (c : list TTEntry) (i : nat) (e : TTEntry)
  : Prop :=
  c !! i = Some e /\ tte_key e = key
  /\ forall j e', (j < i)%nat -> c !! j = Some e' -> tte_key e' <> key.

(** [w] is the slot with the lowest replacement value among the slots
    satisfying [P], the first one in case of ties. *)
Definition first_lowest (gen : Z) (P : nat -> Prop) (c : list TTEntry)
    (w : nat) : Prop :=
  exists e, c !! w = Some e /\ P w
  /\ (forall j e', P j -> c !! j = Some e' ->
        replacement_value e gen <= replacement_value e' gen)
  /\ (forall j e', P j -> (j < w)%nat -> c !! j = Some e' ->
        replacement_value e gen < replacement_value e' gen).

(** The entry the exception is about: exact, of the current generation,
    deeper than the incoming depth by more than 3, while the incoming
    entry is not exact. *)
Definition protected_entry (gen depth flag : Z) (e : TTEntry) : bool :=
  (tte_flag e =? TT_FLAG_EXACT) && negb (flag =? TT_FLAG_EXACT)
  && (depth + 3 <? tte_depth e) && (tte_generation e =? gen).

(** The best move written on an update of an existing entry. *)
Definition kept_move (best_move : Z) (e : TTEntry) : Z :=
  if (best_move =? MOVE_NONE) && negb (tte_best_move e =? MOVE_NONE)
  then tte_best_move e else best_move.

(** The update test for an entry holding the same key. *)
Definition update_allowed (depth flag : Z) (e : TTEntry) : bool :=
  (tte_depth e <=? depth)
  || (flag =? TT_FLAG_EXACT) && negb (tte_flag e =? TT_FLAG_EXACT).

(** A table of four clusters whose cluster 0 holds four exact entries of
    depth 20 from the current generation 1, under the keys 4, 8, 12, 16. *)
Definition tt_full_exact : TranspositionTable :=
  mkTT {[ 0 := map (fun k => mkTTEntry k 50 0 20 TT_FLAG_EXACT 1) [4; 8; 12; 16] ]}
       4 4 1.

(** ** Notions and sample inputs for the search claims *)

(** Marking a move as excluded in the search state. *)
Definition with_excluded (m : Z) (c : Ctx) : Ctx :=
  mkCtx (set_ss_excluded_move m (ctx_state c)) (ctx_pos c).

(** Two runs agree up to the field [excluded_move]: both are undefined, or
    both give the same value with the same position and the same search
    state but for that field, which holds [m1] in the one and [m2] in the
    other. *)
Definition agree {A} (m1 m2 : Z) (o1 o2 : option (A * Ctx)) : Prop :=
  match o1, o2 with
  | None, None => True
  | Some (a1, c1), Some (a2, c2) =>
      a1 = a2 /\ exists c, c1 = with_excluded m1 c /\ c2 = with_excluded m2 c
  | _, _ => False
  end.

(** A computation that does not depend on which move is marked, as long
    as one is. *)
Definition Independent {A} (f : Ctx -> option (A * Ctx)) : Prop :=
  forall m1 m2 c, m1 <> MOVE_NONE -> m2 <> MOVE_NONE ->
    agree m1 m2 (f (with_excluded m1 c)) (f (with_excluded m2 c)).

(** The score the picker gives a quiet move that is neither a killer nor
    the counter move: the entry of the history slice for the piece code
    and the destination, 0 for an empty source square. *)
Definition history_score (pos : Position) (history : list Z) (move : Z)
  : option Z :=
  let piece := position_piece_at pos (MOVE_FROM move) in
  if piece =? -1 then Some 0 else lookupZ history (piece * 64 + MOVE_TO move).

(** [a] does not score less than [b]. *)
Definition by_score (a b : ScoredMove) : Prop := sm_score b <= sm_score a.

(** The moves the quiet stage keeps, in the order [movegen_all] stores
    them: all but the TT move, the killers, the counter move, the captures
    and the illegal moves. *)
Definition quiets_kept (nnue_available : bool)
    (nnue_refresh_accumulator : Position -> Accumulator)
    (nnue_update_accumulator :
       Accumulator -> Z -> Z -> Z -> Z -> Z -> Z -> Accumulator)
    (mp : MovePicker) : list Z :=
  filter (fun m =>
            (m =? mp_tt_move mp) || (m =? mp_killer1 mp)
            || (m =? mp_killer2 mp) || (m =? mp_countermove mp)
            || MOVE_IS_CAPTURE m
            || negb (movegen_is_legal nnue_available nnue_refresh_accumulator
                       nnue_update_accumulator (mp_pos mp) m) = false)
         (movegen_all (mp_pos mp)).

(** The moves of score [s], in the order of the list. *)
Definition of_score (s : Z) (l : list ScoredMove) : list ScoredMove :=
  filter (fun sm => sm_score sm = s) l.

(** [prev_piece] and [prev_to] after [memset(..., -1, ...)]. *)
Definition minus_ones : gmap Z Z :=
  list_to_map ((fun i => (i, -1)) <$> range 0 128).

(** The search state [search_create] builds around the table [tt]; the
    two fields it leaves unset, [start_time_ms] and [excluded_move], are
    taken as 0. *)
Definition search_create_with (tt : TranspositionTable) : SearchState :=
  mkSearchState tt 5000 0 0 0 0 0 ∅ ∅ ∅ ∅ ∅ minus_ones minus_ones ∅ ∅ 0 ∅ 0 20
    MOVE_NONE 0 0 0 0 0 0 0 0 O.

(** A fresh state with an empty 1 MB table. *)
Definition state_fresh : SearchState := search_create_with (tt_create 64 1).

(** The same one ply below the root, after the black king moved to e8. *)
Definition state_ply_1 : SearchState :=
  set_ss_ply 1
    (set_ss_prev_piece (arr_set (ss_prev_piece state_fresh) 0 KING)
       (set_ss_prev_to (arr_set (ss_prev_to state_fresh) 0 60) state_fresh)).

(** King and pawn against king, White to move. *)
Definition pos_king_pawn : Position :=
  position_setup [(KING, WHITE, SQ_E1); (PAWN, WHITE, 8); (KING, BLACK, 60)]
    WHITE 0 (-1) 0 1.

(** Ke1-f2. *)
Definition move_e1f2 : Z := MAKE_MOVE SQ_E1 13 0 FLAG_QUIET.
(** a2-a3. *)
Definition move_a2a3 : Z := MAKE_MOVE 8 16 0 FLAG_QUIET.

(** [state_ply_1] with a countermove-history entry of 900 for Ke1-f2 as
    the reply to the king move to e8. *)
Definition state_countermove_history : SearchState :=
  set_ss_countermove_history
    (arr_set (ss_countermove_history state_ply_1)
       (cont_index KING 60 KING 13) 900) state_ply_1.

(** Stand-ins for the collaborators, for running the search on sample
    inputs: an evaluation by material balance, a stop flag that is never
    raised and a clock that stands still. *)
Definition material_balance (pos : Position) : Z :=
  position_material_count pos (to_move pos)
  - position_material_count pos (Z.lxor (to_move pos) 1).
Definition never_stop (_ : nat) : bool := false.
Definition clock_zero (_ : nat) : Z := 0.

Definition quiescence0 :=
  quiescence false no_network_refresh no_network_update material_balance
    never_stop clock_zero.

(** The picker at the quiet-generation stage, as the search reaches it in
    [pos_king_pawn] with a zeroed history. *)
Definition picker_at_quiets : MovePicker :=
  mkMovePicker pos_king_pawn MOVE_NONE MOVE_NONE MOVE_NONE MOVE_NONE
    (Some history_zero) STAGE_GENERATE_QUIETS [] 0 [] 0 [] 0 2 0.

(** A history slice with three entries set: 7 for a king move to d2 and
    for a king move to f2, 3 for a pawn move to a4. *)
Definition history_tied : list Z :=
  setZ (setZ (setZ history_zero (KING * 64 + 11) 7) (KING * 64 + 13) 7)
       (PAWN * 64 + 24) 3.

(** [picker_at_quiets] with that slice. *)
Definition picker_tied : MovePicker :=
  mkMovePicker pos_king_pawn MOVE_NONE MOVE_NONE MOVE_NONE MOVE_NONE
    (Some history_tied) STAGE_GENERATE_QUIETS [] 0 [] 0 [] 0 2 0.

(** The quiet moves [picker_at_quiets] collects, before the sort. *)
Definition quiets_sample : list ScoredMove :=
  Eval vm_compute in
    default [] (generate_quiets false no_network_refresh no_network_update
                  picker_at_quiets).

(** More stand-ins: no theoretical draws, contempt leaving the score as it
    is, no tablebases and a table of reductions filled with 1. *)
Definition no_draw (_ : Position) : Z := DRAW_NONE.
Definition no_contempt (score _ _ : Z) : Z := score.
Definition no_tablebase (_ : Position) (_ _ : Z) : option Z := None.
Definition lmr_one (_ _ : Z) : Z := 1.

Definition alpha_beta0 :=
  alpha_beta false no_network_refresh no_network_update material_balance
    phase_middle no_draw no_contempt false no_tablebase lmr_one never_stop
    clock_zero.

(** ** Further notions and sample inputs *)



(** ** The window of iteration scores *)

(** The last 32 entries of the list of all iteration scores so far. *)
Definition last_scores (hist : list Z) : list Z :=
  drop (length hist - 32) hist.

(** The absolute differences of neighbouring entries. *)
Fixpoint swings (l : list Z) : list Z :=
  match l with
  | a :: (b :: _) as t => Z.abs (b - a) :: swings t
  | _ => []
  end.

(** The driver state holds the scores [hist] in its window. *)
Definition window_holds (st : IterationState) (hist : list Z) : Prop :=
  length (it_iteration_scores st) = 32%nat
  /\ it_iteration_count st = Z.of_nat (length (last_scores hist))
  /\ take (length (last_scores hist)) (it_iteration_scores st)
     = last_scores hist.

(** ** Moves that fit a position *)

(** What [position_make_move] and [position_unmake_move] take for granted
    about the move: a piece of the side to move stands on the origin
    square; a promoting piece is a pawn, the promotion code is a piece and
    no piece of the mover stands on the destination; an en-passant capture
    finds the destination empty of enemy pieces and the enemy pawn beside
    the origin. *)
Definition move_fits (pos : Position) (move : Z) : bool :=
  let from := MOVE_FROM move in
  let to := MOVE_TO move in
  let promo := MOVE_PROMO move in
  let color := to_move pos in
  let enemy := Z.lxor color 1 in
  let moving_piece := piece_on pos color from in
  (0 <=? moving_piece)
  && (if 0 <? promo
      then (moving_piece =? PAWN) && (promo <? 6)
           && (piece_on pos color to <? 0)
      else true)
  && (if (moving_piece =? PAWN) && (to =? enpassant pos)
      then (piece_on pos enemy to <? 0)
           && nz (Z.land (piece_bb pos enemy PAWN)
                    (bit (SQ (SQ_FILE to) (SQ_RANK from))))
      else true).

(** [a[i] = f(a[i])] on the table of piece sets. *)
Definition bb_upd (f : Z -> Z) (i : Z) (P : list Z) : list Z :=
  setZ P i (f (getZ P i)).

(** [x |= bit], [x &= ~bit] and [x ^= (bit a | bit b)]. *)
Definition bb_set (sq x : Z) : Z := Z.lor x (bit sq).
Definition bb_clear (sq x : Z) : Z := Z.land x (bb_not (bit sq)).
Definition bb_flip (a b x : Z) : Z := Z.lxor x (Z.lor (bit a) (bit b)).

(** ** Zobrist keys of a board *)

(** The keys of the squares in the piece set [x] of index [i], xor-ed. *)
Definition piece_keys (i x : Z) : Z :=
  foldl (fun h sq => Z.lxor h (getZ zobrist_keys (i * 64 + sq))) 0
        (bb_squares x).

(** The keys of all pieces of the table [P], xor-ed. *)
Definition board_hash (P : list Z) : Z :=
  foldl (fun h cp => Z.lxor h (piece_keys cp (getZ P cp))) 0 (range 0 12).

(** The squares a move flips in one piece set are two: origin and
    destination differ, and so do the origin and destination of king and
    rook in a castling move. *)
Definition move_squares_differ (pos : Position) (move : Z) : bool :=
  let from := MOVE_FROM move in
  let to := MOVE_TO move in
  let color := to_move pos in
  let moving_piece := piece_on pos color from in
  if (moving_piece =? KING) && MOVE_IS_SPECIAL move then
    let is_kingside :=
      to =? castling_rook pos (if color =? WHITE then 0 else 2) in
    negb (from =? castle_king_to color is_kingside)
    && negb (to =? castle_rook_to color is_kingside)
  else negb (from =? to).

(** ** Notions used to state what the generators store *)

(** The attack set [movegen_is_pseudo_legal] looks a target up in, and
    [movegen_all] takes the targets from, for a piece that is no pawn. *)
Definition piece_attacks (pos : Position) (piece sq : Z) : Z :=
  if piece =? KNIGHT then knight_attacks sq
  else if piece =? BISHOP then get_bishop_attacks sq (all pos)
  else if piece =? ROOK then get_rook_attacks sq (all pos)
  else if piece =? QUEEN then get_queen_attacks sq (all pos)
  else if piece =? KING then king_attacks sq
  else 0.

(** One step forward for a pawn of [color]. *)
Definition pawn_step (color : Z) : Z := if color =? WHITE then 8 else -8.

(** A pawn arriving on [to] promotes. *)
Definition last_rank (color to : Z) : bool :=
  (color =? WHITE) && (SQ_RANK to =? 7) || (color =? BLACK) && (SQ_RANK to =? 0).

(** The promotion codes stored for a pawn move to [to]: 1 to 4 on the last
    rank, 0 elsewhere. *)
Definition promo_fits (color to promo : Z) : Prop :=
  if last_rank color to then 1 <= promo <= 4 else promo = 0.

(** The two capture directions of a pawn of [color], each with the file
    the destination must not lie on. *)
Definition capture_dir (color d mask : Z) : Prop :=
  color = WHITE /\ (d = 7 /\ mask = FILE_H \/ d = 9 /\ mask = FILE_A)
  \/ color = BLACK /\ (d = -7 /\ mask = FILE_A \/ d = -9 /\ mask = FILE_H).

(** The moves [movegen_all] stores, by the loop that stores them: pawn
    pushes, double pushes, pawn captures, en-passant captures, piece moves
    and castling (king square to rook square). *)
Inductive generated (pos : Position) : Z -> Prop :=
| gen_push (from to promo : Z) :
    0 <= from < 64 -> 0 <= to < 64 ->
    to = from + pawn_step (to_move pos) ->
    Z.testbit (piece_bb pos (to_move pos) PAWN) from = true ->
    Z.testbit (all pos) to = false ->
    promo_fits (to_move pos) to promo ->
    generated pos (MAKE_MOVE from to promo FLAG_QUIET)
| gen_double_push (from : Z) :
    (if to_move pos =? WHITE then 8 <= from < 16 else 48 <= from < 56) ->
    Z.testbit (piece_bb pos (to_move pos) PAWN) from = true ->
    Z.testbit (all pos) (from + pawn_step (to_move pos)) = false ->
    Z.testbit (all pos) (from + 2 * pawn_step (to_move pos)) = false ->
    generated pos
      (MAKE_MOVE from (from + 2 * pawn_step (to_move pos)) 0 FLAG_QUIET)
| gen_pawn_capture (from to promo d mask : Z) :
    0 <= from < 64 -> 0 <= to < 64 ->
    to = from + d -> capture_dir (to_move pos) d mask ->
    Z.testbit mask to = false ->
    Z.testbit (piece_bb pos (to_move pos) PAWN) from = true ->
    Z.testbit (occupied_bb pos (Z.lxor (to_move pos) 1)) to = true ->
    promo_fits (to_move pos) to promo ->
    generated pos (MAKE_MOVE from to promo FLAG_CAPTURE)
| gen_en_passant (from s : Z) :
    0 <= enpassant pos ->
    s = 1 \/ s = -1 ->
    0 <= SQ_FILE (enpassant pos) + s <= 7 ->
    from = SQ (SQ_FILE (enpassant pos) + s)
              (if to_move pos =? WHITE then 4 else 3) ->
    Z.testbit (piece_bb pos (to_move pos) PAWN) from = true ->
    generated pos (MAKE_MOVE from (enpassant pos) 0 FLAG_CAPTURE)
| gen_piece (piece from to : Z) :
    KNIGHT <= piece <= KING ->
    0 <= from < 64 -> 0 <= to < 64 ->
    Z.testbit (piece_bb pos (to_move pos) piece) from = true ->
    Z.testbit (piece_attacks pos piece from) to = true ->
    Z.testbit (occupied_bb pos (to_move pos)) to = false ->
    generated pos
      (MAKE_MOVE from to 0
         (if Z.testbit (occupied_bb pos (Z.lxor (to_move pos) 1)) to
          then FLAG_CAPTURE else FLAG_QUIET))
| gen_castle (from to i : Z) :
    i = 0 \/ i = 1 ->
    to = castling_rook pos (if to_move pos =? WHITE then i else 2 + i) ->
    0 <= from < 64 -> 0 <= to < 64 ->
    Z.testbit (piece_bb pos (to_move pos) KING) from = true ->
    Z.testbit (piece_bb pos (to_move pos) ROOK) to = true ->
    from <> castle_king_to (to_move pos) (i =? 0) ->
    to <> castle_rook_to (to_move pos) (i =? 0) ->
    generated pos (MAKE_MOVE from to 0 FLAG_SPECIAL).

(** The en-passant square, if there is one, is an empty square of the
    sixth rank as the side to move sees it, with an enemy pawn right
    behind it. *)
Definition ep_square_ok (pos : Position) : bool :=
  let ep := enpassant pos in
  (ep <? 0)
  || (ep <? 64)
     && (SQ_RANK ep =? (if to_move pos =? WHITE then 5 else 2))
     && negb (Z.testbit (all pos) ep)
     && Z.testbit (piece_bb pos (Z.lxor (to_move pos) 1) PAWN)
          (ep - pawn_step (to_move pos)).

(** The two castling rooks of each side stand on different squares. *)
Definition castling_rooks_differ (pos : Position) : bool :=
  negb (castling_rook pos 0 =? castling_rook pos 1)
  && negb (castling_rook pos 2 =? castling_rook pos 3).

(* ===================================================================== *)
(** * Part II: properties                                                  *)
(* ===================================================================== *)

(** ** Bit-level facts *)

Lemma lxor_1_1 (x : Z) : Z.lxor (Z.lxor x 1) 1 = x.
Proof. by rewrite Z.lxor_assoc, Z.lxor_nilpotent, Z.lxor_0_r. Qed.

(** ** position.c: what a make/unmake pair restores *)

(** Case analysis on every test of a definition that has been unfolded. *)
Ltac split_tests := repeat case_match; simplify_eq/=; try reflexivity.

Lemma make_capture_fullmove pos enemy to u :
  fullmove (make_capture pos enemy to u).1 = fullmove pos.
Proof. unfold make_capture. split_tests. Qed.

Lemma make_en_passant_fullmove pos mp enemy from to u :
  fullmove (make_en_passant pos mp enemy from to u).1 = fullmove pos.
Proof. unfold make_en_passant. split_tests. Qed.

Lemma make_castling_rights_fullmove pos mp color from :
  fullmove (make_castling_rights pos mp color from) = fullmove pos.
Proof. unfold make_castling_rights. split_tests. Qed.

Lemma make_relocate_fullmove pos move mp color from to :
  fullmove (make_relocate pos move mp color from to) = fullmove pos.
Proof. unfold make_relocate. split_tests. Qed.

Lemma make_promotion_fullmove pos promo color to :
  fullmove (make_promotion pos promo color to) = fullmove pos.
Proof. unfold make_promotion. split_tests. Qed.

Lemma make_ep_state_fullmove pos mp from to :
  fullmove (make_ep_state pos mp from to) = fullmove pos.
Proof. unfold make_ep_state. split_tests. Qed.

Lemma make_counters_fullmove pos mp color u :
  fullmove (make_counters pos mp color u)
  = if color =? BLACK then fullmove pos + 1 else fullmove pos.
Proof. unfold make_counters. split_tests. Qed.

Lemma make_castle_keys_fullmove pos u :
  fullmove (make_castle_keys pos u) = fullmove pos.
Proof. reflexivity. Qed.

(** The two blocks that write the undo record only touch [captured]. *)
Lemma make_capture_undo pos enemy to u :
  undo_saved u (make_capture pos enemy to u).2.
Proof. unfold make_capture, undo_saved. by case_match. Qed.

Lemma make_en_passant_undo pos mp enemy from to u :
  undo_saved u (make_en_passant pos mp enemy from to u).2.
Proof. unfold make_en_passant, undo_saved. by case_match. Qed.

Lemma sync_occupied_fullmove pos : fullmove (sync_occupied pos) = fullmove pos.
Proof. reflexivity. Qed.

Lemma unmake_relocate_fullmove pos move mp color from to promo :
  fullmove (unmake_relocate pos move mp color from to promo) = fullmove pos.
Proof. unfold unmake_relocate. split_tests. Qed.

Lemma unmake_captured_fullmove pos mp color from to u :
  fullmove (unmake_captured pos mp color from to u) = fullmove pos.
Proof. unfold unmake_captured. split_tests. Qed.

Section PositionFacts.

Variable nnue_available : bool.
Variable nnue_refresh_accumulator : Position -> Accumulator.
Variable nnue_update_accumulator :
  Accumulator -> Z -> Z -> Z -> Z -> Z -> Z -> Accumulator.

Local Abbreviation make :=
  (position_make_move nnue_available nnue_refresh_accumulator
     nnue_update_accumulator).
Local Abbreviation round_trip :=
  (make_unmake nnue_available nnue_refresh_accumulator
     nnue_update_accumulator).

Lemma make_nnue_fullmove pos move mp promo color enemy from to u :
  fullmove (make_nnue nnue_available nnue_refresh_accumulator
              nnue_update_accumulator pos move mp promo color enemy from to u)
  = fullmove pos.
Proof. unfold make_nnue. split_tests. Qed.

(** [position_unmake_move] never writes [fullmove], and takes the six
    saved fields from the undo record. *)
Lemma unmake_move_fields pos move u :
  let pos' := position_unmake_move pos move u in
  fullmove pos' = fullmove pos
  /\ to_move pos' = Z.lxor (to_move pos) 1
  /\ castling pos' = undo_castling u
  /\ enpassant pos' = undo_enpassant u
  /\ halfmove pos' = undo_halfmove u
  /\ zobrist pos' = undo_zobrist u
  /\ pawn_hash pos' = undo_pawn_hash u
  /\ accumulator pos' = undo_accumulator u.
Proof.
  unfold position_unmake_move; cbn zeta.
  rewrite sync_occupied_fullmove; cbn [fullmove with_accumulator with_pawn_hash
    with_zobrist with_halfmove with_enpassant with_castling with_to_move].
  rewrite unmake_captured_fullmove, unmake_relocate_fullmove.
  repeat split.
Qed.

(** The state [position_make_move] leaves for a move whose origin square
    holds a piece of the side to move. *)
Lemma make_move_fields pos move u0 :
  0 <= piece_on pos (to_move pos) (MOVE_FROM move) ->
  let '(pos', u) := make pos move u0 in
  fullmove pos' = (if to_move pos =? BLACK then fullmove pos + 1
                   else fullmove pos)
  /\ to_move pos' = Z.lxor (to_move pos) 1
  /\ undo_castling u = castling pos
  /\ undo_enpassant u = enpassant pos
  /\ undo_halfmove u = halfmove pos
  /\ undo_zobrist u = zobrist pos
  /\ undo_pawn_hash u = pawn_hash pos
  /\ undo_accumulator u = accumulator pos.
Proof.
  intros Hfrom. unfold position_make_move.
  destruct (Z.ltb_spec (piece_on pos (to_move pos) (MOVE_FROM move)) 0) as [|_];
    [lia|].
  cbn zeta.
  match goal with
  | |- context [make_capture ?p ?e ?t ?u] =>
      pose proof (make_capture_fullmove p e t u) as Hf1;
      pose proof (make_capture_undo p e t u) as Hu1;
      destruct (make_capture p e t u) as [p1 u1]
  end.
  match goal with
  | |- context [make_en_passant ?p ?m ?e ?f ?t ?u] =>
      pose proof (make_en_passant_fullmove p m e f t u) as Hf2;
      pose proof (make_en_passant_undo p m e f t u) as Hu2;
      destruct (make_en_passant p m e f t u) as [p2 u2]
  end.
  cbn [fst snd] in *.
  destruct Hu1 as (_ & Hc1 & He1 & Hh1 & Hz1 & Hp1 & Ha1).
  destruct Hu2 as (_ & ? & ? & ? & ? & ? & ?).
  cbn in Hc1, He1, Hh1, Hz1, Hp1, Ha1.
  split.
  - cbn [fullmove xor_zobrist with_zobrist with_to_move].
    rewrite make_nnue_fullmove, make_castle_keys_fullmove,
      make_counters_fullmove, make_ep_state_fullmove, make_promotion_fullmove,
      make_relocate_fullmove, make_castling_rights_fullmove.
    by rewrite Hf2, Hf1.
  - split; [reflexivity|]. repeat split; congruence.
Qed.

(** Every make/unmake pair restores the side to move, the castling rights,
    the en-passant square, the half-move clock, both hashes and the
    accumulator; the full-move number comes back one too large when Black
    moved. *)
Lemma make_unmake_fields pos move :
  0 <= piece_on pos (to_move pos) (MOVE_FROM move) ->
  let pos' := round_trip pos move in
  fullmove pos' = (if to_move pos =? BLACK then fullmove pos + 1
                   else fullmove pos)
  /\ to_move pos' = to_move pos
  /\ castling pos' = castling pos
  /\ enpassant pos' = enpassant pos
  /\ halfmove pos' = halfmove pos
  /\ zobrist pos' = zobrist pos
  /\ pawn_hash pos' = pawn_hash pos
  /\ accumulator pos' = accumulator pos.
Proof.
  intros Hfrom. unfold make_unmake.
  pose proof (make_move_fields pos move undo_blank Hfrom) as Hm.
  destruct (make pos move undo_blank) as [p1 u].
  destruct Hm as (Hf & Ht & Hc & He & Hh & Hz & Hp & Ha).
  destruct (unmake_move_fields p1 move u) as (Hf' & Ht' & Hc' & He' & Hh' & Hz' & Hp' & Ha').
  cbn zeta.
  rewrite Hf', Ht', Hc', He', Hh', Hz', Hp', Ha', Hf, Ht, lxor_1_1.
  repeat split; assumption.
Qed.

(** C1 (apply/undo round trip).  The claim fails on the code for every
    move by Black: [position_make_move] increments the full-move number and
    [position_unmake_move] never restores it, so the position that comes
    back differs from the one that went in, although the Zobrist hash and
    the other scalar fields are restored. *)
Theorem make_unmake_black_move (pos : Position) (move : Z) :
  to_move pos = BLACK ->
  0 <= piece_on pos BLACK (MOVE_FROM move) ->
  let pos' := round_trip pos move in
  fullmove pos' = fullmove pos + 1
  /\ pos' <> pos
  /\ zobrist pos' = zobrist pos.
Proof.
  intros Hb Hfrom.
  assert (Hfrom' : 0 <= piece_on pos (to_move pos) (MOVE_FROM move))
    by (by rewrite Hb).
  destruct (make_unmake_fields pos move Hfrom') as (Hf & _ & _ & _ & _ & Hz & _).
  rewrite Hb in Hf. cbn in Hf.
  repeat split; [exact Hf| |exact Hz].
  intros Heq. rewrite Heq in Hf. lia.
Qed.

End PositionFacts.

(** The theorem applies to 1... e5 in the position after 1. e4. *)
Lemma make_unmake_black_move_witness :
  to_move pos_after_e4 = BLACK
  /\ 0 <= piece_on pos_after_e4 BLACK (MOVE_FROM move_e7e5)
  /\ (let pos' := make_unmake0 pos_after_e4 move_e7e5 in
      fullmove pos' = fullmove pos_after_e4 + 1
      /\ pos' <> pos_after_e4
      /\ zobrist pos' = zobrist pos_after_e4).
Proof.
  split; [reflexivity|]. split; [vm_compute; discriminate|].
  apply (make_unmake_black_move false no_network_refresh no_network_update
           pos_after_e4 move_e7e5);
    [reflexivity | vm_compute; discriminate].
Defined.

(** The same input evaluated: a well-formed position, a generated and
    legal move, and a round trip that returns the position with the
    full-move number 2 instead of 1 and every other field unchanged. *)
Example make_unmake_e7e5 :
  position_ok pos_after_e4 = true
  /\ move_e7e5 ∈ legal_moves pos_after_e4
  /\ fullmove pos_after_e4 = 1
  /\ make_unmake0 pos_after_e4 move_e7e5 = with_fullmove 2 pos_after_e4.
Proof.
  split; [by vm_compute|]. split; [|split; by vm_compute].
  refine (bool_decide_unpack _ _). by vm_compute.
Qed.
(** ** Arrays indexed by C integers *)

Lemma getZ_setZ_ne (l : list Z) (i j v : Z) :
  i <> j -> getZ (setZ l i v) j = getZ l j.
Proof.
  intros Hne. unfold getZ, setZ, lookupZ.
  destruct (Z.ltb_spec i 0); [done|].
  destruct (Z.ltb_spec j 0); [done|].
  rewrite list_lookup_insert_ne; [done|lia].
Qed.

Lemma getZ_setZ_eq (l : list Z) (i v : Z) :
  0 <= i < Z.of_nat (length l) -> getZ (setZ l i v) i = v.
Proof.
  intros Hi. unfold getZ, setZ, lookupZ.
  destruct (Z.ltb_spec i 0); [lia|].
  rewrite list_lookup_insert_eq; [done|lia].
Qed.

Lemma setZ_length {A} (l : list A) (i : Z) (v : A) :
  length (setZ l i v) = length l.
Proof. unfold setZ. case_match; [done|]. apply length_insert. Qed.

Lemma setZ_Forall (P : Z -> Prop) (l : list Z) (i v : Z) :
  P v -> Forall P l -> Forall P (setZ l i v).
Proof.
  intros Hv Hl. unfold setZ. case_match; [done|].
  apply Forall_insert; done.
Qed.

Lemma getZ_Forall (P : Z -> Prop) (l : list Z) (i : Z) :
  P 0 -> Forall P l -> P (getZ l i).
Proof.
  intros H0 Hl. unfold getZ, lookupZ. case_match; [done|].
  destruct (l !! Z.to_nat i) eqn:E; [|done].
  cbn. eapply Forall_lookup_1; eauto.
Qed.

(** ** [int16_t] conversion *)

Lemma s16_in_range (x : Z) : in_s16 (s16 x).
Proof.
  unfold in_s16, s16.
  pose proof (Z.mod_pos_bound (x + 32768) 65536 ltac:(lia)). lia.
Qed.

Lemma s16_id (x : Z) : in_s16 x -> s16 x = x.
Proof.
  unfold in_s16, s16. intros H. rewrite Z.mod_small; lia.
Qed.

(** ** see.c *)

(** The backward pass can only lower [gain[0]]. *)
Lemma see_unwind_gain0 (d : nat) (gain : list Z) :
  Forall in_s16 gain ->
  getZ (see_unwind d gain) 0 <= getZ gain 0.
Proof.
  revert gain. induction d as [|d IH]; intros gain Hr; cbn [see_unwind]; [lia|].
  destruct (Z.ltb_spec 0 (Z.of_nat d)) as [Hk|]; [|lia].
  set (v := s16 (- Z.max (- getZ gain (Z.of_nat d - 1)) (getZ gain (Z.of_nat d)))).
  assert (Hr' : Forall in_s16 (setZ gain (Z.of_nat d - 1) v))
    by (apply setZ_Forall; [apply s16_in_range|done]).
  etrans; [apply IH, Hr'|].
  destruct (decide (Z.of_nat d - 1 = 0)) as [E|E];
    [|rewrite getZ_setZ_ne by done; lia].
  destruct (decide (0 < Z.of_nat (length gain))) as [Hl|Hl].
  - rewrite E, getZ_setZ_eq by lia. subst v. rewrite E.
    pose proof (getZ_Forall in_s16 gain 0 ltac:(unfold in_s16; lia) Hr).
    pose proof (getZ_Forall in_s16 gain (Z.of_nat d)
                  ltac:(unfold in_s16; lia) Hr).
    unfold in_s16 in *. rewrite s16_id; unfold in_s16; lia.
  - destruct gain; [|cbn in Hl; lia].
    unfold setZ. case_match; [done|]. by destruct (Z.to_nat _).
Qed.

(** The exchange loop never writes [gain[0]]. *)
Lemma see_loop_gain0 (n : nat) pos to d gain occ attackers color next_piece
    d' gain' :
  0 <= d -> Forall in_s16 gain ->
  see_loop n pos to d gain occ attackers color next_piece = Some (d', gain') ->
  getZ gain' 0 = getZ gain 0 /\ Forall in_s16 gain'.
Proof.
  revert d gain occ attackers color next_piece.
  induction n as [|n IH]; intros d gain occ attackers color next_piece Hd Hr;
    cbn [see_loop]; [by intros [= <- <-]|].
  destruct (lookupZ see_values next_piece) as [v|]; [|done]. 
  cbn [mbind option_bind].
  set (gain1 := setZ gain (d + 1) _).
  assert (Hr1 : Forall in_s16 gain1)
    by (apply setZ_Forall; [apply s16_in_range|done]).
  assert (H0 : getZ gain1 0 = getZ gain 0)
    by (apply getZ_setZ_ne; lia).
  destruct (smallest_attacker pos attackers occ color) as [[p sq]|].
  - intros Hloop. apply IH in Hloop as [H1 H2]; [|lia|exact Hr1]. 
    split; [congruence|exact H2].
  - by intros [= <- <-].
Qed.

(** With no enemy attacker of the target square, the search for the
    smallest attacker fails at once. *)
Lemma land_lor_0 (a x y : Z) : Z.land a (Z.lor x y) = 0 -> Z.land a x = 0 /\ Z.land a y = 0.
Proof. rewrite Z.land_lor_distr_r. apply Z.lor_eq_0_iff. Qed.

Lemma undefended_no_attacker (pos : Position) (attackers occ color : Z) :
  Z.land attackers (side_pieces pos color) = 0 ->
  smallest_attacker pos attackers occ color = None.
Proof.
  unfold side_pieces, smallest_attacker.
  change (range 0 6) with [0; 1; 2; 3; 4; 5].
  change (range PAWN 6) with [0; 1; 2; 3; 4; 5].
  cbn [foldl]. intros H.
  repeat (apply land_lor_0 in H as [H ?]).
  assert (Hz : forall p, Z.land attackers (piece_bb pos color p) = 0 ->
               nz (Z.land (Z.land attackers occ) (piece_bb pos color p)) = false).
  { intros p Hp. unfold nz.
    rewrite <- Z.land_assoc, (Z.land_comm occ), Z.land_assoc, Hp, Z.land_0_l.
    done. }
  cbn [omap list_omap]. by rewrite !Hz.
Qed.

(** C2 (SEE monotonicity), as the code has it.  For a capture of a white
    piece (table index of the victim below 6) by a piece standing on the
    origin square, whenever the evaluation stays inside the value table,
    the result is at most the victim's value; and when no enemy piece
    attacks the target square the result is exactly the victim's value. *)
(** Unfolding [see] on a capture with both squares occupied. *)
Lemma see_unfold (pos : Position) (move : Z) :
  position_piece_at pos (MOVE_TO move) <> -1 ->
  position_piece_at pos (MOVE_FROM move) <> -1 ->
  see pos move =
    g0 ← lookupZ see_values (position_piece_at pos (MOVE_TO move));
    '(d, gain) ← see_loop 31 pos (MOVE_TO move) 0
                   (setZ (replicate 32 0) 0 (s16 g0))
                   (Z.land (all pos) (bb_not (bit (MOVE_FROM move))))
                   (get_attackers pos (MOVE_TO move) (all pos))
                   (Z.lxor (to_move pos) 1)
                   (position_piece_at pos (MOVE_FROM move));
    Some (getZ (see_unwind (Z.to_nat d) gain) 0).
Proof.
  intros Hc Ha. unfold see.
  destruct (Z.eqb_spec (position_piece_at pos (MOVE_TO move)) (-1)); [done|].
  destruct (Z.eqb_spec (position_piece_at pos (MOVE_FROM move)) (-1)); [done|].
  reflexivity.
Qed.

Lemma see_values_white (captured : Z) :
  0 <= captured < 6 ->
  exists g0, lookupZ see_values captured = Some g0
             /\ getZ see_values captured = g0 /\ in_s16 g0.
Proof.
  intros Hc.
  assert (Hcases : captured = 0 \/ captured = 1 \/ captured = 2
                   \/ captured = 3 \/ captured = 4 \/ captured = 5) by lia.
  unfold getZ, in_s16.
  destruct Hcases as [->|[->|[->|[->|[->| ->]]]]];
    eexists; (split; [reflexivity|split; [reflexivity|lia]]).
Qed.

Lemma see_loop_first (n : nat) (pos : Position) (to : Z) (gain : list Z)
    (occ attackers color next_piece d' : Z) (gain' : list Z) :
  smallest_attacker pos attackers occ color = None ->
  see_loop (S n) pos to 0 gain occ attackers color next_piece
    = Some (d', gain') ->
  d' = 0.
Proof.
  intros Hnone. cbn [see_loop].
  destruct (lookupZ see_values next_piece); [|done].
  cbn [mbind option_bind]. rewrite Hnone. by intros [= <- _].
Qed.

Lemma bind_Some {A B} (f : A -> option B) (x : A) : Some x ≫= f = f x.
Proof. reflexivity. Qed.

Theorem see_at_most_victim (pos : Position) (move s : Z) :
  let captured := position_piece_at pos (MOVE_TO move) in
  0 <= captured < 6 ->
  position_piece_at pos (MOVE_FROM move) <> -1 ->
  see pos move = Some s ->
  s <= getZ see_values captured
  /\ (undefended pos move -> s = getZ see_values captured).
Proof.
  intros captured Hc Ha. rewrite see_unfold by (fold captured; lia || done).
  fold captured.
  destruct (see_values_white captured Hc) as (g0 & -> & -> & Hg0).
  rewrite bind_Some.
  set (gain0 := setZ (replicate 32 0) 0 (s16 g0)).
  assert (Hr0 : Forall in_s16 gain0).
  { apply setZ_Forall; [apply s16_in_range|].
    apply Forall_replicate. unfold in_s16; lia. }
  assert (H00 : getZ gain0 0 = g0).
  { unfold gain0. rewrite getZ_setZ_eq, s16_id; [done|done|].
    rewrite length_replicate. lia. }
  clearbody gain0.
  match goal with
  | |- context [see_loop ?n ?p ?t ?d ?g ?o ?a ?c ?np] =>
      destruct (see_loop n p t d g o a c np) as [[d' gain']|] eqn:Hloop
  end; [|done].
  rewrite bind_Some. intros [= <-].
  destruct (see_loop_gain0 31 pos _ 0 _ _ _ _ _ _ _ (Z.le_refl 0) Hr0 Hloop)
    as [Hg Hr'].
  split.
  - pose proof (see_unwind_gain0 (Z.to_nat d') gain' Hr') as Hle.
    rewrite Hg, H00 in Hle. exact Hle.
  - intros Hund.
    apply (see_loop_first 30) in Hloop as ->;
      [|by apply undefended_no_attacker].
    change (Z.to_nat 0) with 0%nat. cbn [see_unwind]. by rewrite Hg.
Qed.

(** The theorem applies to ...exd4 in [pos_black_pawn_takes_knight]: a black
    pawn takes an undefended white knight. *)
Lemma see_at_most_victim_witness :
  0 <= position_piece_at pos_black_pawn_takes_knight (MOVE_TO move_e5xd4) < 6
  /\ position_piece_at pos_black_pawn_takes_knight (MOVE_FROM move_e5xd4) <> -1
  /\ see pos_black_pawn_takes_knight move_e5xd4 = Some 320
  /\ 320 <= getZ see_values
              (position_piece_at pos_black_pawn_takes_knight (MOVE_TO move_e5xd4))
  /\ (undefended pos_black_pawn_takes_knight move_e5xd4 ->
      320 = getZ see_values
              (position_piece_at pos_black_pawn_takes_knight (MOVE_TO move_e5xd4))).
Proof.
  assert (H1 : 0 <= position_piece_at pos_black_pawn_takes_knight
                      (MOVE_TO move_e5xd4) < 6)
    by (vm_compute; split; [discriminate|reflexivity]).
  assert (H2 : position_piece_at pos_black_pawn_takes_knight
                 (MOVE_FROM move_e5xd4) <> -1)
    by (vm_compute; discriminate).
  assert (H3 : see pos_black_pawn_takes_knight move_e5xd4 = Some 320)
    by (vm_compute; reflexivity).
  split; [exact H1|]. split; [exact H2|]. split; [exact H3|].
  exact (see_at_most_victim pos_black_pawn_takes_knight move_e5xd4 320 H1 H2 H3).
Defined.

(** C2, counterexample to the claim as stated: in a well-formed position
    the black pawn on e5 takes the white knight on d4, which no white piece
    defends; the move is generated and legal.  [see] returns the knight's
    value 320, not "victim minus attacker" (320 - 100 = 220). *)
Lemma see_undefended_counterexample :
  position_ok pos_black_pawn_takes_knight = true
  /\ move_e5xd4 ∈ movegen_captures pos_black_pawn_takes_knight
  /\ is_legal0 pos_black_pawn_takes_knight move_e5xd4 = true
  /\ undefended pos_black_pawn_takes_knight move_e5xd4
  /\ victim_minus_attacker pos_black_pawn_takes_knight move_e5xd4 = 220
  /\ see pos_black_pawn_takes_knight move_e5xd4 = Some 320
  /\ see pos_black_pawn_takes_knight move_e5xd4
     <> Some (victim_minus_attacker pos_black_pawn_takes_knight move_e5xd4).
Proof.
  split; [by vm_compute|].
  split; [refine (bool_decide_unpack _ _); by vm_compute|].
  split; [by vm_compute|].
  split; [by vm_compute|].
  split; [by vm_compute|].
  split; by vm_compute.
Qed.

(** C10 (table indices).  A well-formed position, a generated legal
    capture (white pawn e4 takes black knight d5): [position_piece_at]
    returns 7 for the victim (knight + 6), an index outside the seven
    entries of [see_values] and [PIECE_VALUES]; both [see] and
    [score_capture] read past the end of their table. *)
Theorem piece_index_out_of_table :
  position_ok pos_pawn_takes_knight = true
  /\ move_e4xd5 ∈ movegen_captures pos_pawn_takes_knight
  /\ is_legal0 pos_pawn_takes_knight move_e4xd5 = true
  /\ position_piece_at pos_pawn_takes_knight (MOVE_TO move_e4xd5) = KNIGHT + 6
  /\ length see_values = 7%nat
  /\ length PIECE_VALUES = 7%nat
  /\ lookupZ see_values (KNIGHT + 6) = None
  /\ lookupZ PIECE_VALUES (KNIGHT + 6) = None
  /\ see pos_pawn_takes_knight move_e4xd5 = None
  /\ score_capture pos_pawn_takes_knight move_e4xd5 = None.
Proof.
  split; [by vm_compute|].
  split; [refine (bool_decide_unpack _ _); by vm_compute|].
  repeat split; by vm_compute.
Qed.
(** ** tt.c: the replacement policy *)

(** What the loop computes: either nothing beat the start value, or the
    result is the first of the strictly smallest candidates. *)
Lemma min_fold_spec (gen : Z) (skip : nat -> bool) (l : list (nat * TTEntry))
    (r : option nat) (v : Z) :
  (foldl (min_step gen skip) (r, v) l = (r, v)
   /\ forall ie, ie ∈ l -> skip ie.1 = false -> v <= replacement_value ie.2 gen)
  \/ (exists l1 ie l2,
        l = l1 ++ ie :: l2 /\ skip ie.1 = false
        /\ foldl (min_step gen skip) (r, v) l
           = (Some ie.1, replacement_value ie.2 gen)
        /\ replacement_value ie.2 gen < v
        /\ (forall je, je ∈ l1 -> skip je.1 = false ->
              replacement_value ie.2 gen < replacement_value je.2 gen)
        /\ (forall je, je ∈ l2 -> skip je.1 = false ->
              replacement_value ie.2 gen <= replacement_value je.2 gen)).
Proof.
  revert r v. induction l as [|x l IH]; intros r v; cbn [foldl].
  { left. split; [done|]. intros ie Hie. by apply elem_of_nil in Hie. }
  assert (Hstep : min_step gen skip (r, v) x
                  = if skip x.1 then (r, v)
                    else if replacement_value x.2 gen <? v
                         then (Some x.1, replacement_value x.2 gen) else (r, v))
    by reflexivity.
  rewrite Hstep. clear Hstep.
  destruct (skip x.1) eqn:Hskip;
    [|destruct (Z.ltb_spec (replacement_value x.2 gen) v) as [Hlt|Hge]].
  - destruct (IH r v) as [[Heq Hall]|(l1 & ie & l2 & -> & Hs & Heq & Hlt & H1 & H2)].
    + left. split; [done|]. intros ie [->|Hie]%elem_of_cons Hs;
        [congruence|by apply Hall].
    + right. exists (x :: l1), ie, l2. repeat split; try done.
      intros je [->|Hje]%elem_of_cons Hsj; [congruence|by apply H1].
  - destruct (IH (Some x.1) (replacement_value x.2 gen))
      as [[Heq Hall]|(l1 & ie & l2 & -> & Hs & Heq & Hlt' & H1 & H2)].
    + right. exists [], x, l. repeat split; try done.
      intros je Hje. by apply elem_of_nil in Hje.
    + right. exists (x :: l1), ie, l2. repeat split; try done; [lia|].
      intros je [->|Hje]%elem_of_cons Hsj; [lia|by apply H1].
  - destruct (IH r v) as [[Heq Hall]|(l1 & ie & l2 & -> & Hs & Heq & Hlt' & H1 & H2)].
    + left. split; [done|]. intros ie [->|Hie]%elem_of_cons Hs;
        [lia|by apply Hall].
    + right. exists (x :: l1), ie, l2. repeat split; try done.
      intros je [->|Hje]%elem_of_cons Hsj; [lia|by apply H1].
Qed.

(** Position and index agree in [imap pair c]. *)
Lemma imap_pair_split (c : list TTEntry) l1 (i : nat) (e : TTEntry) l2 :
  imap pair c = l1 ++ (i, e) :: l2 ->
  c !! i = Some e
  /\ (forall j e', (j < i)%nat -> c !! j = Some e' -> (j, e') ∈ l1)
  /\ (forall j e', (i < j)%nat -> c !! j = Some e' -> (j, e') ∈ l2).
Proof.
  intros Hsplit.
  assert (Hat : forall n, (l1 ++ (i, e) :: l2) !! n = pair n <$> c !! n)
    by (intros n; by rewrite <- Hsplit, list_lookup_imap).
  assert (Hi : i = length l1 /\ c !! i = Some e).
  { specialize (Hat (length l1)). rewrite list_lookup_middle in Hat by done.
    destruct (c !! length l1) as [e0|] eqn:E; simplify_eq/=. done. }
  destruct Hi as [-> Hc]. split; [done|]. split.
  - intros j e' Hj Hje. specialize (Hat j).
    rewrite lookup_app_l, Hje in Hat by done.
    eapply list_elem_of_lookup_2, Hat.
  - intros j e' Hj Hje. specialize (Hat j).
    rewrite lookup_app_r, Hje in Hat by lia.
    destruct (j - length l1)%nat as [|n] eqn:En; [lia|].
    cbn in Hat. eapply list_elem_of_lookup_2, Hat.
Qed.

Lemma elem_of_imap_pair (c : list TTEntry) (ie : nat * TTEntry) :
  ie ∈ imap pair c -> c !! ie.1 = Some ie.2.
Proof.
  intros (n & Hn)%list_elem_of_lookup_1.
  rewrite list_lookup_imap in Hn.
  destruct (c !! n) eqn:E; simplify_eq/=. done.
Qed.

(** A "track the worst entry" loop started from the sentinel 1000000 ends
    on the first lowest slot among those it does not skip. *)
Lemma min_fold_first_lowest (gen : Z) (skip : nat -> bool) (c : list TTEntry) :
  Forall (fun e => replacement_value e gen < 1000000) c ->
  (exists i e, c !! i = Some e /\ skip i = false) ->
  exists w,
    (foldl (min_step gen skip) (None, 1000000) (imap pair c)).1 = Some w
    /\ first_lowest gen (fun j => skip j = false) c w.
Proof.
  intros Hlt (i0 & e0 & Hi0 & Hs0).
  destruct (min_fold_spec gen skip (imap pair c) None 1000000)
    as [[_ Hall]|(l1 & [i e] & l2 & Hsplit & Hs & -> & _ & H1 & H2)].
  - exfalso.
    assert (Hin : (i0, e0) ∈ imap pair c).
    { eapply list_elem_of_lookup_2. by rewrite list_lookup_imap, Hi0. }
    specialize (Hall _ Hin Hs0). cbn in Hall.
    eapply Forall_lookup_1 in Hlt; [|exact Hi0]. cbn in Hlt. lia.
  - destruct (imap_pair_split _ _ _ _ _ Hsplit) as (Hc & Hbefore & Hafter).
    exists i. split; [done|]. exists e. cbn [fst snd] in *.
    split; [done|]. split; [done|]. split.
    + intros j e' Hsj Hj.
      destruct (lt_eq_lt_dec j i) as [[Hlt'| ->]|Hgt].
      * specialize (H1 _ (Hbefore _ _ Hlt' Hj) Hsj). cbn in H1. lia.
      * simplify_eq. lia.
      * specialize (H2 _ (Hafter _ _ Hgt Hj) Hsj). cbn in H2. lia.
    + intros j e' Hsj Hlt' Hj.
      exact (H1 _ (Hbefore _ _ Hlt' Hj) Hsj).
Qed.

(** The first pass when no slot holds the key. *)
Lemma scan_no_match (key gen : Z) (l : list (nat * TTEntry)) (r : option nat)
    (v : Z) :
  Forall (fun ie => tte_key ie.2 <> key) l ->
  foldl (scan_step key gen) (Worst r v) l
  = Worst (foldl (min_step gen (fun _ => false)) (r, v) l).1
          (foldl (min_step gen (fun _ => false)) (r, v) l).2.
Proof.
  revert r v. induction l as [|x l IH]; intros r v Hl; [done|].
  apply Forall_cons in Hl as [Hx Hl]. cbn [foldl].
  assert (Hs : scan_step key gen (Worst r v) x
               = if replacement_value x.2 gen <? v
                 then Worst (Some x.1) (replacement_value x.2 gen)
                 else Worst r v).
  { unfold scan_step. by destruct (Z.eqb_spec (tte_key x.2) key). }
  assert (Hm : min_step gen (fun _ => false) (r, v) x
               = if replacement_value x.2 gen <? v
                 then (Some x.1, replacement_value x.2 gen) else (r, v))
    by reflexivity.
  rewrite Hs, Hm. destruct (replacement_value x.2 gen <? v); by apply IH.
Qed.

Lemma scan_matched (key gen : Z) (l : list (nat * TTEntry)) (i : nat) :
  foldl (scan_step key gen) (Matched i) l = Matched i.
Proof. induction l as [|x l IH]; [done|]. exact IH. Qed.

(** The first pass when slot [i] is the first one holding the key. *)
Lemma scan_first_match (key gen : Z) (c : list TTEntry) (i : nat) (e : TTEntry) :
  first_with_key key c i e ->
  scan_cluster key gen c = Matched i.
Proof.
  intros (Hi & Hk & Hfirst). unfold scan_cluster.
  assert (Hsplit : imap pair c
                   = imap pair (take i c) ++ (i, e) :: imap (pair ∘ (fun n => S i + n)%nat) (drop (S i) c)).
  { rewrite <- (take_drop_middle c i e) at 1 by done.
    rewrite imap_app. cbn [imap]. 
    assert (Hlen : length (take i c) = i).
    { rewrite length_take. apply lookup_lt_Some in Hi. lia. }
    rewrite Hlen. f_equal. rewrite Nat.add_0_r. f_equal.
    apply imap_ext. intros n x _. cbn. f_equal. lia. }
  rewrite Hsplit, foldl_app. cbn [foldl].
  rewrite scan_no_match.
  - unfold scan_step at 2. cbn [fst snd].
    destruct (Z.eqb_spec (tte_key e) key); [|done]. apply scan_matched.
  - apply Forall_forall. intros [j e'] Hin. cbn.
    apply elem_of_imap_pair in Hin. cbn in Hin.
    apply lookup_take_Some in Hin as [Hj Hlt]. by eapply Hfirst.
Qed.

Lemma first_lowest_ext (gen : Z) (P Q : nat -> Prop) (c : list TTEntry) (w : nat) :
  (forall j, P j <-> Q j) -> first_lowest gen P c w -> first_lowest gen Q c w.
Proof.
  intros HPQ (e & Hw & HP & Hmin & Hfirst). exists e.
  split; [done|]. split; [by apply HPQ|]. split.
  - intros j e' Hj. apply Hmin. by apply HPQ.
  - intros j e' Hj. apply Hfirst. by apply HPQ.
Qed.

Lemma replacement_value_bound (e : TTEntry) (gen : Z) :
  entry_ok e -> 0 <= gen <= 255 -> replacement_value e gen < 1000000.
Proof.
  intros [Hd Hg] Hgen. unfold replacement_value, in_s16 in *.
  repeat case_match; lia.
Qed.

(** An empty slot is worth -1000, less than any stored entry of depth at
    least -122. *)
Lemma replacement_value_empty (e e' : TTEntry) (gen : Z) :
  tte_key e = 0 -> tte_key e' <> 0 -> entry_ok e' -> 0 <= gen <= 255 ->
  -122 <= tte_depth e' ->
  replacement_value e gen = -1000
  /\ replacement_value e gen < replacement_value e' gen.
Proof.
  intros He He' [Hd Hg] Hgen Hdepth. unfold replacement_value.
  rewrite He. cbn [Z.eqb].
  destruct (Z.eqb_spec (tte_key e') 0); [done|].
  split; [done|]. repeat case_match; lia.
Qed.

Lemma tt_cluster_wf (tt : TranspositionTable) (index : Z) :
  tt_wf tt ->
  length (tt_cluster tt index) = TT_CLUSTER_SIZE
  /\ Forall entry_ok (tt_cluster tt index).
Proof.
  intros [_ Hwf]. unfold tt_cluster.
  destruct (tt_clusters tt !! index) as [c|] eqn:E; cbn [default].
  - by apply Hwf in E.
  - split; [done|]. unfold cluster_zero.
    apply Forall_replicate. split; cbn; unfold in_s16; lia.
Qed.

Lemma tt_cluster_set (tt : TranspositionTable) (index : Z) (c : list TTEntry) :
  tt_cluster (tt_set_cluster tt index c) index = c.
Proof. unfold tt_cluster, tt_set_cluster. cbn. by rewrite lookup_insert_eq. Qed.

Lemma tt_cluster_set_ne (tt : TranspositionTable) (index j : Z) (c : list TTEntry) :
  j <> index -> tt_cluster (tt_set_cluster tt index c) j = tt_cluster tt j.
Proof.
  intros Hne. unfold tt_cluster, tt_set_cluster. cbn.
  by rewrite lookup_insert_ne.
Qed.

(** The two outcomes of [tt_store_with_move] in terms of the scan. *)
Lemma tt_store_matched tt key score best_move depth flag i e :
  scan_cluster key (tt_generation tt) (tt_cluster tt (tt_cluster_index tt key))
    = Matched i ->
  tt_cluster tt (tt_cluster_index tt key) !! i = Some e ->
  tt_store_with_move tt key score best_move depth flag
  = if update_allowed depth flag e
    then tt_set_cluster tt (tt_cluster_index tt key)
           (<[i := tt_write key score (kept_move best_move e) depth flag
                     (tt_generation tt)]>
              (tt_cluster tt (tt_cluster_index tt key)))
    else tt.
Proof.
  intros Hscan Hi. unfold tt_store_with_move. rewrite Hscan, Hi. reflexivity.
Qed.

Lemma tt_store_replaced tt key score best_move depth flag w v e :
  scan_cluster key (tt_generation tt) (tt_cluster tt (tt_cluster_index tt key))
    = Worst (Some w) v ->
  tt_cluster tt (tt_cluster_index tt key) !! w = Some e ->
  tt_cluster (tt_store_with_move tt key score best_move depth flag)
             (tt_cluster_index tt key)
  = <[(if protected_entry (tt_generation tt) depth flag e
       then default w (second_worst (tt_generation tt) w
                         (tt_cluster tt (tt_cluster_index tt key)))
       else w)
      := tt_write key score best_move depth flag (tt_generation tt)]>
      (tt_cluster tt (tt_cluster_index tt key))
  /\ forall j, j <> tt_cluster_index tt key ->
       tt_cluster (tt_store_with_move tt key score best_move depth flag) j
       = tt_cluster tt j.
Proof.
  intros Hscan Hw. unfold tt_store_with_move. rewrite Hscan, Hw.
  fold (protected_entry (tt_generation tt) depth flag e).
  split.
  - unfold tt_cluster at 1. cbn [tt_clusters]. by rewrite lookup_insert_eq.
  - intros j Hne. unfold tt_cluster at 1. cbn [tt_clusters].
    by rewrite lookup_insert_ne.
Qed.

Lemma tt_store_other tt key score best_move depth flag j :
  j <> tt_cluster_index tt key ->
  tt_cluster (tt_store_with_move tt key score best_move depth flag) j
  = tt_cluster tt j.
Proof.
  intros Hne. unfold tt_store_with_move.
  repeat case_match; try done; try (by apply tt_cluster_set_ne);
    unfold tt_cluster; cbn [tt_clusters]; by rewrite lookup_insert_ne.
Qed.

(** C3 (transposition-table store), as the code has it.  The store touches
    only the cluster [key & (num_clusters - 1)].  If a slot holds the key,
    the first such slot is rewritten exactly when the update test passes,
    keeping its best move when the incoming one is [MOVE_NONE]; otherwise
    the table is unchanged.  If no slot holds the key, the new entry goes
    to the first slot [w] of lowest replacement value, unless that slot is
    a protected entry, in which case it goes to the first lowest slot [w']
    among the other three, whatever that slot holds. *)
Theorem tt_store_with_move_policy (tt : TranspositionTable)
    (key score best_move depth flag : Z) :
  tt_wf tt ->
  let index := Z.land key (tt_num_clusters tt - 1) in
  let c := tt_cluster tt index in
  let gen := tt_generation tt in
  let tt' := tt_store_with_move tt key score best_move depth flag in
  (forall j, j <> index -> tt_cluster tt' j = tt_cluster tt j)
  /\ (forall i e, first_with_key key c i e ->
        if update_allowed depth flag e
        then tt_cluster tt' index
             = <[i := tt_write key score (kept_move best_move e) depth flag gen]> c
        else tt' = tt)
  /\ (Forall (fun e => tte_key e <> key) c ->
        exists w e,
          first_lowest gen (fun _ => True) c w /\ c !! w = Some e
          /\ if protected_entry gen depth flag e
             then exists w',
                 first_lowest gen (fun j => j <> w) c w'
                 /\ tt_cluster tt' index
                    = <[w' := tt_write key score best_move depth flag gen]> c
             else tt_cluster tt' index
                  = <[w := tt_write key score best_move depth flag gen]> c).
Proof.
  intros Hwf. cbn zeta.
  change (Z.land key (tt_num_clusters tt - 1)) with (tt_cluster_index tt key).
  set (index := tt_cluster_index tt key).
  set (c := tt_cluster tt index).
  set (gen := tt_generation tt).
  set (tt' := tt_store_with_move tt key score best_move depth flag).
  destruct (tt_cluster_wf tt index Hwf) as [Hlen Hok]. fold c in Hlen, Hok.
  assert (Hgen : 0 <= gen <= 255) by apply Hwf.
  assert (Hbound : Forall (fun e => replacement_value e gen < 1000000) c).
  { eapply Forall_impl; [exact Hok|]. intros e He.
    by apply replacement_value_bound. }
  (* the scan either meets the key or ends on the first lowest slot *)
  assert (Hnomatch : Forall (fun e => tte_key e <> key) c ->
            exists w v e, scan_cluster key gen c = Worst (Some w) v
                          /\ c !! w = Some e
                          /\ first_lowest gen (fun _ => True) c w).
  { intros Hno.
    destruct (min_fold_first_lowest gen (fun _ => false) c Hbound)
      as (w & Hw & Hfl).
    { destruct c as [|e0 c0]; [done|]. by exists 0%nat, e0. }
    exists w, (foldl (min_step gen (fun _ => false)) (None, 1000000)
                 (imap pair c)).2.
    destruct Hfl as (e & Hwe & Hfl). exists e.
    split; [|split; [done|]].
    - unfold scan_cluster. rewrite scan_no_match, Hw; [done|].
      apply Forall_forall. intros ie Hie%elem_of_imap_pair.
      eapply Forall_lookup_1 in Hno; [|exact Hie]. done.
    - apply (first_lowest_ext gen (fun _ => false = false)); [done|].
      by exists e. }
  split; [|split].
  - (* other clusters *)
    intros j Hne. by apply tt_store_other.
  - (* the key is present *)
    intros i e Hfirst.
    pose proof (scan_first_match key gen c i e Hfirst) as Hscan.
    destruct Hfirst as (Hi & _).
    subst tt'. rewrite (tt_store_matched tt key score best_move depth flag i e);
      [|exact Hscan|exact Hi].
    destruct (update_allowed depth flag e); [|done].
    apply tt_cluster_set.
  - (* the key is absent *)
    intros Hno. destruct (Hnomatch Hno) as (w & v & e & Hscan & Hw & Hfl).
    clear Hnomatch. subst tt' c gen index.
    exists w, e. split; [done|]. split; [done|].
    destruct (tt_store_replaced tt key score best_move depth flag w v e Hscan Hw)
      as [Hres _].
    destruct (protected_entry (tt_generation tt) depth flag e); [|exact Hres].
    destruct (min_fold_first_lowest (tt_generation tt)
                (fun i => bool_decide (i = w)) _ Hbound)
      as (w' & Hw' & Hfl').
    { destruct (tt_cluster tt (tt_cluster_index tt key)) as [|e0 [|e1 c1]];
        [done..|].
      destruct w as [|w].
      - exists 1%nat, e1. split; [done|]. by apply bool_decide_eq_false.
      - exists 0%nat, e0. split; [done|]. by apply bool_decide_eq_false. }
    exists w'. split.
    + eapply first_lowest_ext; [|exact Hfl'].
      intros j. cbn. by rewrite bool_decide_eq_false.
    + unfold second_worst in Hres. by rewrite Hw' in Hres.
Qed.

(** The hypothesis of the theorem is an invariant of the table. *)
Lemma tt_write_ok (key score best_move depth flag gen : Z) :
  0 <= gen <= 255 -> entry_ok (tt_write key score best_move depth flag gen).
Proof. intros Hgen. split; [apply s16_in_range|done]. Qed.

Lemma tt_create_wf (sizeof_cluster size_mb : Z) :
  tt_wf (tt_create sizeof_cluster size_mb).
Proof.
  split; [done|]. intros index c Hc. unfold tt_create in Hc.
  cbn [tt_clusters] in Hc. by rewrite lookup_empty in Hc.
Qed.

Lemma tt_new_search_wf (tt : TranspositionTable) :
  tt_wf tt -> tt_wf (tt_new_search tt).
Proof.
  intros [Hgen Hc]. split; [|exact Hc]. cbn. unfold u8.
  pose proof (Z.mod_pos_bound (tt_generation tt + 1) 256 ltac:(lia)).
  case_match; lia.
Qed.

Lemma tt_set_cluster_wf (tt : TranspositionTable) (index : Z) (i : nat)
    (e : TTEntry) :
  tt_wf tt -> entry_ok e ->
  tt_wf (tt_set_cluster tt index (<[i := e]> (tt_cluster tt index))).
Proof.
  intros Hwf He. destruct (tt_cluster_wf tt index Hwf) as [Hlen Hok].
  destruct Hwf as [Hgen Hc]. split; [done|].
  intros j c. cbn. destruct (decide (index = j)) as [->|Hne].
  - rewrite lookup_insert_eq. intros [= <-].
    split; [by rewrite length_insert|by apply Forall_insert].
  - rewrite lookup_insert_ne by done. apply Hc.
Qed.

Lemma tt_store_with_move_wf (tt : TranspositionTable)
    (key score best_move depth flag : Z) :
  tt_wf tt -> tt_wf (tt_store_with_move tt key score best_move depth flag).
Proof.
  intros Hwf. pose proof Hwf as [Hgen _]. unfold tt_store_with_move.
  repeat case_match; try done;
    try (by apply tt_set_cluster_wf; [|apply tt_write_ok]).
  all: match goal with
       | |- tt_wf (mkTT (<[?idx := <[?r := ?e]> ?c]> ?m) ?n ?cnt ?g) =>
           pose proof (tt_set_cluster_wf tt idx r e Hwf (tt_write_ok _ _ _ _ _ _ Hgen))
             as [_ Hc];
           split; [done|exact Hc]
       end.
Qed.

Lemma tt_full_exact_wf : tt_wf tt_full_exact.
Proof.
  split; [done|]. intros index c Hc. unfold tt_full_exact in Hc.
  cbn [tt_clusters] in Hc. apply lookup_singleton_Some in Hc as [_ <-].
  split; [done|]. repeat constructor; cbn; unfold in_s16; lia.
Qed.

(** The theorem applies to a store of the new key 20 (depth 1, lower
    bound) into the full cluster of [tt_full_exact]. *)
Lemma tt_store_with_move_policy_witness :
  tt_wf tt_full_exact
  /\ (let tt := tt_full_exact in
      let index := Z.land 20 (tt_num_clusters tt - 1) in
      let c := tt_cluster tt index in
      let gen := tt_generation tt in
      let tt' := tt_store_with_move tt 20 (-30) MOVE_NONE 1 TT_FLAG_LOWER in
      (forall j, j <> index -> tt_cluster tt' j = tt_cluster tt j)
      /\ (forall i e, first_with_key 20 c i e ->
            if update_allowed 1 TT_FLAG_LOWER e
            then tt_cluster tt' index
                 = <[i := tt_write 20 (-30) (kept_move MOVE_NONE e) 1
                           TT_FLAG_LOWER gen]> c
            else tt' = tt)
      /\ (Forall (fun e => tte_key e <> 20) c ->
            exists w e,
              first_lowest gen (fun _ => True) c w /\ c !! w = Some e
              /\ if protected_entry gen 1 TT_FLAG_LOWER e
                 then exists w',
                     first_lowest gen (fun j => j <> w) c w'
                     /\ tt_cluster tt' index
                        = <[w' := tt_write 20 (-30) MOVE_NONE 1 TT_FLAG_LOWER gen]> c
                 else tt_cluster tt' index
                      = <[w := tt_write 20 (-30) MOVE_NONE 1 TT_FLAG_LOWER gen]> c)).
Proof.
  split; [exact tt_full_exact_wf|].
  exact (tt_store_with_move_policy tt_full_exact 20 (-30) MOVE_NONE 1
           TT_FLAG_LOWER tt_full_exact_wf).
Defined.

(** C3, counterexample to the claim as stated.  Cluster 0 of
    [tt_full_exact] holds four exact entries of depth 20 from the current
    generation; none holds key 20.  Storing key 20 with depth 1 and a
    lower-bound flag passes over slot 0 and overwrites slot 1, itself a
    current-generation exact entry deeper than the incoming depth by more
    than 3: such an entry is evicted by a non-exact store. *)
Lemma tt_store_evicts_protected :
  let c := tt_cluster tt_full_exact 0 in
  let c' := tt_cluster (tt_store_with_move tt_full_exact 20 (-30) MOVE_NONE 1
                          TT_FLAG_LOWER) 0 in
  tt_cluster_index tt_full_exact 20 = 0
  /\ Forall (fun e => tte_key e <> 20) c
  /\ exists e, c !! 1%nat = Some e
               /\ protected_entry (tt_generation tt_full_exact) 1 TT_FLAG_LOWER e
                  = true
               /\ e ∉ c'.
Proof.
  split; [done|]. split.
  - vm_compute. repeat constructor; discriminate.
  - eexists. split; [vm_compute; reflexivity|]. split; [by vm_compute|].
    vm_compute. intros H.
    repeat (apply elem_of_cons in H as [H|H]; [discriminate H|]).
    by apply elem_of_nil in H.
Qed.
(** ** uci.c: time allocation *)

Section TimeFacts.

Variable phase_eval : Position -> Z.

(** The last three clamps of [allocate_time], whatever the base time. *)
Lemma clamp_bounds (remaining base max0 : Z) :
  0 < remaining ->
  let allocated0 := if Z.quot remaining 2 <? base then Z.quot remaining 2 else base in
  let allocated := if allocated0 <? 50 then 50 else allocated0 in
  let max1 := if s32 (remaining - 50) <? max0 then s32 (remaining - 50) else max0 in
  let max := if max1 <? allocated then allocated else max1 in
  50 <= allocated
  /\ allocated <= Z.max 50 (Z.quot remaining 2)
  /\ allocated <= max
  /\ (remaining < 2 ^ 31 -> max <= Z.max allocated (remaining - 50)).
Proof.
  intros Hrem. cbn zeta.
  assert (Hs : remaining < 2 ^ 31 -> s32 (remaining - 50) = remaining - 50).
  { intros Hlt. unfold s32. rewrite Z.mod_small; lia. }
  repeat split.
  - repeat case_match; lia.
  - repeat case_match; lia.
  - repeat case_match; lia.
  - intros Hlt. rewrite (Hs Hlt). repeat case_match; lia.
Qed.

(** C8 (time caps), as the code has it.  With a positive clock, no fixed
    move time and no infinite mode, a result is produced unless
    [movestogo] is -3; the allocated time is at least 50 ms and at most
    the larger of 50 ms and half the clock; the maximum is at least the
    allocated time and at most the larger of the allocated time and the
    clock minus 50 ms.  From a clock of 100 ms on, this gives the three
    caps of the claim. *)
Theorem allocate_time_caps (tc : TimeControl) (pos : Position) (last_score : Z)
    (r : TimeAllocation) :
  movetime tc <= 0 -> infinite tc = 0 ->
  0 < remaining_clock tc pos < 2 ^ 31 ->
  allocate_time phase_eval tc pos last_score = Some r ->
  let remaining := remaining_clock tc pos in
  50 <= allocated_time r
  /\ allocated_time r <= Z.max 50 (Z.quot remaining 2)
  /\ allocated_time r <= max_time r
  /\ max_time r <= Z.max (allocated_time r) (remaining - 50)
  /\ (100 <= remaining ->
      allocated_time r <= Z.quot remaining 2
      /\ max_time r <= remaining - 50).
Proof.
  intros Hmt Hinf Hrem. unfold allocate_time.
  destruct (Z.ltb_spec 0 (movetime tc)); [lia|].
  rewrite Hinf. cbn [nz Z.eqb negb].
  destruct (Z.leb_spec (remaining_clock tc pos) 0); [lia|].
  case_match; [done|].
  intros [= <-]. cbn [allocated_time max_time]. cbn zeta.
  match goal with
  | |- context [if Z.quot _ 2 <? ?b then _ else _] => set (base := b)
  end.
  match goal with
  | |- context [if s32 (_ - 50) <? ?m then _ else _] => set (max0 := m)
  end.
  destruct (clamp_bounds (remaining_clock tc pos) base max0 ltac:(lia))
    as (H50 & Hhalf & Hmax & Hcap).
  specialize (Hcap ltac:(lia)). cbn zeta in *.
  split; [exact H50|]. split; [exact Hhalf|]. split; [exact Hmax|].
  split; [exact Hcap|].
  intros H100.
  assert (50 <= Z.quot (remaining_clock tc pos) 2)
    by (apply Z.quot_le_lower_bound; lia).
  assert (Z.quot (remaining_clock tc pos) 2 <= remaining_clock tc pos - 50).
  { pose proof (Z.quot_rem' (remaining_clock tc pos) 2).
    pose proof (Z.rem_bound_pos (remaining_clock tc pos) 2 ltac:(lia) ltac:(lia)).
    lia. }
  lia.
Qed.

End TimeFacts.

(** The theorem applies to a five-minute clock with a two-second
    increment in the position after 1. e4. *)
Lemma allocate_time_caps_witness :
  let tc := mkTimeControl 300000 300000 2000 2000 0 0 0 0 0 in
  let r := mkTimeAllocation 12214 36642 12214 4071 in
  movetime tc <= 0 /\ infinite tc = 0
  /\ 0 < remaining_clock tc pos_after_e4 < 2 ^ 31
  /\ allocate_time phase_middle tc pos_after_e4 0 = Some r
  /\ 50 <= allocated_time r
  /\ allocated_time r <= Z.max 50 (Z.quot (remaining_clock tc pos_after_e4) 2)
  /\ allocated_time r <= max_time r
  /\ max_time r <= Z.max (allocated_time r) (remaining_clock tc pos_after_e4 - 50)
  /\ (100 <= remaining_clock tc pos_after_e4 ->
      allocated_time r <= Z.quot (remaining_clock tc pos_after_e4) 2
      /\ max_time r <= remaining_clock tc pos_after_e4 - 50).
Proof.
  intros tc r.
  assert (H1 : movetime tc <= 0) by (cbn; lia).
  assert (H2 : infinite tc = 0) by reflexivity.
  assert (H3 : 0 < remaining_clock tc pos_after_e4 < 2 ^ 31)
    by (vm_compute; split; reflexivity).
  assert (H4 : allocate_time phase_middle tc pos_after_e4 0 = Some r)
    by (vm_compute; reflexivity).
  split; [exact H1|]. split; [exact H2|]. split; [exact H3|].
  split; [exact H4|].
  exact (allocate_time_caps phase_middle tc pos_after_e4 0 r H1 H2 H3 H4).
Defined.

(** C8, counterexample to the claim as stated: with 60 ms on the clock
    (no increment, no moves-to-go) the allocated time is 50 ms, more than
    half of the clock, and the maximum is 50 ms, more than the clock minus
    50 ms. *)
Lemma allocate_time_short_clock :
  let tc := mkTimeControl 60 60 0 0 0 0 0 0 0 in
  0 < remaining_clock tc pos_castle
  /\ movetime tc = 0 /\ infinite tc = 0
  /\ allocate_time phase_middle tc pos_castle 0
     = Some (mkTimeAllocation 50 50 1 100)
  /\ Z.quot (remaining_clock tc pos_castle) 2 < 50
  /\ remaining_clock tc pos_castle - 50 < 50.
Proof. by vm_compute. Qed.
(** ** threads.c: the vote *)

(** The running selection after some helpers, extended by one more. *)
Lemma threads_vote_snoc (main : Thread) (helpers : list Thread) (h : Thread) :
  threads_vote main (helpers ++ [h]) = vote_step (threads_vote main helpers) h.
Proof. unfold threads_vote. by rewrite foldl_app. Qed.

(** The selected score never falls below the main worker's, and the
    selected pair is the main worker's or some helper's that has a move
    and beats the main score by more than 50. *)
Lemma threads_vote_origin (main : Thread) (helpers : list Thread) :
  let sel := threads_vote main helpers in
  thread_best_score main <= sel.2
  /\ (sel = (thread_best_move main, thread_best_score main)
      \/ exists h, h ∈ helpers
           /\ sel = (thread_best_move h, thread_best_score h)
           /\ thread_best_move h <> MOVE_NONE
           /\ thread_best_score main + 50 < thread_best_score h).
Proof.
  induction helpers as [|h helpers IH] using rev_ind.
  { cbn. split; [lia|by left]. }
  rewrite threads_vote_snoc. cbn zeta in *.
  destruct IH as [Hle Hsel]. unfold vote_step.
  destruct (Z.eqb_spec (thread_best_move h) MOVE_NONE) as [|Hm]; cbn [negb andb].
  - split; [done|]. destruct Hsel as [|(h' & ? & ?)]; [by left|right].
    exists h'. split; [|done]. apply elem_of_app. by left.
  - destruct (Z.ltb_spec ((threads_vote main helpers).2 + 50)
                (thread_best_score h)) as [Hlt|Hge].
    + cbn [snd]. split; [lia|]. right. exists h.
      split; [apply elem_of_app; right; by apply list_elem_of_singleton|].
      split; [done|]. split; [done|lia].
    + split; [done|]. destruct Hsel as [|(h' & ? & ?)]; [by left|right].
      exists h'. split; [|done]. apply elem_of_app. by left.
Qed.

(** No helper with a move beats the final selection by more than 50. *)
Lemma threads_vote_final (main : Thread) (helpers : list Thread) (h : Thread) :
  h ∈ helpers -> thread_best_move h <> MOVE_NONE ->
  thread_best_score h <= (threads_vote main helpers).2 + 50.
Proof.
  induction helpers as [|h' helpers IH] using rev_ind.
  { intros Hin. by apply elem_of_nil in Hin. }
  rewrite threads_vote_snoc. intros Hin Hm.
  assert (Hmono : (threads_vote main helpers).2
                  <= (vote_step (threads_vote main helpers) h').2).
  { unfold vote_step. case_match; [|lia]. cbn [snd].
    apply andb_prop in H as [_ H]. apply Z.ltb_lt in H. lia. }
  apply elem_of_app in Hin as [Hin|Hin%list_elem_of_singleton].
  - specialize (IH Hin Hm). lia.
  - subst h'. unfold vote_step.
    destruct (Z.eqb_spec (thread_best_move h) MOVE_NONE) as [|_]; [done|].
    cbn [negb andb].
    destruct (Z.ltb_spec ((threads_vote main helpers).2 + 50)
                (thread_best_score h)); cbn [snd]; lia.
Qed.

(** C7 (vote), as the code has it: the margin is strict.  The move
    returned is the main worker's unless a helper with a move scored more
    than 50 above the selection current at its turn, and then it is such a
    helper's move; helpers are taken in thread order, each against the
    selection so far, so that in the end no helper with a move is more
    than 50 above the selected score.  In particular, when no helper with
    a move is more than 50 above the main worker, the main worker's move
    is returned. *)
Theorem threads_vote_margin (main : Thread) (helpers : list Thread) :
  (forall h, threads_vote main (helpers ++ [h])
             = if negb (thread_best_move h =? MOVE_NONE)
                  && ((threads_vote main helpers).2 + 50 <? thread_best_score h)
               then (thread_best_move h, thread_best_score h)
               else threads_vote main helpers)
  /\ (threads_start_search_result main helpers = thread_best_move main
      \/ exists h, h ∈ helpers
           /\ threads_start_search_result main helpers = thread_best_move h
           /\ thread_best_move h <> MOVE_NONE
           /\ thread_best_score main + 50 < thread_best_score h)
  /\ (forall h, h ∈ helpers -> thread_best_move h <> MOVE_NONE ->
        thread_best_score h <= (threads_vote main helpers).2 + 50)
  /\ ((forall h, h ∈ helpers -> thread_best_move h <> MOVE_NONE ->
         thread_best_score h <= thread_best_score main + 50) ->
      threads_start_search_result main helpers = thread_best_move main).
Proof.
  split; [intros h; apply threads_vote_snoc|].
  destruct (threads_vote_origin main helpers) as [Hle Hsel].
  unfold threads_start_search_result.
  split; [|split].
  - destruct Hsel as [->|(h & Hin & -> & Hm & Hlt)]; [by left|right].
    by exists h.
  - intros h. apply threads_vote_final.
  - intros Hnone. destruct Hsel as [->|(h & Hin & -> & Hm & Hlt)]; [done|].
    specialize (Hnone h Hin Hm). lia.
Qed.

(** C7, counterexample to the claim as stated: the helper's move scores
    exactly 50 more than the main worker's ("at least 50 better"), and the
    main worker's move is returned all the same. *)
Lemma threads_vote_exactly_50 :
  let main := mkThread 796 0 in
  let helper := mkThread 1234 50 in
  thread_best_move helper <> MOVE_NONE
  /\ thread_best_score main + 50 <= thread_best_score helper
  /\ threads_start_search_result main [helper] = thread_best_move main
  /\ threads_start_search_result main [helper] <> thread_best_move helper.
Proof. cbn. repeat split; (lia || discriminate || reflexivity). Qed.

(** ** movepicker.c: the staged picker *)

(** C4 (staged picker).  In the well-formed position [pos_castle] castling
    king-side is generated and legal, but [movegen_is_pseudo_legal]
    rejects it (its target square holds the own rook).  With that move as
    the TT move the picker therefore skips it in the TT stage, and the
    quiet stage drops it again as "the TT move": the picker ends after 14
    of the 15 legal moves, and the legal TT move is never yielded.  Without
    a TT move all 15 are yielded. *)
Theorem picker_drops_castling_tt_move :
  position_ok pos_castle = true
  /\ move_castle ∈ legal_moves pos_castle
  /\ length (legal_moves pos_castle) = 15%nat
  /\ movegen_is_pseudo_legal pos_castle move_castle = false
  /\ (exists yielded,
        picker_moves0 300
          (movepicker_init pos_castle move_castle MOVE_NONE MOVE_NONE MOVE_NONE
             history_zero) = Some yielded
        /\ length yielded = 14%nat
        /\ move_castle ∉ yielded)
  /\ (exists yielded,
        picker_moves0 300
          (movepicker_init pos_castle MOVE_NONE MOVE_NONE MOVE_NONE MOVE_NONE
             history_zero) = Some yielded
        /\ yielded ≡ₚ legal_moves pos_castle).
Proof.
  split; [by vm_compute|].
  split; [refine (bool_decide_unpack _ _); by vm_compute|].
  split; [by vm_compute|].
  split; [by vm_compute|].
  split.
  - eexists. split; [vm_compute; reflexivity|]. split; [reflexivity|].
    refine (bool_decide_unpack _ _). by vm_compute.
  - eexists. split; [vm_compute; reflexivity|].
    assert (Hl : legal_moves pos_castle
                 = [327; 391; 967; 1479; 1991; 2503; 3015; 3527; 4039; 196;
                    324; 708; 772; 836; 131524]) by (by vm_compute).
    by rewrite Hl.
Qed.

(** ** search.c: quiescence *)

Section QuiescenceFacts.
Variable nnue_available : bool.
Variable nnue_refresh_accumulator : Position -> Accumulator.
Variable nnue_update_accumulator :
  Accumulator -> Z -> Z -> Z -> Z -> Z -> Z -> Accumulator.
Variable evaluate : Position -> Z.
Variable threads_should_stop : nat -> bool.
Variable get_time_ms : nat -> Z.

Local Abbreviation evaluate_position := (evaluate_position evaluate).
Local Abbreviation is_time_up_at :=
  (is_time_up_at threads_should_stop get_time_ms).
Local Abbreviation is_time_up := (is_time_up threads_should_stop get_time_ms).
Local Abbreviation quiescence_body :=
  (quiescence_body nnue_available nnue_refresh_accumulator
     nnue_update_accumulator evaluate threads_should_stop get_time_ms).
Local Abbreviation quiescence :=
  (quiescence nnue_available nnue_refresh_accumulator nnue_update_accumulator
     evaluate threads_should_stop get_time_ms).

(** The probe leaves the position alone. *)
Lemma quiescence_probe_pos alpha beta c r c' :
  quiescence_probe alpha beta c = Some (r, c') -> ctx_pos c' = ctx_pos c.
Proof.
  unfold quiescence_probe, mbind, search_bind, gets, get_pos, modify, mret,
    search_ret, return_if, sreturn.
  cbn [ctx_state ctx_pos].
  destruct (tt_lookup _ _ _ _ _) as [[[found tt_score] tt_flag] tt'].
  cbn [ctx_state ctx_pos].
  destruct (nz found); cbn [ctx_state ctx_pos].
  - destruct (tt_flag =? TT_FLAG_EXACT); cbn [ctx_state ctx_pos].
    + by intros [= <- <-].
    + match goal with |- context [if ?b then _ else _] => destruct b end;
        by intros [= <- <-].
  - by intros [= <- <-].
Qed.

(** C5 (stand-pat).  When the clock has not run out and the probe of the
    transposition table does not end the call, leaving the window
    [alpha', beta'] (beta' is beta, or the stored score if an upper bound
    below beta is stored), and the static evaluation is at least beta',
    [quiescence] returns beta' itself, not the static evaluation; the
    state is the one the probe left, so no move is searched and nothing is
    stored. *)
Theorem quiescence_stand_pat_returns_beta
    fuel alpha beta s pos tt_move alpha' beta' c' :
  is_time_up_at s = false ->
  quiescence_probe alpha beta
    (mkCtx (set_ss_qnodes (ss_qnodes s + 1) (set_ss_polls (S (ss_polls s)) s)) pos)
    = Some (Next (tt_move, alpha', beta'), c') ->
  beta' <= evaluate_position pos ->
  quiescence (S fuel) alpha beta (mkCtx s pos) = Some (beta', c').
Proof.
  intros Hup Hprobe Hpat.
  pose proof (quiescence_probe_pos _ _ _ _ _ Hprobe) as Hpos.
  cbn [ctx_pos] in Hpos.
  cbn [quiescence]. unfold run_body.
  unfold is_time_up, mbind, search_bind, gets, modify, mret, search_ret,
    get_pos. cbn [ctx_state ctx_pos].
  rewrite Hup. cbn [return_if].
  unfold quiescence_body, mbind, search_bind, modify, mret, search_ret.
  cbn [ctx_state ctx_pos].
  lazymatch goal with
  | |- context [quiescence_probe alpha beta ?c] =>
      change c with
        (mkCtx (set_ss_qnodes (ss_qnodes s + 1)
                  (set_ss_polls (S (ss_polls s)) s)) pos)
  end.
  rewrite Hprobe. unfold get_pos. rewrite Hpos.
  apply Z.leb_le in Hpat. rewrite Hpat. reflexivity.
Qed.

End QuiescenceFacts.

(** King and pawn against king with the window [-100, 40]: the material
    balance is 100, and the call returns 40. *)
Lemma quiescence_stand_pat_returns_beta_witness :
  exists c',
    quiescence0 1 (-100) 40 (mkCtx state_fresh pos_king_pawn) = Some (40, c').
Proof.
  eexists.
  apply (quiescence_stand_pat_returns_beta false no_network_refresh
           no_network_update material_balance never_stop clock_zero
           0%nat (-100) 40 state_fresh pos_king_pawn MOVE_NONE (-100) 40).
  - reflexivity.
  - vm_compute. reflexivity.
  - vm_compute. discriminate.
Defined.

(** The same call: the static evaluation 100 is above beta = 40, and the
    value returned differs from it. *)
Lemma quiescence_returns_beta_not_static_eval :
  let static_eval := evaluate_position material_balance pos_king_pawn in
  40 <= static_eval
  /\ exists r,
       fst <$> quiescence0 1 (-100) 40 (mkCtx state_fresh pos_king_pawn) = Some r
       /\ r <> static_eval.
Proof.
  split; [by vm_compute|]. exists 40. split; [by vm_compute|]. by vm_compute.
Qed.

(** ** search.c: the singular test and [excluded_move] *)

Lemma with_excluded_twice m m' c :
  with_excluded m (with_excluded m' c) = with_excluded m c.
Proof. reflexivity. Qed.

Lemma agree_refl_at {A} m1 m2 (a : A) c :
  agree m1 m2 (Some (a, with_excluded m1 c)) (Some (a, with_excluded m2 c)).
Proof. split; [reflexivity|]. by exists c. Qed.

Lemma ind_ret {A} (a : A) : Independent (mret a : Search A).
Proof. intros m1 m2 c _ _. apply agree_refl_at. Qed.

Lemma ind_sreturn {A} r : Independent (sreturn r : Search A).
Proof. intros m1 m2 c _ _. apply agree_refl_at. Qed.

Lemma ind_undefined {A} : Independent (undefined : Search A).
Proof. by intros m1 m2 c _ _. Qed.

Lemma ind_bind {A B} (m : Search A) (k : A -> Search B) :
  Independent m -> (forall a, Independent (k a)) -> Independent (m ≫= k).
Proof.
  intros Hm Hk m1 m2 c H1 H2.
  specialize (Hm m1 m2 c H1 H2).
  unfold mbind, search_bind.
  destruct (m (with_excluded m1 c)) as [[f1 c1]|],
           (m (with_excluded m2 c)) as [[f2 c2]|]; try done.
  destruct Hm as [-> (c' & -> & ->)].
  destruct f2 as [a|r].
  - by apply Hk.
  - apply agree_refl_at.
Qed.

Lemma ind_gets {A} (f : SearchState -> A) :
  (forall m s, f (set_ss_excluded_move m s) = f s) -> Independent (gets f).
Proof.
  intros Hf m1 m2 c _ _. unfold gets, with_excluded at 1 3. cbn [ctx_state].
  rewrite !Hf. apply agree_refl_at.
Qed.

Lemma ind_modify (g : SearchState -> SearchState) :
  (forall m s, g (set_ss_excluded_move m s) = set_ss_excluded_move m (g s)) ->
  Independent (modify g).
Proof.
  intros Hg m1 m2 c _ _. unfold modify, with_excluded. cbn [ctx_state ctx_pos].
  rewrite !Hg. split; [done|]. by exists (mkCtx (g (ctx_state c)) (ctx_pos c)).
Qed.

Lemma ind_get_pos : Independent get_pos.
Proof. intros m1 m2 c _ _. apply agree_refl_at. Qed.

Lemma ind_set_pos p : Independent (set_pos p).
Proof.
  intros m1 m2 c _ _. split; [done|]. by exists (mkCtx (ctx_state c) p).
Qed.

Lemma ind_defined {A} (o : option A) : Independent (defined o).
Proof. intros m1 m2 c _ _. destruct o; [apply agree_refl_at|done]. Qed.

Lemma ind_return_if b r : Independent (return_if b r).
Proof. destruct b; [apply ind_sreturn|apply ind_ret]. Qed.

(** A test that fails whenever a move is marked: its first branch is
    never taken. *)
Lemma ind_ifM_marked {A} (f : SearchState -> bool) (x y : Search A) :
  (forall m s, m <> MOVE_NONE -> f (set_ss_excluded_move m s) = false) ->
  Independent y -> Independent (ifM (gets f) x y).
Proof.
  intros Hf Hy m1 m2 c H1 H2.
  unfold ifM, mbind, search_bind, gets, with_excluded at 1 3. cbn [ctx_state].
  rewrite !Hf by done. by apply Hy.
Qed.

Lemma ind_call (f : Ctx -> option (Z * Ctx)) :
  Independent f -> Independent (call f).
Proof.
  intros Hf m1 m2 c H1 H2. specialize (Hf m1 m2 c H1 H2). unfold call.
  destruct (f (with_excluded m1 c)) as [[r1 c1]|],
           (f (with_excluded m2 c)) as [[r2 c2]|]; try done.
  destruct Hf as [-> Hc]. by split.
Qed.

Lemma ind_call_on temp (f : Ctx -> option (Z * Ctx)) :
  Independent f -> Independent (call_on temp f).
Proof.
  intros Hf m1 m2 c H1 H2.
  specialize (Hf m1 m2 (mkCtx (ctx_state c) temp) H1 H2). unfold call_on.
  change (mkCtx (ctx_state (with_excluded m1 c)) temp)
    with (with_excluded m1 (mkCtx (ctx_state c) temp)).
  change (mkCtx (ctx_state (with_excluded m2 c)) temp)
    with (with_excluded m2 (mkCtx (ctx_state c) temp)).
  destruct (f (with_excluded m1 _)) as [[r1 c1]|],
           (f (with_excluded m2 _)) as [[r2 c2]|]; try done.
  destruct Hf as [-> (c' & -> & ->)]. split; [done|].
  by exists (mkCtx (ctx_state c') (ctx_pos c)).
Qed.

Lemma ind_run_body (m : Search Z) : Independent m -> Independent (run_body m).
Proof.
  intros Hm m1 m2 c H1 H2. specialize (Hm m1 m2 c H1 H2). unfold run_body.
  destruct (m (with_excluded m1 c)) as [[f1 c1]|],
           (m (with_excluded m2 c)) as [[f2 c2]|]; try done.
  destruct Hm as [-> Hc]. by destruct f2.
Qed.

Lemma foldl_excluded {B} (f : SearchState -> B -> SearchState) m l : forall s,
  (forall s x, f (set_ss_excluded_move m s) x = set_ss_excluded_move m (f s x)) ->
  foldl f (set_ss_excluded_move m s) l = set_ss_excluded_move m (foldl f s l).
Proof.
  induction l as [|x l IH]; intros s Hf; [reflexivity|].
  cbn [foldl]. rewrite Hf. by apply IH.
Qed.

Lemma cutoff_quiet_excluded pos depth move moving_piece quiets_tried m s :
  cutoff_quiet pos depth move moving_piece quiets_tried (set_ss_excluded_move m s)
  = set_ss_excluded_move m (cutoff_quiet pos depth move moving_piece quiets_tried s).
Proof.
  unfold cutoff_quiet. cbv zeta.
  change (ss_ply (set_ss_excluded_move m s)) with (ss_ply s).
  assert (Hk : store_killer_move (set_ss_excluded_move m s) (ss_ply s) move
               = set_ss_excluded_move m (store_killer_move s (ss_ply s) move)).
  { unfold store_killer_move. cbn [ss_killer_moves set_ss_excluded_move].
    by destruct (negb _). }
  rewrite Hk. clear Hk.
  generalize (store_killer_move s (ss_ply s) move). intros s1.
  change (update_history (set_ss_excluded_move m s1) (to_move pos) moving_piece
            (MOVE_TO move) depth)
    with (set_ss_excluded_move m
            (update_history s1 (to_move pos) moving_piece (MOVE_TO move) depth)).
  generalize (update_history s1 (to_move pos) moving_piece (MOVE_TO move) depth).
  intros s2.
  change (ss_ply (set_ss_excluded_move m s2)) with (ss_ply s2).
  change (ss_prev_piece (set_ss_excluded_move m s2)) with (ss_prev_piece s2).
  change (ss_prev_to (set_ss_excluded_move m s2)) with (ss_prev_to s2).
  set (prev_p := arr_get (ss_prev_piece s2) (ss_ply s2 - 1)).
  set (prev_t := arr_get (ss_prev_to s2) (ss_ply s2 - 1)).
  assert (Hu : forall s,
    update_followup_history
      (update_countermove_history
         (update_countermove (set_ss_excluded_move m s) prev_p prev_t move)
         prev_p prev_t moving_piece (MOVE_TO move) depth)
      prev_p prev_t moving_piece (MOVE_TO move) depth
    = set_ss_excluded_move m
        (update_followup_history
           (update_countermove_history
              (update_countermove s prev_p prev_t move)
              prev_p prev_t moving_piece (MOVE_TO move) depth)
           prev_p prev_t moving_piece (MOVE_TO move) depth)).
  { intros s0. unfold update_followup_history, update_countermove_history,
      update_countermove.
    repeat case_match; reflexivity. }
  rewrite Hu. clear Hu.
  match goal with
  | |- foldl ?f (if ?b then set_ss_excluded_move m ?x else set_ss_excluded_move m ?y) ?l = _ =>
      change (if b then set_ss_excluded_move m x else set_ss_excluded_move m y)
        with (if b then set_ss_excluded_move m x else set_ss_excluded_move m y);
      replace (if b then set_ss_excluded_move m x else set_ss_excluded_move m y)
        with (set_ss_excluded_move m (if b then x else y)) by (by destruct b)
  end.
  apply foldl_excluded. intros s0 qm. cbv zeta. by case_match.
Qed.

Lemma cutoff_capture_excluded pos depth move moving_piece captures_tried m s :
  cutoff_capture pos depth move moving_piece captures_tried (set_ss_excluded_move m s)
  = set_ss_excluded_move m
      (cutoff_capture pos depth move moving_piece captures_tried s).
Proof.
  unfold cutoff_capture. cbv zeta.
  match goal with
  | |- foldl ?f (if ?b then ?x else ?y) ?l = _ =>
      replace (if b then x else y)
        with (set_ss_excluded_move m
                (if b then update_capture_history s moving_piece (MOVE_TO move)
                             (piece_on pos (Z.lxor (to_move pos) 1) (MOVE_TO move))
                             depth
                 else s))
  end.
  - apply foldl_excluded. intros s0 cm. cbv zeta. by case_match.
  - case_match; [|reflexivity]. unfold update_capture_history.
    by repeat case_match.
Qed.

Create HintDb independent.

Ltac ind_step :=
  lazymatch goal with
  | |- Independent (mbind _ _) => apply ind_bind; [|intros ?; cbv beta]
  | |- Independent (mret _) => apply ind_ret
  | |- Independent (sreturn _) => apply ind_sreturn
  | |- Independent undefined => apply ind_undefined
  | |- Independent get_pos => apply ind_get_pos
  | |- Independent (set_pos _) => apply ind_set_pos
  | |- Independent (defined _) => apply ind_defined
  | |- Independent (return_if _ _) => apply ind_return_if
  | |- Independent (gets _) => apply ind_gets; intros; reflexivity
  | |- Independent (modify _) =>
      first [ apply ind_modify; intros; reflexivity
            | solve [auto with independent] ]
  | |- Independent (call _) => apply ind_call
  | |- Independent (call_on _ _) => apply ind_call_on
  | |- Independent (run_body _) => apply ind_run_body
  | |- Independent (if ?b then _ else _) => destruct b
  | |- Independent (match ?x with _ => _ end) => destruct x
  | |- Independent (let _ := _ in _) => cbv zeta
  | |- Independent _ => solve [auto with independent]
  end.

Ltac independent := repeat ind_step.

Lemma ind_add_repetition_position key :
  Independent (modify (fun s => add_repetition_position s key)).
Proof.
  apply ind_modify. intros m s. unfold add_repetition_position.
  change (ss_repetition_ply (set_ss_excluded_move m s)) with (ss_repetition_ply s).
  by case_match.
Qed.

Lemma ind_remove_repetition_position :
  Independent (modify remove_repetition_position).
Proof.
  apply ind_modify. intros m s. unfold remove_repetition_position.
  change (ss_repetition_ply (set_ss_excluded_move m s)) with (ss_repetition_ply s).
  by case_match.
Qed.

Lemma ind_cutoff (is_capture : bool) pos depth move moving_piece captures quiets :
  Independent
    (modify (if is_capture
             then cutoff_capture pos depth move moving_piece captures
             else cutoff_quiet pos depth move moving_piece quiets)).
Proof.
  apply ind_modify. intros m s.
  destruct is_capture; [apply cutoff_capture_excluded|apply cutoff_quiet_excluded].
Qed.

#[export] Hint Resolve ind_add_repetition_position ind_remove_repetition_position
  ind_cutoff : independent.

Section Exclusion.
Variable nnue_available : bool.
Variable nnue_refresh_accumulator : Position -> Accumulator.
Variable nnue_update_accumulator :
  Accumulator -> Z -> Z -> Z -> Z -> Z -> Z -> Accumulator.
Variable evaluate : Position -> Z.
Variable phase_eval : Position -> Z.
Variable is_theoretical_draw : Position -> Z.
Variable apply_contempt : Z -> Z -> Z -> Z.
Variable tb_available : bool.
Variable tb_probe_in_search : Position -> Z -> Z -> option Z.
Variable LMR_TABLE : Z -> Z -> Z.
Variable threads_should_stop : nat -> bool.
Variable get_time_ms : nat -> Z.

Local Abbreviation evaluate_position := (evaluate_position evaluate).
Local Abbreviation is_time_up_at :=
  (is_time_up_at threads_should_stop get_time_ms).
Local Abbreviation is_time_up := (is_time_up threads_should_stop get_time_ms).
Local Abbreviation get_lmr_reduction := (get_lmr_reduction LMR_TABLE).
Local Abbreviation get_futility_margin := (get_futility_margin phase_eval).
Local Abbreviation quiescence_loop :=
  (quiescence_loop nnue_available nnue_refresh_accumulator
     nnue_update_accumulator threads_should_stop get_time_ms).
Local Abbreviation quiescence_body :=
  (quiescence_body nnue_available nnue_refresh_accumulator
     nnue_update_accumulator evaluate threads_should_stop get_time_ms).
Local Abbreviation quiescence :=
  (quiescence nnue_available nnue_refresh_accumulator nnue_update_accumulator
     evaluate threads_should_stop get_time_ms).
Local Abbreviation alpha_beta_entry :=
  (alpha_beta_entry evaluate is_theoretical_draw apply_contempt
     threads_should_stop get_time_ms).
Local Abbreviation alpha_beta_tablebase :=
  (alpha_beta_tablebase tb_available tb_probe_in_search).
Local Abbreviation alpha_beta_null_move := (alpha_beta_null_move phase_eval).
Local Abbreviation null_move_reduction := (null_move_reduction phase_eval).
Local Abbreviation loop_search := (loop_search LMR_TABLE).
Local Abbreviation alpha_beta_loop :=
  (alpha_beta_loop nnue_available nnue_refresh_accumulator
     nnue_update_accumulator evaluate LMR_TABLE threads_should_stop
     get_time_ms).
Local Abbreviation alpha_beta_body :=
  (alpha_beta_body nnue_available nnue_refresh_accumulator
     nnue_update_accumulator evaluate phase_eval is_theoretical_draw
     apply_contempt tb_available tb_probe_in_search LMR_TABLE
     threads_should_stop get_time_ms).
Local Abbreviation alpha_beta :=
  (alpha_beta nnue_available nnue_refresh_accumulator nnue_update_accumulator
     evaluate phase_eval is_theoretical_draw apply_contempt tb_available
     tb_probe_in_search LMR_TABLE threads_should_stop get_time_ms).
Local Abbreviation movepicker_next :=
  (movepicker_next nnue_available nnue_refresh_accumulator
     nnue_update_accumulator).
Local Abbreviation position_make_move :=
  (position_make_move nnue_available nnue_refresh_accumulator
     nnue_update_accumulator).


Lemma ind_is_time_up : Independent is_time_up.
Proof. unfold is_time_up. independent. Qed.
#[local] Hint Resolve ind_is_time_up : independent.

Lemma ind_quiescence_probe alpha beta : Independent (quiescence_probe alpha beta).
Proof. unfold quiescence_probe. independent. Qed.
#[local] Hint Resolve ind_quiescence_probe : independent.

Lemma ind_alpha_beta_entry : Independent alpha_beta_entry.
Proof. unfold alpha_beta_entry. independent. Qed.

Lemma ind_alpha_beta_tablebase depth alpha beta :
  Independent (alpha_beta_tablebase depth alpha beta).
Proof. unfold alpha_beta_tablebase. independent. Qed.

Lemma ind_alpha_beta_probe depth alpha beta is_pv :
  Independent (alpha_beta_probe depth alpha beta is_pv).
Proof. unfold alpha_beta_probe. independent. Qed.

Lemma ind_alpha_beta_check_extension depth in_check :
  Independent (alpha_beta_check_extension depth in_check).
Proof. unfold alpha_beta_check_extension. independent. Qed.

Lemma ind_alpha_beta_rfp depth beta is_pv in_check static_eval :
  Independent (alpha_beta_rfp depth beta is_pv in_check static_eval).
Proof. unfold alpha_beta_rfp. independent. Qed.

Lemma ind_loop_extension nd move moving_piece :
  Independent (loop_extension nd move moving_piece).
Proof. unfold loop_extension. independent. Qed.

Lemma ind_alpha_beta_picker tt_move : Independent (alpha_beta_picker tt_move).
Proof. unfold alpha_beta_picker. independent. Qed.

#[local] Hint Resolve ind_alpha_beta_picker : independent.
#[local] Hint Resolve ind_alpha_beta_entry ind_alpha_beta_tablebase ind_alpha_beta_probe
  ind_alpha_beta_check_extension ind_alpha_beta_rfp ind_loop_extension
  : independent.

Section Calls.
Variable rec : Z -> Z -> Z -> Ctx -> option (Z * Ctx).
Variable recq : Z -> Z -> Ctx -> option (Z * Ctx).
Hypothesis ind_rec : forall depth alpha beta, Independent (rec depth alpha beta).
Hypothesis ind_recq : forall alpha beta, Independent (recq alpha beta).
#[local] Hint Resolve ind_rec ind_recq : independent.

Lemma ind_quiescence_loop n : forall mp beta alpha best_move,
  Independent (quiescence_loop recq n mp beta alpha best_move).
Proof.
  induction n as [|n IH]; intros; cbn [quiescence_loop]; independent.
Qed.
#[local] Hint Resolve ind_quiescence_loop : independent.

Lemma ind_quiescence_body alpha beta : Independent (quiescence_body recq alpha beta).
Proof. unfold quiescence_body. independent. Qed.

Lemma ind_alpha_beta_iid depth alpha beta is_pv tt_move :
  Independent (alpha_beta_iid rec depth alpha beta is_pv tt_move).
Proof. unfold alpha_beta_iid. independent. Qed.

Lemma ind_alpha_beta_razoring depth alpha is_pv in_check static_eval :
  Independent (alpha_beta_razoring recq depth alpha is_pv in_check static_eval).
Proof. unfold alpha_beta_razoring. independent. Qed.

Lemma ind_alpha_beta_probcut depth beta is_pv in_check :
  Independent (alpha_beta_probcut rec recq depth beta is_pv in_check).
Proof. unfold alpha_beta_probcut. independent. Qed.

Lemma ind_alpha_beta_null_move depth beta is_pv in_check static_eval :
  Independent (alpha_beta_null_move rec depth beta is_pv in_check static_eval).
Proof. unfold alpha_beta_null_move. independent. Qed.

(** The singular block is skipped whenever a move is marked. *)
Lemma singular_guard_marked depth tt_move tt_flag tt_score m s :
  m <> MOVE_NONE ->
  singular_guard (set_ss_excluded_move m s) depth tt_move tt_flag tt_score = false.
Proof.
  intros Hm. unfold singular_guard. cbn [ss_excluded_move set_ss_excluded_move].
  apply andb_false_intro2. by apply Z.eqb_neq.
Qed.

Lemma ind_alpha_beta_singular depth tt_move tt_flag tt_score :
  Independent (alpha_beta_singular rec depth tt_move tt_flag tt_score).
Proof.
  unfold alpha_beta_singular. apply ind_ifM_marked.
  - intros m s Hm. by apply singular_guard_marked.
  - apply ind_ret.
Qed.

Lemma ind_loop_razoring nd alpha : Independent (loop_razoring recq nd alpha).
Proof. unfold loop_razoring. independent. Qed.
#[local] Hint Resolve ind_loop_razoring : independent.

Lemma ind_loop_pruning nd alpha legal_moves move :
  Independent (loop_pruning recq nd alpha legal_moves move).
Proof. unfold loop_pruning. independent. Qed.

Lemma ind_loop_search nd alpha legal_moves extension move gives_check :
  Independent (loop_search rec nd alpha legal_moves extension move gives_check).
Proof. unfold loop_search. independent. Qed.

#[local] Hint Resolve ind_alpha_beta_iid ind_alpha_beta_razoring ind_alpha_beta_probcut
  ind_alpha_beta_null_move ind_alpha_beta_singular ind_loop_pruning
  ind_loop_search : independent.

Lemma ind_alpha_beta_loop n : forall nd mp lv,
  Independent (alpha_beta_loop rec recq n nd mp lv).
Proof.
  induction n as [|n IH]; intros; cbn [alpha_beta_loop]; independent.
Qed.
#[local] Hint Resolve ind_alpha_beta_loop : independent.

Lemma ind_alpha_beta_body depth alpha beta :
  Independent (alpha_beta_body rec recq depth alpha beta).
Proof. unfold alpha_beta_body. independent. Qed.

End Calls.

Lemma ind_quiescence fuel : forall alpha beta,
  Independent (quiescence fuel alpha beta).
Proof.
  induction fuel as [|fuel IH]; intros alpha beta.
  - by intros m1 m2 c _ _.
  - cbn [quiescence]. apply ind_run_body.
    apply ind_bind; [apply ind_is_time_up|intros up].
    apply ind_bind; [apply ind_get_pos|intros pos].
    apply ind_bind; [apply ind_return_if|intros _].
    by apply ind_quiescence_body.
Qed.

Lemma ind_alpha_beta fuel : forall depth alpha beta,
  Independent (alpha_beta fuel depth alpha beta).
Proof.
  induction fuel as [|fuel IH]; intros depth alpha beta.
  - by intros m1 m2 c _ _.
  - cbn [alpha_beta]. apply ind_run_body. apply ind_alpha_beta_body.
    + exact IH.
    + apply ind_quiescence.
Qed.

(** C6 (singular extension).  When the test in front of the singular block
    holds, the block runs [alpha_beta] at depth - 3 for depth > 10 and at
    (depth - 1) / 2 otherwise, on the null window below
    tt_score - 2 * depth, and sets [singular_extension] exactly when the
    value is below that bound.  But the move marked in [excluded_move] is
    never left out of a move loop: the verdict, the position and the
    search state afterwards are those of the same search run with any
    other move [m] marked instead of the TT move. *)
Theorem singular_test_ignores_excluded_move fuel depth tt_move tt_flag tt_score
    (s : SearchState) (pos : Position) (m : Z) :
  singular_guard s depth tt_move tt_flag tt_score = true ->
  m <> MOVE_NONE ->
  let singular_beta := s16 (tt_score - 2 * depth) in
  let singular_depth := if 10 <? depth then depth - 3 else Z.quot (depth - 1) 2 in
  alpha_beta_singular (alpha_beta fuel) depth tt_move tt_flag tt_score (mkCtx s pos)
  = match alpha_beta fuel singular_depth (s16 (singular_beta - 1)) singular_beta
            (mkCtx (set_ss_excluded_move m s) pos) with
    | Some (value, c') =>
        Some (Next (if value <? singular_beta then 1 else 0),
              with_excluded MOVE_NONE c')
    | None => None
    end.
Proof.
  intros Hguard Hm singular_beta singular_depth.
  assert (Htt : tt_move <> MOVE_NONE /\ ss_excluded_move s = MOVE_NONE).
  { unfold singular_guard in Hguard.
    repeat (apply andb_prop in Hguard as [Hguard ?]).
    split; [|by apply Z.eqb_eq].
    intros ->. done. }
  destruct Htt as [Htt Hex].
  unfold alpha_beta_singular, ifM, mbind, search_bind, gets. cbn [ctx_state ctx_pos].
  rewrite Hguard. unfold modify, call, mret, search_ret. cbn [ctx_state ctx_pos].
  fold singular_beta. fold singular_depth.
  pose proof (ind_alpha_beta fuel singular_depth (s16 (singular_beta - 1))
                singular_beta tt_move m (mkCtx s pos) Htt Hm) as Hag.
  unfold with_excluded at 1 2 in Hag. cbn [ctx_state ctx_pos] in Hag.
  destruct (alpha_beta fuel singular_depth _ _ (mkCtx (set_ss_excluded_move tt_move s) pos))
    as [[v1 c1]|],
    (alpha_beta fuel singular_depth _ _ (mkCtx (set_ss_excluded_move m s) pos))
    as [[v2 c2]|]; try done.
  destruct Hag as [-> (c & -> & ->)].
  cbn [ctx_state ctx_pos]. rewrite Hex. reflexivity.
Qed.

End Exclusion.

(** The block at depth 8 one ply below the root in the king-and-pawn
    position, with Ke1-f2 as the TT move and a stored score of 300: its
    outcome is that of the test search run with a2-a3 marked. *)
Lemma singular_test_ignores_excluded_move_witness :
  alpha_beta_singular (alpha_beta0 4) 8 move_e1f2 TT_FLAG_LOWER 300
    (mkCtx state_ply_1 pos_king_pawn)
  = match alpha_beta0 4 3 283 284
            (mkCtx (set_ss_excluded_move move_a2a3 state_ply_1) pos_king_pawn) with
    | Some (value, c') =>
        Some (Next (if value <? 284 then 1 else 0), with_excluded MOVE_NONE c')
    | None => None
    end.
Proof.
  apply (singular_test_ignores_excluded_move false no_network_refresh
           no_network_update material_balance phase_middle no_draw no_contempt
           false no_tablebase lmr_one never_stop clock_zero
           4%nat 8 move_e1f2 TT_FLAG_LOWER 300 state_ply_1 pos_king_pawn
           move_a2a3).
  - reflexivity.
  - discriminate.
Defined.

(** The test search of that block, run with the TT move Ke1-f2 marked as
    excluded: it returns 100 after 8 nodes, its own and one for each of
    the 7 legal moves, and the last move it made at its ply is Ke1-f2
    itself.  The block then sets [singular_extension]. *)
Example singular_test_searches_tt_move :
  length (legal_moves pos_king_pawn) = 7%nat
  /\ (fun '(value, c') =>
        (value, ss_nodes (ctx_state c'),
         arr_get (ss_last_move (ctx_state c')) (ss_ply (ctx_state c'))))
     <$> alpha_beta0 4 3 283 284
           (mkCtx (set_ss_excluded_move move_e1f2 state_ply_1) pos_king_pawn)
     = Some (100, 8, move_e1f2)
  /\ fst <$> alpha_beta_singular (alpha_beta0 4) 8 move_e1f2 TT_FLAG_LOWER 300
               (mkCtx state_ply_1 pos_king_pawn)
     = Some (Next 1).
Proof. split; [by vm_compute|]. split; by vm_compute. Qed.

(** ** movepicker.c: the quiet stage *)

Lemma sift_perm key rp : sift key rp ≡ₚ key :: rp.
Proof.
  induction rp as [|x rest IH]; [done|]. cbn [sift].
  destruct (sm_score x <? sm_score key); [|done].
  rewrite IH. apply perm_swap.
Qed.

Lemma sift_sorted key rp :
  Sorted (flip by_score) rp -> Sorted (flip by_score) (sift key rp).
Proof.
  induction rp as [|x rest IH]; intros Hs; cbn [sift].
  - repeat constructor.
  - destruct (sm_score x <? sm_score key) eqn:Hlt.
    + apply Z.ltb_lt in Hlt. inversion Hs as [|? ? Hrest Hhd]; subst.
      constructor; [by apply IH|].
      destruct rest as [|y rest']; cbn [sift].
      * constructor. unfold flip, by_score. lia.
      * inversion Hhd; subst.
        destruct (sm_score y <? sm_score key); constructor; [done|].
        unfold flip, by_score. lia.
    + apply Z.ltb_ge in Hlt. constructor; [done|].
      constructor. unfold flip, by_score. lia.
Qed.

Lemma sort_moves_perm moves : sort_moves moves ≡ₚ moves.
Proof.
  unfold sort_moves. rewrite reverse_Permutation.
  assert (H : forall acc, foldl (fun rp key => sift key rp) acc moves ≡ₚ acc ++ moves).
  { induction moves as [|m moves IH]; intros acc; cbn [foldl].
    - by rewrite app_nil_r.
    - rewrite IH, sift_perm. by rewrite <- Permutation_middle. }
  apply (H []).
Qed.

Lemma sort_moves_sorted moves : Sorted by_score (sort_moves moves).
Proof.
  unfold sort_moves.
  assert (H : forall acc, Sorted (flip by_score) acc ->
            Sorted (flip by_score) (foldl (fun rp key => sift key rp) acc moves)).
  { induction moves as [|m moves IH]; intros acc Hacc; cbn [foldl]; [done|].
    apply IH. by apply sift_sorted. }
  apply (Sorted_reverse (flip by_score)). apply H. constructor.
Qed.

(** The moves of one score keep their order through the sort. *)
Lemma sift_of_score key rp s :
  of_score s (sift key rp) = of_score s (key :: rp).
Proof.
  unfold of_score. induction rp as [|x rest IH]; [done|]. cbn [sift].
  destruct (Z.ltb_spec (sm_score x) (sm_score key)) as [Hlt|Hge]; [|done].
  rewrite filter_cons, IH, !filter_cons.
  destruct (decide (sm_score x = s)), (decide (sm_score key = s)); (done || lia).
Qed.

Lemma sort_moves_stable moves s :
  of_score s (sort_moves moves) = of_score s moves.
Proof.
  unfold sort_moves.
  assert (H : forall acc,
            of_score s (foldl (fun rp key => sift key rp) acc moves)
            = of_score s (reverse moves ++ acc)).
  { induction moves as [|m moves IH]; intros acc; cbn [foldl]; [done|].
    rewrite IH. unfold of_score in *.
    rewrite reverse_cons, <- app_assoc. cbn [app].
    rewrite !filter_app. f_equal. apply (sift_of_score m acc s). }
  specialize (H []). rewrite app_nil_r in H.
  unfold of_score in *. rewrite filter_reverse, H, <- filter_reverse.
  by rewrite reverse_involutive.
Qed.

(** The move list never holds more than 256 moves. *)
Lemma push_move_length lst m :
  (length lst <= 256)%nat -> (length (push_move lst m) <= 256)%nat.
Proof.
  intros H. unfold push_move. destruct (Z.ltb_spec (Z.of_nat (length lst)) 256); [|done].
  rewrite length_app. cbn. lia.
Qed.

Lemma foldl_length {A} (f : list Z -> A -> list Z) (xs : list A) (l : list Z) :
  (forall l x, (length l <= 256)%nat -> (length (f l x) <= 256)%nat) ->
  (length l <= 256)%nat -> (length (foldl f l xs) <= 256)%nat.
Proof.
  intros Hf. revert l. induction xs as [|x xs IH]; intros l Hl; [done|].
  cbn [foldl]. apply IH. by apply Hf.
Qed.

Ltac bounded :=
  repeat first
    [ assumption
    | match goal with |- (length [] <= 256)%nat => cbn; lia end
    | apply push_move_length
    | apply foldl_length; [intros ? ? ?; cbv beta|]
    | match goal with
      | |- context [if ?b then _ else _] => destruct b
      end ].

Lemma movegen_all_length pos : (length (movegen_all pos) <= 256)%nat.
Proof.
  unfold movegen_all, gen_castling, gen_piece_moves, gen_pawn_captures,
    gen_pawn_pushes, add_pawn_moves, add_move.
  cbv zeta. bounded.
Qed.

Lemma lookupZ_nat {A} (l : list A) (i : Z) :
  0 <= i -> lookupZ l i = l !! Z.to_nat i.
Proof.
  intros Hi. unfold lookupZ. destruct (i <? 0) eqn:E; [|done].
  apply Z.ltb_lt in E. lia.
Qed.

Section PickerFacts.
Variable nnue_available : bool.
Variable nnue_refresh_accumulator : Position -> Accumulator.
Variable nnue_update_accumulator :
  Accumulator -> Z -> Z -> Z -> Z -> Z -> Z -> Accumulator.

Local Abbreviation movepicker_next :=
  (movepicker_next nnue_available nnue_refresh_accumulator
     nnue_update_accumulator).
Local Abbreviation generate_quiets :=
  (generate_quiets nnue_available nnue_refresh_accumulator
     nnue_update_accumulator).
Local Abbreviation next_generate_quiets :=
  (next_generate_quiets nnue_available nnue_refresh_accumulator
     nnue_update_accumulator).
Local Abbreviation picker_take :=
  (picker_take nnue_available nnue_refresh_accumulator
     nnue_update_accumulator).
Local Abbreviation quiets_kept :=
  (quiets_kept nnue_available nnue_refresh_accumulator
     nnue_update_accumulator).

Lemma score_quiet_history mp h m s :
  mp_history mp = Some h ->
  (m =? mp_killer1 mp) = false -> (m =? mp_killer2 mp) = false ->
  (m =? mp_countermove mp) = false ->
  score_quiet mp m = Some s -> history_score (mp_pos mp) h m = Some s.
Proof.
  intros Hh H1 H2 H3. unfold score_quiet, history_score.
  rewrite H1, H2, H3, Hh. by destruct (_ =? -1).
Qed.

Lemma generate_quiets_scores mp h quiets :
  mp_history mp = Some h -> mp_quiets mp = [] ->
  generate_quiets mp = Some quiets ->
  Forall (fun sm => history_score (mp_pos mp) h (sm_move sm) = Some (sm_score sm))
         quiets.
Proof.
  intros Hh Hq. unfold generate_quiets. rewrite Hq.
  generalize (movegen_all (mp_pos mp)). intros moves.
  assert (Hnil : Forall (fun sm => history_score (mp_pos mp) h (sm_move sm)
                                   = Some (sm_score sm)) ([] : list ScoredMove))
    by constructor.
  revert Hnil. generalize ([] : list ScoredMove). revert quiets.
  induction moves as [|m moves IH]; intros quiets acc Hacc; cbn [foldl].
  - by intros [= <-].
  - cbn [mbind option_bind].
    destruct (m =? mp_tt_move mp) eqn:Ht; cbn [orb]; [by apply IH|].
    destruct (m =? mp_killer1 mp) eqn:H1; cbn [orb]; [by apply IH|].
    destruct (m =? mp_killer2 mp) eqn:H2; cbn [orb]; [by apply IH|].
    destruct (m =? mp_countermove mp) eqn:H3; cbn [orb]; [by apply IH|].
    destruct (MOVE_IS_CAPTURE m); cbn [orb]; [by apply IH|].
    destruct (negb _); [by apply IH|].
    destruct (score_quiet mp m) as [s|] eqn:Hs; cbn [mbind option_bind].
    + unfold store_scored. destruct (_ <? 256).
      * apply IH. apply Forall_app. split; [done|].
        constructor; [|constructor]. cbn [sm_move sm_score].
        by apply (score_quiet_history mp).
      * clear. induction moves as [|x l IHl]; [done|]. exact IHl.
    + clear. induction moves as [|x l IHl]; [done|]. exact IHl.
Qed.

(** With every history read of a kept move inside the slice, the stage
    collects the kept moves, in the order of generation. *)
Lemma generate_quiets_kept mp h :
  mp_history mp = Some h -> mp_quiets mp = [] ->
  Forall (fun m => is_Some (history_score (mp_pos mp) h m)) (quiets_kept mp) ->
  exists quiets,
    generate_quiets mp = Some quiets /\ sm_move <$> quiets = quiets_kept mp.
Proof.
  intros Hh Hq. unfold generate_quiets, quiets_kept. rewrite Hq. cbv zeta.
  pose proof (movegen_all_length (mp_pos mp)) as Hlen.
  assert (Hgen : forall moves acc,
    (length acc + length moves <= 256)%nat ->
    Forall (fun m => is_Some (history_score (mp_pos mp) h m))
      (filter (fun m =>
                 (m =? mp_tt_move mp) || (m =? mp_killer1 mp)
                 || (m =? mp_killer2 mp) || (m =? mp_countermove mp)
                 || MOVE_IS_CAPTURE m
                 || negb (movegen_is_legal nnue_available nnue_refresh_accumulator
                            nnue_update_accumulator (mp_pos mp) m) = false) moves) ->
    exists q,
      foldl (fun (st : option (list ScoredMove)) m =>
               quiets ← st;
               if (m =? mp_tt_move mp) || (m =? mp_killer1 mp)
                  || (m =? mp_killer2 mp) || (m =? mp_countermove mp)
                  || MOVE_IS_CAPTURE m
                  || negb (movegen_is_legal nnue_available nnue_refresh_accumulator
                             nnue_update_accumulator (mp_pos mp) m)
               then Some quiets
               else
                 s ← score_quiet mp m;
                 store_scored 256 quiets m s)
            (Some acc) moves = Some (acc ++ q)
      /\ sm_move <$> q
         = filter (fun m =>
                 (m =? mp_tt_move mp) || (m =? mp_killer1 mp)
                 || (m =? mp_killer2 mp) || (m =? mp_countermove mp)
                 || MOVE_IS_CAPTURE m
                 || negb (movegen_is_legal nnue_available nnue_refresh_accumulator
                            nnue_update_accumulator (mp_pos mp) m) = false) moves).
  { induction moves as [|m moves IH]; intros acc Hl Hin.
    { exists []. by rewrite app_nil_r. }
    cbn [foldl mbind option_bind]. rewrite filter_cons in Hin |- *.
    cbn [length] in Hl.
    destruct (_ || _) eqn:Hskip.
    - rewrite decide_False in Hin |- * by done.
      apply IH; [lia|done].
    - rewrite decide_True in Hin |- * by done.
      apply Forall_cons in Hin as [[s Hs] Hin].
      repeat (apply orb_false_elim in Hskip as [Hskip ?]).
      assert (Hsq : score_quiet mp m = Some s).
      { unfold score_quiet. unfold history_score in Hs. cbv zeta in Hs |- *.
        repeat match goal with H : (m =? _) = false |- _ => rewrite H; clear H end.
        rewrite Hh. by destruct (_ =? -1). }
      rewrite Hsq. cbn [mbind option_bind].
      assert (Hst : store_scored 256 acc m s = Some (acc ++ [mkScoredMove m s])).
      { unfold store_scored.
        by destruct (Z.ltb_spec (Z.of_nat (length acc)) 256); [|lia]. }
      rewrite Hst.
      destruct (IH (acc ++ [mkScoredMove m s])) as (q & Hfold & Hmoves);
        [rewrite length_app; cbn; lia|done|].
      exists (mkScoredMove m s :: q). rewrite Hfold, <- app_assoc.
      split; [done|]. cbn [fmap list_fmap sm_move]. by rewrite <- Hmoves. }
  intros Hin.
  destruct (Hgen (movegen_all (mp_pos mp)) [] ltac:(cbn; lia) Hin) as (q & Hq1 & Hq2).
  exists q. by rewrite Hq1.
Qed.

Lemma picker_take_quiets k : forall mp,
  mp_stage mp = STAGE_QUIETS -> 0 <= mp_quiet_index mp ->
  mp_quiet_index mp + Z.of_nat k <= Z.of_nat (length (mp_quiets mp)) ->
  fst <$> picker_take k mp
  = Some (sm_move <$> take k (drop (Z.to_nat (mp_quiet_index mp)) (mp_quiets mp))).
Proof.
  induction k as [|k IH]; intros mp Hst Hi Hlen; [done|].
  cbn [picker_take]. unfold movepicker_next. rewrite Hst.
  unfold next_quiets.
  destruct (mp_quiet_index mp <? _) eqn:Hlt; [|apply Z.ltb_ge in Hlt; lia].
  rewrite lookupZ_nat by done.
  destruct (mp_quiets mp !! Z.to_nat (mp_quiet_index mp)) as [sm|] eqn:Hsm.
  2:{ apply lookup_ge_None in Hsm. lia. }
  cbn [mbind option_bind].
  specialize (IH (with_quiet_index (mp_quiet_index mp + 1) mp)).
  cbn [mp_stage mp_quiet_index mp_quiets with_quiet_index] in IH.
  specialize (IH Hst ltac:(lia) ltac:(lia)).
  destruct (picker_take k _) as [[rest mp']|]; [|done].
  cbn [fmap option_fmap option_map fst] in IH |- *.
  injection IH as ->.
  f_equal.
  rewrite (drop_S _ sm _ Hsm). cbn [take fmap list_fmap].
  f_equal. replace (Z.to_nat (mp_quiet_index mp + 1)) with (S (Z.to_nat (mp_quiet_index mp))) by lia.
  done.
Qed.

(** C9 (quiet stage).  At the quiet-generation stage, when every history
    read for a move the stage keeps stays inside the slice the picker was
    given, the stage is defined and collects the kept moves (all generated
    moves but the TT move, the killers, the counter move, the captures and
    the illegal moves) in the order of generation, each scored by the
    history entry alone (the entry of the slice for the piece code and the
    destination; neither the countermove history, the follow-up history
    nor a bonus enters); the picker then hands them out by descending
    score, the moves of equal score in the order of generation. *)
Theorem picker_quiets_by_history mp h :
  mp_stage mp = STAGE_GENERATE_QUIETS ->
  mp_history mp = Some h -> mp_quiets mp = [] -> mp_quiet_index mp = 0 ->
  Forall (fun m => is_Some (history_score (mp_pos mp) h m)) (quiets_kept mp) ->
  exists quiets sorted,
    generate_quiets mp = Some quiets
    /\ sm_move <$> quiets = quiets_kept mp
    /\ Forall (fun sm => history_score (mp_pos mp) h (sm_move sm)
                         = Some (sm_score sm)) quiets
    /\ sorted ≡ₚ quiets
    /\ Sorted by_score sorted
    /\ (forall s, of_score s sorted = of_score s quiets)
    /\ fst <$> picker_take (length sorted) mp = Some (sm_move <$> sorted).
Proof.
  intros Hst Hh Hq Hi Hin.
  destruct (generate_quiets_kept mp h Hh Hq Hin) as (quiets & Hgen & Hkept).
  exists quiets, (sort_moves quiets).
  split; [done|]. split; [done|].
  split; [by apply (generate_quiets_scores mp)|].
  split; [apply sort_moves_perm|]. split; [apply sort_moves_sorted|].
  split; [intros s; apply sort_moves_stable|].
  destruct (sort_moves quiets) as [|sm rest] eqn:Hsort; [done|].
  rewrite <- Hsort.
  set (mp1 := with_stage STAGE_QUIETS (with_quiets (sort_moves quiets) mp)).
  assert (Hstep : movepicker_next mp = movepicker_next mp1).
  { unfold movepicker_next at 1. rewrite Hst.
    unfold next_generate_quiets. rewrite Hgen. done. }
  assert (Hlen : length (sort_moves quiets) = S (length rest))
    by (by rewrite Hsort).
  rewrite Hlen. cbn [picker_take]. rewrite Hstep.
  change (fst <$> picker_take (S (length rest)) mp1
          = Some (sm_move <$> sort_moves quiets)).
  rewrite picker_take_quiets.
  - cbn [mp_quiet_index mp1 with_stage with_quiets mp_quiets].
    rewrite Hi. cbn [Z.to_nat drop]. rewrite <- Hlen. by rewrite firstn_all.
  - done.
  - cbn [mp_quiet_index mp1 with_stage with_quiets]. lia.
  - cbn [mp_quiet_index mp_quiets mp1 with_stage with_quiets]. lia.
Qed.
End PickerFacts.

(** The picker of the king-and-pawn position at the quiet stage, with a
    history slice that scores Kd2 and Kf2 with 7, a2-a4 with 3 and the
    other four quiet moves with 0: all reads are inside the slice, and the
    moves come out as Kd2, Kf2, a2-a4, a2-a3, Kd1, Kf1, Ke2. *)
Lemma picker_quiets_by_history_witness :
  Forall (fun m => is_Some (history_score (mp_pos picker_tied) history_tied m))
    (quiets_kept false no_network_refresh no_network_update picker_tied)
  /\ picker_moves0 64 picker_tied = Some [708; 836; 1544; 1032; 196; 324; 772]
  /\ exists quiets sorted,
       generate_quiets false no_network_refresh no_network_update picker_tied
       = Some quiets
       /\ sm_move <$> quiets
          = quiets_kept false no_network_refresh no_network_update picker_tied
       /\ Forall (fun sm => history_score (mp_pos picker_tied) history_tied
                              (sm_move sm) = Some (sm_score sm)) quiets
       /\ sorted ≡ₚ quiets
       /\ Sorted by_score sorted
       /\ (forall s, of_score s sorted = of_score s quiets)
       /\ fst <$> picker_take false no_network_refresh no_network_update
                    (length sorted) picker_tied
          = Some (sm_move <$> sorted).
Proof.
  assert (Hin : Forall (fun m => is_Some (history_score (mp_pos picker_tied)
                                            history_tied m))
                  (quiets_kept false no_network_refresh no_network_update
                     picker_tied)).
  { assert (Hk : quiets_kept false no_network_refresh no_network_update picker_tied
                 = [1032; 1544; 196; 324; 708; 772; 836])
      by (vm_compute; reflexivity).
    rewrite Hk. repeat constructor; vm_compute; by eexists. }
  split; [exact Hin|]. split; [by vm_compute|].
  apply (picker_quiets_by_history false no_network_refresh no_network_update
           picker_tied history_tied); [reflexivity..|exact Hin].
Defined.

(** One ply below the root with a countermove-history entry of 900 for
    Ke1-f2 and a zeroed history: history + countermove-history / 3 +
    follow-up-history / 3 + bonus is 300 for Ke1-f2 and 0 for a2-a3, yet
    the picker of the node hands out a2-a3 first and Ke1-f2 last. *)
Lemma picker_order_ignores_countermove_history :
  exists mp c,
    alpha_beta_picker MOVE_NONE (mkCtx state_countermove_history pos_king_pawn)
    = Some (Next mp, c)
    /\ picker_moves0 64 mp
       = Some [move_a2a3; 1544; 196; 324; 708; 772; move_e1f2]
    /\ quiet_ordering_score state_countermove_history pos_king_pawn move_a2a3 1 = 0
    /\ quiet_ordering_score state_countermove_history pos_king_pawn move_e1f2 1
       = 300.
Proof.
  eexists. eexists. split; [vm_compute; reflexivity|].
  split; [by vm_compute|]. split; by vm_compute.
Qed.

(** ** tt.c: further properties of the tables *)

(** *** Helper facts about clusters *)

Lemma list_find_insert_first {A} (P : A -> Prop) `{!forall x, Decision (P x)}
    (l : list A) (i : nat) (x : A) :
  (i < length l)%nat -> P x ->
  (forall j y, (j < i)%nat -> l !! j = Some y -> ~ P y) ->
  list_find P (<[i := x]> l) = Some (i, x).
Proof.
  intros Hi Hx Hbefore. apply list_find_Some. split; [|split].
  - by apply list_lookup_insert_eq.
  - done.
  - intros j y Hj Hlt. rewrite list_lookup_insert_ne in Hj by lia.
    by apply (Hbefore j).
Qed.

Lemma tt_set_cluster_same (tt : TranspositionTable) (index : Z) :
  tt_clusters tt !! index = Some (tt_cluster tt index) ->
  tt_set_cluster tt index (tt_cluster tt index) = tt.
Proof.
  intros H. unfold tt_set_cluster. rewrite insert_id by done. by destruct tt.
Qed.

(** Where a store that is not refused puts its entry: in the first slot
    holding the key if there is one, in some slot otherwise. *)
Lemma tt_store_slot (tt : TranspositionTable) (key score best_move depth flag : Z) :
  tt_wf tt ->
  let index := tt_cluster_index tt key in
  let c := tt_cluster tt index in
  (forall i e, first_with_key key c i e -> update_allowed depth flag e = true) ->
  let tt' := tt_store_with_move tt key score best_move depth flag in
  exists (i : nat) (m : Z),
    (i < length c)%nat
    /\ tt_clusters tt' !! index
       = Some (<[i := tt_write key score m depth flag (tt_generation tt)]> c)
    /\ tt_generation tt' = tt_generation tt
    /\ tt_num_clusters tt' = tt_num_clusters tt
    /\ (forall j y, (j < i)%nat -> c !! j = Some y -> tte_key y <> key)
    /\ m = (if best_move =? MOVE_NONE then tt_get_best_move tt key else best_move).
Proof.
  intros Hwf index c Hallowed tt'.
  destruct (tt_cluster_wf tt index Hwf) as [Hlen Hok]. fold c in Hlen, Hok.
  assert (Hgen : 0 <= tt_generation tt <= 255) by apply Hwf.
  destruct (list_find (fun e => tte_key e = key) c) as [[i e]|] eqn:Hfind.
  - (* the key is present *)
    apply list_find_Some in Hfind as (Hi & Hkey & Hbefore).
    assert (Hfirst : first_with_key key c i e).
    { split; [done|]. split; [done|]. intros j e' Hlt Hj. by apply (Hbefore j). }
    pose proof (scan_first_match key (tt_generation tt) c i e Hfirst) as Hscan.
    exists i, (kept_move best_move e).
    subst tt'.
    rewrite (tt_store_matched tt key score best_move depth flag i e Hscan Hi).
    rewrite (Hallowed i e Hfirst).
    split; [by eapply lookup_lt_Some|].
    split; [unfold tt_set_cluster; cbn [tt_clusters]; by rewrite lookup_insert_eq|].
    split; [done|]. split; [done|].
    split; [intros j y Hlt Hj; by apply (Hbefore j)|].
    unfold kept_move, tt_get_best_move. fold index. fold c.
    assert (Hf : list_find (fun e => tte_key e = key) c = Some (i, e)).
    { apply list_find_Some. split; [done|]. split; [done|].
      intros j y Hj Hlt. by apply (Hbefore j). }
    rewrite Hf.
    destruct (best_move =? MOVE_NONE) eqn:Hb; cbn [andb]; [|done].
    destruct (tte_best_move e =? MOVE_NONE) eqn:He; cbn [negb]; [|done].
    apply Z.eqb_eq in Hb, He. congruence.
  - (* the key is absent *)
    apply list_find_None in Hfind.
    assert (Hbound : Forall (fun e => replacement_value e (tt_generation tt) < 1000000) c).
    { eapply Forall_impl; [exact Hok|]. intros e He.
      by apply replacement_value_bound. }
    destruct (min_fold_first_lowest (tt_generation tt) (fun _ => false) c Hbound)
      as (w & Hw & Hfl).
    { destruct c as [|e0 c0]; [done|]. by exists 0%nat, e0. }
    destruct Hfl as (e & Hwe & _).
    assert (Hscan : scan_cluster key (tt_generation tt) c
                    = Worst (Some w)
                        (foldl (min_step (tt_generation tt) (fun _ => false))
                           (None, 1000000) (imap pair c)).2).
    { unfold scan_cluster. rewrite scan_no_match, Hw; [done|].
      apply Forall_forall. intros ie Hie%elem_of_imap_pair.
      eapply Forall_lookup_1 in Hfind; [|exact Hie]. done. }
    set (r := if protected_entry (tt_generation tt) depth flag e
              then default w (second_worst (tt_generation tt) w c) else w).
    assert (Hr : (r < length c)%nat).
    { subst r. destruct (protected_entry _ _ _ _);
        [|by eapply lookup_lt_Some].
      destruct (second_worst (tt_generation tt) w c) as [w'|] eqn:Hsw;
        cbn [default]; [|by eapply lookup_lt_Some].
      unfold second_worst in Hsw.
      destruct (min_fold_spec (tt_generation tt)
                  (fun i => bool_decide (i = w)) (imap pair c) None 1000000)
        as [[Heq _]|(l1 & ie & l2 & Hsplit & _ & Heq & _)].
      - rewrite Heq in Hsw. done.
      - rewrite Heq in Hsw. cbn in Hsw. injection Hsw as <-.
        destruct ie as [k ek]. apply imap_pair_split in Hsplit as (Hk & _).
        by eapply lookup_lt_Some. }
    exists r, best_move. subst tt'.
    unfold tt_store_with_move. fold index. fold c. rewrite Hscan, Hwe.
    fold (protected_entry (tt_generation tt) depth flag e). fold r.
    cbn [tt_clusters tt_generation tt_num_clusters].
    split; [done|]. split; [by rewrite lookup_insert_eq|].
    split; [done|]. split; [done|].
    split.
    + intros j y _ Hj. eapply Forall_lookup_1 in Hfind; [|exact Hj]. done.
    + unfold tt_get_best_move. fold index. fold c.
      assert (Hnone : list_find (fun e => tte_key e = key) c = None)
        by (by apply list_find_None).
      rewrite Hnone. by destruct (best_move =? MOVE_NONE) eqn:Hb;
        [apply Z.eqb_eq in Hb|].
Qed.

(** A lookup that finds the entry at [i] already stamped with the current
    generation leaves the table as it is. *)
Lemma tt_lookup_found (tt : TranspositionTable) (key score0 d flag0 : Z)
    (i : nat) (e : TTEntry) :
  let index := tt_cluster_index tt key in
  tt_clusters tt !! index = Some (tt_cluster tt index) ->
  list_find (fun e => tte_key e = key) (tt_cluster tt index) = Some (i, e) ->
  tte_generation e = tt_generation tt ->
  tt_lookup tt key score0 d flag0
  = if d <=? tte_depth e then (1, tte_score e, tte_flag e, tt)
    else (0, score0, tte_flag e, tt).
Proof.
  intros index Hmat Hfind Hgen. unfold tt_lookup. fold index. rewrite Hfind.
  assert (He : mkTTEntry (tte_key e) (tte_score e) (tte_best_move e)
                 (tte_depth e) (tte_flag e) (tt_generation tt) = e)
    by (rewrite <- Hgen; by destruct e).
  rewrite He. apply list_find_Some in Hfind as (Hi & _).
  rewrite list_insert_id by done. rewrite tt_set_cluster_same by done.
  by destruct (d <=? tte_depth e).
Qed.

(** X1 (store, then probe).  After a store that is not refused (no slot of
    the cluster holds the key, or the update test passes for the slot
    that does), a probe for the key finds the entry just written: it hits
    exactly when the requested depth is at most the stored depth (the
    incoming depth cut to 16 bits), always reports the stored flag (cut
    to 8 bits), leaves score untouched on a depth miss, and does not
    change the table.  The best move reported for the key is the incoming
    one, or the one held before when the incoming one is [MOVE_NONE]. *)
Theorem tt_store_then_lookup (tt : TranspositionTable)
    (key score best_move depth flag d score0 flag0 : Z) :
  tt_wf tt ->
  (forall i e,
     first_with_key key (tt_cluster tt (tt_cluster_index tt key)) i e ->
     update_allowed depth flag e = true) ->
  let tt' := tt_store_with_move tt key score best_move depth flag in
  tt_lookup tt' key score0 d flag0
  = (if d <=? s16 depth then (1, score, u8 flag, tt')
     else (0, score0, u8 flag, tt'))
  /\ tt_get_best_move tt' key
     = (if best_move =? MOVE_NONE then tt_get_best_move tt key else best_move).
Proof.
  intros Hwf Hallowed tt'.
  destruct (tt_store_slot tt key score best_move depth flag Hwf Hallowed)
    as (i & m & Hi & Hc & Hg & Hn & Hbefore & Hm).
  fold tt' in Hc, Hg, Hn.
  set (index := tt_cluster_index tt key) in *.
  set (c := tt_cluster tt index) in *.
  set (e := tt_write key score m depth flag (tt_generation tt)) in *.
  assert (Hindex : tt_cluster_index tt' key = index).
  { unfold tt_cluster_index. by rewrite Hn. }
  assert (Hcl : tt_cluster tt' index = <[i := e]> c).
  { unfold tt_cluster. by rewrite Hc. }
  assert (Hfind : list_find (fun e => tte_key e = key) (tt_cluster tt' index)
                  = Some (i, e)).
  { rewrite Hcl. apply list_find_insert_first; [done|done|].
    intros j y Hlt Hj. by apply (Hbefore j y). }
  split.
  - rewrite (tt_lookup_found tt' key score0 d flag0 i e).
    + done.
    + rewrite Hindex. by rewrite Hc, Hcl.
    + by rewrite Hindex.
    + by rewrite Hg.
  - unfold tt_get_best_move. rewrite Hindex, Hfind. exact Hm.
Qed.

(** X2 (empty table).  On a table just cleared (or created: [tt_create]
    gives a cleared table) a probe for a non-zero key misses, leaves
    score and flag untouched and changes nothing, and no best move is
    known.  A probe for the key 0 matches the first zeroed slot: at a
    requested depth of at most 0 it reports a hit with score 0 and flag
    [TT_FLAG_NONE]. *)
Theorem tt_lookup_empty (tt0 : TranspositionTable) (key score0 d flag0 : Z) :
  let tt := tt_clear tt0 in
  (key <> 0 ->
     tt_lookup tt key score0 d flag0 = (0, score0, flag0, tt)
     /\ tt_get_best_move tt key = MOVE_NONE)
  /\ (tt_lookup tt 0 score0 d flag0).1.1
     = (if d <=? 0 then (1, 0) else (0, score0))
  /\ (tt_lookup tt 0 score0 d flag0).1.2 = TT_FLAG_NONE.
Proof.
  intros tt.
  assert (Hc : forall index, tt_cluster tt index = cluster_zero) by done.
  split; [|split].
  - intros Hkey. unfold tt_lookup, tt_get_best_move. rewrite Hc.
    assert (Hnone : list_find (fun e => tte_key e = key) cluster_zero = None).
    { apply list_find_None. unfold cluster_zero.
      apply Forall_replicate. cbn. congruence. }
    by rewrite Hnone.
  - unfold tt_lookup. rewrite Hc.
    assert (Hf : list_find (fun e => tte_key e = 0) cluster_zero
                 = Some (0%nat, tte_zero)) by (by vm_compute).
    rewrite Hf. cbn [tte_depth tte_score tte_flag tte_zero].
    by destruct (d <=? 0).
  - unfold tt_lookup. rewrite Hc.
    assert (Hf : list_find (fun e => tte_key e = 0) cluster_zero
                 = Some (0%nat, tte_zero)) by (by vm_compute).
    rewrite Hf. cbn [tte_depth tte_score tte_flag tte_zero].
    by destruct (d <=? 0).
Qed.

Lemma tt_create_cleared (sizeof_cluster size_mb : Z) :
  tt_clear (tt_create sizeof_cluster size_mb) = tt_create sizeof_cluster size_mb.
Proof. reflexivity. Qed.

(** *** Table sizes *)

Lemma floor_pow2_spec (n : nat) : forall k limit,
  0 <= k -> limit < 2 ^ (k + Z.of_nat n + 1) ->
  exists k', k <= k' <= k + Z.of_nat n
    /\ floor_pow2 n (2 ^ k) limit = 2 ^ k'
    /\ (2 ^ k <= limit -> 2 ^ k' <= limit)
    /\ limit < 2 ^ (k' + 1)
    /\ (limit < 2 ^ (k + 1) -> k' = k).
Proof.
  induction n as [|n IH]; intros k limit Hk Hlim; cbn [floor_pow2].
  - exists k. replace (k + Z.of_nat 0 + 1) with (k + 1) in Hlim by lia.
    split; [lia|]. split; [done|]. split; [done|]. split; done.
  - destruct (Z.leb_spec (2 ^ k * 2) limit) as [Hle|Hgt].
    + assert (Hp : 2 ^ k * 2 = 2 ^ (k + 1)) by (rewrite Z.pow_add_r; lia).
      rewrite Hp in *.
      destruct (IH (k + 1) limit) as (k' & Hk' & Heq & Hle' & Hlt' & _); [lia| |].
      { replace (k + 1 + Z.of_nat n + 1) with (k + Z.of_nat (S n) + 1) by lia.
        done. }
      exists k'. split; [lia|]. split; [done|]. split; [|split; [done|lia]].
      intros _. by apply Hle'.
    + exists k. split; [lia|]. split; [done|]. split; [done|].
      split; [|done]. rewrite Z.pow_add_r by lia. lia.
Qed.

Lemma land_pow2_range (key k : Z) :
  0 <= k -> 0 <= Z.land key (2 ^ k - 1) < 2 ^ k.
Proof.
  intros Hk. replace (2 ^ k - 1) with (Z.ones k)
    by (rewrite Z.ones_equiv; lia).
  rewrite Z.land_ones by done. apply Z.mod_pos_bound. lia.
Qed.

(** X3 (table size).  [tt_create] gives a number of clusters that is a
    power of two: the largest one not above the number of clusters that
    fit into the requested size, and 1 when none fits.  Every key is
    mapped to a cluster of the table. *)
Theorem tt_create_power_of_two (sizeof_cluster size_mb : Z) :
  0 < sizeof_cluster ->
  let tt := tt_create sizeof_cluster size_mb in
  let fit := Z.quot (u64 (size_mb * 1024 * 1024)) sizeof_cluster in
  (exists k, 0 <= k <= 64
     /\ tt_num_clusters tt = 2 ^ k
     /\ (1 <= fit -> 2 ^ k <= fit < 2 ^ (k + 1))
     /\ (fit = 0 -> k = 0))
  /\ forall key, 0 <= tt_cluster_index tt key < tt_num_clusters tt.
Proof.
  intros Hsz tt fit.
  assert (Hfit : 0 <= fit < 2 ^ 64).
  { subst fit. unfold u64.
    pose proof (Z.mod_pos_bound (size_mb * 1024 * 1024) (2 ^ 64) ltac:(lia)) as Hb.
    split; [apply Z.quot_pos; lia|].
    apply Z.le_lt_trans with ((size_mb * 1024 * 1024) mod 2 ^ 64); [|lia].
    rewrite Z.quot_div_nonneg by lia.
    apply Z.div_le_upper_bound; [lia|]. nia. }
  destruct (floor_pow2_spec 64 0 fit) as (k & Hk & Heq & Hle & Hlt & Hsame);
    [lia| |].
  { cbn. lia. }
  assert (Hn : tt_num_clusters tt = 2 ^ k) by exact Heq.
  split.
  - exists k. split; [lia|]. split; [done|]. split.
    + intros H1. split; [apply Hle; cbn; lia|done].
    + intros H0. apply Hsame. rewrite H0. cbn. lia.
  - intros key. unfold tt_cluster_index. rewrite Hn.
    apply land_pow2_range. lia.
Qed.

(** 64-byte clusters and 1 MB: 16384 clusters. *)
Lemma tt_create_power_of_two_witness :
  (exists k, 0 <= k <= 64
     /\ tt_num_clusters (tt_create 64 1) = 2 ^ k
     /\ (1 <= Z.quot (u64 (1 * 1024 * 1024)) 64 ->
         2 ^ k <= Z.quot (u64 (1 * 1024 * 1024)) 64 < 2 ^ (k + 1))
     /\ (Z.quot (u64 (1 * 1024 * 1024)) 64 = 0 -> k = 0))
  /\ forall key, 0 <= tt_cluster_index (tt_create 64 1) key
                 < tt_num_clusters (tt_create 64 1).
Proof. apply (tt_create_power_of_two 64 1). lia. Defined.

(** *** The slot count *)

Lemma filter_length_insert {A} (P : A -> Prop) `{!forall x, Decision (P x)}
    (l : list A) (i : nat) (old x : A) :
  l !! i = Some old ->
  Z.of_nat (length (filter P (<[i := x]> l)))
  = Z.of_nat (length (filter P l))
    - (if decide (P old) then 1 else 0) + (if decide (P x) then 1 else 0).
Proof.
  intros Hi.
  rewrite <- (take_drop_middle l i old Hi) at 2.
  rewrite insert_take_drop by (by eapply lookup_lt_Some).
  rewrite !filter_app, !filter_cons, !length_app.
  destruct (decide (P old)), (decide (P x)); cbn [length]; lia.
Qed.

(** The count after a store, from the slot the entry went to. *)
Lemma tt_store_count_slot (tt : TranspositionTable)
    (key score best_move depth flag : Z) :
  tt_wf tt ->
  let index := tt_cluster_index tt key in
  let c := tt_cluster tt index in
  (forall i e, first_with_key key c i e -> update_allowed depth flag e = true) ->
  let tt' := tt_store_with_move tt key score best_move depth flag in
  exists (i : nat) (old new : TTEntry),
    c !! i = Some old
    /\ tt_cluster tt' index = <[i := new]> c
    /\ tte_key new = key
    /\ tt_count tt'
       = (if tte_key old =? key then tt_count tt
          else if tte_key old =? 0 then u64 (tt_count tt + 1)
          else tt_count tt).
Proof.
  intros Hwf index c Hallowed tt'.
  destruct (tt_cluster_wf tt index Hwf) as [Hlen Hok]. fold c in Hlen, Hok.
  assert (Hgen : 0 <= tt_generation tt <= 255) by apply Hwf.
  destruct (list_find (fun e => tte_key e = key) c) as [[i e]|] eqn:Hfind.
  - apply list_find_Some in Hfind as (Hi & Hkey & Hbefore).
    assert (Hfirst : first_with_key key c i e).
    { split; [done|]. split; [done|]. intros j e' Hlt Hj. by apply (Hbefore j). }
    pose proof (scan_first_match key (tt_generation tt) c i e Hfirst) as Hscan.
    exists i, e, (tt_write key score (kept_move best_move e) depth flag
                    (tt_generation tt)).
    subst tt'.
    rewrite (tt_store_matched tt key score best_move depth flag i e Hscan Hi).
    rewrite (Hallowed i e Hfirst).
    split; [done|]. split; [apply tt_cluster_set|]. split; [done|].
    rewrite Hkey, Z.eqb_refl. done.
  - apply list_find_None in Hfind.
    assert (Hbound : Forall (fun e => replacement_value e (tt_generation tt) < 1000000) c).
    { eapply Forall_impl; [exact Hok|]. intros e He.
      by apply replacement_value_bound. }
    destruct (min_fold_first_lowest (tt_generation tt) (fun _ => false) c Hbound)
      as (w & Hw & Hfl).
    { destruct c as [|e0 c0]; [done|]. by exists 0%nat, e0. }
    destruct Hfl as (e & Hwe & _).
    assert (Hscan : scan_cluster key (tt_generation tt) c
                    = Worst (Some w)
                        (foldl (min_step (tt_generation tt) (fun _ => false))
                           (None, 1000000) (imap pair c)).2).
    { unfold scan_cluster. rewrite scan_no_match, Hw; [done|].
      apply Forall_forall. intros ie Hie%elem_of_imap_pair.
      eapply Forall_lookup_1 in Hfind; [|exact Hie]. done. }
    set (r := if protected_entry (tt_generation tt) depth flag e
              then default w (second_worst (tt_generation tt) w c) else w).
    assert (Hr : exists old, c !! r = Some old).
    { apply lookup_lt_is_Some. subst r. destruct (protected_entry _ _ _ _);
        [|by eapply lookup_lt_Some].
      destruct (second_worst (tt_generation tt) w c) as [w'|] eqn:Hsw;
        cbn [default]; [|by eapply lookup_lt_Some].
      unfold second_worst in Hsw.
      destruct (min_fold_spec (tt_generation tt)
                  (fun i => bool_decide (i = w)) (imap pair c) None 1000000)
        as [[Heq _]|(l1 & ie & l2 & Hsplit & _ & Heq & _)].
      - rewrite Heq in Hsw. done.
      - rewrite Heq in Hsw. cbn in Hsw. injection Hsw as <-.
        destruct ie as [k ek]. apply imap_pair_split in Hsplit as (Hk & _).
        by eapply lookup_lt_Some. }
    destruct Hr as [old Hold].
    exists r, old, (tt_write key score best_move depth flag (tt_generation tt)).
    subst tt'.
    unfold tt_store_with_move. fold index. fold c. rewrite Hscan, Hwe.
    fold (protected_entry (tt_generation tt) depth flag e). fold r.
    rewrite Hold. cbn [default tt_count].
    split; [done|].
    split; [unfold tt_cluster; cbn [tt_clusters]; by rewrite lookup_insert_eq|].
    split; [done|].
    eapply Forall_lookup_1 in Hfind; [|exact Hold]. cbn in Hfind.
    destruct (Z.eqb_spec (tte_key old) key); [done|]. done.
Qed.

(** X4 (slot count).  A store of a non-zero key that is not refused changes
    [count] by exactly the change in the number of filled slots of the
    key's cluster: by one when an empty slot is taken, by nothing when an
    entry is updated or evicted. *)
Theorem tt_store_count (tt : TranspositionTable)
    (key score best_move depth flag : Z) :
  tt_wf tt -> key <> 0 -> 0 <= tt_count tt < 2 ^ 64 - 1 ->
  let index := tt_cluster_index tt key in
  (forall i e, first_with_key key (tt_cluster tt index) i e ->
     update_allowed depth flag e = true) ->
  let tt' := tt_store_with_move tt key score best_move depth flag in
  tt_count tt' - tt_count tt
  = cluster_filled (tt_cluster tt' index) - cluster_filled (tt_cluster tt index).
Proof.
  intros Hwf Hkey Hcount index Hallowed tt'.
  destruct (tt_store_count_slot tt key score best_move depth flag Hwf Hallowed)
    as (i & old & new & Hold & Hc & Hnew & Hcnt).
  fold index tt' in Hc, Hcnt, Hold.
  rewrite Hc, Hcnt. unfold cluster_filled.
  rewrite (filter_length_insert (fun e => tte_key e <> 0) _ i old new Hold).
  destruct (decide (tte_key new <> 0)) as [_|Hn]; [|rewrite Hnew in Hn; done].
  destruct (Z.eqb_spec (tte_key old) key) as [Heq|Hne].
  - destruct (decide (tte_key old <> 0)) as [|Hn]; [lia|].
    exfalso. apply Hn. congruence.
  - destruct (Z.eqb_spec (tte_key old) 0) as [H0|H0].
    + destruct (decide (tte_key old <> 0)); [done|].
      unfold u64. rewrite Z.mod_small by lia. lia.
    + destruct (decide (tte_key old <> 0)); [lia|done].
Qed.

(** Key 20 goes to cluster 0 of [tt_full_exact], which is full: the count
    stays at 4. *)
Lemma tt_store_count_witness :
  let tt := tt_full_exact in
  let tt' := tt_store_with_move tt 20 (-30) MOVE_NONE 1 TT_FLAG_LOWER in
  tt_count tt' - tt_count tt
  = cluster_filled (tt_cluster tt' (tt_cluster_index tt 20))
    - cluster_filled (tt_cluster tt (tt_cluster_index tt 20)).
Proof.
  apply (tt_store_count tt_full_exact 20 (-30) MOVE_NONE 1 TT_FLAG_LOWER).
  - apply tt_full_exact_wf.
  - discriminate.
  - vm_compute. split; [discriminate|reflexivity].
  - intros i e (Hi & Hk & _). exfalso.
    destruct i as [|[|[|[|i]]]]; vm_compute in Hi; [..|done];
      injection Hi as <-; vm_compute in Hk; discriminate.
Defined.

(** Key 20 is new to [tt_full_exact]: after the store a probe at depth 1
    hits with the stored score. *)
Lemma tt_store_then_lookup_witness :
  let tt' := tt_store_with_move tt_full_exact 20 (-30) 1032 1 TT_FLAG_LOWER in
  tt_lookup tt' 20 0 1 0
  = (if 1 <=? s16 1 then (1, -30, u8 TT_FLAG_LOWER, tt')
     else (0, 0, u8 TT_FLAG_LOWER, tt'))
  /\ tt_get_best_move tt' 20
     = (if 1032 =? MOVE_NONE then tt_get_best_move tt_full_exact 20 else 1032).
Proof.
  apply (tt_store_then_lookup tt_full_exact 20 (-30) 1032 1 TT_FLAG_LOWER 1 0 0).
  - apply tt_full_exact_wf.
  - intros i e (Hi & Hk & _). exfalso.
    destruct i as [|[|[|[|i]]]]; vm_compute in Hi; [..|done];
      injection Hi as <-; vm_compute in Hk; discriminate.
Defined.

(** *** The fill estimate *)

Lemma cluster_filled_range (c : list TTEntry) :
  0 <= cluster_filled c <= Z.of_nat (length c).
Proof.
  unfold cluster_filled. split; [lia|].
  apply Nat2Z.inj_le. apply length_filter.
Qed.

Lemma sum_filled_range (tt : TranspositionTable) (l : list Z) : forall a,
  tt_wf tt ->
  a <= foldl (fun filled c => filled + cluster_filled (tt_cluster tt c)) a l
    <= a + 4 * Z.of_nat (length l).
Proof.
  induction l as [|x l IH]; intros a Hwf; cbn [foldl length]; [lia|].
  specialize (IH (a + cluster_filled (tt_cluster tt x)) Hwf).
  pose proof (cluster_filled_range (tt_cluster tt x)) as Hx.
  destruct (tt_cluster_wf tt x Hwf) as [Hlen _]. rewrite Hlen in Hx.
  change (Z.of_nat TT_CLUSTER_SIZE) with 4 in Hx. lia.
Qed.

(** X5 (hashfull).  For a table with at least one cluster [tt_hashfull] is
    a per-mille value, between 0 and 1000; for a cleared table it is 0. *)
Theorem tt_hashfull_range (tt : TranspositionTable) :
  tt_wf tt -> 1 <= tt_num_clusters tt ->
  0 <= tt_hashfull tt <= 1000 /\ tt_hashfull (tt_clear tt) = 0.
Proof.
  intros Hwf Hn.
  assert (Hsample : forall t, tt_num_clusters t = tt_num_clusters tt ->
            let sample := if tt_num_clusters t <? 1000
                          then s32 (tt_num_clusters t) else 1000 in
            1 <= sample <= 1000).
  { intros t Ht. cbn zeta. rewrite Ht.
    destruct (Z.ltb_spec (tt_num_clusters tt) 1000); [|lia].
    unfold s32. rewrite Z.mod_small by lia. lia. }
  split.
  - unfold tt_hashfull. specialize (Hsample tt eq_refl). cbn zeta in Hsample.
    set (sample := if tt_num_clusters tt <? 1000
                   then s32 (tt_num_clusters tt) else 1000) in *.
    pose proof (sum_filled_range tt (range 0 (Z.to_nat sample)) 0 Hwf) as Hsum.
    assert (Hlen : length (range 0 (Z.to_nat sample)) = Z.to_nat sample).
    { unfold range. rewrite length_seqZ. lia. }
    rewrite Hlen in Hsum.
    set (filled := foldl _ 0 _) in *.
    change (Z.of_nat TT_CLUSTER_SIZE) with 4.
    rewrite Z.quot_div_nonneg by lia.
    split; [apply Z.div_pos; lia|].
    apply Z.div_le_upper_bound; [lia|]. nia.
  - unfold tt_hashfull.
    assert (Hz : forall l a,
              foldl (fun filled c => filled + cluster_filled (tt_cluster (tt_clear tt) c))
                    a l = a).
    { induction l as [|x l IH]; intros a; cbn [foldl]; [done|].
      rewrite IH. change (tt_cluster (tt_clear tt) x) with cluster_zero.
      assert (H0 : cluster_filled cluster_zero = 0) by (by vm_compute).
      rewrite H0. lia. }
    rewrite Hz. apply Z.quot_0_l.
    specialize (Hsample (tt_clear tt) eq_refl). cbn zeta in Hsample.
    change (Z.of_nat TT_CLUSTER_SIZE) with 4. lia.
Qed.

(** One full cluster out of four: 250 per mille. *)
Lemma tt_hashfull_range_witness :
  (0 <= tt_hashfull tt_full_exact <= 1000
   /\ tt_hashfull (tt_clear tt_full_exact) = 0)
  /\ tt_hashfull tt_full_exact = 250.
Proof.
  split; [|by vm_compute].
  apply (tt_hashfull_range tt_full_exact); [apply tt_full_exact_wf|].
  vm_compute. discriminate.
Defined.

(** *** The evaluation hash table *)

(** X6 (evaluation cache).  A probe for the key just stored hits and gives
    back the score and the phase cut to 16 bits; a probe for another key
    of the same slot misses and leaves the caller's variables alone, and
    so does a probe for the key that was there before: a store always
    evicts.  The probe and the hit are counted. *)
Theorem eval_tt_store_then_probe (eht : EvalHashTable)
    (key score game_phase other score0 phase0 : Z) :
  let eht' := eval_tt_store eht key score game_phase in
  (eval_tt_probe eht' key score0 phase0).1
  = (1, s16 score, s16 game_phase)
  /\ (other <> key -> eval_index eht other = eval_index eht key ->
      (eval_tt_probe eht' other score0 phase0).1 = (0, score0, phase0))
  /\ eht_probes (eval_tt_probe eht' key score0 phase0).2
     = u64 (eht_probes eht + 1)
  /\ eht_hits (eval_tt_probe eht' key score0 phase0).2
     = u64 (eht_hits eht + 1).
Proof.
  intros eht'.
  assert (He : eval_entry eht' (eval_index eht' key)
               = mkEvalEntry key (s16 score) (s16 game_phase)).
  { unfold eval_entry, eht', eval_tt_store, eval_index. cbn [eht_entries eht_size].
    by rewrite lookup_insert_eq. }
  split; [|split; [|split]].
  - unfold eval_tt_probe. rewrite He. cbn [ee_key ee_score ee_game_phase].
    by rewrite Z.eqb_refl.
  - intros Hne Hidx. unfold eval_tt_probe.
    assert (Ho : eval_entry eht' (eval_index eht' other)
                 = mkEvalEntry key (s16 score) (s16 game_phase)).
    { change (eval_index eht' other) with (eval_index eht other).
      rewrite Hidx. exact He. }
    rewrite Ho. cbn [ee_key].
    destruct (Z.eqb_spec key other); [congruence|done].
  - unfold eval_tt_probe. rewrite He. cbn [ee_key]. by rewrite Z.eqb_refl.
  - unfold eval_tt_probe. rewrite He. cbn [ee_key]. by rewrite Z.eqb_refl.
Qed.

(** ** search.c: history tables, repetition stack, reductions, clock *)
(** *** History updates *)

Lemma arr_get_set_eq (a : gmap Z Z) (i v : Z) : arr_get (arr_set a i v) i = v.
Proof. unfold arr_get, arr_set. by rewrite lookup_insert_eq. Qed.

Lemma arr_get_set_ne (a : gmap Z Z) (i j v : Z) :
  i <> j -> arr_get (arr_set a i v) j = arr_get a j.
Proof. intros H. unfold arr_get, arr_set. by rewrite lookup_insert_ne. Qed.

Ltac split_ltb :=
  repeat match goal with
         | |- context [if ?b <? ?c then _ else _] =>
             lazymatch b with
             | context [if _ then _ else _] => fail
             | _ => destruct (Z.ltb_spec b c)
             end
         end.

Lemma s32_id (x : Z) : - 2 ^ 31 <= x < 2 ^ 31 -> s32 x = x.
Proof.
  intros Hx. unfold s32.
  rewrite Z.mod_small by lia. lia.
Qed.

Lemma gravity_range (entry bonus : Z) :
  - HISTORY_MAX <= gravity entry bonus <= HISTORY_MAX.
Proof.
  unfold gravity, HISTORY_MAX. cbv zeta.
  generalize (s32 (entry + s32 (bonus - Z.quot (s32 (entry * s32 (Z.abs bonus))) 50000))).
  intros x. split_ltb; lia.
Qed.

Lemma gravity_penalty_range (entry penalty : Z) :
  - HISTORY_MAX <= gravity_penalty entry penalty <= HISTORY_MAX.
Proof.
  unfold gravity_penalty, HISTORY_MAX. cbv zeta.
  generalize (s32 (entry - s32 (penalty - Z.quot (s32 (entry * s32 (Z.abs penalty))) 50000))).
  intros x. split_ltb; lia.
Qed.

(** "depth * depth" fits an [int], and so does its product with an entry
    within the bounds, up to depth 207. *)
Lemma depth_square_small (depth : Z) :
  - 207 <= depth <= 207 ->
  s32 (depth * depth) = depth * depth /\ 0 <= depth * depth <= 42849.
Proof.
  intros Hd. assert (0 <= depth * depth <= 42849) by nia.
  split; [|done]. apply s32_id. lia.
Qed.

(** The share "entry * |bonus| / HISTORY_MAX" is at most the bonus in size
    for an entry within the bounds. *)
Lemma gravity_share (entry bonus : Z) :
  0 <= bonus -> - HISTORY_MAX <= entry <= HISTORY_MAX ->
  - bonus <= Z.quot (entry * Z.abs bonus) HISTORY_MAX <= bonus.
Proof.
  intros Hb He. rewrite Z.abs_eq by done. unfold HISTORY_MAX in *.
  destruct (Z.le_gt_cases 0 entry) as [Hpos|Hneg].
  - rewrite Z.quot_div_nonneg by nia. split.
    + apply Z.le_trans with 0; [lia|]. apply Z.div_pos; nia.
    + apply Z.div_le_upper_bound; nia.
  - replace (entry * bonus) with (- ((- entry) * bonus)) by lia.
    rewrite Z.quot_opp_l by lia.
    rewrite Z.quot_div_nonneg by nia.
    assert (0 <= (- entry * bonus) / 50000 <= bonus).
    { split; [apply Z.div_pos; nia|]. apply Z.div_le_upper_bound; nia. }
    lia.
Qed.

(** Within these bounds no operation of the update wraps around. *)
Lemma gravity_no_wrap (entry bonus : Z) :
  0 <= bonus <= 42849 -> - HISTORY_MAX <= entry <= HISTORY_MAX ->
  s32 (entry + s32 (bonus - Z.quot (s32 (entry * s32 (Z.abs bonus))) HISTORY_MAX))
  = entry + (bonus - Z.quot (entry * Z.abs bonus) HISTORY_MAX)
  /\ s32 (entry - s32 (bonus - Z.quot (s32 (entry * s32 (Z.abs bonus))) HISTORY_MAX))
     = entry - (bonus - Z.quot (entry * Z.abs bonus) HISTORY_MAX).
Proof.
  intros Hb He.
  pose proof (gravity_share entry bonus ltac:(lia) He) as Hs.
  unfold HISTORY_MAX in *.
  rewrite (s32_id (Z.abs bonus)) by lia.
  rewrite (s32_id (entry * Z.abs bonus)) by (rewrite Z.abs_eq by lia; nia).
  rewrite (s32_id (bonus - _)) by lia.
  split; apply s32_id; lia.
Qed.

Lemma gravity_up (entry bonus : Z) :
  0 <= bonus <= 42849 -> - HISTORY_MAX <= entry <= HISTORY_MAX ->
  entry <= gravity entry bonus.
Proof.
  intros Hb He. pose proof (gravity_share entry bonus ltac:(lia) He) as Hs.
  destruct (gravity_no_wrap entry bonus Hb He) as [Hw _].
  unfold gravity. cbv zeta. rewrite Hw. unfold HISTORY_MAX in *.
  split_ltb; lia.
Qed.

Lemma gravity_penalty_down (entry penalty : Z) :
  0 <= penalty <= 42849 -> - HISTORY_MAX <= entry <= HISTORY_MAX ->
  gravity_penalty entry penalty <= entry.
Proof.
  intros Hb He. pose proof (gravity_share entry penalty ltac:(lia) He) as Hs.
  destruct (gravity_no_wrap entry penalty Hb He) as [_ Hw].
  unfold gravity_penalty. cbv zeta. rewrite Hw. unfold HISTORY_MAX in *.
  split_ltb; lia.
Qed.

(** X7 (history gravity).  [update_history] and [penalize_history] rewrite
    one entry of the history table and no other, and the new value is
    always within [-HISTORY_MAX, HISTORY_MAX].  For an entry that was
    within these bounds and a depth of at most 207 in size, up to which
    "entry * abs(bonus)" fits an [int], the bonus never lowers the entry
    and the penalty never raises it.  Beyond that the [int] arithmetic
    wraps around: at depth 300 the bonus takes an entry of -HISTORY_MAX
    to 44100, and at depth 46341, where "depth * depth" itself wraps, it
    takes a zero entry down to -HISTORY_MAX. *)
Theorem history_gravity (s : SearchState) (color piece to_sq depth : Z) :
  let i := history_index color piece to_sq in
  let old := arr_get (ss_history s) i in
  let up := ss_history (update_history s color piece to_sq depth) in
  let down := ss_history (penalize_history s color piece to_sq depth) in
  (- HISTORY_MAX <= arr_get up i <= HISTORY_MAX
   /\ - HISTORY_MAX <= arr_get down i <= HISTORY_MAX)
  /\ (- HISTORY_MAX <= old <= HISTORY_MAX -> - 207 <= depth <= 207 ->
      arr_get down i <= old <= arr_get up i)
  /\ (forall j, j <> i ->
        arr_get up j = arr_get (ss_history s) j
        /\ arr_get down j = arr_get (ss_history s) j)
  /\ (old = - HISTORY_MAX -> depth = 300 -> arr_get up i = 44100)
  /\ (old = 0 -> depth = 46341 -> arr_get up i = - HISTORY_MAX).
Proof.
  intros i old up down.
  assert (Hup : arr_get up i = gravity old (s32 (depth * depth))).
  { unfold up, update_history. cbn. apply arr_get_set_eq. }
  assert (Hdown : arr_get down i = gravity_penalty old (s32 (depth * depth))).
  { unfold down, penalize_history. cbn. apply arr_get_set_eq. }
  split; [|split; [|split; [|split]]].
  - rewrite Hup, Hdown. split; [apply gravity_range|apply gravity_penalty_range].
  - intros Hold Hd. rewrite Hup, Hdown.
    destruct (depth_square_small depth Hd) as [-> Hsq].
    split; [by apply gravity_penalty_down|by apply gravity_up].
  - intros j Hj. split.
    + unfold up, update_history. cbn. by apply arr_get_set_ne.
    + unfold down, penalize_history. cbn. by apply arr_get_set_ne.
  - intros Hold ->. rewrite Hup, Hold. by vm_compute.
  - intros Hold ->. rewrite Hup, Hold. by vm_compute.
Qed.


(** *** Repetition stack *)

Lemma existsb_range_spec (f : Z -> bool) (n : nat) :
  existsb f (range 0 n) = true <-> exists i, 0 <= i < Z.of_nat n /\ f i = true.
Proof.
  rewrite existsb_exists. unfold range. split.
  - intros (i & Hin & Hf). exists i. split; [|done].
    apply list_elem_of_In, elem_of_seqZ in Hin. lia.
  - intros (i & Hi & Hf). exists i. split; [|done].
    apply list_elem_of_In, elem_of_seqZ. lia.
Qed.

(** X8 (repetition stack).  Below the capacity, after a position has been
    pushed a key counts as repeated exactly when it is among the entries
    that were on the stack before the push (the entry just pushed is not
    looked at), and the pop brings the stack height back.  At the capacity
    the push is dropped without notice while the pop still takes an entry
    off, so a push/pop pair leaves the stack one entry short. *)
Theorem repetition_push_check_pop (s : SearchState) (key probe : Z) :
  let ply := ss_repetition_ply s in
  let pushed := add_repetition_position s key in
  0 <= ply ->
  (ply < MAX_GAME_MOVES ->
     (check_repetition pushed probe = true
      <-> exists i, 0 <= i < ply
                    /\ arr_get (ss_repetition_history s) i = probe)
     /\ ss_repetition_ply (remove_repetition_position pushed) = ply
     /\ forall i, 0 <= i < ply ->
          arr_get (ss_repetition_history (remove_repetition_position pushed)) i
          = arr_get (ss_repetition_history s) i)
  /\ (ply = MAX_GAME_MOVES ->
        pushed = s
        /\ ss_repetition_ply (remove_repetition_position pushed) = ply - 1).
Proof.
  intros ply pushed Hply. split.
  - intros Hcap.
    assert (Hp : pushed
                 = set_ss_repetition_ply (ply + 1)
                     (set_ss_repetition_history
                        (arr_set (ss_repetition_history s) ply key) s)).
    { unfold pushed, add_repetition_position. fold ply.
      by destruct (Z.ltb_spec ply MAX_GAME_MOVES); [|lia]. }
    split; [|split].
    + rewrite Hp. unfold check_repetition.
      cbn [ss_repetition_ply ss_repetition_history set_ss_repetition_ply
             set_ss_repetition_history].
      destruct (Z.ltb_spec (ply + 1) 2) as [Hlt|Hge].
      * split; [done|]. intros (i & Hi & _). lia.
      * rewrite existsb_range_spec.
        replace (Z.of_nat (Z.to_nat (ply + 1 - 1))) with ply by lia.
        split; intros (i & Hi & Hf); exists i; (split; [done|]).
        -- apply Z.eqb_eq in Hf. rewrite arr_get_set_ne in Hf by lia. done.
        -- apply Z.eqb_eq. rewrite arr_get_set_ne by lia. done.
    + rewrite Hp. unfold remove_repetition_position.
      cbn [ss_repetition_ply set_ss_repetition_ply set_ss_repetition_history].
      destruct (Z.ltb_spec 0 (ply + 1)); [|lia].
      cbn [ss_repetition_ply set_ss_repetition_ply]. lia.
    + intros i Hi. rewrite Hp. unfold remove_repetition_position.
      cbn [ss_repetition_ply set_ss_repetition_ply set_ss_repetition_history].
      destruct (Z.ltb_spec 0 (ply + 1)); [|lia].
      cbn [ss_repetition_history set_ss_repetition_ply set_ss_repetition_history].
      apply arr_get_set_ne. lia.
  - intros Hcap.
    assert (Hp : pushed = s).
    { unfold pushed, add_repetition_position. fold ply.
      by destruct (Z.ltb_spec ply MAX_GAME_MOVES); [lia|]. }
    split; [done|]. rewrite Hp. unfold remove_repetition_position. fold ply.
    destruct (Z.ltb_spec 0 ply); [done|]. unfold MAX_GAME_MOVES in Hcap. lia.
Qed.

(** A fresh state: the stack is empty. *)
Lemma repetition_push_check_pop_witness :
  let s := state_fresh in
  let ply := ss_repetition_ply s in
  let pushed := add_repetition_position s 77 in
  (ply < MAX_GAME_MOVES ->
     (check_repetition pushed 77 = true
      <-> exists i, 0 <= i < ply
                    /\ arr_get (ss_repetition_history s) i = 77)
     /\ ss_repetition_ply (remove_repetition_position pushed) = ply
     /\ forall i, 0 <= i < ply ->
          arr_get (ss_repetition_history (remove_repetition_position pushed)) i
          = arr_get (ss_repetition_history s) i)
  /\ (ply = MAX_GAME_MOVES ->
        pushed = s
        /\ ss_repetition_ply (remove_repetition_position pushed) = ply - 1).
Proof. apply (repetition_push_check_pop state_fresh 77 77). by vm_compute. Defined.


(** *** Reductions and the clock *)

(** [let] by [let], without expanding. *)
Lemma let_intro {A B} (a : A) (f : A -> B) (P : B -> Prop) :
  (forall x, P (f x)) -> P (let x := a in f x).
Proof. intros H. apply H. Qed.

Section SearchHelperFacts.
Variable phase_eval : Position -> Z.
Variable LMR_TABLE : Z -> Z -> Z.
Variable threads_should_stop : nat -> bool.
Variable get_time_ms : nat -> Z.

Local Abbreviation get_lmr_reduction := (get_lmr_reduction LMR_TABLE).
Local Abbreviation null_move_reduction := (null_move_reduction phase_eval).
Local Abbreviation is_time_up_at :=
  (is_time_up_at threads_should_stop get_time_ms).

(** X9 (reduced depths).  Whatever the reduction table and the heuristics
    say, the late-move reduction is never negative, is 0 below depth 3,
    and from depth 3 on leaves a reduced search of depth at least 1; the
    null-move reduction R is at least 1 and from depth 3 on leaves
    depth - R - 1 >= 1.  Neither reduction drops a search into quiescence
    by itself. *)
Theorem reductions_keep_depth_positive (s : SearchState) (pos : Position)
    (depth move_count move beta static_eval : Z)
    (is_pv is_capture gives_check : bool) :
  let r := get_lmr_reduction s pos depth move_count is_pv is_capture
             gives_check move in
  let R := null_move_reduction pos depth beta static_eval in
  0 <= r
  /\ (depth < 3 -> r = 0)
  /\ (3 <= depth -> 1 <= depth - 1 - r)
  /\ 1 <= R
  /\ (3 <= depth -> 1 <= depth - R - 1).
Proof.
  assert (Hclamp : forall x,
            let y := if depth - 1 <=? x then depth - 2 else x in
            let r := if y <? 0 then 0 else y in
            0 <= r /\ (3 <= depth -> 1 <= depth - 1 - r)).
  { intros x. cbv zeta.
    destruct (Z.leb_spec (depth - 1) x);
      match goal with
      | |- context [if ?a <? 0 then _ else _] => destruct (Z.ltb_spec a 0)
      end; lia. }
  assert (Hlmr : 0 <= get_lmr_reduction s pos depth move_count is_pv
                        is_capture gives_check move
                 /\ (3 <= depth ->
                     1 <= depth - 1
                          - get_lmr_reduction s pos depth move_count is_pv
                              is_capture gives_check move)).
  { unfold get_lmr_reduction.
    destruct ((depth <? 3) || (move_count <? 4)); [lia|].
    repeat lazymatch goal with
      | |- 0 <= (let _ := _ in _) /\ _ =>
          refine (let_intro _ _
                    (fun r => 0 <= r /\ (3 <= depth -> 1 <= depth - 1 - r)) _);
          intros ?; cbv beta
      end.
    apply Hclamp. }
  assert (HR : forall x,
            let y := if depth - 2 <? x then depth - 2 else x in
            let R := if y <? 1 then 1 else y in
            1 <= R /\ (3 <= depth -> 1 <= depth - R - 1)).
  { intros x. cbv zeta.
    destruct (Z.ltb_spec (depth - 2) x);
      match goal with
      | |- context [if ?a <? 1 then _ else _] => destruct (Z.ltb_spec a 1)
      end; lia. }
  assert (Hnull : 1 <= null_move_reduction pos depth beta static_eval
                  /\ (3 <= depth ->
                      1 <= depth - null_move_reduction pos depth beta static_eval
                           - 1)).
  { unfold null_move_reduction.
    repeat lazymatch goal with
      | |- 1 <= (let _ := _ in _) /\ _ =>
          refine (let_intro _ _
                    (fun R => 1 <= R /\ (3 <= depth -> 1 <= depth - R - 1)) _);
          intros ?; cbv beta
      end.
    apply HR. }
  cbv zeta. destruct Hlmr as [H1 H2], Hnull as [H3 H4].
  split; [done|]. split; [|done].
  intros Hd. unfold get_lmr_reduction.
  by destruct (Z.ltb_spec depth 3); [|lia].
Qed.

(** X10 (time test).  As long as the stop flag is down: with no time limit
    (max_time_ms <= 0) the test never fires, not even when a node limit
    is set and reached; with a time limit it fires once the node limit is
    reached; and when the node count is below 100 or not a multiple of
    4096 (and the node limit is not reached) it does not fire, whatever
    the clock shows. *)
Theorem is_time_up_cases (s : SearchState) :
  threads_should_stop (ss_polls s) = false ->
  (ss_max_time_ms s <= 0 -> is_time_up_at s = false)
  /\ (0 < ss_max_time_ms s -> 0 < ss_nodes_limit s <= ss_nodes s ->
      is_time_up_at s = true)
  /\ (0 < ss_max_time_ms s ->
      ~ (0 < ss_nodes_limit s <= ss_nodes s) ->
      ss_nodes s < 100 \/ Z.land (ss_nodes s) 0xFFF <> 0 ->
      is_time_up_at s = false).
Proof.
  intros Hstop. unfold is_time_up_at. rewrite Hstop. split; [|split].
  - intros Hmax. by destruct (Z.leb_spec (ss_max_time_ms s) 0); [|lia].
  - intros Hmax [Hl Hn]. destruct (Z.leb_spec (ss_max_time_ms s) 0); [lia|].
    destruct (Z.ltb_spec 0 (ss_nodes_limit s)); [|lia].
    by destruct (Z.leb_spec (ss_nodes_limit s) (ss_nodes s)); [|lia].
  - intros Hmax Hlimit Hnodes.
    destruct (Z.leb_spec (ss_max_time_ms s) 0); [lia|].
    assert (Hl : (0 <? ss_nodes_limit s) && (ss_nodes_limit s <=? ss_nodes s)
                 = false).
    { destruct (Z.ltb_spec 0 (ss_nodes_limit s)); [|done].
      destruct (Z.leb_spec (ss_nodes_limit s) (ss_nodes s)); [|done].
      exfalso. apply Hlimit. lia. }
    rewrite Hl. destruct (Z.ltb_spec (ss_nodes s) 100); [done|].
    destruct Hnodes as [|Hne]; [lia|].
    by destruct (Z.eqb_spec (Z.land (ss_nodes s) 0xFFF) 0).
Qed.

End SearchHelperFacts.

(** A fresh state (5000 ms, no node limit, 0 nodes) with the flag down. *)
Lemma is_time_up_cases_witness :
  (ss_max_time_ms state_fresh <= 0 ->
   is_time_up_at never_stop clock_zero state_fresh = false)
  /\ (0 < ss_max_time_ms state_fresh ->
      0 < ss_nodes_limit state_fresh <= ss_nodes state_fresh ->
      is_time_up_at never_stop clock_zero state_fresh = true)
  /\ (0 < ss_max_time_ms state_fresh ->
      ~ (0 < ss_nodes_limit state_fresh <= ss_nodes state_fresh) ->
      ss_nodes state_fresh < 100
      \/ Z.land (ss_nodes state_fresh) 0xFFF <> 0 ->
      is_time_up_at never_stop clock_zero state_fresh = false).
Proof. apply (is_time_up_cases never_stop clock_zero state_fresh). reflexivity. Defined.

(** ** search.c: the window of [quiescence] *)

Section QuiescenceBounds.
Variable nnue_available : bool.
Variable nnue_refresh_accumulator : Position -> Accumulator.
Variable nnue_update_accumulator :
  Accumulator -> Z -> Z -> Z -> Z -> Z -> Z -> Accumulator.
Variable evaluate : Position -> Z.
Variable threads_should_stop : nat -> bool.
Variable get_time_ms : nat -> Z.

Local Abbreviation evaluate_position := (evaluate_position evaluate).
Local Abbreviation is_time_up_at :=
  (is_time_up_at threads_should_stop get_time_ms).
Local Abbreviation is_time_up := (is_time_up threads_should_stop get_time_ms).
Local Abbreviation quiescence_loop :=
  (quiescence_loop nnue_available nnue_refresh_accumulator
     nnue_update_accumulator threads_should_stop get_time_ms).
Local Abbreviation quiescence_body :=
  (quiescence_body nnue_available nnue_refresh_accumulator
     nnue_update_accumulator evaluate threads_should_stop get_time_ms).
Local Abbreviation quiescence :=
  (quiescence nnue_available nnue_refresh_accumulator nnue_update_accumulator
     evaluate threads_should_stop get_time_ms).




End QuiescenceBounds.


(** ** types.h, bitboard.h: move and square encodings *)

Lemma testbit_above (x k n : Z) :
  0 <= x < 2 ^ k -> 0 <= k <= n -> Z.testbit x n = false.
Proof.
  intros Hx Hk. rewrite <- (Z.mod_small x (2 ^ k)) by lia.
  apply Z.mod_pow2_bits_high. lia.
Qed.

(** Or-ing a field above the bits in use adds it. *)
Lemma lor_shiftl_add (lo x o : Z) :
  0 <= o -> 0 <= lo < 2 ^ o -> Z.lor lo (Z.shiftl x o) = lo + x * 2 ^ o.
Proof.
  intros Ho Hlo.
  assert (Hland : Z.land lo (Z.shiftl x o) = 0).
  { apply Z.bits_inj'. intros n Hn.
    rewrite Z.land_spec, Z.shiftl_spec, Z.bits_0 by lia.
    destruct (Z.lt_ge_cases n o).
    - rewrite (Z.testbit_neg_r x) by lia. apply andb_false_r.
    - by rewrite (testbit_above lo o n) by lia. }
  pose proof (Z.add_lor_land lo (Z.shiftl x o)) as Hadd.
  rewrite Hland, Z.shiftl_mul_pow2 in Hadd by lia.
  rewrite Z.shiftl_mul_pow2 by lia. lia.
Qed.

Lemma MAKE_MOVE_value (from to promo flag : Z) :
  0 <= from < 64 -> 0 <= to < 64 -> 0 <= promo < 16 ->
  MAKE_MOVE from to promo flag = from + to * 64 + promo * 4096 + flag * 65536.
Proof.
  intros Hf Ht Hp. unfold MAKE_MOVE.
  rewrite (lor_shiftl_add from to 6) by lia.
  rewrite (lor_shiftl_add _ promo 12) by lia.
  rewrite (lor_shiftl_add _ flag 16) by lia.
  reflexivity.
Qed.

Lemma field_at (m o w : Z) :
  0 <= o -> 0 <= w ->
  Z.land (Z.shiftr m o) (Z.ones w) = (m / 2 ^ o) mod 2 ^ w.
Proof. intros Ho Hw. by rewrite Z.land_ones, Z.shiftr_div_pow2 by lia. Qed.

(** X12 (move encoding).  A move built by MAKE_MOVE from an origin and a
    destination square, a promotion code below 16 and a flag below 4
    gives each of them back through MOVE_FROM, MOVE_TO, MOVE_PROMO and
    MOVE_FLAG, fits in 18 bits, and equals MOVE_NONE only when all four
    fields are 0 (the move a1-a1). *)
Theorem move_fields_round_trip (from to promo flag : Z) :
  0 <= from < 64 -> 0 <= to < 64 -> 0 <= promo < 16 -> 0 <= flag < 4 ->
  let m := MAKE_MOVE from to promo flag in
  MOVE_FROM m = from /\ MOVE_TO m = to /\ MOVE_PROMO m = promo
  /\ MOVE_FLAG m = flag
  /\ 0 <= m < 2 ^ 18
  /\ (m = MOVE_NONE <-> from = 0 /\ to = 0 /\ promo = 0 /\ flag = 0).
Proof.
  intros Hf Ht Hp Hfl m.
  assert (Hm : m = from + to * 64 + promo * 4096 + flag * 65536)
    by (by apply MAKE_MOVE_value).
  unfold MOVE_FROM, MOVE_TO, MOVE_PROMO, MOVE_FLAG, MOVE_NONE.
  change 0x3F with (Z.ones 6). change 0xF with (Z.ones 4).
  change 0x3 with (Z.ones 2).
  rewrite <- (Z.shiftr_0_r m) at 1.
  rewrite !field_at by lia.
  change (2 ^ 0) with 1. change (2 ^ 6) with 64. change (2 ^ 12) with 4096.
  change (2 ^ 16) with 65536. change (2 ^ 4) with 16. change (2 ^ 2) with 4.
  change (2 ^ 18) with 262144.
  clearbody m. subst m.
  repeat split; try (Z.div_mod_to_equations; lia); lia.
Qed.

Lemma move_fields_round_trip_witness :
  let m := MAKE_MOVE 12 28 0 FLAG_QUIET in
  MOVE_FROM m = 12 /\ MOVE_TO m = 28 /\ MOVE_PROMO m = 0
  /\ MOVE_FLAG m = FLAG_QUIET
  /\ 0 <= m < 2 ^ 18
  /\ (m = MOVE_NONE <-> 12 = 0 /\ 28 = 0 /\ 0 = 0 /\ FLAG_QUIET = 0).
Proof.
  apply (move_fields_round_trip 12 28 0 FLAG_QUIET); unfold FLAG_QUIET; lia.
Defined.

(** ** uci.c: more on [allocate_time] *)

(** Unfolds the [let] at the head of an equation's left side, and no
    other. *)
Ltac head_let :=
  lazymatch goal with
  | |- (let x := ?a in @?f x) = ?r <-> ?Q =>
      change (f a = r <-> Q); cbv beta
  end.

(** Replaces the value bound by the [let] at the head of an equation's
    left side by an arbitrary one. *)
Ltac any_let :=
  lazymatch goal with
  | |- (let x := ?a in @?f x) = ?r <-> ?Q =>
      let H := fresh in
      assert (H : forall y, f y = r <-> Q);
      [intros ?; cbv beta | exact (H a)]
  end.

(** Case analysis on a comparison between two terms free of tests. *)
Ltac split_test :=
  match goal with
  | |- context [if ?b <? ?c then _ else _] =>
      lazymatch b with
      | context [if _ then _ else _] => fail
      | _ => lazymatch c with
             | context [if _ then _ else _] => fail
             | _ => destruct (Z.ltb_spec b c)
             end
      end
  end.

Section TimeFactsMore.

Variable phase_eval : Position -> Z.

Local Abbreviation allocate_time := (allocate_time phase_eval).
Local Abbreviation get_game_phase_for_time :=
  (get_game_phase_for_time phase_eval).

Lemma s32_zero_iff (x : Z) :
  - 2 ^ 31 <= x < 2 ^ 31 -> s32 (x + 3) = 0 <-> x = -3.
Proof.
  intros Hx. unfold s32. split; [|by intros ->].
  intros H.
  destruct (Z.lt_ge_cases (x + 3) (2 ^ 31)).
  - rewrite Z.mod_small in H; lia.
  - replace (x + 3 + 2147483648) with (x + 3 - 2147483648 + 1 * 4294967296)
      in H by lia.
    rewrite Z.mod_add, Z.mod_small in H; lia.
Qed.

Lemma estimated_moves_positive (pos : Position) :
  let game_phase := get_game_phase_for_time pos in
  0 < (if game_phase =? TM_PHASE_OPENING then 35
       else if game_phase =? TM_PHASE_MIDDLE then 25
       else if game_phase =? TM_PHASE_ENDGAME then 15 else 25) < 100.
Proof. cbv zeta. repeat case_match; lia. Qed.

(** X13 (when the allocation is undefined).  [allocate_time] divides the
    clock by [moves_to_go + 3]; the division is by zero, and the function
    has no result, exactly when no fixed move time and no infinite mode is
    asked for, the clock of the side to move is positive and [movestogo]
    is -3.  In every other case a result is produced. *)
Theorem allocate_time_undefined_iff (tc : TimeControl) (pos : Position)
    (last_score : Z) :
  - 2 ^ 31 <= movestogo tc < 2 ^ 31 ->
  allocate_time tc pos last_score = None
  <-> movetime tc <= 0 /\ infinite tc = 0 /\ 0 < remaining_clock tc pos
      /\ movestogo tc = -3.
Proof.
  intros Hmtg. cbv beta delta [allocate_time].
  destruct (Z.ltb_spec 0 (movetime tc)); [split; [done|lia]|].
  destruct (Z.eqb_spec (infinite tc) 0) as [Hinf|Hinf].
  2:{ unfold nz. destruct (Z.eqb_spec (infinite tc) 0); [done|].
      split; [done|tauto]. }
  rewrite Hinf. change (nz 0) with false. cbv iota.
  set (Q := movetime tc <= 0 /\ 0 = 0 /\ 0 < remaining_clock tc pos
            /\ movestogo tc = -3).
  do 3 head_let.
  destruct (Z.leb_spec (remaining_clock tc pos) 0);
    [split; [done|unfold Q; lia]|].
  do 2 head_let.
  pose proof (estimated_moves_positive pos) as Hest. cbv zeta in Hest.
  match goal with
  | |- context [s32 (?e + 3) =? 0] =>
      assert (He : e = -3 <-> movestogo tc = -3)
        by (destruct (Z.eqb_spec (movestogo tc) 0); lia);
      assert (Hr : - 2 ^ 31 <= e < 2 ^ 31)
        by (destruct (Z.eqb_spec (movestogo tc) 0); lia);
      pose proof (s32_zero_iff e Hr) as Hs;
      destruct (Z.eqb_spec (s32 (e + 3)) 0) as [Hz|Hz]
  end.
  - split; [intros _|done]. unfold Q. tauto.
  - repeat any_let. split; [done|]. unfold Q. tauto.
Qed.

Lemma s32_small (x : Z) : - 2 ^ 31 <= x < 2 ^ 31 -> s32 x = x.
Proof. intros Hx. unfold s32. rewrite Z.mod_small; lia. Qed.

(** X14 (sudden death).  With no increment for the side to move and no
    [movestogo], the allocation depends on the clock alone: the base time
    is a fortieth of it, whatever the game phase and the last score, which
    the earlier adjustments had used. *)
Theorem allocate_time_sudden_death (tc : TimeControl) (pos : Position)
    (last_score : Z) :
  movetime tc <= 0 -> infinite tc = 0 ->
  0 < remaining_clock tc pos < 2 ^ 31 ->
  (if to_move pos =? WHITE then winc tc else binc tc) = 0 ->
  movestogo tc = 0 ->
  let remaining := remaining_clock tc pos in
  let base := Z.quot remaining 40 in
  allocate_time tc pos last_score
  = Some (mkTimeAllocation
            (Z.max 50 base)
            (Z.max (Z.max 50 base) (Z.min (base * 3) (remaining - 50)))
            base
            (Z.max 100 (Z.quot base 3))).
Proof.
  intros Hmt Hinf Hrem Hinc Hmtg.
  cbv beta delta [allocate_time].
  destruct (Z.ltb_spec 0 (movetime tc)); [lia|].
  rewrite Hinf. change (nz 0) with false. cbv iota.
  rewrite Hinc, Hmtg.
  set (rem := remaining_clock tc pos) in *.
  destruct (Z.leb_spec rem 0); [lia|].
  pose proof (estimated_moves_positive pos) as Hest.
  cbv zeta in *.
  change (0 =? 0) with true. cbv iota. change (true && true) with true.
  cbv iota.
  match goal with
  | |- context [s32 (?e + 3) =? 0] =>
      destruct (Z.eqb_spec (s32 (e + 3)) 0) as [Hz|Hz];
      [rewrite s32_small in Hz by lia; lia|]
  end.
  assert (Hq40 : Z.quot rem 40 = rem / 40) by (apply Z.quot_div_nonneg; lia).
  assert (Hq4 : Z.quot rem 4 = rem / 4) by (apply Z.quot_div_nonneg; lia).
  assert (Hq2 : Z.quot rem 2 = rem / 2) by (apply Z.quot_div_nonneg; lia).
  assert (Hb : 0 <= rem / 40 <= 53687091)
    by (Z.div_mod_to_equations; lia).
  assert (Hq3 : Z.quot (rem / 40) 3 = rem / 40 / 3)
    by (apply Z.quot_div_nonneg; lia).
  rewrite !Hq40, !Hq4, !Hq2, !Hq3.
  rewrite (s32_small (rem / 40 * 3)) by lia.
  rewrite (s32_small (rem - 50)) by lia.
  assert (Hh : rem / 40 <= rem / 2) by (Z.div_mod_to_equations; lia).
  assert (Hq : rem / 40 * 3 <= rem / 4) by (Z.div_mod_to_equations; lia).
  clear Hq40 Hq4 Hq2 Hq3 Hest Hz.
  set (p := rem / 40 / 3). clearbody p.
  set (b := rem / 40) in *. set (q := rem / 4) in *. set (h := rem / 2) in *.
  clearbody b q h.
  destruct (Z.leb_spec rem 0); [lia|].
  repeat split_test; f_equal; f_equal; lia.
Qed.

End TimeFactsMore.

Lemma allocate_time_undefined_iff_witness :
  let tc := mkTimeControl 60000 60000 0 0 (-3) 0 0 0 0 in
  allocate_time phase_middle tc pos_after_e4 0 = None
  <-> movetime tc <= 0 /\ infinite tc = 0
      /\ 0 < remaining_clock tc pos_after_e4 /\ movestogo tc = -3.
Proof.
  apply (allocate_time_undefined_iff phase_middle
           (mkTimeControl 60000 60000 0 0 (-3) 0 0 0 0) pos_after_e4 0).
  cbn. lia.
Defined.

(** One minute on both clocks, no increment: 1500 ms, at most 4500 ms. *)
Lemma allocate_time_sudden_death_witness :
  allocate_time phase_middle (mkTimeControl 60000 60000 0 0 0 0 0 0 0)
    pos_after_e4 (-250)
  = Some (mkTimeAllocation 1500 4500 1500 500).
Proof.
  apply (allocate_time_sudden_death phase_middle
           (mkTimeControl 60000 60000 0 0 0 0 0 0 0) pos_after_e4 (-250));
    cbn; (lia || reflexivity).
Defined.


(** ** search.c: aspiration windows *)

Lemma s16_small (x : Z) : - 32768 <= x < 32768 -> s16 x = x.
Proof. intros Hx. apply s16_id. unfold in_s16. lia. Qed.

(** X15 (aspiration window).  Up to depth 4 the window is the full one.
    Beyond, for a previous score within the mate bounds and counters that
    do not overflow, the window is the previous score plus and minus a
    margin, cut at the infinite scores; the margin is 1000 after two
    consecutive failures and between 25 and 400 otherwise.  So the window
    contains the previous score and is never empty. *)
Theorem aspiration_window_valid (st : IterationState) (depth : Z) :
  - SCORE_MATE <= it_previous_score st <= SCORE_MATE ->
  - 2 ^ 31 <= it_score_volatility st < 2 ^ 31 ->
  it_aspiration_consecutive_fails st < 2 ^ 20 ->
  it_aspiration_fail_high_count st < 2 ^ 20 ->
  it_aspiration_fail_low_count st < 2 ^ 20 ->
  let center := it_previous_score st in
  let '(alpha, beta) := get_aspiration_window st depth in
  (depth <= 4 -> alpha = - SCORE_INFINITE /\ beta = SCORE_INFINITE)
  /\ (4 < depth ->
      exists delta,
        alpha = Z.max (- SCORE_INFINITE) (center - delta)
        /\ beta = Z.min SCORE_INFINITE (center + delta)
        /\ (2 <= it_aspiration_consecutive_fails st -> delta = 1000)
        /\ (it_aspiration_consecutive_fails st < 2 -> 25 <= delta <= 400))
  /\ - SCORE_INFINITE <= alpha /\ alpha < center < beta
  /\ beta <= SCORE_INFINITE.
Proof.
  intros Hc Hvol Hfails Hfh Hfl center.
  cbv beta delta [get_aspiration_window].
  destruct (Z.leb_spec depth 4) as [Hd|Hd].
  { unfold SCORE_MATE, SCORE_INFINITE in *. subst center.
    split; [done|]. split; [lia|]. lia. }
  rewrite (s16_small (it_previous_score st))
    by (unfold SCORE_MATE in Hc; lia).
  fold center. change (it_previous_score st) with center in Hc. cbv zeta.
  set (vol := it_score_volatility st) in *.
  set (fails := it_aspiration_consecutive_fails st) in *.
  set (fh := it_aspiration_fail_high_count st) in *.
  set (fl := it_aspiration_fail_low_count st) in *.
  set (d1 := if 0 <? vol then s32 (25 + Z.quot vol 10) else 25).
  set (d2 := if 200 <? Z.abs center then Z.quot (Z.abs center) 8 else d1).
  set (d3 := if 500 <? Z.abs center then 100 else d2).
  set (d4 := if 0 <? fails then s32 (d3 + s32 (50 * fails)) else d3).
  set (d5 := if 0 <? fh then s32 (d4 + s32 (25 * fh)) else d4).
  set (d6 := if 0 <? fl then s32 (d5 + s32 (25 * fl)) else d5).
  set (delta := if 2 <=? fails then 1000 else if 400 <? d6 then 400 else d6).
  unfold SCORE_MATE, SCORE_INFINITE in *.
  assert (H1 : 25 <= d1 <= 2 ^ 29).
  { unfold d1. destruct (Z.ltb_spec 0 vol); [|lia].
    assert (0 <= Z.quot vol 10 <= 2 ^ 28).
    { rewrite Z.quot_div_nonneg by lia. Z.div_mod_to_equations. lia. }
    rewrite s32_small; lia. }
  assert (H2 : 25 <= d2 <= 2 ^ 29).
  { unfold d2. destruct (Z.ltb_spec 200 (Z.abs center)); [|lia].
    rewrite Z.quot_div_nonneg by lia. Z.div_mod_to_equations. lia. }
  assert (H3 : 25 <= d3 <= 2 ^ 29).
  { unfold d3. destruct (Z.ltb_spec 500 (Z.abs center)); lia. }
  assert (H4 : 25 <= d4 <= 2 ^ 29 + 2 ^ 26).
  { unfold d4. destruct (Z.ltb_spec 0 fails); [|lia].
    rewrite (s32_small (50 * fails)) by lia. rewrite s32_small; lia. }
  assert (H5 : 25 <= d5 <= 2 ^ 29 + 2 ^ 26 + 2 ^ 25).
  { unfold d5. destruct (Z.ltb_spec 0 fh); [|lia].
    rewrite (s32_small (25 * fh)) by lia. rewrite s32_small; lia. }
  assert (H6 : 25 <= d6 <= 2 ^ 30).
  { unfold d6. destruct (Z.ltb_spec 0 fl); [|lia].
    rewrite (s32_small (25 * fl)) by lia. rewrite s32_small; lia. }
  assert (Hdelta : (2 <= fails -> delta = 1000)
                   /\ (fails < 2 -> 25 <= delta <= 400)).
  { unfold delta. destruct (Z.leb_spec 2 fails); [split; [done|lia]|].
    split; [lia|]. intros _. destruct (Z.ltb_spec 400 d6); lia. }
  assert (Hrange : 25 <= delta <= 1000).
  { destruct (Z.lt_ge_cases fails 2); lia. }
  clearbody delta. clear d1 d2 d3 d4 d5 d6 H1 H2 H3 H4 H5 H6.
  rewrite (s16_small (center - delta)), (s16_small (center + delta)) by lia.
  split; [lia|].
  destruct (Z.ltb_spec (center - delta) (Z.opp 32000)),
    (Z.ltb_spec 32000 (center + delta)); cbv beta iota;
    (split; [intros _; exists delta; repeat split; tauto || lia|lia]).
Qed.

(** The driver state [search_create] leaves (all counters 0). *)
Lemma aspiration_window_valid_witness :
  let st := mkIterationState 0 0 0 (replicate 32 0) 0 0 0 0 in
  let center := it_previous_score st in
  let '(alpha, beta) := get_aspiration_window st 5 in
  (5 <= 4 -> alpha = - SCORE_INFINITE /\ beta = SCORE_INFINITE)
  /\ (4 < 5 ->
      exists delta,
        alpha = Z.max (- SCORE_INFINITE) (center - delta)
        /\ beta = Z.min SCORE_INFINITE (center + delta)
        /\ (2 <= it_aspiration_consecutive_fails st -> delta = 1000)
        /\ (it_aspiration_consecutive_fails st < 2 -> 25 <= delta <= 400))
  /\ - SCORE_INFINITE <= alpha /\ alpha < center < beta
  /\ beta <= SCORE_INFINITE.
Proof.
  apply (aspiration_window_valid
           (mkIterationState 0 0 0 (replicate 32 0) 0 0 0 0) 5);
    cbn; unfold SCORE_MATE; lia.
Defined.

(** ** search.c: the window of iteration scores *)

Lemma range_snoc (lo : Z) (n : nat) : range lo (S n) = range lo n ++ [lo + Z.of_nat n].
Proof.
  unfold range. rewrite Nat2Z.inj_succ. unfold Z.succ.
  rewrite seqZ_app by lia. f_equal.
Qed.

Lemma getZ_nat (l : list Z) (i : nat) : getZ l (Z.of_nat i) = default 0 (l !! i).
Proof.
  unfold getZ, lookupZ. destruct (Z.ltb_spec (Z.of_nat i) 0); [lia|].
  by rewrite Nat2Z.id.
Qed.

Lemma setZ_nat {A} (l : list A) (i : nat) (v : A) :
  setZ l (Z.of_nat i) v = <[i := v]> l.
Proof.
  unfold setZ. destruct (Z.ltb_spec (Z.of_nat i) 0); [lia|].
  by rewrite Nat2Z.id.
Qed.

Lemma swings_snoc (l : list Z) (a b : Z) :
  swings (l ++ [a; b]) = swings (l ++ [a]) ++ [Z.abs (b - a)].
Proof.
  induction l as [|x [|y l] IH]; [done|done|].
  change (swings ((x :: y :: l) ++ [a; b]))
    with (Z.abs (y - x) :: swings ((y :: l) ++ [a; b])).
  rewrite IH. reflexivity.
Qed.

Lemma max_list_snoc (l : list Z) (x : Z) :
  0 <= x -> foldr Z.max 0 (l ++ [x]) = Z.max (foldr Z.max 0 l) x.
Proof.
  intros Hx. induction l as [|y l IH]; cbn; [lia|]. rewrite IH. lia.
Qed.

(** The loop over the swings computes the largest of them. *)
Lemma max_swing_spec (l : list Z) (n : nat) :
  (n <= length l)%nat ->
  max_swing l (Z.of_nat n) = foldr Z.max 0 (swings (take n l)).
Proof.
  unfold max_swing. induction n as [|n IH]; intros Hn; [done|].
  destruct n as [|n].
  { destruct l as [|a l]; [done|]. done. }
  specialize (IH ltac:(lia)).
  replace (Z.to_nat (Z.of_nat (S (S n)) - 1)) with (S n) by lia.
  replace (Z.to_nat (Z.of_nat (S n) - 1)) with n in IH by lia.
  rewrite range_snoc, foldl_app, IH. cbn [foldl].
  destruct (lookup_lt_is_Some_2 l n ltac:(lia)) as [a Ha].
  destruct (lookup_lt_is_Some_2 l (S n) ltac:(lia)) as [b Hb].
  replace (1 + Z.of_nat n) with (Z.of_nat (S n)) by lia.
  replace (Z.of_nat (S n) - 1) with (Z.of_nat n) by lia.
  rewrite !getZ_nat, Ha, Hb. cbn [default].
  rewrite (take_S_r l (S n) b Hb), (take_S_r l n a Ha).
  rewrite <- app_assoc. cbn [app].
  rewrite swings_snoc, max_list_snoc by lia.
  rewrite <- (take_S_r l n a Ha). cbv beta zeta. unfold id.
  set (m := foldr Z.max 0 (swings (take (S n) l))).
  destruct (Z.ltb_spec m (Z.abs (b - a))); lia.
Qed.

(** The shifting loop drops the first entry and repeats the last. *)
Lemma shift_scores (l : list Z) (k : nat) :
  (k < length l)%nat ->
  foldl (fun a i => setZ a i (getZ a (i + 1))) l (range 0 k)
  = take k (drop 1 l) ++ drop k l.
Proof.
  induction k as [|k IH]; intros Hk; [by rewrite drop_0|].
  rewrite range_snoc, foldl_app, IH by lia. cbn [foldl].
  replace (0 + Z.of_nat k + 1) with (Z.of_nat (S k)) by lia.
  replace (0 + Z.of_nat k) with (Z.of_nat k) by lia.
  rewrite getZ_nat, setZ_nat.
  destruct (lookup_lt_is_Some_2 l (S k) ltac:(lia)) as [b Hb].
  destruct (lookup_lt_is_Some_2 l k ltac:(lia)) as [a Ha].
  assert (Hlen : length (take k (drop 1 l)) = k).
  { rewrite length_take, length_drop. lia. }
  rewrite lookup_app_r by lia. rewrite Hlen.
  replace (S k - k)%nat with 1%nat by lia.
  rewrite lookup_drop. replace (k + 1)%nat with (S k) by lia.
  rewrite Hb. cbn [default]. unfold id.
  rewrite insert_app_r_alt by lia. rewrite Hlen, Nat.sub_diag.
  rewrite (drop_S l a k Ha). cbn [insert list_insert].
  rewrite (take_S_r (drop 1 l) k b) by (by rewrite lookup_drop).
  rewrite <- app_assoc. cbn [app]. rewrite (drop_S l b (S k) Hb). reflexivity.
Qed.

Lemma last_scores_short (hist : list Z) :
  (length hist <= 32)%nat -> last_scores hist = hist.
Proof.
  intros H. unfold last_scores.
  replace (length hist - 32)%nat with 0%nat by lia. apply drop_0.
Qed.

Lemma last_scores_long (hist : list Z) (x : Z) :
  (32 <= length hist)%nat ->
  last_scores (hist ++ [x]) = drop 1 (last_scores hist) ++ [x]
  /\ length (last_scores hist) = 32%nat.
Proof.
  intros H. unfold last_scores. rewrite length_app. cbn [length].
  rewrite drop_app_le by lia. rewrite drop_drop, length_drop.
  split; [|lia]. do 2 f_equal. lia.
Qed.

(** X16 (score window).  [update_search_stability] keeps the scores of the
    last 32 iterations, oldest first: when the window holds the scores
    seen so far, after the call it holds them with the new score added.
    From the second score on, the volatility is the largest swing between
    neighbouring scores of the window and the instability flag tells
    whether it exceeds 100; the first score leaves both as they were. *)
Theorem iteration_window_slides (st : IterationState) (hist : list Z) (x : Z) :
  window_holds st hist ->
  let st' := update_search_stability st x in
  window_holds st' (hist ++ [x])
  /\ (hist <> [] ->
      it_score_volatility st'
      = foldr Z.max 0 (swings (last_scores (hist ++ [x])))
      /\ it_last_iteration_instability st'
         = if 100 <? it_score_volatility st' then 1 else 0)
  /\ (hist = [] ->
      it_score_volatility st' = it_score_volatility st
      /\ it_last_iteration_instability st'
         = it_last_iteration_instability st).
Proof.
  intros (Hlen & Hcount & Htake).
  set (scores := it_iteration_scores st) in *.
  assert (Hnew : exists scores' count',
            (if it_iteration_count st <? 32 then
               (setZ scores (it_iteration_count st) x, it_iteration_count st + 1)
             else
               (setZ (foldl (fun a i => setZ a i (getZ a (i + 1))) scores
                        (range 0 31)) 31 x, it_iteration_count st))
            = (scores', Z.of_nat count')
            /\ length scores' = 32%nat
            /\ count' = length (last_scores (hist ++ [x]))
            /\ take count' scores' = last_scores (hist ++ [x])
            /\ ((2 <= count')%nat <-> hist <> [])).
  { destruct (Nat.lt_ge_cases (length hist) 32) as [Hn|Hn].
    - rewrite (last_scores_short hist) in * by lia.
      rewrite (last_scores_short (hist ++ [x]))
        by (rewrite length_app; cbn; lia).
      rewrite Hcount.
      destruct (Z.ltb_spec (Z.of_nat (length hist)) 32); [|lia].
      exists (<[length hist := x]> scores), (S (length hist)).
      rewrite setZ_nat. split; [f_equal; lia|].
      split; [by rewrite length_insert|].
      split; [rewrite length_app; cbn; lia|].
      split.
      + rewrite (take_S_r _ _ x)
          by (apply list_lookup_insert_eq; fold scores; lia).
        rewrite take_insert_ge by lia. by rewrite Htake.
      + destruct hist; cbn; split; try done; lia.
    - destruct (last_scores_long hist x Hn) as [Hl H32].
      rewrite H32 in *. rewrite Hcount.
      destruct (Z.ltb_spec (Z.of_nat 32) 32); [lia|].
      rewrite firstn_all2 in Htake by lia.
      rewrite (shift_scores scores 31) by lia.
      change 31 with (Z.of_nat 31). rewrite setZ_nat.
      assert (Hd : length (drop 1 scores) = 31%nat) by (rewrite length_drop; lia).
      rewrite (take_ge (drop 1 scores)) by lia.
      rewrite insert_app_r_alt by lia. rewrite Hd, Nat.sub_diag.
      destruct (lookup_lt_is_Some_2 scores 31 ltac:(lia)) as [z Hz].
      rewrite (drop_S scores z 31 Hz), (drop_ge scores 32) by lia.
      cbn [insert list_insert].
      exists (drop 1 scores ++ [x]), 32%nat.
      split; [done|]. split; [rewrite length_app; cbn; lia|].
      rewrite Hl, <- Htake.
      split; [rewrite length_app; cbn; lia|].
      split; [apply take_ge; rewrite length_app; cbn; lia|].
      destruct hist; cbn in *; split; try done; lia. }
  destruct Hnew as (scores' & count' & Heq & Hlen' & Hcount' & Htake' & Hne).
  assert (Hc32 : (count' <= 32)%nat).
  { pose proof (f_equal length Htake') as Hl. rewrite length_take in Hl. lia. }
  intros st'. unfold st', update_search_stability. fold scores. rewrite Heq.
  destruct (Z.leb_spec 2 (Z.of_nat count')) as [H2|H2].
  - cbn [it_score_volatility it_last_iteration_instability].
    split; [unfold window_holds; cbn; rewrite <- Hcount'; done|].
    split.
    + intros _. rewrite max_swing_spec by lia. by rewrite Htake'.
    + intros ->. assert (Hh : ([] : list Z) <> []) by (apply Hne; lia). done.
  - cbn [it_score_volatility it_last_iteration_instability].
    split; [unfold window_holds; cbn; rewrite <- Hcount'; done|].
    split; [|done].
    intros Hh. apply Hne in Hh. lia.
Qed.

(** After the scores 10 and 200, the score 50 comes in. *)
Lemma iteration_window_slides_witness :
  let st := mkIterationState 200 0 0 ([10; 200] ++ replicate 30 0) 2 190 1 0 in
  let st' := update_search_stability st 50 in
  window_holds st' [10; 200; 50]
  /\ ([10; 200] <> [] ->
      it_score_volatility st'
      = foldr Z.max 0 (swings (last_scores [10; 200; 50]))
      /\ it_last_iteration_instability st'
         = if 100 <? it_score_volatility st' then 1 else 0)
  /\ ([10; 200] = [] ->
      it_score_volatility st' = it_score_volatility st
      /\ it_last_iteration_instability st'
         = it_last_iteration_instability st).
Proof.
  apply (iteration_window_slides
           (mkIterationState 200 0 0 ([10; 200] ++ replicate 30 0) 2 190 1 0)
           [10; 200] 50).
  repeat split.
Defined.

(** ** search.c: decay of the history tables *)

Lemma decay_table_get (num : Z) (n : nat) (a : gmap Z Z) (i : Z) :
  arr_get (decay_table num n a) i
  = if (0 <=? i) && (i <? Z.of_nat n)
    then Z.quot (s32 (arr_get a i * num)) 5
    else arr_get a i.
Proof.
  unfold decay_table. induction n as [|n IH].
  { cbn [range foldl]. destruct (0 <=? i) eqn:H0; cbn [andb]; [|done].
    by destruct (Z.ltb_spec i (Z.of_nat 0)); [lia|]. }
  rewrite range_snoc, foldl_app. cbn [foldl].
  replace (0 + Z.of_nat n) with (Z.of_nat n) by lia.
  destruct (Z.eq_dec i (Z.of_nat n)) as [->|Hne].
  - rewrite arr_get_set_eq, IH.
    destruct (Z.leb_spec 0 (Z.of_nat n)); [|lia].
    destruct (Z.ltb_spec (Z.of_nat n) (Z.of_nat n)); [lia|].
    destruct (Z.ltb_spec (Z.of_nat n) (Z.of_nat (S n))); [|lia].
    reflexivity.
  - rewrite arr_get_set_ne by done. rewrite IH.
    destruct (Z.leb_spec 0 i); cbn [andb]; [|done].
    destruct (Z.ltb_spec i (Z.of_nat n)), (Z.ltb_spec i (Z.of_nat (S n)));
      (done || lia).
Qed.

(** Four fifths or three fifths of an entry, rounded towards zero. *)
Lemma decay_shrinks (x num : Z) :
  num = 3 \/ num = 4 -> Z.abs x < 2 ^ 29 ->
  let y := Z.quot (s32 (x * num)) 5 in
  y = Z.quot (x * num) 5
  /\ Z.abs y <= Z.abs x
  /\ (x <> 0 -> Z.abs y < Z.abs x)
  /\ (0 <= x -> 0 <= y) /\ (x <= 0 -> y <= 0).
Proof.
  intros Hnum Hx. cbv zeta.
  assert (Hs : s32 (x * num) = x * num).
  { unfold s32. rewrite Z.mod_small; lia. }
  rewrite Hs. split; [done|].
  destruct (Z.le_gt_cases 0 x) as [Hp|Hn].
  - rewrite Z.quot_div_nonneg by lia.
    destruct Hnum as [-> | ->]; Z.div_mod_to_equations; lia.
  - replace (x * num) with (- (- x * num)) by lia.
    rewrite Z.quot_opp_l by lia. rewrite Z.quot_div_nonneg by lia.
    destruct Hnum as [-> | ->]; Z.div_mod_to_equations; lia.
Qed.

(** X17 (history decay).  Between iterations [decay_history] replaces
    every entry of the history table and of the countermove-history table
    by four fifths of it, and every entry of the capture-history table by
    three fifths, rounded towards zero: each entry keeps its sign and
    moves strictly towards 0 unless it is 0 already. *)
Theorem decay_history_shrinks (s : SearchState) (i : Z) :
  let s' := decay_history s in
  let shrunk (num x y : Z) :=
    y = Z.quot (x * num) 5 /\ Z.abs y <= Z.abs x
    /\ (x <> 0 -> Z.abs y < Z.abs x)
    /\ (0 <= x -> 0 <= y) /\ (x <= 0 -> y <= 0) in
  (0 <= i < 2 * 6 * 64 -> Z.abs (arr_get (ss_history s) i) < 2 ^ 29 ->
   shrunk 4 (arr_get (ss_history s) i) (arr_get (ss_history s') i))
  /\ (0 <= i < 6 * 64 * 6 * 64 ->
      Z.abs (arr_get (ss_countermove_history s) i) < 2 ^ 29 ->
      shrunk 4 (arr_get (ss_countermove_history s) i)
        (arr_get (ss_countermove_history s') i))
  /\ (0 <= i < 6 * 64 * 6 ->
      Z.abs (arr_get (ss_capture_history s) i) < 2 ^ 29 ->
      shrunk 3 (arr_get (ss_capture_history s) i)
        (arr_get (ss_capture_history s') i)).
Proof.
  cbv zeta. unfold decay_history, decay_capture_history.
  cbn [ss_history ss_countermove_history ss_capture_history
         set_ss_history set_ss_countermove_history set_ss_capture_history].
  rewrite !decay_table_get.
  split; [|split]; intros Hi Hx.
  - destruct (Z.leb_spec 0 i); [|lia].
    destruct (Z.ltb_spec i (Z.of_nat (2 * 6 * 64))); [|lia].
    apply decay_shrinks; [by right|done].
  - destruct (Z.leb_spec 0 i); [|lia].
    destruct (Z.ltb_spec i (Z.of_nat (6 * 64 * 6 * 64))); [|lia].
    apply decay_shrinks; [by right|done].
  - destruct (Z.leb_spec 0 i); [|lia].
    destruct (Z.ltb_spec i (Z.of_nat (6 * 64 * 6))); [|lia].
    apply decay_shrinks; [by left|done].
Qed.

(** ** position.c: the board after a make/unmake pair *)

(** *** Single bits of a 64-bit word *)

Lemma bit_pow2 (sq : Z) : 0 <= sq < 64 -> bit sq = 2 ^ sq.
Proof.
  intros Hsq. unfold bit, u64. rewrite Z.shiftl_1_l.
  apply Z.mod_small. split; [lia|]. apply Z.pow_lt_mono_r; lia.
Qed.

Lemma bit_testbit (sq n : Z) :
  0 <= sq < 64 -> 0 <= n -> Z.testbit (bit sq) n = bool_decide (n = sq).
Proof.
  intros Hsq Hn. rewrite bit_pow2 by done.
  rewrite Z.pow2_bits_eqb by lia.
  destruct (Z.eqb_spec sq n); by case_bool_decide; try lia.
Qed.

Lemma land_bit_testbit (x sq : Z) :
  0 <= sq < 64 -> nz (Z.land x (bit sq)) = Z.testbit x sq.
Proof.
  intros Hsq. unfold nz. destruct (Z.testbit x sq) eqn:Hb.
  - destruct (Z.eqb_spec (Z.land x (bit sq)) 0) as [H0|]; [|done].
    assert (Z.testbit (Z.land x (bit sq)) sq = true).
    { rewrite Z.land_spec, Hb, bit_testbit by lia. by rewrite bool_decide_eq_true_2. }
    rewrite H0, Z.bits_0 in H. done.
  - destruct (Z.eqb_spec (Z.land x (bit sq)) 0) as [|Hne]; [done|].
    exfalso. apply Hne. apply Z.bits_inj'. intros n Hn.
    rewrite Z.land_spec, Z.bits_0, bit_testbit by lia.
    case_bool_decide; [subst; by rewrite Hb|apply andb_false_r].
Qed.

Lemma bb_not_testbit (b n : Z) :
  0 <= n -> Z.testbit (bb_not b) n = xorb (Z.testbit b n) (n <? 64).
Proof.
  intros Hn. unfold bb_not. rewrite Z.lxor_spec.
  change (2 ^ 64 - 1) with (Z.ones 64). f_equal.
  destruct (Z.ltb_spec n 64).
  - apply Z.ones_spec_low. lia.
  - apply Z.ones_spec_high. lia.
Qed.

Lemma testbit_high (x n : Z) : 0 <= x < 2 ^ 64 -> 64 <= n -> Z.testbit x n = false.
Proof. intros Hx Hn. apply (testbit_above x 64 n); lia. Qed.

(** [x ^= a; x ^= a'] with the same two bits. *)
Lemma lxor_twice (x a b : Z) :
  Z.lxor (Z.lxor x (Z.lor a b)) (Z.lor b a) = x.
Proof.
  by rewrite (Z.lor_comm b a), Z.lxor_assoc, Z.lxor_nilpotent, Z.lxor_0_r.
Qed.

(** [x &= ~bit; x |= bit] on a word that had the bit. *)
Lemma clear_then_set (x sq : Z) :
  0 <= x < 2 ^ 64 -> 0 <= sq < 64 -> Z.testbit x sq = true ->
  Z.lor (Z.land x (bb_not (bit sq))) (bit sq) = x.
Proof.
  intros Hx Hsq Hb. apply Z.bits_inj'. intros n Hn.
  rewrite Z.lor_spec, Z.land_spec, bb_not_testbit, bit_testbit by lia.
  case_bool_decide as Hd; [subst n; rewrite Hb; by destruct (sq <? 64)|].
  destruct (Z.ltb_spec n 64); [by rewrite andb_true_r, orb_false_r|].
  rewrite (testbit_high x n) by lia. done.
Qed.

(** [x |= bit; x &= ~bit] on a word that did not have the bit. *)
Lemma set_then_clear (x sq : Z) :
  0 <= x < 2 ^ 64 -> 0 <= sq < 64 -> Z.testbit x sq = false ->
  Z.land (Z.lor x (bit sq)) (bb_not (bit sq)) = x.
Proof.
  intros Hx Hsq Hb. apply Z.bits_inj'. intros n Hn.
  rewrite Z.land_spec, Z.lor_spec, bb_not_testbit, bit_testbit by lia.
  case_bool_decide as Hd.
  - subst n. rewrite Hb. destruct (Z.ltb_spec sq 64); [done|lia].
  - destruct (Z.ltb_spec n 64); [by rewrite orb_false_r, andb_true_r|].
    rewrite (testbit_high x n) by lia. done.
Qed.

(** The pawn that promotes: moved, taken off the last rank, put back on
    its origin square. *)
Lemma pawn_promoted_back (x from to : Z) :
  0 <= x < 2 ^ 64 -> 0 <= from < 64 -> 0 <= to < 64 ->
  Z.testbit x from = true -> Z.testbit x to = false ->
  Z.lor (Z.land (Z.lxor x (Z.lor (bit from) (bit to))) (bb_not (bit to)))
        (bit from) = x.
Proof.
  intros Hx Hf Ht Hbf Hbt. apply Z.bits_inj'. intros n Hn.
  rewrite Z.lor_spec, Z.land_spec, Z.lxor_spec, Z.lor_spec, bb_not_testbit,
    !bit_testbit by lia.
  destruct (Z.ltb_spec n 64).
  - repeat case_bool_decide; subst; rewrite ?Hbf, ?Hbt; try done;
      by destruct (Z.testbit x n).
  - rewrite (testbit_high x n) by lia.
    repeat case_bool_decide; subst; try lia; done.
Qed.

Lemma MOVE_FROM_range (m : Z) : 0 <= MOVE_FROM m < 64.
Proof.
  unfold MOVE_FROM. change 0x3F with (Z.ones 6).
  rewrite Z.land_ones by lia. apply Z.mod_pos_bound. lia.
Qed.

Lemma MOVE_TO_range (m : Z) : 0 <= MOVE_TO m < 64.
Proof.
  unfold MOVE_TO. change 0x3F with (Z.ones 6).
  rewrite Z.land_ones by lia. apply Z.mod_pos_bound. lia.
Qed.

Lemma capture_square_range (from to : Z) :
  0 <= from < 64 -> 0 <= SQ (SQ_FILE to) (SQ_RANK from) < 64.
Proof.
  intros Hf. unfold SQ, SQ_FILE, SQ_RANK. change 7 with (Z.ones 3).
  rewrite Z.land_ones, Z.shiftr_div_pow2 by lia.
  change (2 ^ 3) with 8. Z.div_mod_to_equations. lia.
Qed.

(** *** The table of piece sets *)

Lemma bb_upd_length (f : Z -> Z) (i : Z) (P : list Z) :
  length (bb_upd f i P) = length P.
Proof. apply setZ_length. Qed.

Lemma getZ_bb_upd (f : Z -> Z) (i : Z) (P : list Z) (j : Z) :
  0 <= i < Z.of_nat (length P) ->
  getZ (bb_upd f i P) j = if j =? i then f (getZ P i) else getZ P j.
Proof.
  intros Hi. unfold bb_upd. destruct (Z.eqb_spec j i) as [->|Hne].
  - by apply getZ_setZ_eq.
  - by apply getZ_setZ_ne.
Qed.

Lemma list_eq_getZ (l l' : list Z) :
  length l = length l' ->
  (forall j, 0 <= j < Z.of_nat (length l) -> getZ l j = getZ l' j) ->
  l = l'.
Proof.
  intros Hlen Hget. apply list_eq_same_length with (length l); [done..|].
  intros i x y Hi Hx Hy.
  specialize (Hget (Z.of_nat i) ltac:(lia)).
  rewrite !getZ_nat, Hx, Hy in Hget. done.
Qed.

Lemma piece_on_found (p : Position) (color sq : Z) :
  0 <= piece_on p color sq ->
  0 <= piece_on p color sq < 6
  /\ nz (Z.land (piece_bb p color (piece_on p color sq)) (bit sq)) = true.
Proof.
  unfold piece_on.
  destruct (head _) as [k|] eqn:Hh; cbn [default]; unfold id; [intros _|lia].
  apply head_Some_elem_of in Hh. apply list_elem_of_filter in Hh as [Hb Hin].
  unfold range in Hin. apply elem_of_seqZ in Hin. split; [lia|done].
Qed.

Lemma piece_on_none (p : Position) (color sq k : Z) :
  piece_on p color sq < 0 -> 0 <= k < 6 ->
  nz (Z.land (piece_bb p color k) (bit sq)) = false.
Proof.
  unfold piece_on. intros Hn Hk.
  destruct (head _) as [k'|] eqn:Hh; cbn [default] in Hn; unfold id in Hn.
  { apply head_Some_elem_of in Hh. apply list_elem_of_filter in Hh as [_ Hin].
    unfold range in Hin. apply elem_of_seqZ in Hin. lia. }
  apply head_None in Hh.
  destruct (nz _) eqn:Hb; [|done].
  assert (Hin : k ∈ filter (fun piece => nz (Z.land (piece_bb p color piece) (bit sq)) = true) (range 0 6)).
  { apply list_elem_of_filter. split; [done|]. apply elem_of_seqZ. lia. }
  rewrite Hh in Hin. by apply elem_of_nil in Hin.
Qed.


(** *** What each block does to the piece sets *)

Ltac board_tests :=
  repeat case_match; simplify_eq/=; repeat split; try reflexivity.

Lemma set_piece_pieces p piece color sq :
  pieces (position_set_piece p piece color sq)
  = bb_upd (bb_set sq) (color * 6 + piece) (pieces p).
Proof. reflexivity. Qed.

Lemma remove_piece_pieces p piece color sq :
  pieces (position_remove_piece p piece color sq)
  = bb_upd (bb_clear sq) (color * 6 + piece) (pieces p).
Proof. reflexivity. Qed.

Lemma move_piece_pieces p piece color from to :
  pieces (position_move_piece p piece color from to)
  = bb_upd (bb_flip from to) (color * 6 + piece) (pieces p).
Proof. reflexivity. Qed.

Lemma make_capture_board pos enemy to u :
  let victim := piece_on pos enemy to in
  let r := make_capture pos enemy to u in
  pieces r.1 = (if 0 <=? victim
                then bb_upd (bb_clear to) (enemy * 6 + victim) (pieces pos)
                else pieces pos)
  /\ castling_rooks r.1 = castling_rooks pos
  /\ enpassant r.1 = enpassant pos
  /\ to_move r.1 = to_move pos
  /\ undo_captured r.2 = (if 0 <=? victim then victim else undo_captured u).
Proof. cbv zeta. unfold make_capture. board_tests. Qed.

Lemma make_en_passant_board pos mp enemy from to u :
  let ep := (mp =? PAWN) && (to =? enpassant pos) in
  let r := make_en_passant pos mp enemy from to u in
  pieces r.1 = (if ep
                then bb_upd (bb_clear (SQ (SQ_FILE to) (SQ_RANK from)))
                       (enemy * 6 + PAWN) (pieces pos)
                else pieces pos)
  /\ castling_rooks r.1 = castling_rooks pos
  /\ to_move r.1 = to_move pos
  /\ undo_captured r.2 = (if ep then PAWN else undo_captured u).
Proof. cbv zeta. unfold make_en_passant. board_tests. Qed.

Lemma make_castling_rights_board pos mp color from :
  let r := make_castling_rights pos mp color from in
  pieces r = pieces pos /\ castling_rooks r = castling_rooks pos.
Proof. cbv zeta. unfold make_castling_rights. board_tests. Qed.

Lemma make_relocate_board pos move mp color from to :
  let is_kingside := to =? castling_rook pos (if color =? WHITE then 0 else 2) in
  let r := make_relocate pos move mp color from to in
  pieces r
  = (if (mp =? KING) && MOVE_IS_SPECIAL move
     then bb_upd (bb_flip to (castle_rook_to color is_kingside))
            (color * 6 + ROOK)
            (bb_upd (bb_flip from (castle_king_to color is_kingside))
               (color * 6 + KING) (pieces pos))
     else bb_upd (bb_flip from to) (color * 6 + mp) (pieces pos))
  /\ castling_rooks r = castling_rooks pos.
Proof. cbv zeta. unfold make_relocate. board_tests. Qed.

Lemma make_promotion_board pos promo color to :
  let r := make_promotion pos promo color to in
  pieces r
  = (if 0 <? promo
     then bb_upd (bb_set to) (color * 6 + promo)
            (bb_upd (bb_clear to) (color * 6 + PAWN) (pieces pos))
     else pieces pos)
  /\ castling_rooks r = castling_rooks pos.
Proof. cbv zeta. unfold make_promotion. board_tests. Qed.

Lemma make_ep_state_board pos mp from to :
  let r := make_ep_state pos mp from to in
  pieces r = pieces pos /\ castling_rooks r = castling_rooks pos.
Proof. cbv zeta. unfold make_ep_state. board_tests. Qed.

Lemma make_counters_board pos mp color u :
  let r := make_counters pos mp color u in
  pieces r = pieces pos /\ castling_rooks r = castling_rooks pos.
Proof. cbv zeta. unfold make_counters. board_tests. Qed.

Lemma unmake_relocate_board pos move mp color from to promo :
  let is_kingside := to =? castling_rook pos (if color =? WHITE then 0 else 2) in
  let r := unmake_relocate pos move mp color from to promo in
  pieces r
  = (if (mp =? KING) && MOVE_IS_SPECIAL move
     then bb_upd (bb_flip (castle_king_to color is_kingside) from)
            (color * 6 + KING)
            (bb_upd (bb_flip (castle_rook_to color is_kingside) to)
               (color * 6 + ROOK) (pieces pos))
     else if 0 <? promo
          then bb_upd (bb_set from) (color * 6 + PAWN)
                 (bb_upd (bb_clear to) (color * 6 + promo) (pieces pos))
          else bb_upd (bb_flip to from) (color * 6 + mp) (pieces pos))
  /\ castling_rooks r = castling_rooks pos.
Proof. cbv zeta. unfold unmake_relocate. board_tests. Qed.

Lemma unmake_captured_board pos mp color from to u :
  let r := unmake_captured pos mp color from to u in
  pieces r
  = (if 0 <=? undo_captured u
     then if (mp =? PAWN) && (to =? undo_enpassant u)
          then bb_upd (bb_set (SQ (SQ_FILE to) (SQ_RANK from)))
                 (Z.lxor color 1 * 6 + PAWN) (pieces pos)
          else bb_upd (bb_set to) (Z.lxor color 1 * 6 + undo_captured u)
                 (pieces pos)
     else pieces pos)
  /\ castling_rooks r = castling_rooks pos.
Proof. cbv zeta. unfold unmake_captured. board_tests. Qed.

Section BoardFacts.

Variable nnue_available : bool.
Variable nnue_refresh_accumulator : Position -> Accumulator.
Variable nnue_update_accumulator :
  Accumulator -> Z -> Z -> Z -> Z -> Z -> Z -> Accumulator.

Local Abbreviation make :=
  (position_make_move nnue_available nnue_refresh_accumulator
     nnue_update_accumulator).
Local Abbreviation round_trip :=
  (make_unmake nnue_available nnue_refresh_accumulator
     nnue_update_accumulator).

Lemma make_nnue_board pos move mp promo color enemy from to u :
  let r := make_nnue nnue_available nnue_refresh_accumulator
             nnue_update_accumulator pos move mp promo color enemy from to u in
  pieces r = pieces pos /\ castling_rooks r = castling_rooks pos.
Proof. cbv zeta. unfold make_nnue. board_tests. Qed.

(** The piece sets and the undo record [position_make_move] leaves. *)
Lemma make_move_board pos move u0 :
  let from := MOVE_FROM move in
  let to := MOVE_TO move in
  let promo := MOVE_PROMO move in
  let color := to_move pos in
  let enemy := Z.lxor color 1 in
  let mp := piece_on pos color from in
  let victim := piece_on pos enemy to in
  let ep := (mp =? PAWN) && (to =? enpassant pos) in
  let is_kingside := to =? castling_rook pos (if color =? WHITE then 0 else 2) in
  let P1 := if 0 <=? victim
            then bb_upd (bb_clear to) (enemy * 6 + victim) (pieces pos)
            else pieces pos in
  let P2 := if ep
            then bb_upd (bb_clear (SQ (SQ_FILE to) (SQ_RANK from)))
                   (enemy * 6 + PAWN) P1
            else P1 in
  let P3 := if (mp =? KING) && MOVE_IS_SPECIAL move
            then bb_upd (bb_flip to (castle_rook_to color is_kingside))
                   (color * 6 + ROOK)
                   (bb_upd (bb_flip from (castle_king_to color is_kingside))
                      (color * 6 + KING) P2)
            else bb_upd (bb_flip from to) (color * 6 + mp) P2 in
  let P4 := if 0 <? promo
            then bb_upd (bb_set to) (color * 6 + promo)
                   (bb_upd (bb_clear to) (color * 6 + PAWN) P3)
            else P3 in
  0 <= mp ->
  let '(pos', u) := make pos move u0 in
  pieces pos' = P4
  /\ castling_rooks pos' = castling_rooks pos
  /\ undo_moving_piece u = mp
  /\ undo_captured u = (if ep then PAWN else if 0 <=? victim then victim else -1).
Proof.
  cbv zeta. intros Hfrom. unfold position_make_move.
  destruct (Z.ltb_spec (piece_on pos (to_move pos) (MOVE_FROM move)) 0) as [|_];
    [lia|].
  cbn zeta.
  match goal with
  | |- context [make_capture ?p ?e ?t ?u] =>
      pose proof (make_capture_board p e t u) as H1;
      pose proof (make_capture_undo p e t u) as Hu1;
      destruct (make_capture p e t u) as [p1 u1]
  end.
  cbv zeta in H1. cbn [fst snd] in H1, Hu1.
  destruct H1 as (Hp1 & Hr1 & He1 & Ht1 & Hc1).
  match goal with
  | |- context [make_en_passant ?p ?m ?e ?f ?t ?u] =>
      pose proof (make_en_passant_board p m e f t u) as H2;
      pose proof (make_en_passant_undo p m e f t u) as Hu2;
      destruct (make_en_passant p m e f t u) as [p2 u2]
  end.
  cbv zeta in H2. cbn [fst snd] in H2, Hu2.
  destruct H2 as (Hp2 & Hr2 & Ht2 & Hc2).
  destruct Hu1 as (Hm1 & _). destruct Hu2 as (Hm2 & _).
  cbn [pieces castling_rooks xor_zobrist with_zobrist with_to_move].
  match goal with
  | |- context [make_nnue _ _ _ ?p ?mv ?m ?pr ?c ?e ?f ?t ?u] =>
      destruct (make_nnue_board p mv m pr c e f t u) as [-> ->]
  end.
  unfold make_castle_keys. cbn [pieces castling_rooks xor_zobrist with_zobrist].
  match goal with
  | |- context [make_counters ?p ?m ?c ?u] =>
      destruct (make_counters_board p m c u) as [-> ->]
  end.
  match goal with
  | |- context [make_ep_state ?p ?m ?f ?t] =>
      destruct (make_ep_state_board p m f t) as [-> ->]
  end.
  match goal with
  | |- context [make_promotion ?p ?pr ?c ?t] =>
      destruct (make_promotion_board p pr c t) as [-> ->]
  end.
  match goal with
  | |- context [make_relocate ?p ?mv ?m ?c ?f ?t] =>
      destruct (make_relocate_board p mv m c f t) as [-> ->]
  end.
  unfold castling_rook.
  match goal with
  | |- context [make_castling_rights ?p ?m ?c ?f] =>
      destruct (make_castling_rights_board p m c f) as [-> ->]
  end.
  rewrite Hr2, Hr1, Hp2, Hp1, Hc2, Hc1, Hm2, Hm1, !He1.
  cbn [undo_captured undo_moving_piece with_undo_moving_piece].
  repeat split.
Qed.

End BoardFacts.

(** *** What [position_ok] gives *)

Lemma position_ok_board (p : Position) :
  position_ok p = true ->
  length (pieces p) = 12%nat
  /\ (forall j, 0 <= getZ (pieces p) j < 2 ^ 64)
  /\ sync_occupied p = p
  /\ (to_move p = WHITE \/ to_move p = BLACK).
Proof.
  unfold position_ok. cbv zeta. intros H.
  apply andb_prop in H as [H _]. apply andb_prop in H as [H _].
  apply andb_prop in H as [H _].
  apply andb_prop in H as [H Hside]. apply andb_prop in H as [H _].
  apply andb_prop in H as [H _]. apply andb_prop in H as [H Hall].
  apply andb_prop in H as [H Hblack]. apply andb_prop in H as [H Hwhite].
  apply andb_prop in H as [H _]. apply andb_prop in H as [H Hrange].
  apply andb_prop in H as [H _]. apply andb_prop in H as [Hlen Hocc].
  apply Nat.eqb_eq in Hlen, Hocc. apply Z.eqb_eq in Hall, Hblack, Hwhite.
  split; [done|]. split; [|split].
  - intros j.
    destruct (Z.lt_ge_cases j 0) as [Hj|Hj].
    { unfold getZ, lookupZ. destruct (Z.ltb_spec j 0); [|lia]. cbn. lia. }
    destruct (Z.lt_ge_cases j 12) as [Hj'|Hj'].
    + rewrite forallb_forall in Hrange.
      specialize (Hrange (getZ (pieces p) j)).
      assert (Hb : (0 <=? getZ (pieces p) j) && (getZ (pieces p) j <? 2 ^ 64)
                   = true).
      { apply Hrange.
        apply (in_map (fun i => getZ (pieces p) i)).
        apply list_elem_of_In, elem_of_seqZ. lia. }
      apply andb_prop in Hb as [?%Z.leb_le ?%Z.ltb_lt]. lia.
    + unfold getZ, lookupZ. destruct (Z.ltb_spec j 0); [lia|].
      rewrite lookup_ge_None_2 by lia. cbn. lia.
  - destruct p as [P occ al tm ca epq hm fm cr zb ph acc].
    cbn [occupied all] in *.
    destruct occ as [|a [|b [|? ?]]]; try done.
    unfold sync_occupied, with_occupied, with_all.
    unfold occupied_bb in *. cbn [occupied all pieces to_move castling
      enpassant halfmove fullmove castling_rooks zobrist pawn_hash
      accumulator] in *.
    change (getZ [a; b] WHITE) with a in Hwhite.
    change (getZ [a; b] BLACK) with b in Hblack.
    rewrite <- Hwhite, <- Hblack.
    change (getZ [a; b] WHITE) with a. change (getZ [a; b] BLACK) with b.
    rewrite Hall, <- Hwhite, <- Hblack. reflexivity.
  - apply orb_prop in Hside as [?%Z.eqb_eq | ?%Z.eqb_eq]; [by left|by right].
Qed.

Lemma position_ext (p q : Position) :
  pieces p = pieces q -> occupied p = occupied q -> all p = all q ->
  to_move p = to_move q -> castling p = castling q ->
  enpassant p = enpassant q -> halfmove p = halfmove q ->
  fullmove p = fullmove q -> castling_rooks p = castling_rooks q ->
  zobrist p = zobrist q -> pawn_hash p = pawn_hash q ->
  accumulator p = accumulator q -> p = q.
Proof. destruct p, q. cbn. by intros -> -> -> -> -> -> -> -> -> -> -> ->. Qed.

(** The derived bitboards depend on the piece sets alone. *)
Lemma sync_occupied_pieces (p q : Position) :
  pieces p = pieces q ->
  occupied (sync_occupied p) = occupied (sync_occupied q)
  /\ all (sync_occupied p) = all (sync_occupied q).
Proof.
  intros H. unfold sync_occupied, occupied_bb, piece_bb.
  cbn [occupied all with_all with_occupied pieces]. by rewrite H.
Qed.

(** An update that gives back the value it finds changes nothing. *)
Lemma bb_upd_same (f : Z -> Z) (i : Z) (X : list Z) :
  0 <= i < Z.of_nat (length X) -> f (getZ X i) = getZ X i -> bb_upd f i X = X.
Proof.
  intros Hi Hf. apply list_eq_getZ; [apply bb_upd_length|].
  intros j _. rewrite getZ_bb_upd by done.
  destruct (Z.eqb_spec j i) as [->|]; done.
Qed.

(** Two updates of one entry are one update. *)
Lemma bb_upd_twice (f g : Z -> Z) (i : Z) (X : list Z) :
  0 <= i < Z.of_nat (length X) ->
  bb_upd g i (bb_upd f i X) = bb_upd (fun x => g (f x)) i X.
Proof.
  intros Hi. apply list_eq_getZ; [by rewrite !bb_upd_length|].
  intros j _. rewrite !getZ_bb_upd by (rewrite ?bb_upd_length; done).
  destruct (Z.eqb_spec j i) as [->|]; [|done]. by rewrite Z.eqb_refl.
Qed.

(** Updates of different entries commute. *)
Lemma bb_upd_comm (f g : Z -> Z) (i j : Z) (X : list Z) :
  i <> j -> 0 <= i < Z.of_nat (length X) -> 0 <= j < Z.of_nat (length X) ->
  bb_upd g j (bb_upd f i X) = bb_upd f i (bb_upd g j X).
Proof.
  intros Hne Hi Hj. apply list_eq_getZ; [by rewrite !bb_upd_length|].
  intros k _. rewrite !getZ_bb_upd by (rewrite ?bb_upd_length; done).
  repeat match goal with
         | |- context [?a =? ?b] => destruct (Z.eqb_spec a b)
         end; subst; (done || lia).
Qed.

(** The mover's pieces: relocation and promotion, then their undoing. *)
Lemma own_round_trip (X : list Z) (c mp from to promo kt rt : Z)
    (castle : bool) :
  length X = 12%nat -> 0 <= c <= 1 -> 0 <= mp < 6 ->
  0 <= from < 64 -> 0 <= to < 64 ->
  (forall k, 0 <= k < 6 -> 0 <= getZ X (c * 6 + k) < 2 ^ 64) ->
  (0 < promo ->
   mp = 0 /\ promo < 6 /\ castle = false
   /\ Z.testbit (getZ X (c * 6)) from = true
   /\ Z.testbit (getZ X (c * 6)) to = false
   /\ Z.testbit (getZ X (c * 6 + promo)) to = false) ->
  let O1 := if castle
            then bb_upd (bb_flip to rt) (c * 6 + 3)
                   (bb_upd (bb_flip from kt) (c * 6 + 5) X)
            else bb_upd (bb_flip from to) (c * 6 + mp) X in
  let O2 := if 0 <? promo
            then bb_upd (bb_set to) (c * 6 + promo)
                   (bb_upd (bb_clear to) (c * 6 + 0) O1)
            else O1 in
  (if castle
   then bb_upd (bb_flip kt from) (c * 6 + 5)
          (bb_upd (bb_flip rt to) (c * 6 + 3) O2)
   else if 0 <? promo
        then bb_upd (bb_set from) (c * 6 + 0)
               (bb_upd (bb_clear to) (c * 6 + promo) O2)
        else bb_upd (bb_flip to from) (c * 6 + mp) O2) = X.
Proof.
  intros Hlen Hc Hmp Hfrom Hto Hrng Hpromo. cbv zeta.
  destruct (Z.ltb_spec 0 promo) as [Hp|Hp].
  - destruct (Hpromo Hp) as (-> & Hp6 & -> & Hbf & Hbt & Hbp).
    rewrite Z.add_0_r in *.
    rewrite (bb_upd_twice _ _ (c * 6)) by lia.
    rewrite (bb_upd_twice _ _ (c * 6 + promo))
      by (rewrite ?bb_upd_length; lia).
    rewrite (bb_upd_comm _ _ (c * 6 + promo) (c * 6))
      by (rewrite ?bb_upd_length; lia).
    rewrite (bb_upd_twice _ _ (c * 6)) by lia.
    pose proof (Hrng 0 ltac:(lia)) as Hr0. rewrite Z.add_0_r in Hr0.
    pose proof (Hrng promo ltac:(lia)) as Hrp.
    rewrite (bb_upd_same _ (c * 6)) by
      (first [lia | unfold bb_set, bb_clear, bb_flip;
                    by apply pawn_promoted_back]).
    apply bb_upd_same; [lia|].
    unfold bb_set, bb_clear. by apply set_then_clear.
  - destruct castle.
    + rewrite (bb_upd_twice _ _ (c * 6 + 3))
        by (rewrite ?bb_upd_length; lia).
      rewrite (bb_upd_comm _ _ (c * 6 + 5) (c * 6 + 3)) by lia.
      rewrite (bb_upd_twice _ _ (c * 6 + 5))
        by (rewrite ?bb_upd_length; lia).
      rewrite (bb_upd_same _ (c * 6 + 5))
        by (first [rewrite ?bb_upd_length; lia
                  | rewrite getZ_bb_upd by lia;
                    destruct (Z.eqb_spec (c * 6 + 5) (c * 6 + 3)); [lia|];
                    unfold bb_flip; apply lxor_twice]).
      apply bb_upd_same; [lia|]. unfold bb_flip. apply lxor_twice.
    + rewrite (bb_upd_twice _ _ (c * 6 + mp)) by lia.
      apply bb_upd_same; [lia|]. unfold bb_flip. apply lxor_twice.
Qed.

(** The other side's pieces: the capture, then its undoing. *)
Lemma enemy_round_trip (P : list Z) (e victim to csq : Z) (ep : bool) :
  length P = 12%nat -> 0 <= e <= 1 ->
  0 <= to < 64 -> 0 <= csq < 64 ->
  (forall j, 0 <= getZ P j < 2 ^ 64) ->
  (0 <= victim ->
   victim < 6 /\ Z.testbit (getZ P (e * 6 + victim)) to = true) ->
  (ep = true ->
   victim < 0 /\ Z.testbit (getZ P (e * 6 + 0)) csq = true) ->
  let E1 := if 0 <=? victim
            then bb_upd (bb_clear to) (e * 6 + victim) P else P in
  let E2 := if ep then bb_upd (bb_clear csq) (e * 6 + 0) E1 else E1 in
  let cap := if ep then 0 else if 0 <=? victim then victim else -1 in
  length E2 = 12%nat
  /\ (forall j, j < e * 6 \/ e * 6 + 6 <= j -> getZ E2 j = getZ P j)
  /\ (if 0 <=? cap
      then if ep then bb_upd (bb_set csq) (e * 6 + 0) E2
           else bb_upd (bb_set to) (e * 6 + cap) E2
      else E2) = P.
Proof.
  intros Hlen He Hto Hcsq Hrng Hvic Hep. cbv zeta.
  destruct ep.
  - destruct (Hep eq_refl) as [Hv Hb].
    destruct (Z.leb_spec 0 victim); [lia|].
    split; [by rewrite bb_upd_length|].
    split.
    { intros j Hj. rewrite getZ_bb_upd by lia.
      destruct (Z.eqb_spec j (e * 6 + 0)); [lia|done]. }
    change (0 <=? 0) with true. cbv iota.
    rewrite bb_upd_twice by lia. apply bb_upd_same; [lia|].
    unfold bb_set, bb_clear. by apply clear_then_set.
  - destruct (Z.leb_spec 0 victim) as [Hv|Hv].
    + destruct (Hvic Hv) as [Hv6 Hb].
      split; [by rewrite bb_upd_length|].
      split.
      { intros j Hj. rewrite getZ_bb_upd by lia.
        destruct (Z.eqb_spec j (e * 6 + victim)); [lia|done]. }
      destruct (Z.leb_spec 0 victim); [|lia].
      rewrite bb_upd_twice by lia. apply bb_upd_same; [lia|].
      unfold bb_set, bb_clear. by apply clear_then_set.
    + split; [done|]. split; [done|]. by change (0 <=? -1) with false.
Qed.

Section BoardRoundTrip.

Variable nnue_available : bool.
Variable nnue_refresh_accumulator : Position -> Accumulator.
Variable nnue_update_accumulator :
  Accumulator -> Z -> Z -> Z -> Z -> Z -> Z -> Accumulator.

Local Abbreviation make :=
  (position_make_move nnue_available nnue_refresh_accumulator
     nnue_update_accumulator).
Local Abbreviation round_trip :=
  (make_unmake nnue_available nnue_refresh_accumulator
     nnue_update_accumulator).

(** The piece sets come back. *)
Lemma make_unmake_pieces (pos : Position) (move : Z) :
  position_ok pos = true -> move_fits pos move = true ->
  pieces (round_trip pos move) = pieces pos
  /\ castling_rooks (round_trip pos move) = castling_rooks pos.
Proof.
  intros Hok Hfits.
  destruct (position_ok_board pos Hok) as (Hlen & Hrng & _ & Hside).
  unfold move_fits in Hfits. cbv zeta in Hfits.
  apply andb_prop in Hfits as [Hfits Hep].
  apply andb_prop in Hfits as [Hmp Hpromo]. apply Z.leb_le in Hmp.
  pose proof (make_move_board nnue_available nnue_refresh_accumulator
                nnue_update_accumulator pos move undo_blank) as Hmake.
  pose proof (make_move_fields nnue_available nnue_refresh_accumulator
                nnue_update_accumulator pos move undo_blank Hmp) as Hfields.
  cbv zeta in Hmake. specialize (Hmake Hmp).
  unfold make_unmake.
  destruct (make pos move undo_blank) as [p1 u].
  destruct Hmake as (Hp1 & Hr1 & Hum & Huc).
  destruct Hfields as (_ & Ht1 & _ & Hue & _).
  unfold position_unmake_move. cbv zeta.
  cbn [pieces castling_rooks sync_occupied with_all with_occupied
         with_accumulator with_pawn_hash with_zobrist with_halfmove
         with_enpassant with_castling with_to_move].
  match goal with
  | |- context [unmake_captured ?p ?m ?c ?f ?t ?u] =>
      destruct (unmake_captured_board p m c f t u) as [-> ->]
  end.
  match goal with
  | |- context [unmake_relocate ?p ?mv ?m ?c ?f ?t ?pr] =>
      destruct (unmake_relocate_board p mv m c f t pr) as [-> ->]
  end.
  split; [|done].
  unfold castling_rook. rewrite Hr1, Hp1, Hum, Huc, Hue, Ht1, !lxor_1_1.
  unfold castling_rook.
  clear Hp1 Hr1 Hum Huc Hue Ht1 p1 u.
  pose proof (MOVE_FROM_range move) as Hfrom.
  pose proof (MOVE_TO_range move) as Hto.
  pose proof (capture_square_range (MOVE_FROM move) (MOVE_TO move) Hfrom)
    as Hcsq.
  destruct (piece_on_found pos (to_move pos) (MOVE_FROM move) Hmp)
    as [Hmp6 Hown].
  rewrite land_bit_testbit in Hown by done.
  assert (He : Z.lxor (to_move pos) 1 = 1 - to_move pos)
    by (destruct Hside as [-> | ->]; done).
  assert (Hc : 0 <= to_move pos <= 1) by (unfold WHITE, BLACK in Hside; lia).
  rewrite He in *.
  pose proof (enemy_round_trip (pieces pos) (1 - to_move pos)
                (piece_on pos (1 - to_move pos) (MOVE_TO move))
                (MOVE_TO move)
                (SQ (SQ_FILE (MOVE_TO move)) (SQ_RANK (MOVE_FROM move)))
                ((piece_on pos (to_move pos) (MOVE_FROM move) =? PAWN)
                 && (MOVE_TO move =? enpassant pos))
                Hlen ltac:(lia) Hto Hcsq Hrng) as Henemy.
  cbv zeta in Henemy.
  destruct Henemy as (HlenX & Hframe & Hback).
  { intros Hv. destruct (piece_on_found pos _ _ Hv) as [? Hb].
    rewrite land_bit_testbit in Hb by done. split; [lia|done]. }
  { intros Hepb. rewrite Hepb in Hep.
    apply andb_prop in Hep as [?%Z.ltb_lt Hb].
    rewrite land_bit_testbit in Hb by done. split; [done|].
    exact Hb. }
  pose proof (own_round_trip
                (if (piece_on pos (to_move pos) (MOVE_FROM move) =? PAWN)
                    && (MOVE_TO move =? enpassant pos)
                 then bb_upd (bb_clear (SQ (SQ_FILE (MOVE_TO move))
                                          (SQ_RANK (MOVE_FROM move))))
                        ((1 - to_move pos) * 6 + 0)
                        (if 0 <=? piece_on pos (1 - to_move pos) (MOVE_TO move)
                         then bb_upd (bb_clear (MOVE_TO move))
                                ((1 - to_move pos) * 6
                                 + piece_on pos (1 - to_move pos) (MOVE_TO move))
                                (pieces pos)
                         else pieces pos)
                 else (if 0 <=? piece_on pos (1 - to_move pos) (MOVE_TO move)
                       then bb_upd (bb_clear (MOVE_TO move))
                              ((1 - to_move pos) * 6
                               + piece_on pos (1 - to_move pos) (MOVE_TO move))
                              (pieces pos)
                       else pieces pos))
                (to_move pos) (piece_on pos (to_move pos) (MOVE_FROM move))
                (MOVE_FROM move) (MOVE_TO move) (MOVE_PROMO move)
                (castle_king_to (to_move pos)
                   (MOVE_TO move
                    =? getZ (castling_rooks pos)
                         (if to_move pos =? WHITE then 0 else 2)))
                (castle_rook_to (to_move pos)
                   (MOVE_TO move
                    =? getZ (castling_rooks pos)
                         (if to_move pos =? WHITE then 0 else 2)))
                ((piece_on pos (to_move pos) (MOVE_FROM move) =? KING)
                 && MOVE_IS_SPECIAL move)
                HlenX Hc Hmp6 Hfrom Hto) as Hownrt.
  cbv zeta in Hownrt. unfold PAWN, KING, ROOK in *.
  rewrite Hownrt; [exact Hback| |].
  - intros k Hk. rewrite Hframe by lia. apply Hrng.
  - intros Hp. destruct (Z.ltb_spec 0 (MOVE_PROMO move)); [|lia].
    apply andb_prop in Hpromo as [Hpromo Hfree].
    apply andb_prop in Hpromo as [Hpawn Hp6].
    apply Z.eqb_eq in Hpawn. apply Z.ltb_lt in Hp6, Hfree.
    rewrite Hpawn in *. split; [done|]. split; [done|]. split; [done|].
    unfold piece_bb in Hown. rewrite Z.add_0_r in Hown.
    rewrite !Hframe by lia.
    split; [done|].
    pose proof (piece_on_none pos (to_move pos) (MOVE_TO move) 0 Hfree
                  ltac:(lia)) as H0.
    pose proof (piece_on_none pos (to_move pos) (MOVE_TO move)
                  (MOVE_PROMO move) Hfree ltac:(lia)) as H1.
    rewrite land_bit_testbit in H0, H1 by done.
    unfold piece_bb in H0, H1. rewrite Z.add_0_r in H0. done.
Qed.

(** All fields come back, but for the full-move number. *)
Lemma round_trip_restores (pos : Position) (move : Z) :
  position_ok pos = true -> move_fits pos move = true ->
  round_trip pos move
  = with_fullmove (if to_move pos =? BLACK then fullmove pos + 1
                   else fullmove pos) pos.
Proof.
  intros Hok Hfits.
  destruct (make_unmake_pieces pos move Hok Hfits) as [Hp Hr].
  destruct (position_ok_board pos Hok) as (_ & _ & Hsync & _).
  assert (Hmp : 0 <= piece_on pos (to_move pos) (MOVE_FROM move)).
  { unfold move_fits in Hfits. cbv zeta in Hfits.
    apply andb_prop in Hfits as [Hfits _].
    apply andb_prop in Hfits as [Hmp _]. by apply Z.leb_le in Hmp. }
  pose proof (make_unmake_fields nnue_available nnue_refresh_accumulator
                nnue_update_accumulator pos move Hmp) as Hf.
  cbv zeta in Hf.
  destruct Hf as (Hfm & Htm & Hca & Hen & Hhm & Hzo & Hph & Hac).
  assert (Hocc : occupied (round_trip pos move) = occupied pos
                 /\ all (round_trip pos move) = all pos).
  { rewrite <- Hsync at 2 4. revert Hp. unfold make_unmake.
    destruct (make pos move undo_blank) as [p1 u].
    unfold position_unmake_move. cbv zeta.
    intros Hp. apply sync_occupied_pieces. exact Hp. }
  destruct Hocc as [Hocc Hall].
  apply position_ext; cbn [pieces occupied all to_move castling enpassant
    halfmove fullmove castling_rooks zobrist pawn_hash accumulator
    with_fullmove]; done.
Qed.

(** X18 (make/unmake restores the board).  In a position that satisfies the
    sanity conditions, for every move that fits it, making the move and
    unmaking it gives back the position, field by field, except for the
    full-move number, which stays incremented after a move by Black. *)
Theorem make_unmake_restores (pos : Position) (move : Z) :
  position_ok pos = true -> move_fits pos move = true ->
  round_trip pos move
  = with_fullmove (if to_move pos =? BLACK then fullmove pos + 1
                   else fullmove pos) pos.
Proof. apply round_trip_restores. Qed.

End BoardRoundTrip.

(** 1... e5 in the position after 1. e4. *)
Lemma make_unmake_restores_witness :
  position_ok pos_after_e4 = true
  /\ move_fits pos_after_e4 move_e7e5 = true
  /\ make_unmake0 pos_after_e4 move_e7e5
     = with_fullmove (if to_move pos_after_e4 =? BLACK
                      then fullmove pos_after_e4 + 1
                      else fullmove pos_after_e4) pos_after_e4.
Proof.
  split; [by vm_compute|]. split; [by vm_compute|].
  apply (make_unmake_restores false no_network_refresh no_network_update
           pos_after_e4 move_e7e5); by vm_compute.
Defined.

(** ** position.c: the incremental Zobrist hash *)

(** Equations between xor-ed words, bit by bit. *)
Ltac xor_solve :=
  apply Z.bits_inj'; intros ?n ?Hn;
  rewrite ?Z.lxor_spec, ?Z.bits_0; btauto.

Lemma foldl_lxor_shift {A} (k : A -> Z) (h : Z) (l : list A) :
  foldl (fun h x => Z.lxor h (k x)) h l
  = Z.lxor h (foldl (fun h x => Z.lxor h (k x)) 0 l).
Proof.
  revert h. induction l as [|x l IH]; intros h; cbn [foldl].
  - by rewrite Z.lxor_0_r.
  - rewrite (IH (Z.lxor h (k x))), (IH (Z.lxor 0 (k x))). xor_solve.
Qed.

Lemma filter_ext_in {A} (P Q : A -> Prop) `{!forall x, Decision (P x)}
    `{!forall x, Decision (Q x)} (l : list A) :
  (forall x, x ∈ l -> P x <-> Q x) -> filter P l = filter Q l.
Proof.
  induction l as [|x l IH]; intros Hext; [done|].
  rewrite !filter_cons.
  rewrite IH by (intros y Hy; apply Hext; by right).
  destruct (decide (P x)) as [Hp|Hp], (decide (Q x)) as [Hq|Hq]; try done.
  - exfalso. apply Hq. apply Hext; [by left|done].
  - exfalso. apply Hp. apply Hext; [by left|done].
Qed.

Lemma range_split (s : Z) :
  0 <= s < 64 ->
  range 0 64 = range 0 (Z.to_nat s) ++ s :: range (s + 1) (Z.to_nat (63 - s)).
Proof.
  intros Hs. unfold range.
  replace (Z.of_nat 64) with (s + (1 + (63 - s))) by lia.
  rewrite seqZ_app by lia. rewrite (seqZ_app _ 1) by lia.
  rewrite !Z2Nat.id by lia. reflexivity.
Qed.

(** Flipping one bit of a piece set flips its key. *)
Lemma piece_keys_toggle (i x s : Z) :
  0 <= s < 64 ->
  piece_keys i (Z.lxor x (bit s))
  = Z.lxor (piece_keys i x) (getZ zobrist_keys (i * 64 + s)).
Proof.
  intros Hs. unfold piece_keys, bb_squares.
  rewrite (range_split s Hs), !filter_app, !filter_cons.
  set (k := fun sq => getZ zobrist_keys (i * 64 + sq)).
  assert (Hother : forall l, s ∉ l -> Forall (fun sq => 0 <= sq) l ->
            filter (fun sq => Z.testbit (Z.lxor x (bit s)) sq = true) l
            = filter (fun sq => Z.testbit x sq = true) l).
  { intros l Hnot Hpos. apply filter_ext_in. intros sq Hin.
    rewrite Z.lxor_spec, bit_testbit
      by (first [done | by eapply Forall_forall in Hpos]).
    rewrite bool_decide_eq_false_2 by (intros ->; done).
    by rewrite xorb_false_r. }
  rewrite !Hother.
  2,4: (intros Hin; apply elem_of_seqZ in Hin; lia).
  2,3: (apply Forall_forall; intros sq Hin; apply elem_of_seqZ in Hin; lia).
  rewrite Z.lxor_spec, bit_testbit, bool_decide_eq_true_2 by (done || lia).
  change (fun h sq => Z.lxor h (getZ zobrist_keys (i * 64 + sq)))
    with (fun h sq => Z.lxor h (k sq)).
  destruct (Z.testbit x s); cbn [xorb negb].
  - rewrite decide_False by done. rewrite decide_True by done.
    rewrite !foldl_app. cbn [foldl].
    rewrite (foldl_lxor_shift k (foldl _ _ _) (filter _ (range (s + 1) _))).
    rewrite (foldl_lxor_shift k (Z.lxor _ _) (filter _ (range (s + 1) _))).
    fold (k s). xor_solve.
  - rewrite decide_True by done. rewrite decide_False by done.
    rewrite !foldl_app. cbn [foldl].
    rewrite (foldl_lxor_shift k (foldl _ _ _) (filter _ (range (s + 1) _))).
    rewrite (foldl_lxor_shift k (Z.lxor _ _) (filter _ (range (s + 1) _))).
    fold (k s). xor_solve.
Qed.

Lemma bb_clear_lxor (x sq : Z) :
  0 <= x < 2 ^ 64 -> 0 <= sq < 64 -> Z.testbit x sq = true ->
  bb_clear sq x = Z.lxor x (bit sq).
Proof.
  intros Hx Hsq Hb. unfold bb_clear. apply Z.bits_inj'. intros n Hn.
  rewrite Z.land_spec, Z.lxor_spec, bb_not_testbit, bit_testbit by lia.
  case_bool_decide as Hd.
  - subst n. rewrite Hb. by destruct (Z.ltb_spec sq 64); [|lia].
  - destruct (Z.ltb_spec n 64); [by rewrite andb_true_r, xorb_false_r|].
    rewrite (testbit_high x n) by lia. done.
Qed.

Lemma bb_set_lxor (x sq : Z) :
  0 <= sq < 64 -> Z.testbit x sq = false ->
  bb_set sq x = Z.lxor x (bit sq).
Proof.
  intros Hsq Hb. unfold bb_set. apply Z.bits_inj'. intros n Hn.
  rewrite Z.lor_spec, Z.lxor_spec, bit_testbit by lia.
  case_bool_decide as Hd; [subst n; by rewrite Hb|].
  by rewrite orb_false_r, xorb_false_r.
Qed.

Lemma bb_flip_lxor (x a b : Z) :
  0 <= a < 64 -> 0 <= b < 64 -> a <> b ->
  bb_flip a b x = Z.lxor (Z.lxor x (bit a)) (bit b).
Proof.
  intros Ha Hb Hne. unfold bb_flip. apply Z.bits_inj'. intros n Hn.
  rewrite !Z.lxor_spec, Z.lor_spec, !bit_testbit by lia.
  repeat case_bool_decide; subst; try done; by destruct (Z.testbit x _).
Qed.

(** The change of the board hash when one piece set changes. *)
Lemma board_hash_upd (f : Z -> Z) (i : Z) (P : list Z) :
  length P = 12%nat -> 0 <= i < 12 ->
  board_hash (bb_upd f i P)
  = Z.lxor (board_hash P)
      (Z.lxor (piece_keys i (getZ P i)) (piece_keys i (f (getZ P i)))).
Proof.
  intros Hlen Hi. unfold board_hash.
  assert (Hgen : forall n : nat,
            foldl (fun h cp => Z.lxor h (piece_keys cp (getZ (bb_upd f i P) cp)))
                  0 (range 0 n)
            = Z.lxor
                (foldl (fun h cp => Z.lxor h (piece_keys cp (getZ P cp)))
                       0 (range 0 n))
                (if i <? Z.of_nat n
                 then Z.lxor (piece_keys i (getZ P i))
                        (piece_keys i (f (getZ P i)))
                 else 0)).
  { induction n as [|n IH].
    { cbn [range foldl]. destruct (Z.ltb_spec i (Z.of_nat 0)); [lia|].
      by rewrite Z.lxor_0_r. }
    rewrite range_snoc, !foldl_app, IH. cbn [foldl].
    rewrite Z.add_0_l, getZ_bb_upd by lia.
    destruct (Z.eqb_spec (Z.of_nat n) i) as [<-|Hne].
    - destruct (Z.ltb_spec (Z.of_nat n) (Z.of_nat n)); [lia|].
      destruct (Z.ltb_spec (Z.of_nat n) (Z.of_nat (S n))); [|lia].
      xor_solve.
    - destruct (Z.ltb_spec i (Z.of_nat n)), (Z.ltb_spec i (Z.of_nat (S n)));
        try lia; xor_solve. }
  rewrite (Hgen 12%nat). by destruct (Z.ltb_spec i (Z.of_nat 12)); [|lia].
Qed.

Lemma foldl_ext_elem {A B} (f g : B -> A -> B) (h : B) (l : list A) :
  (forall h x, x ∈ l -> f h x = g h x) -> foldl f h l = foldl g h l.
Proof.
  revert h. induction l as [|x l IH]; intros h Hext; [done|].
  cbn [foldl]. rewrite Hext by (by left). apply IH.
  intros h' y Hy. apply Hext. by right.
Qed.

(** [position_hash] is the board hash with the keys of the castling
    rights, of the en-passant file and of the side to move. *)
Lemma position_hash_board (p : Position) :
  position_hash p
  = Z.lxor
      (Z.lxor
         (Z.lxor (board_hash (pieces p)) (zobrist_castle (castling p)))
         (if 0 <=? enpassant p
          then zobrist_enpassant (SQ_FILE (enpassant p)) else 0))
      (if to_move p =? BLACK then zobrist_to_move else 0).
Proof.
  unfold position_hash. cbv zeta.
  assert (Hb : foldl
                 (fun h cp =>
                    foldl (fun h sq => Z.lxor h (zobrist_piece (cp / 6) (cp mod 6) sq))
                          h (bb_squares (piece_bb p (cp / 6) (cp mod 6))))
                 0 (range 0 12)
               = board_hash (pieces p)).
  { unfold board_hash. apply foldl_ext_elem. intros h cp Hcp.
    apply elem_of_seqZ in Hcp.
    assert (Hcp6 : cp / 6 * 6 + cp mod 6 = cp)
      by (Z.div_mod_to_equations; lia).
    unfold zobrist_piece, piece_bb. rewrite Hcp6.
    rewrite foldl_lxor_shift. reflexivity. }
  rewrite Hb.
  destruct (0 <=? enpassant p), (to_move p =? BLACK);
    rewrite ?Z.lxor_0_r; reflexivity.
Qed.

(** The key of a piece set depends on its 64 low bits alone. *)
Lemma piece_keys_ext (i x y : Z) :
  (forall n, 0 <= n < 64 -> Z.testbit x n = Z.testbit y n) ->
  piece_keys i x = piece_keys i y.
Proof.
  intros H. unfold piece_keys, bb_squares. f_equal.
  apply filter_ext_in. intros sq Hin. apply elem_of_seqZ in Hin.
  by rewrite H by lia.
Qed.

Lemma piece_keys_clear (i x sq : Z) :
  0 <= sq < 64 -> Z.testbit x sq = true ->
  piece_keys i (bb_clear sq x)
  = Z.lxor (piece_keys i x) (getZ zobrist_keys (i * 64 + sq)).
Proof.
  intros Hsq Hb. rewrite <- piece_keys_toggle by done.
  apply piece_keys_ext. intros n Hn. unfold bb_clear.
  rewrite Z.land_spec, Z.lxor_spec, bb_not_testbit, bit_testbit by lia.
  destruct (Z.ltb_spec n 64); [|lia].
  case_bool_decide as Hd; [subst n; by rewrite Hb|].
  by rewrite andb_true_r, xorb_false_r.
Qed.

Lemma piece_keys_set (i x sq : Z) :
  0 <= sq < 64 -> Z.testbit x sq = false ->
  piece_keys i (bb_set sq x)
  = Z.lxor (piece_keys i x) (getZ zobrist_keys (i * 64 + sq)).
Proof.
  intros Hsq Hb. rewrite <- piece_keys_toggle by done.
  by rewrite bb_set_lxor.
Qed.

Lemma piece_keys_flip (i x a b : Z) :
  0 <= a < 64 -> 0 <= b < 64 -> a <> b ->
  piece_keys i (bb_flip a b x)
  = Z.lxor (Z.lxor (piece_keys i x) (getZ zobrist_keys (i * 64 + a)))
      (getZ zobrist_keys (i * 64 + b)).
Proof.
  intros Ha Hb Hne. rewrite bb_flip_lxor by done.
  by rewrite !piece_keys_toggle.
Qed.

(** *** What each block does to the hash, the en-passant square and the
    side to move *)

Ltac hash_tests :=
  repeat case_match; simplify_eq/=; repeat split; try reflexivity.

Lemma make_capture_hash pos enemy to u :
  let victim := piece_on pos enemy to in
  let r := make_capture pos enemy to u in
  zobrist r.1 = (if 0 <=? victim
                 then Z.lxor (zobrist pos) (zobrist_piece enemy victim to)
                 else zobrist pos)
  /\ undo_castling r.2 = undo_castling u.
Proof. cbv zeta. unfold make_capture. hash_tests. Qed.

Lemma make_en_passant_hash pos mp enemy from to u :
  let r := make_en_passant pos mp enemy from to u in
  zobrist r.1
  = (if (mp =? PAWN) && (to =? enpassant pos)
     then Z.lxor (zobrist pos)
            (zobrist_piece enemy PAWN (SQ (SQ_FILE to) (SQ_RANK from)))
     else zobrist pos)
  /\ enpassant r.1 = enpassant pos
  /\ undo_castling r.2 = undo_castling u.
Proof. cbv zeta. unfold make_en_passant. hash_tests. Qed.

Lemma make_castling_rights_hash pos mp color from :
  let r := make_castling_rights pos mp color from in
  zobrist r = zobrist pos /\ enpassant r = enpassant pos
  /\ to_move r = to_move pos.
Proof. cbv zeta. unfold make_castling_rights. hash_tests. Qed.

Lemma make_relocate_hash pos move mp color from to :
  let is_kingside := to =? castling_rook pos (if color =? WHITE then 0 else 2) in
  let r := make_relocate pos move mp color from to in
  zobrist r
  = (if (mp =? KING) && MOVE_IS_SPECIAL move
     then Z.lxor
            (Z.lxor
               (Z.lxor
                  (Z.lxor (zobrist pos) (zobrist_piece color KING from))
                  (zobrist_piece color KING (castle_king_to color is_kingside)))
               (zobrist_piece color ROOK to))
            (zobrist_piece color ROOK (castle_rook_to color is_kingside))
     else Z.lxor (Z.lxor (zobrist pos) (zobrist_piece color mp from))
            (zobrist_piece color mp to))
  /\ enpassant r = enpassant pos /\ to_move r = to_move pos.
Proof. cbv zeta. unfold make_relocate. hash_tests. Qed.

Lemma make_promotion_hash pos promo color to :
  let r := make_promotion pos promo color to in
  zobrist r
  = (if 0 <? promo
     then Z.lxor (Z.lxor (zobrist pos) (zobrist_piece color PAWN to))
            (zobrist_piece color promo to)
     else zobrist pos)
  /\ enpassant r = enpassant pos /\ to_move r = to_move pos.
Proof. cbv zeta. unfold make_promotion. hash_tests. Qed.

Lemma make_ep_state_hash pos mp from to :
  let r := make_ep_state pos mp from to in
  let z := if 0 <=? enpassant pos
           then Z.lxor (zobrist pos)
                  (zobrist_enpassant (SQ_FILE (enpassant pos)))
           else zobrist pos in
  (if (mp =? PAWN) && (Z.abs (to - from) =? 16)
   then zobrist r
        = Z.lxor z (zobrist_enpassant (SQ_FILE (Z.quot (from + to) 2)))
        /\ enpassant r = Z.quot (from + to) 2
   else zobrist r = z /\ enpassant r = -1)
  /\ castling r = castling pos /\ to_move r = to_move pos.
Proof. cbv zeta. unfold make_ep_state. hash_tests. Qed.

Lemma make_counters_hash pos mp color u :
  let r := make_counters pos mp color u in
  zobrist r = zobrist pos /\ enpassant r = enpassant pos
  /\ castling r = castling pos /\ to_move r = to_move pos.
Proof. cbv zeta. unfold make_counters. hash_tests. Qed.

Section HashFacts.

Variable nnue_available : bool.
Variable nnue_refresh_accumulator : Position -> Accumulator.
Variable nnue_update_accumulator :
  Accumulator -> Z -> Z -> Z -> Z -> Z -> Z -> Accumulator.

Local Abbreviation make :=
  (position_make_move nnue_available nnue_refresh_accumulator
     nnue_update_accumulator).

Lemma make_nnue_hash pos move mp promo color enemy from to u :
  let r := make_nnue nnue_available nnue_refresh_accumulator
             nnue_update_accumulator pos move mp promo color enemy from to u in
  zobrist r = zobrist pos /\ enpassant r = enpassant pos
  /\ castling r = castling pos /\ to_move r = to_move pos.
Proof. cbv zeta. unfold make_nnue. hash_tests. Qed.

(** The hash, the en-passant square and the side to move
    [position_make_move] leaves. *)
Lemma make_move_hash pos move u0 :
  let from := MOVE_FROM move in
  let to := MOVE_TO move in
  let promo := MOVE_PROMO move in
  let color := to_move pos in
  let enemy := Z.lxor color 1 in
  let mp := piece_on pos color from in
  let victim := piece_on pos enemy to in
  let ep := (mp =? PAWN) && (to =? enpassant pos) in
  let is_kingside := to =? castling_rook pos (if color =? WHITE then 0 else 2) in
  let double := (mp =? PAWN) && (Z.abs (to - from) =? 16) in
  let Z1 := if 0 <=? victim
            then Z.lxor (zobrist pos) (zobrist_piece enemy victim to)
            else zobrist pos in
  let Z2 := if ep
            then Z.lxor Z1
                   (zobrist_piece enemy PAWN (SQ (SQ_FILE to) (SQ_RANK from)))
            else Z1 in
  let Z3 := if (mp =? KING) && MOVE_IS_SPECIAL move
            then Z.lxor
                   (Z.lxor
                      (Z.lxor (Z.lxor Z2 (zobrist_piece color KING from))
                         (zobrist_piece color KING
                            (castle_king_to color is_kingside)))
                      (zobrist_piece color ROOK to))
                   (zobrist_piece color ROOK (castle_rook_to color is_kingside))
            else Z.lxor (Z.lxor Z2 (zobrist_piece color mp from))
                   (zobrist_piece color mp to) in
  let Z4 := if 0 <? promo
            then Z.lxor (Z.lxor Z3 (zobrist_piece color PAWN to))
                   (zobrist_piece color promo to)
            else Z3 in
  let Z5 := if 0 <=? enpassant pos
            then Z.lxor Z4 (zobrist_enpassant (SQ_FILE (enpassant pos)))
            else Z4 in
  let Z6 := if double
            then Z.lxor Z5 (zobrist_enpassant (SQ_FILE (Z.quot (from + to) 2)))
            else Z5 in
  0 <= mp ->
  let '(pos', u) := make pos move u0 in
  zobrist pos'
  = Z.lxor
      (Z.lxor (Z.lxor Z6 (zobrist_castle (castling pos)))
         (zobrist_castle (castling pos')))
      zobrist_to_move
  /\ enpassant pos' = (if double then Z.quot (from + to) 2 else -1)
  /\ to_move pos' = Z.lxor color 1.
Proof.
  cbv zeta. intros Hfrom. unfold position_make_move.
  destruct (Z.ltb_spec (piece_on pos (to_move pos) (MOVE_FROM move)) 0) as [|_];
    [lia|].
  cbn zeta.
  match goal with
  | |- context [make_capture ?p ?e ?t ?u] =>
      pose proof (make_capture_hash p e t u) as H1;
      pose proof (make_capture_board p e t u) as B1;
      destruct (make_capture p e t u) as [p1 u1]
  end.
  cbv zeta in H1, B1. cbn [fst snd] in H1, B1.
  destruct H1 as (Hz1 & Hu1). destruct B1 as (_ & Hr1 & He1 & Ht1 & _).
  match goal with
  | |- context [make_en_passant ?p ?m ?e ?f ?t ?u] =>
      pose proof (make_en_passant_hash p m e f t u) as H2;
      pose proof (make_en_passant_board p m e f t u) as B2;
      destruct (make_en_passant p m e f t u) as [p2 u2]
  end.
  cbv zeta in H2, B2. cbn [fst snd] in H2, B2.
  destruct H2 as (Hz2 & He2 & Hu2). destruct B2 as (_ & Hr2 & Ht2 & _).
  cbn [zobrist enpassant to_move castling xor_zobrist with_zobrist
         with_to_move].
  match goal with
  | |- context [make_nnue _ _ _ ?p ?mv ?m ?pr ?c ?e ?f ?t ?u] =>
      destruct (make_nnue_hash p mv m pr c e f t u) as (-> & -> & -> & _)
  end.
  unfold make_castle_keys.
  cbn [zobrist enpassant castling to_move xor_zobrist with_zobrist].
  match goal with
  | |- context [make_counters ?p ?m ?c ?u] =>
      destruct (make_counters_hash p m c u) as (-> & -> & -> & _)
  end.
  match goal with
  | |- context [make_ep_state ?p ?m ?f ?t] =>
      pose proof (make_ep_state_hash p m f t) as H6;
      set (p6 := make_ep_state p m f t) in *
  end.
  cbv zeta in H6. destruct H6 as (H6 & Hc6 & _).
  match goal with
  | _ : context [make_promotion ?p ?pr ?c ?t] |- _ =>
      destruct (make_promotion_hash p pr c t) as (Hz5 & He5 & _)
  end.
  rewrite Hz5, He5 in H6. clear Hz5 He5.
  match goal with
  | _ : context [make_relocate ?p ?mv ?m ?c ?f ?t] |- _ =>
      destruct (make_relocate_hash p mv m c f t) as (Hz4 & He4 & _);
      destruct (make_relocate_board p mv m c f t) as (_ & Hr4)
  end.
  rewrite Hz4, He4 in H6. clear Hz4 He4.
  unfold castling_rook in H6.
  match goal with
  | _ : context [make_castling_rights ?p ?m ?c ?f] |- _ =>
      destruct (make_castling_rights_hash p m c f) as (Hz3 & He3 & _);
      destruct (make_castling_rights_board p m c f) as (_ & Hr3)
  end.
  rewrite Hz3, He3, Hr3, Hr2, Hr1, Hz2, He2, He1, Hz1 in H6.
  rewrite Hu2, Hu1. cbn [undo_castling with_undo_moving_piece].
  unfold castling_rook.
  destruct ((piece_on pos (to_move pos) (MOVE_FROM move) =? PAWN)
            && (Z.abs (MOVE_TO move - MOVE_FROM move) =? 16));
    destruct H6 as [-> ->]; repeat split.
Qed.

End HashFacts.

Lemma position_ok_hash (p : Position) :
  position_ok p = true ->
  zobrist p = position_hash p /\ pawn_hash p = position_pawn_hash p.
Proof.
  unfold position_ok. cbv zeta. intros H.
  apply andb_prop in H as [H _]. apply andb_prop in H as [H Hp].
  apply andb_prop in H as [_ Hz].
  apply Z.eqb_eq in Hp, Hz. done.
Qed.

(** The board hash after one update, for each kind of update. *)
Lemma board_hash_flip (i a b : Z) (P : list Z) :
  length P = 12%nat -> 0 <= i < 12 ->
  0 <= a < 64 -> 0 <= b < 64 -> a <> b ->
  board_hash (bb_upd (bb_flip a b) i P)
  = Z.lxor (Z.lxor (board_hash P) (getZ zobrist_keys (i * 64 + a)))
      (getZ zobrist_keys (i * 64 + b)).
Proof.
  intros Hlen Hi Ha Hb Hne.
  rewrite board_hash_upd, piece_keys_flip by done. xor_solve.
Qed.

Lemma board_hash_clear (i sq : Z) (P : list Z) :
  length P = 12%nat -> 0 <= i < 12 -> 0 <= sq < 64 ->
  Z.testbit (getZ P i) sq = true ->
  board_hash (bb_upd (bb_clear sq) i P)
  = Z.lxor (board_hash P) (getZ zobrist_keys (i * 64 + sq)).
Proof.
  intros Hlen Hi Hsq Hb.
  rewrite board_hash_upd, piece_keys_clear by done. xor_solve.
Qed.

Lemma board_hash_set (i sq : Z) (P : list Z) :
  length P = 12%nat -> 0 <= i < 12 -> 0 <= sq < 64 ->
  Z.testbit (getZ P i) sq = false ->
  board_hash (bb_upd (bb_set sq) i P)
  = Z.lxor (board_hash P) (getZ zobrist_keys (i * 64 + sq)).
Proof.
  intros Hlen Hi Hsq Hb.
  rewrite board_hash_upd, piece_keys_set by done. xor_solve.
Qed.

(** The other side's keys: the captured piece leaves the hash. *)
Lemma enemy_hash (P : list Z) (e victim to csq : Z) (ep : bool) :
  length P = 12%nat -> 0 <= e <= 1 ->
  0 <= to < 64 -> 0 <= csq < 64 ->
  (0 <= victim ->
   victim < 6 /\ Z.testbit (getZ P (e * 6 + victim)) to = true) ->
  (ep = true ->
   victim < 0 /\ Z.testbit (getZ P (e * 6 + 0)) csq = true) ->
  let E1 := if 0 <=? victim
            then bb_upd (bb_clear to) (e * 6 + victim) P else P in
  let E2 := if ep then bb_upd (bb_clear csq) (e * 6 + 0) E1 else E1 in
  board_hash E2
  = Z.lxor
      (Z.lxor (board_hash P)
         (if 0 <=? victim
          then getZ zobrist_keys ((e * 6 + victim) * 64 + to) else 0))
      (if ep then getZ zobrist_keys ((e * 6 + 0) * 64 + csq) else 0).
Proof.
  intros Hlen He Hto Hcsq Hvic Hep. cbv zeta.
  destruct ep.
  - destruct (Hep eq_refl) as [Hv Hb].
    destruct (Z.leb_spec 0 victim); [lia|].
    rewrite board_hash_clear by (done || lia). xor_solve.
  - destruct (Z.leb_spec 0 victim) as [Hv|Hv].
    + destruct (Hvic Hv) as [Hv6 Hb].
      rewrite board_hash_clear by (done || lia). xor_solve.
    + xor_solve.
Qed.

(** The mover's keys: origin out, destination in, and the promoted piece
    for the pawn. *)
Lemma own_hash (X : list Z) (c mp from to promo kt rt : Z) (castle : bool) :
  length X = 12%nat -> 0 <= c <= 1 -> 0 <= mp < 6 ->
  0 <= from < 64 -> 0 <= to < 64 -> 0 <= kt < 64 -> 0 <= rt < 64 ->
  (if castle then from <> kt /\ to <> rt else from <> to) ->
  (0 < promo ->
   mp = 0 /\ promo < 6 /\ castle = false
   /\ Z.testbit (getZ X (c * 6)) to = false
   /\ Z.testbit (getZ X (c * 6 + promo)) to = false) ->
  let O1 := if castle
            then bb_upd (bb_flip to rt) (c * 6 + 3)
                   (bb_upd (bb_flip from kt) (c * 6 + 5) X)
            else bb_upd (bb_flip from to) (c * 6 + mp) X in
  let O2 := if 0 <? promo
            then bb_upd (bb_set to) (c * 6 + promo)
                   (bb_upd (bb_clear to) (c * 6 + 0) O1)
            else O1 in
  let key i sq := getZ zobrist_keys (i * 64 + sq) in
  board_hash O2
  = Z.lxor
      (if castle
       then Z.lxor
              (Z.lxor
                 (Z.lxor (Z.lxor (board_hash X) (key (c * 6 + 5) from))
                    (key (c * 6 + 5) kt))
                 (key (c * 6 + 3) to))
              (key (c * 6 + 3) rt)
       else Z.lxor (Z.lxor (board_hash X) (key (c * 6 + mp) from))
              (key (c * 6 + mp) to))
      (if 0 <? promo
       then Z.lxor (key (c * 6 + 0) to) (key (c * 6 + promo) to)
       else 0).
Proof.
  intros Hlen Hc Hmp Hfrom Hto Hkt Hrt Hne Hpromo. cbv zeta.
  destruct (Z.ltb_spec 0 promo) as [Hp|Hp].
  - destruct (Hpromo Hp) as (-> & Hp6 & -> & Hbt & Hbp).
    rewrite board_hash_set, board_hash_clear, board_hash_flip;
      rewrite ?bb_upd_length; try done; try lia.
    + xor_solve.
    + rewrite getZ_bb_upd by lia. rewrite Z.eqb_refl. unfold bb_flip.
      rewrite Z.add_0_r, Z.lxor_spec, Z.lor_spec, !bit_testbit, Hbt by lia.
      rewrite bool_decide_eq_false_2 by lia.
      by rewrite bool_decide_eq_true_2.
    + rewrite !getZ_bb_upd by (rewrite ?bb_upd_length; lia).
      destruct (Z.eqb_spec (c * 6 + promo) (c * 6 + 0)); [lia|]. done.
  - rewrite Z.lxor_0_r. destruct castle.
    + destruct Hne as [Hne1 Hne2].
      rewrite !board_hash_flip; rewrite ?bb_upd_length; try done; lia.
    + rewrite board_hash_flip; (done || lia).
Qed.

Lemma castle_squares_range (c : Z) (ks : bool) :
  0 <= castle_king_to c ks < 64 /\ 0 <= castle_rook_to c ks < 64.
Proof.
  unfold castle_king_to, castle_rook_to, SQ_G1, SQ_C1, SQ_G8, SQ_C8, SQ_F1,
    SQ_D1, SQ_F8, SQ_D8.
  destruct (c =? WHITE), ks; lia.
Qed.

Section HashInvariant.

Variable nnue_available : bool.
Variable nnue_refresh_accumulator : Position -> Accumulator.
Variable nnue_update_accumulator :
  Accumulator -> Z -> Z -> Z -> Z -> Z -> Z -> Accumulator.

Local Abbreviation make :=
  (position_make_move nnue_available nnue_refresh_accumulator
     nnue_update_accumulator).

(** The key updated move by move is the key computed from scratch. *)
Lemma make_keeps_hash (pos : Position) (move : Z) :
  position_ok pos = true -> move_fits pos move = true ->
  move_squares_differ pos move = true ->
  let pos' := (make pos move undo_blank).1 in
  zobrist pos' = position_hash pos'.
Proof.
  intros Hok Hfits Hdiff.
  destruct (position_ok_board pos Hok) as (Hlen & Hrng & _ & Hside).
  destruct (position_ok_hash pos Hok) as [Hz0 _].
  unfold move_fits in Hfits. cbv zeta in Hfits.
  apply andb_prop in Hfits as [Hfits Hep].
  apply andb_prop in Hfits as [Hmp Hpromo]. apply Z.leb_le in Hmp.
  unfold move_squares_differ in Hdiff. cbv zeta in Hdiff.
  pose proof (make_move_board nnue_available nnue_refresh_accumulator
                nnue_update_accumulator pos move undo_blank) as Hboard.
  pose proof (make_move_hash nnue_available nnue_refresh_accumulator
                nnue_update_accumulator pos move undo_blank) as Hhash.
  cbv zeta in Hboard, Hhash.
  specialize (Hboard Hmp). specialize (Hhash Hmp).
  cbv zeta. destruct (make pos move undo_blank) as [p1 u]. cbn [fst].
  destruct Hboard as (Hp1 & _). destruct Hhash as (Hz1 & He1 & Ht1).
  rewrite (position_hash_board p1), Hz1, Hp1, He1, Ht1.
  rewrite Hz0, (position_hash_board pos).
  clear Hz1 Hp1 He1 Ht1 Hz0.
  generalize (zobrist_castle (castling p1)) as ck1.
  generalize (zobrist_castle (castling pos)) as ck0.
  intros ck0 ck1. clear p1 u.
  pose proof (MOVE_FROM_range move) as Hfrom.
  pose proof (MOVE_TO_range move) as Hto.
  pose proof (capture_square_range (MOVE_FROM move) (MOVE_TO move) Hfrom)
    as Hcsq.
  destruct (piece_on_found pos (to_move pos) (MOVE_FROM move) Hmp)
    as [Hmp6 _].
  assert (He : Z.lxor (to_move pos) 1 = 1 - to_move pos)
    by (destruct Hside as [-> | ->]; done).
  assert (Hc : 0 <= to_move pos <= 1) by (unfold WHITE, BLACK in Hside; lia).
  rewrite He in *. unfold castling_rook in *.
  pose proof (castle_squares_range (to_move pos)
                (MOVE_TO move
                 =? getZ (castling_rooks pos)
                      (if to_move pos =? WHITE then 0 else 2))) as [Hkt Hrt].
  pose proof (enemy_hash (pieces pos) (1 - to_move pos)
                (piece_on pos (1 - to_move pos) (MOVE_TO move))
                (MOVE_TO move)
                (SQ (SQ_FILE (MOVE_TO move)) (SQ_RANK (MOVE_FROM move)))
                ((piece_on pos (to_move pos) (MOVE_FROM move) =? PAWN)
                 && (MOVE_TO move =? enpassant pos))
                Hlen ltac:(lia) Hto Hcsq) as Henemy.
  cbv zeta in Henemy.
  pose proof (enemy_round_trip (pieces pos) (1 - to_move pos)
                (piece_on pos (1 - to_move pos) (MOVE_TO move))
                (MOVE_TO move)
                (SQ (SQ_FILE (MOVE_TO move)) (SQ_RANK (MOVE_FROM move)))
                ((piece_on pos (to_move pos) (MOVE_FROM move) =? PAWN)
                 && (MOVE_TO move =? enpassant pos))
                Hlen ltac:(lia) Hto Hcsq Hrng) as Hframe.
  cbv zeta in Hframe.
  assert (Hvic : 0 <= piece_on pos (1 - to_move pos) (MOVE_TO move) ->
                 piece_on pos (1 - to_move pos) (MOVE_TO move) < 6
                 /\ Z.testbit
                      (getZ (pieces pos)
                         ((1 - to_move pos) * 6
                          + piece_on pos (1 - to_move pos) (MOVE_TO move)))
                      (MOVE_TO move) = true).
  { intros Hv. destruct (piece_on_found pos _ _ Hv) as [? Hb].
    rewrite land_bit_testbit in Hb by done. split; [lia|done]. }
  assert (Hepf : (piece_on pos (to_move pos) (MOVE_FROM move) =? PAWN)
                 && (MOVE_TO move =? enpassant pos) = true ->
                 piece_on pos (1 - to_move pos) (MOVE_TO move) < 0
                 /\ Z.testbit (getZ (pieces pos) ((1 - to_move pos) * 6 + 0))
                      (SQ (SQ_FILE (MOVE_TO move)) (SQ_RANK (MOVE_FROM move)))
                    = true).
  { intros Hepb. rewrite Hepb in Hep.
    apply andb_prop in Hep as [?%Z.ltb_lt Hb].
    rewrite land_bit_testbit in Hb by done. split; [done|exact Hb]. }
  specialize (Henemy Hvic Hepf).
  destruct (Hframe Hvic Hepf) as (HlenX & Hfr & _). clear Hframe.
  unfold PAWN, KING, ROOK in *.
  match type of HlenX with
  | length ?X = _ =>
      pose proof (own_hash X (to_move pos)
                    (piece_on pos (to_move pos) (MOVE_FROM move))
                    (MOVE_FROM move) (MOVE_TO move) (MOVE_PROMO move)
                    (castle_king_to (to_move pos)
                       (MOVE_TO move
                        =? getZ (castling_rooks pos)
                             (if to_move pos =? WHITE then 0 else 2)))
                    (castle_rook_to (to_move pos)
                       (MOVE_TO move
                        =? getZ (castling_rooks pos)
                             (if to_move pos =? WHITE then 0 else 2)))
                    ((piece_on pos (to_move pos) (MOVE_FROM move) =? 5)
                     && MOVE_IS_SPECIAL move)
                    HlenX Hc Hmp6 Hfrom Hto Hkt Hrt) as Hown
  end.
  cbv zeta in Hown.
  rewrite Hown, Henemy; clear Hown Henemy.
  - unfold zobrist_piece.
    repeat match goal with
           | |- context [getZ zobrist_keys ?i] =>
               generalize (getZ zobrist_keys i); intros ?
           end.
    generalize (board_hash (pieces pos)); intros bh.
    assert (Hq : (piece_on pos (to_move pos) (MOVE_FROM move) =? 0)
                 && (Z.abs (MOVE_TO move - MOVE_FROM move) =? 16) = true ->
                 (0 <=? Z.quot (MOVE_FROM move + MOVE_TO move) 2) = true).
    { intros _. apply Z.leb_le. apply Z.quot_pos; lia. }
    destruct ((piece_on pos (to_move pos) (MOVE_FROM move) =? 0)
              && (Z.abs (MOVE_TO move - MOVE_FROM move) =? 16));
      [rewrite (Hq eq_refl)|change (0 <=? -1) with false]; clear Hq.
    all: destruct Hside as [Hs|Hs]; rewrite Hs;
      change (1 - WHITE =? BLACK) with true;
      change (WHITE =? BLACK) with false;
      change (1 - BLACK =? BLACK) with false;
      change (BLACK =? BLACK) with true; cbv iota.
    all: repeat match goal with
                | |- context [if ?b then _ else _] => destruct b
                end.
    all: xor_solve.
  - destruct ((piece_on pos (to_move pos) (MOVE_FROM move) =? 5)
              && MOVE_IS_SPECIAL move).
    + apply andb_prop in Hdiff as [H1 H2].
      apply negb_true_iff in H1, H2. apply Z.eqb_neq in H1, H2. done.
    + apply negb_true_iff in Hdiff. by apply Z.eqb_neq in Hdiff.
  - intros Hp. destruct (Z.ltb_spec 0 (MOVE_PROMO move)); [|lia].
    apply andb_prop in Hpromo as [Hpromo Hfree].
    apply andb_prop in Hpromo as [Hpawn Hp6].
    apply Z.eqb_eq in Hpawn. apply Z.ltb_lt in Hp6, Hfree.
    rewrite Hpawn in *. split; [done|]. split; [done|]. split; [done|].
    rewrite !Hfr by lia.
    pose proof (piece_on_none pos (to_move pos) (MOVE_TO move) 0 Hfree
                  ltac:(lia)) as H0.
    pose proof (piece_on_none pos (to_move pos) (MOVE_TO move)
                  (MOVE_PROMO move) Hfree ltac:(lia)) as H1.
    rewrite land_bit_testbit in H0, H1 by done.
    unfold piece_bb in H0, H1. rewrite Z.add_0_r in H0. done.
Qed.

(** X19 (incremental hash).  In a position that satisfies the sanity
    conditions, in particular one whose Zobrist hash is the one computed
    from scratch, for every move that fits it and flips two different
    squares, the hash [position_make_move] updates key by key is the hash
    [position_hash] computes from scratch for the new position. *)
Theorem make_move_keeps_hash (pos : Position) (move : Z) :
  position_ok pos = true -> move_fits pos move = true ->
  move_squares_differ pos move = true ->
  let pos' := (make pos move undo_blank).1 in
  zobrist pos' = position_hash pos'.
Proof. apply make_keeps_hash. Qed.

End HashInvariant.

(** 1... e5 in the position after 1. e4, a double pawn push that sets the
    en-passant square. *)
Lemma make_move_keeps_hash_witness :
  position_ok pos_after_e4 = true
  /\ move_fits pos_after_e4 move_e7e5 = true
  /\ move_squares_differ pos_after_e4 move_e7e5 = true
  /\ (let pos' := (make_move0 pos_after_e4 move_e7e5 undo_blank).1 in
      zobrist pos' = position_hash pos').
Proof.
  split; [by vm_compute|]. split; [by vm_compute|]. split; [by vm_compute|].
  apply (make_move_keeps_hash false no_network_refresh no_network_update
           pos_after_e4 move_e7e5); by vm_compute.
Defined.

(** ** bitboard.h: the lowest set bit, iteration and counting *)

Lemma testbit_pos_xO (q : positive) (n : Z) :
  0 <= n ->
  Z.testbit (Zpos q~0) n = if n =? 0 then false else Z.testbit (Zpos q) (n - 1).
Proof.
  intros Hn. destruct (Z.eqb_spec n 0) as [->|Hne]; [done|].
  replace n with (Z.succ (n - 1)) at 1 by lia.
  change (Zpos q~0) with (2 * Zpos q). apply Z.testbit_even_succ. lia.
Qed.

Lemma testbit_pos_xI (q : positive) (n : Z) :
  0 <= n ->
  Z.testbit (Zpos q~1) n = if n =? 0 then true else Z.testbit (Zpos q) (n - 1).
Proof.
  intros Hn. destruct (Z.eqb_spec n 0) as [->|Hne]; [done|].
  replace n with (Z.succ (n - 1)) at 1 by lia.
  change (Zpos q~1) with (2 * Zpos q + 1). apply Z.testbit_odd_succ. lia.
Qed.

Lemma ctz_pos_nonneg (p : positive) : 0 <= ctz_pos p.
Proof. induction p; cbn [ctz_pos]; lia. Qed.

(** The lowest set bit: set, and nothing set below. *)
Lemma ctz_pos_spec (p : positive) :
  Z.testbit (Zpos p) (ctz_pos p) = true
  /\ forall n, 0 <= n < ctz_pos p -> Z.testbit (Zpos p) n = false.
Proof.
  induction p as [q IH|q IH|]; cbn [ctz_pos].
  - split; [done|lia].
  - pose proof (ctz_pos_nonneg q). destruct IH as [IH1 IH2]. split.
    + rewrite testbit_pos_xO by lia.
      destruct (Z.eqb_spec (1 + ctz_pos q) 0); [lia|].
      by replace (1 + ctz_pos q - 1) with (ctz_pos q) by lia.
    + intros n Hn. rewrite testbit_pos_xO by lia.
      destruct (Z.eqb_spec n 0); [done|]. apply IH2. lia.
  - split; [done|lia].
Qed.

(** [x & (x - 1)] clears the lowest set bit and no other. *)
Lemma clear_lsb_spec (p : positive) (n : Z) :
  0 <= n ->
  Z.testbit (Z.land (Zpos p) (Zpos p - 1)) n
  = Z.testbit (Zpos p) n && negb (n =? ctz_pos p).
Proof.
  revert n. induction p as [q IH|q IH|]; intros n Hn; cbn [ctz_pos].
  - rewrite Z.land_spec.
    replace (Zpos q~1 - 1) with (Zpos q~0) by lia.
    rewrite testbit_pos_xI, testbit_pos_xO by done.
    destruct (Z.eqb_spec n 0); [done|]. cbn [negb].
    by rewrite andb_diag, andb_true_r.
  - pose proof (ctz_pos_nonneg q).
    rewrite Z.land_spec, testbit_pos_xO by done.
    destruct (Z.eqb_spec n 0) as [->|Hne]; [done|].
    replace (Zpos q~0 - 1) with (2 * (Zpos q - 1) + 1) by lia.
    replace n with (Z.succ (n - 1)) at 2 by lia.
    rewrite Z.testbit_odd_succ by lia.
    rewrite <- Z.land_spec, IH by lia. f_equal. f_equal.
    destruct (Z.eqb_spec (n - 1) (ctz_pos q)), (Z.eqb_spec n (1 + ctz_pos q));
      (done || lia).
  - change (Z.land 1 (1 - 1)) with 0. rewrite Z.bits_0.
    destruct (Z.eqb_spec n 0) as [->|Hne]; [done|].
    rewrite (testbit_above 1 1 n) by lia. done.
Qed.

Lemma bb_squares_0 : bb_squares 0 = [].
Proof. by vm_compute. Qed.

Lemma filter_nil_all {A} (P : A -> Prop) `{!forall x, Decision (P x)}
    (l : list A) :
  (forall x, x ∈ l -> ~ P x) -> filter P l = [].
Proof.
  induction l as [|x l IH]; intros Hall; [done|].
  rewrite filter_cons, decide_False by (apply Hall; by left).
  apply IH. intros y Hy. apply Hall. by right.
Qed.

(** The set bits of a word: the lowest one, then those of the word without
    it. *)
Lemma bb_squares_step (p : positive) :
  Zpos p < 2 ^ 64 ->
  0 <= ctz_pos p < 64
  /\ bb_squares (Zpos p)
     = ctz_pos p :: bb_squares (Z.land (Zpos p) (Zpos p - 1)).
Proof.
  intros Hp. destruct (ctz_pos_spec p) as [Hset Hlow].
  pose proof (ctz_pos_nonneg p) as H0.
  assert (Hs : ctz_pos p < 64).
  { destruct (Z.lt_ge_cases (ctz_pos p) 64); [done|].
    rewrite (testbit_high (Zpos p) (ctz_pos p)) in Hset by lia. done. }
  split; [lia|].
  unfold bb_squares. rewrite (range_split (ctz_pos p)) by lia.
  rewrite !filter_app, !filter_cons.
  rewrite decide_True by done.
  rewrite decide_False
    by (rewrite clear_lsb_spec, Z.eqb_refl by lia; by rewrite andb_false_r).
  rewrite !(filter_nil_all _ (range 0 _)).
  - cbn [app]. f_equal. apply filter_ext_in. intros sq Hin.
    apply elem_of_seqZ in Hin. rewrite clear_lsb_spec by lia.
    destruct (Z.eqb_spec sq (ctz_pos p)); [lia|]. by rewrite andb_true_r.
  - intros sq Hin. apply elem_of_seqZ in Hin.
    rewrite clear_lsb_spec, Hlow by lia. done.
  - intros sq Hin. apply elem_of_seqZ in Hin. rewrite Hlow by lia. done.
Qed.

Lemma land_pred_range (x : Z) : 0 < x < 2 ^ 64 -> 0 <= Z.land x (x - 1) < 2 ^ 64.
Proof.
  intros Hx. split; [apply Z.land_nonneg; lia|].
  assert (Z.land x (x - 1) <= x); [|lia].
  destruct (Z.le_gt_cases (Z.land x (x - 1)) x); [done|].
  exfalso.
  pose proof (Z.land_nonneg x (x - 1)) as [_ Hn]. specialize (Hn ltac:(lia)).
  pose proof (Z.sub_nocarry_ldiff x (Z.land x (x - 1))) as Hsub.
  assert (Hl : Z.ldiff (Z.land x (x - 1)) x = 0).
  { apply Z.bits_inj'. intros n Hn'.
    rewrite Z.ldiff_spec, Z.land_spec, Z.bits_0.
    by destruct (Z.testbit x n), (Z.testbit (x - 1) n). }
  specialize (Hsub Hl).
  pose proof (Z.ldiff_nonneg x (Z.land x (x - 1))) as [_ Hd].
  specialize (Hd ltac:(lia)). lia.
Qed.

(** [BB_FOREACH] visits the set bits from the lowest upwards. *)
Lemma bb_foreach_fuel (n : nat) (bb : Z) :
  0 <= bb < 2 ^ 64 -> (length (bb_squares bb) <= n)%nat ->
  bb_foreach n bb = bb_squares bb.
Proof.
  revert bb. induction n as [|n IH]; intros bb Hbb Hlen.
  { cbn [bb_foreach]. by destruct (bb_squares bb); [|cbn in Hlen; lia]. }
  cbn [bb_foreach]. destruct bb as [|p|p]; [by rewrite bb_squares_0| |lia].
  change (nz (Zpos p)) with true. cbv iota.
  destruct (bb_squares_step p ltac:(lia)) as [Hs Hstep].
  unfold u64. rewrite (Z.mod_small (Zpos p - 1)) by lia.
  rewrite Hstep in *. cbn [length] in Hlen. cbn [LSB]. f_equal.
  apply IH; [apply land_pred_range; lia|lia].
Qed.

Lemma filter_length_shift (P Q : Z -> Prop) `{!forall x, Decision (P x)}
    `{!forall x, Decision (Q x)} (lo : Z) (k : nat) :
  (forall n, lo <= n -> P (n + 1) <-> Q n) ->
  length (filter P (range (lo + 1) k)) = length (filter Q (range lo k)).
Proof.
  intros Hpq. induction k as [|k IH]; [done|].
  rewrite !range_snoc, !filter_app, !length_app, IH. f_equal.
  rewrite !filter_cons, !filter_nil.
  replace (lo + 1 + Z.of_nat k) with (lo + Z.of_nat k + 1) by lia.
  destruct (decide (P _)) as [Hp|Hp], (decide (Q _)) as [Hq|Hq]; try done.
  - exfalso. apply Hq. apply Hpq; [lia|done].
  - exfalso. apply Hp. apply Hpq; [lia|done].
Qed.

Lemma range_cons (lo : Z) (k : nat) : range lo (S k) = lo :: range (lo + 1) k.
Proof.
  unfold range. rewrite Nat2Z.inj_succ. unfold Z.succ.
  replace (Z.of_nat k + 1) with (1 + Z.of_nat k) by lia.
  rewrite seqZ_app by lia. reflexivity.
Qed.

(** Counting the binary digits 1 counts the set bits. *)
Lemma popcount_pos_spec (p : positive) (k : nat) :
  Zpos p < 2 ^ Z.of_nat k ->
  popcount_pos p
  = Z.of_nat (length (filter (fun sq => Z.testbit (Zpos p) sq = true)
                        (range 0 k))).
Proof.
  revert k. induction p as [q IH|q IH|]; intros k Hk.
  - destruct k as [|k]; [cbn in Hk; lia|].
    rewrite Nat2Z.inj_succ, Z.pow_succ_r in Hk by lia.
    rewrite range_cons, filter_cons, decide_True by done.
    cbn [popcount_pos length].
    rewrite (IH k) by lia.
    rewrite (filter_length_shift _ (fun sq => Z.testbit (Zpos q) sq = true)).
    + lia.
    + intros n Hn. rewrite testbit_pos_xI by lia.
      destruct (Z.eqb_spec (n + 1) 0); [lia|].
      by replace (n + 1 - 1) with n by lia.
  - destruct k as [|k]; [cbn in Hk; lia|].
    rewrite Nat2Z.inj_succ, Z.pow_succ_r in Hk by lia.
    rewrite range_cons, filter_cons, decide_False by done.
    cbn [popcount_pos].
    rewrite (IH k) by lia.
    rewrite (filter_length_shift _ (fun sq => Z.testbit (Zpos q) sq = true)).
    + lia.
    + intros n Hn. rewrite testbit_pos_xO by lia.
      destruct (Z.eqb_spec (n + 1) 0); [lia|].
      by replace (n + 1 - 1) with n by lia.
  - destruct k as [|k]; [cbn in Hk; lia|].
    rewrite range_cons, filter_cons, decide_True by done.
    rewrite filter_nil_all; [done|].
    intros sq Hin. apply elem_of_seqZ in Hin.
    rewrite (testbit_above 1 1 sq) by lia. done.
Qed.

Lemma range_strongly_sorted (lo : Z) (n : nat) :
  StronglySorted Z.lt (range lo n).
Proof.
  revert lo. induction n as [|n IH]; intros lo; [constructor|].
  rewrite range_cons. constructor; [apply IH|].
  apply Forall_forall. intros x Hx. apply elem_of_seqZ in Hx. lia.
Qed.

Lemma filter_strongly_sorted {A} (R : A -> A -> Prop) (P : A -> Prop)
    `{!forall x, Decision (P x)} (l : list A) :
  StronglySorted R l -> StronglySorted R (filter P l).
Proof.
  induction 1 as [|x l Hl IH Hx]; [constructor|].
  rewrite filter_cons. destruct (decide (P x)); [|done].
  constructor; [done|].
  apply Forall_forall. intros y Hy. apply list_elem_of_filter in Hy as [_ Hy].
  by eapply Forall_forall in Hx.
Qed.

(** X20 (bitboard iteration).  For every 64-bit word, [BB_FOREACH] visits
    exactly the set bits, each once, from the lowest upwards, and ends
    within 64 rounds; [POPCOUNT] is the number of squares visited; and for
    a non-zero word [pop_lsb] hands back the first of them and leaves the
    word holding the others. *)
Theorem bb_foreach_visits_set_bits (bb : Z) :
  0 <= bb < 2 ^ 64 ->
  bb_foreach 64 bb = bb_squares bb
  /\ (forall sq, sq ∈ bb_foreach 64 bb <-> 0 <= sq < 64 /\ Z.testbit bb sq = true)
  /\ Sorted Z.lt (bb_foreach 64 bb)
  /\ POPCOUNT bb = Z.of_nat (length (bb_foreach 64 bb))
  /\ (bb <> 0 ->
      0 <= (pop_lsb bb).2 < bb
      /\ bb_foreach 64 bb = (pop_lsb bb).1 :: bb_foreach 64 (pop_lsb bb).2).
Proof.
  intros Hbb.
  assert (Hlen : forall x, (length (bb_squares x) <= 64)%nat).
  { intros x. unfold bb_squares.
    etrans; [apply length_filter|]. unfold range. by rewrite length_seqZ. }
  assert (Heq : bb_foreach 64 bb = bb_squares bb)
    by (by apply bb_foreach_fuel).
  split; [done|]. rewrite Heq. split; [|split; [|split]].
  - intros sq. unfold bb_squares, range.
    rewrite list_elem_of_filter, elem_of_seqZ.
    split; intros [? ?]; (split; [done || lia|done || lia]).
  - unfold bb_squares. apply StronglySorted_Sorted.
    apply filter_strongly_sorted, range_strongly_sorted.
  - destruct bb as [|p|p]; [done| |lia].
    cbn [POPCOUNT]. apply (popcount_pos_spec p 64).
    change (Z.of_nat 64) with 64. lia.
  - intros Hne. destruct bb as [|p|p]; [done| |lia].
    unfold pop_lsb. cbn [fst snd LSB].
    unfold u64. rewrite (Z.mod_small (Zpos p - 1)) by lia.
    destruct (bb_squares_step p ltac:(lia)) as [Hs Hstep].
    pose proof (land_pred_range (Zpos p) ltac:(lia)) as Hr.
    split.
    + split; [lia|].
      assert (Hb : Z.testbit (Z.land (Zpos p) (Zpos p - 1)) (ctz_pos p) = false)
        by (rewrite clear_lsb_spec, Z.eqb_refl by lia; apply andb_false_r).
      destruct (Z.lt_ge_cases (Z.land (Zpos p) (Zpos p - 1)) (Zpos p)); [done|].
      assert (Hl : Z.land (Zpos p) (Zpos p - 1) = Zpos p).
      { apply Z.le_antisymm; [|done].
        pose proof (Z.sub_nocarry_ldiff (Zpos p) (Z.land (Zpos p) (Zpos p - 1)))
          as Hsub.
        assert (Hd : Z.ldiff (Z.land (Zpos p) (Zpos p - 1)) (Zpos p) = 0).
        { apply Z.bits_inj'. intros n Hn'.
          rewrite Z.ldiff_spec, Z.land_spec, Z.bits_0.
          by destruct (Z.testbit (Zpos p) n), (Z.testbit (Zpos p - 1) n). }
        specialize (Hsub Hd).
        pose proof (Z.ldiff_nonneg (Zpos p) (Z.land (Zpos p) (Zpos p - 1)))
          as [_ Hdn].
        specialize (Hdn ltac:(lia)). lia. }
      rewrite Hl in Hb. destruct (ctz_pos_spec p) as [Hset _]. congruence.
    + rewrite (bb_foreach_fuel 64 (Z.land _ _)) by (done || apply Hlen).
      exact Hstep.
Qed.

Lemma bb_foreach_visits_set_bits_witness :
  bb_foreach 64 RANK_3 = [16; 17; 18; 19; 20; 21; 22; 23]
  /\ POPCOUNT RANK_3 = 8.
Proof.
  destruct (bb_foreach_visits_set_bits RANK_3) as (Heq & _ & _ & Hpop & _).
  { by vm_compute. }
  split; [rewrite Heq; by vm_compute|rewrite Hpop, Heq; by vm_compute].
Defined.

(** ** search.c: the entry of [alpha_beta] *)

Section EntryFacts.
Variable nnue_available : bool.
Variable nnue_refresh_accumulator : Position -> Accumulator.
Variable nnue_update_accumulator :
  Accumulator -> Z -> Z -> Z -> Z -> Z -> Z -> Accumulator.
Variable evaluate : Position -> Z.
Variable phase_eval : Position -> Z.
Variable is_theoretical_draw : Position -> Z.
Variable apply_contempt : Z -> Z -> Z -> Z.
Variable tb_available : bool.
Variable tb_probe_in_search : Position -> Z -> Z -> option Z.
Variable LMR_TABLE : Z -> Z -> Z.
Variable threads_should_stop : nat -> bool.
Variable get_time_ms : nat -> Z.

Local Abbreviation evaluate_position := (evaluate_position evaluate).
Local Abbreviation is_time_up_at :=
  (is_time_up_at threads_should_stop get_time_ms).
Local Abbreviation is_time_up := (is_time_up threads_should_stop get_time_ms).
Local Abbreviation get_lmr_reduction := (get_lmr_reduction LMR_TABLE).
Local Abbreviation get_futility_margin := (get_futility_margin phase_eval).
Local Abbreviation quiescence_loop :=
  (quiescence_loop nnue_available nnue_refresh_accumulator
     nnue_update_accumulator threads_should_stop get_time_ms).
Local Abbreviation quiescence_body :=
  (quiescence_body nnue_available nnue_refresh_accumulator
     nnue_update_accumulator evaluate threads_should_stop get_time_ms).
Local Abbreviation quiescence :=
  (quiescence nnue_available nnue_refresh_accumulator nnue_update_accumulator
     evaluate threads_should_stop get_time_ms).
Local Abbreviation alpha_beta_entry :=
  (alpha_beta_entry evaluate is_theoretical_draw apply_contempt
     threads_should_stop get_time_ms).
Local Abbreviation alpha_beta_tablebase :=
  (alpha_beta_tablebase tb_available tb_probe_in_search).
Local Abbreviation alpha_beta_null_move := (alpha_beta_null_move phase_eval).
Local Abbreviation null_move_reduction := (null_move_reduction phase_eval).
Local Abbreviation loop_search := (loop_search LMR_TABLE).
Local Abbreviation alpha_beta_loop :=
  (alpha_beta_loop nnue_available nnue_refresh_accumulator
     nnue_update_accumulator evaluate LMR_TABLE threads_should_stop
     get_time_ms).
Local Abbreviation alpha_beta_body :=
  (alpha_beta_body nnue_available nnue_refresh_accumulator
     nnue_update_accumulator evaluate phase_eval is_theoretical_draw
     apply_contempt tb_available tb_probe_in_search LMR_TABLE
     threads_should_stop get_time_ms).
Local Abbreviation alpha_beta :=
  (alpha_beta nnue_available nnue_refresh_accumulator nnue_update_accumulator
     evaluate phase_eval is_theoretical_draw apply_contempt tb_available
     tb_probe_in_search LMR_TABLE threads_should_stop get_time_ms).
Local Abbreviation movepicker_next :=
  (movepicker_next nnue_available nnue_refresh_accumulator
     nnue_update_accumulator).
Local Abbreviation position_make_move :=
  (position_make_move nnue_available nnue_refresh_accumulator
     nnue_update_accumulator).

(** What [alpha_beta_entry] does on a drawn position. *)
Lemma alpha_beta_entry_draw (s : SearchState) (pos : Position) :
  ss_ply s < MAX_DEPTH - 1 ->
  is_time_up_at s = false ->
  100 <= halfmove pos
  \/ check_repetition s (zobrist pos) = true
  \/ is_theoretical_draw pos = DRAW_INSUFFICIENT_MATERIAL
  \/ is_theoretical_draw pos = DRAW_FORTRESS ->
  alpha_beta_entry (mkCtx s pos)
  = Some (Return (s16 (apply_contempt 0 (to_move pos) (ss_contempt s))),
          mkCtx (set_ss_nodes (ss_nodes s + 1)
                   (set_ss_polls (S (ss_polls s)) s)) pos).
Proof.
  intros Hply Hup Hdraw.
  unfold alpha_beta_entry, is_time_up.
  unfold mbind, search_bind, gets, get_pos, modify, mret, search_ret.
  cbn [ctx_state ctx_pos].
  destruct (Z.leb_spec (MAX_DEPTH - 1) (ss_ply s)); [lia|].
  cbn [return_if mret search_ret ctx_state ctx_pos]. rewrite Hup.
  cbn [return_if mret search_ret ctx_state ctx_pos ss_contempt set_ss_nodes
         set_ss_polls].
  destruct (Z.leb_spec 100 (halfmove pos)) as [|Hh]; [reflexivity|].
  cbn [return_if mret search_ret ctx_state ctx_pos].
  match goal with
  | |- context [check_repetition ?s' (zobrist pos)] =>
      change (check_repetition s' (zobrist pos))
        with (check_repetition s (zobrist pos))
  end.
  destruct (check_repetition s (zobrist pos)); [reflexivity|].
  cbn [return_if mret search_ret ctx_state ctx_pos].
  destruct Hdraw as [?|[?|[Hd|Hd]]]; [lia|done| |]; rewrite Hd; reflexivity.
Qed.

(** X21 (drawn positions).  Below the ply limit and with the clock still
    running, [alpha_beta] scores a position as a draw, with the contempt
    applied, whenever the half-move clock has reached 100, the position
    key is among the earlier entries of the repetition stack, or the
    evaluator reports insufficient material or a fortress: at any depth
    and for any window, also at the root, before the tablebases and the
    transposition table are looked at, and with no other change of the
    state than the node and poll counters. *)
Theorem alpha_beta_draw (fuel : nat) (depth alpha beta : Z) (s : SearchState)
    (pos : Position) :
  ss_ply s < MAX_DEPTH - 1 ->
  is_time_up_at s = false ->
  100 <= halfmove pos
  \/ check_repetition s (zobrist pos) = true
  \/ is_theoretical_draw pos = DRAW_INSUFFICIENT_MATERIAL
  \/ is_theoretical_draw pos = DRAW_FORTRESS ->
  alpha_beta (S fuel) depth alpha beta (mkCtx s pos)
  = Some (s16 (apply_contempt 0 (to_move pos) (ss_contempt s)),
          mkCtx (set_ss_nodes (ss_nodes s + 1)
                   (set_ss_polls (S (ss_polls s)) s)) pos).
Proof.
  intros Hply Hup Hdraw.
  cbn [alpha_beta]. unfold run_body, alpha_beta_body. cbv zeta.
  unfold mbind at 1. unfold search_bind at 1.
  rewrite (alpha_beta_entry_draw s pos Hply Hup Hdraw). reflexivity.
Qed.

End EntryFacts.

(** King and pawn against king with the half-move clock at 100, searched
    to depth 5: the value is the draw score 0. *)
Lemma alpha_beta_draw_witness :
  let pos := with_halfmove 100 pos_king_pawn in
  ss_ply state_fresh < MAX_DEPTH - 1
  /\ is_time_up_at never_stop clock_zero state_fresh = false
  /\ alpha_beta0 1 5 (-100) 100 (mkCtx state_fresh pos)
     = Some (s16 (no_contempt 0 (to_move pos) (ss_contempt state_fresh)),
             mkCtx (set_ss_nodes (ss_nodes state_fresh + 1)
                      (set_ss_polls (S (ss_polls state_fresh)) state_fresh))
               pos).
Proof.
  split; [by vm_compute|]. split; [reflexivity|].
  apply (alpha_beta_draw false no_network_refresh no_network_update
           material_balance phase_middle no_draw no_contempt false
           no_tablebase lmr_one never_stop clock_zero 0%nat 5 (-100) 100
           state_fresh (with_halfmove 100 pos_king_pawn)).
  - by vm_compute.
  - reflexivity.
  - left. cbn. lia.
Defined.
(** ** movegen.c: what the generators store *)

(** *** The piece sets of a sane position are disjoint *)

Lemma squares_lor_land (a b : Z) :
  (length (bb_squares (Z.lor a b)) + length (bb_squares (Z.land a b))
   = length (bb_squares a) + length (bb_squares b))%nat.
Proof.
  unfold bb_squares. generalize (range 0 64). intros l.
  induction l as [|x l IH]; [done|].
  rewrite !filter_cons, Z.lor_spec, Z.land_spec.
  destruct (Z.testbit a x), (Z.testbit b x); cbn [orb andb];
    repeat case_decide; try done; cbn [length]; lia.
Qed.

Lemma squares_nil (x : Z) :
  length (bb_squares x) = 0%nat ->
  forall sq, 0 <= sq < 64 -> Z.testbit x sq = false.
Proof.
  intros Hlen sq Hsq. apply nil_length_inv in Hlen.
  destruct (Z.testbit x sq) eqn:Hb; [|done].
  assert (Hin : sq ∈ bb_squares x).
  { apply list_elem_of_filter. split; [done|]. apply elem_of_seqZ. lia. }
  rewrite Hlen in Hin. by apply elem_of_nil in Hin.
Qed.

Lemma union_count_le (bs : list Z) (acc : Z) :
  (length (bb_squares (foldl Z.lor acc bs))
   <= length (bb_squares acc) + foldr (fun b n => (length (bb_squares b) + n)%nat) 0%nat bs)%nat.
Proof.
  revert acc. induction bs as [|b bs IH]; intros acc.
  { cbn. lia. }
  cbn [foldl foldr].
  specialize (IH (Z.lor acc b)). pose proof (squares_lor_land acc b). lia.
Qed.

(** A union with as many squares as its parts together has disjoint
    parts. *)
Lemma union_count_disjoint (bs : list Z) (acc : Z) :
  (length (bb_squares (foldl Z.lor acc bs))
   = length (bb_squares acc) + foldr (fun b n => (length (bb_squares b) + n)%nat) 0%nat bs)%nat ->
  forall (i j : nat) x y sq, (i < j)%nat -> bs !! i = Some x -> bs !! j = Some y ->
    0 <= sq < 64 -> Z.testbit x sq = true -> Z.testbit y sq = false.
Proof.
  revert acc. induction bs as [|b bs IH]; intros acc Heq i j x y sq Hij Hx Hy Hsq Hb;
    [done|].
  cbn [foldl foldr] in Heq. 
  pose proof (union_count_le bs (Z.lor acc b)) as Hle.
  pose proof (squares_lor_land acc b) as Hab.
  destruct i as [|i].
  - cbn in Hx. injection Hx as ->.
    destruct j as [|j]; [lia|]. cbn in Hy.
    (* [y] lies in the tail, whose union with [acc | x] loses nothing *)
    assert (Htail : (length (bb_squares (foldl Z.lor (Z.lor acc x) bs))
                     = length (bb_squares (Z.lor acc x))
                       + foldr (fun b n => (length (bb_squares b) + n)%nat) 0%nat bs)%nat)
      by lia.
    clear -Htail Hy Hsq Hb.
    revert acc j Htail Hy. generalize dependent x.
    induction bs as [|b bs IH]; intros x Hb acc j Htail Hy; [done|].
    cbn [foldl foldr] in Htail. 
    pose proof (union_count_le bs (Z.lor (Z.lor acc x) b)) as Hle.
    pose proof (squares_lor_land (Z.lor acc x) b) as Hab.
    destruct j as [|j].
    + cbn in Hy. injection Hy as ->.
      assert (Hz : length (bb_squares (Z.land (Z.lor acc x) y)) = 0%nat) by lia.
      pose proof (squares_nil _ Hz sq Hsq) as Hn.
      rewrite Z.land_spec, Z.lor_spec, Hb, orb_true_r in Hn. done.
    + cbn in Hy.
      assert (Hx' : Z.lor (Z.lor acc x) b = Z.lor (Z.lor acc b) x).
      { by rewrite <- !Z.lor_assoc, (Z.lor_comm x b). }
      apply (IH x Hb (Z.lor acc b) j); [|done].
      rewrite <- Hx'.
      pose proof (squares_lor_land (Z.lor acc b) x) as Hab'.
      rewrite <- Hx' in Hab'.
      pose proof (squares_lor_land acc b).
      pose proof (squares_lor_land acc x).
      lia.
  - destruct j as [|j]; [lia|]. cbn in Hx, Hy.
    apply (IH (Z.lor acc b)) with (i := i) (j := j) (x := x); try done; lia.
Qed.
Lemma lor_range (a b : Z) :
  0 <= a < 2 ^ 64 -> 0 <= b < 2 ^ 64 -> 0 <= Z.lor a b < 2 ^ 64.
Proof.
  intros Ha Hb.
  assert (Hm : Z.lor a b = Z.lor a b mod 2 ^ 64).
  { apply Z.bits_inj'. intros n Hn.
    destruct (Z.lt_ge_cases n 64).
    - by rewrite Z.mod_pow2_bits_low by lia.
    - rewrite Z.mod_pow2_bits_high by lia.
      by rewrite Z.lor_spec, !(testbit_high _ n) by lia. }
  rewrite Hm. apply Z.mod_pos_bound. lia.
Qed.

Lemma POPCOUNT_squares (x : Z) :
  0 <= x < 2 ^ 64 -> POPCOUNT x = Z.of_nat (length (bb_squares x)).
Proof.
  intros Hx. destruct x as [|p|p]; [done| |lia].
  cbn [POPCOUNT]. apply (popcount_pos_spec p 64).
  change (Z.of_nat 64) with 64. lia.
Qed.

Lemma position_ok_disjoint (p : Position) :
  position_ok p = true ->
  forall i j sq, 0 <= i < 12 -> 0 <= j < 12 -> i <> j -> 0 <= sq < 64 ->
    Z.testbit (getZ (pieces p) i) sq = true ->
    Z.testbit (getZ (pieces p) j) sq = false.
Proof.
  intros Hok.
  destruct (position_ok_board p Hok) as (Hlen & Hrange & _ & _).
  revert Hok. unfold position_ok. cbv zeta. intros H.
  apply andb_prop in H as [H _]. apply andb_prop in H as [H _].
  apply andb_prop in H as [H _].
  apply andb_prop in H as [H _]. apply andb_prop in H as [H _].
  apply andb_prop in H as [H _]. apply andb_prop in H as [H Hall].
  apply andb_prop in H as [H _]. apply andb_prop in H as [H _].
  apply andb_prop in H as [H Hpop]. clear H.
  apply Z.eqb_eq in Hall, Hpop. rewrite Hall in Hpop. clear Hall.
  unfold piece_bb in Hpop.
  destruct (pieces p) as [|a0 [|a1 [|a2 [|a3 [|a4 [|a5 [|a6 [|a7 [|a8 [|a9 [|a10
    [|a11 [|? ?]]]]]]]]]]]]]; try done. clear Hlen.
  set (bs := [a0; a1; a2; a3; a4; a5; a6; a7; a8; a9; a10; a11]) in *.
  assert (Hb : forall k : nat, (k < 12)%nat -> 0 <= getZ bs (Z.of_nat k) < 2 ^ 64)
    by (intros; apply Hrange).
  pose proof (Hb 0%nat ltac:(lia)) as H0. pose proof (Hb 1%nat ltac:(lia)) as H1.
  pose proof (Hb 2%nat ltac:(lia)) as H2. pose proof (Hb 3%nat ltac:(lia)) as H3.
  pose proof (Hb 4%nat ltac:(lia)) as H4. pose proof (Hb 5%nat ltac:(lia)) as H5.
  pose proof (Hb 6%nat ltac:(lia)) as H6. pose proof (Hb 7%nat ltac:(lia)) as H7.
  pose proof (Hb 8%nat ltac:(lia)) as H8. pose proof (Hb 9%nat ltac:(lia)) as H9.
  pose proof (Hb 10%nat ltac:(lia)) as H10. pose proof (Hb 11%nat ltac:(lia)) as H11.
  clear Hb.
  change (getZ bs (Z.of_nat 0)) with a0 in H0. change (getZ bs (Z.of_nat 1)) with a1 in H1.
  change (getZ bs (Z.of_nat 2)) with a2 in H2. change (getZ bs (Z.of_nat 3)) with a3 in H3.
  change (getZ bs (Z.of_nat 4)) with a4 in H4. change (getZ bs (Z.of_nat 5)) with a5 in H5.
  change (getZ bs (Z.of_nat 6)) with a6 in H6. change (getZ bs (Z.of_nat 7)) with a7 in H7.
  change (getZ bs (Z.of_nat 8)) with a8 in H8. change (getZ bs (Z.of_nat 9)) with a9 in H9.
  change (getZ bs (Z.of_nat 10)) with a10 in H10.
  change (getZ bs (Z.of_nat 11)) with a11 in H11.
  change (map (fun i => getZ bs i) (range 0 12)) with bs in Hpop.
  change (foldl Z.add 0 (map POPCOUNT bs))
    with (0 + POPCOUNT a0 + POPCOUNT a1 + POPCOUNT a2 + POPCOUNT a3 + POPCOUNT a4
          + POPCOUNT a5 + POPCOUNT a6 + POPCOUNT a7 + POPCOUNT a8 + POPCOUNT a9
          + POPCOUNT a10 + POPCOUNT a11) in Hpop.
  assert (Hu : Z.lor
      (foldl (fun acc pc => Z.lor acc (getZ bs (WHITE * 6 + pc))) 0 (range 0 6))
      (foldl (fun acc pc => Z.lor acc (getZ bs (BLACK * 6 + pc))) 0 (range 0 6))
    = foldl Z.lor 0 bs).
  { change (Z.lor (Z.lor (Z.lor (Z.lor (Z.lor (Z.lor (Z.lor 0 a0) a1) a2) a3) a4) a5)
                  (Z.lor (Z.lor (Z.lor (Z.lor (Z.lor (Z.lor 0 a6) a7) a8) a9) a10) a11)
            = Z.lor (Z.lor (Z.lor (Z.lor (Z.lor (Z.lor (Z.lor (Z.lor (Z.lor (Z.lor
                (Z.lor (Z.lor 0 a0) a1) a2) a3) a4) a5) a6) a7) a8) a9) a10) a11).
    rewrite !Z.lor_0_l, <- !Z.lor_assoc. reflexivity. }
  rewrite Hu in Hpop. clear Hu.
  assert (Hr : 0 <= foldl Z.lor 0 bs < 2 ^ 64).
  { unfold bs. cbn [foldl]. repeat apply lor_range; (done || lia). }
  rewrite !POPCOUNT_squares in Hpop by done.
  assert (Hcount : (length (bb_squares (foldl Z.lor 0%Z bs))
     = length (bb_squares 0%Z)
       + foldr (fun b n => (length (bb_squares b) + n)%nat) 0%nat bs)%nat).
  { rewrite bb_squares_0. unfold bs at 2. cbn [foldr length]. lia. }
  pose proof (union_count_disjoint bs 0 Hcount) as Hd. clear Hcount Hpop Hr.
  assert (Hlt : forall i j sq, 0 <= i < j -> j < 12 -> 0 <= sq < 64 ->
            Z.testbit (getZ bs i) sq = true -> Z.testbit (getZ bs j) sq = false).
  { intros i j sq Hi Hj Hsq Hbit.
    assert (Hli : is_Some (bs !! Z.to_nat i)) by (apply lookup_lt_is_Some; cbn; lia).
    assert (Hlj : is_Some (bs !! Z.to_nat j)) by (apply lookup_lt_is_Some; cbn; lia).
    destruct Hli as [x Hx], Hlj as [y Hy].
    rewrite <- (Z2Nat.id i), getZ_nat, Hx in Hbit by lia.
    rewrite <- (Z2Nat.id j), getZ_nat, Hy by lia.
    apply (Hd (Z.to_nat i) (Z.to_nat j) x y sq); (done || lia). }
  intros i j sq Hi Hj Hne Hsq Hbit.
  destruct (Z.lt_ge_cases i j).
  - apply (Hlt i j); (done || lia).
  - destruct (Z.testbit (getZ bs j) sq) eqn:Hbj; [|done].
    rewrite (Hlt j i sq) in Hbit; (done || lia).
Qed.
(** *** What [position_ok] says about single squares *)

Lemma position_ok_occupied (p : Position) (c sq : Z) :
  position_ok p = true -> c = WHITE \/ c = BLACK ->
  Z.testbit (occupied_bb p c) sq
  = existsb (fun k => Z.testbit (piece_bb p c k) sq) (range 0 6).
Proof.
  intros Hok Hc.
  destruct (position_ok_board p Hok) as (_ & _ & Hsync & _).
  rewrite <- Hsync at 1.
  unfold sync_occupied, occupied_bb. cbn [occupied with_all with_occupied].
  destruct Hc as [-> | ->].
  - change (getZ [?a; ?b] WHITE) with a. cbn [foldl existsb range seqZ].
    change (existsb _ (range 0 6))
      with (Z.testbit (piece_bb p WHITE 0) sq || (Z.testbit (piece_bb p WHITE 1) sq
            || (Z.testbit (piece_bb p WHITE 2) sq || (Z.testbit (piece_bb p WHITE 3) sq
            || (Z.testbit (piece_bb p WHITE 4) sq || (Z.testbit (piece_bb p WHITE 5) sq
            || false)))))).
    change (foldl _ 0 (range 0 6))
      with (Z.lor (Z.lor (Z.lor (Z.lor (Z.lor (Z.lor 0 (piece_bb p WHITE 0))
              (piece_bb p WHITE 1)) (piece_bb p WHITE 2)) (piece_bb p WHITE 3))
              (piece_bb p WHITE 4)) (piece_bb p WHITE 5)).
    rewrite !Z.lor_spec, Z.bits_0.
    by destruct (Z.testbit _ sq), (Z.testbit _ sq), (Z.testbit _ sq),
      (Z.testbit _ sq), (Z.testbit _ sq), (Z.testbit _ sq).
  - change (getZ [?a; ?b] BLACK) with b.
    change (existsb _ (range 0 6))
      with (Z.testbit (piece_bb p BLACK 0) sq || (Z.testbit (piece_bb p BLACK 1) sq
            || (Z.testbit (piece_bb p BLACK 2) sq || (Z.testbit (piece_bb p BLACK 3) sq
            || (Z.testbit (piece_bb p BLACK 4) sq || (Z.testbit (piece_bb p BLACK 5) sq
            || false)))))).
    change (foldl _ 0 (range 0 6))
      with (Z.lor (Z.lor (Z.lor (Z.lor (Z.lor (Z.lor 0 (piece_bb p BLACK 0))
              (piece_bb p BLACK 1)) (piece_bb p BLACK 2)) (piece_bb p BLACK 3))
              (piece_bb p BLACK 4)) (piece_bb p BLACK 5)).
    rewrite !Z.lor_spec, Z.bits_0.
    by destruct (Z.testbit _ sq), (Z.testbit _ sq), (Z.testbit _ sq),
      (Z.testbit _ sq), (Z.testbit _ sq), (Z.testbit _ sq).
Qed.

Lemma position_ok_all (p : Position) (sq : Z) :
  position_ok p = true ->
  Z.testbit (all p) sq
  = Z.testbit (occupied_bb p WHITE) sq || Z.testbit (occupied_bb p BLACK) sq.
Proof.
  intros Hok.
  destruct (position_ok_board p Hok) as (_ & _ & Hsync & _).
  rewrite <- Hsync.
  unfold sync_occupied. cbn [all with_all]. by rewrite Z.lor_spec.
Qed.

Lemma piece_bb_range (p : Position) (c k : Z) :
  position_ok p = true -> 0 <= piece_bb p c k < 2 ^ 64.
Proof.
  intros Hok. destruct (position_ok_board p Hok) as (_ & Hr & _). apply Hr.
Qed.

(** A square holds at most one piece. *)
Lemma piece_bb_disjoint (p : Position) (c k c' k' sq : Z) :
  position_ok p = true ->
  c = WHITE \/ c = BLACK -> c' = WHITE \/ c' = BLACK ->
  0 <= k < 6 -> 0 <= k' < 6 -> 0 <= sq < 64 ->
  Z.testbit (piece_bb p c k) sq = true ->
  Z.testbit (piece_bb p c' k') sq = true ->
  c = c' /\ k = k'.
Proof.
  intros Hok Hc Hc' Hk Hk' Hsq Hb Hb'.
  destruct (decide (c * 6 + k = c' * 6 + k')) as [Heq|Hne].
  { unfold WHITE, BLACK in *. lia. }
  unfold piece_bb in *.
  rewrite (position_ok_disjoint p Hok (c * 6 + k) (c' * 6 + k') sq) in Hb';
    (done || unfold WHITE, BLACK in *; lia).
Qed.

(** The scan of [position_make_move] and [movegen_is_pseudo_legal] for
    the piece on a square finds the piece that stands there. *)
Lemma piece_on_is (p : Position) (c k sq : Z) :
  position_ok p = true -> c = WHITE \/ c = BLACK ->
  0 <= k < 6 -> 0 <= sq < 64 ->
  Z.testbit (piece_bb p c k) sq = true -> piece_on p c sq = k.
Proof.
  intros Hok Hc Hk Hsq Hb.
  destruct (Z.lt_ge_cases (piece_on p c sq) 0) as [Hneg|Hpos].
  { pose proof (piece_on_none p c sq k Hneg Hk) as Hn.
    rewrite land_bit_testbit in Hn by done. congruence. }
  destruct (piece_on_found p c sq Hpos) as [Hr Hf].
  rewrite land_bit_testbit in Hf by done.
  by destruct (piece_bb_disjoint p c (piece_on p c sq) c k sq).
Qed.

Lemma piece_on_occupied (p : Position) (c sq : Z) :
  position_ok p = true -> c = WHITE \/ c = BLACK -> 0 <= sq < 64 ->
  Z.testbit (occupied_bb p c) sq = (0 <=? piece_on p c sq).
Proof.
  intros Hok Hc Hsq. rewrite position_ok_occupied by done.
  destruct (Z.leb_spec 0 (piece_on p c sq)) as [Hpos|Hneg].
  - destruct (piece_on_found p c sq Hpos) as [Hr Hf].
    rewrite land_bit_testbit in Hf by done.
    apply existsb_range_spec. exists (piece_on p c sq).
    split; [change (Z.of_nat 6) with 6; lia|done].
  - destruct (existsb _ _) eqn:He; [|done].
    apply existsb_range_spec in He as (k & Hk & Hb).
    change (Z.of_nat 6) with 6 in Hk.
    pose proof (piece_on_none p c sq k Hneg Hk) as Hn.
    rewrite land_bit_testbit in Hn by done. congruence.
Qed.

Lemma piece_bb_occupied (p : Position) (c k sq : Z) :
  position_ok p = true -> c = WHITE \/ c = BLACK -> 0 <= k < 6 ->
  Z.testbit (piece_bb p c k) sq = true ->
  Z.testbit (occupied_bb p c) sq = true.
Proof.
  intros Hok Hc Hk Hb. rewrite position_ok_occupied by done.
  apply existsb_range_spec. exists k. split; [change (Z.of_nat 6) with 6; lia|done].
Qed.

(** No square is occupied by both sides. *)
Lemma occupied_disjoint (p : Position) (c sq : Z) :
  position_ok p = true -> c = WHITE \/ c = BLACK -> 0 <= sq < 64 ->
  Z.testbit (occupied_bb p c) sq = true ->
  Z.testbit (occupied_bb p (Z.lxor c 1)) sq = false.
Proof.
  intros Hok Hc Hsq Hb.
  assert (Hc' : Z.lxor c 1 = WHITE \/ Z.lxor c 1 = BLACK)
    by (destruct Hc as [-> | ->]; [by right|by left]).
  rewrite position_ok_occupied in Hb by done.
  apply existsb_range_spec in Hb as (k & Hk & Hb).
  change (Z.of_nat 6) with 6 in Hk.
  destruct (Z.testbit (occupied_bb p (Z.lxor c 1)) sq) eqn:He; [|done].
  rewrite position_ok_occupied in He by done.
  apply existsb_range_spec in He as (k' & Hk' & Hb').
  change (Z.of_nat 6) with 6 in Hk'.
  destruct (piece_bb_disjoint p c k (Z.lxor c 1) k' sq) as [Hcc _]; try done.
  destruct Hc as [-> | ->]; done.
Qed.
(** *** Shifts and masks, bit by bit *)

Lemma elem_of_bb_squares (bb sq : Z) :
  sq ∈ bb_squares bb <-> 0 <= sq < 64 /\ Z.testbit bb sq = true.
Proof.
  unfold bb_squares, range. rewrite list_elem_of_filter, elem_of_seqZ.
  change (Z.of_nat 64) with 64. split; intros [? ?]; (split; [done || lia|done || lia]).
Qed.

Lemma shl_testbit (b k n : Z) :
  0 <= k -> 0 <= n < 64 -> Z.testbit (shl b k) n = Z.testbit b (n - k).
Proof.
  intros Hk Hn. unfold shl, u64.
  rewrite Z.mod_pow2_bits_low by lia. apply Z.shiftl_spec. lia.
Qed.

Lemma shr_testbit (b k n : Z) :
  0 <= n -> Z.testbit (shr b k) n = Z.testbit b (n + k).
Proof. intros Hn. unfold shr. apply Z.shiftr_spec. lia. Qed.

Lemma testbit_true_range (x n : Z) :
  0 <= x < 2 ^ 64 -> Z.testbit x n = true -> 0 <= n < 64.
Proof.
  intros Hx Hb. split.
  - destruct (Z.lt_ge_cases n 0); [|done]. by rewrite Z.testbit_neg_r in Hb.
  - destruct (Z.lt_ge_cases n 64); [done|]. by rewrite testbit_high in Hb.
Qed.

Lemma bit_range (sq : Z) : 0 <= bit sq < 2 ^ 64.
Proof. unfold bit, u64. apply Z.mod_pos_bound. lia. Qed.

(** [x & (1ULL << sq)] is non-zero only for a square of the board. *)
Lemma land_bit_square (x sq : Z) :
  nz (Z.land x (bit sq)) = true -> 0 <= sq < 64.
Proof.
  intros Hnz.
  destruct (decide (0 <= sq < 64)) as [|Hout]; [done|]. exfalso.
  assert (Hz : bit sq = 0).
  { unfold bit, u64. destruct (Z.lt_ge_cases sq 0).
    - rewrite Z.shiftl_1_l. rewrite Z.pow_neg_r by lia. done.
    - rewrite Z.shiftl_1_l. replace sq with (64 + (sq - 64)) by lia.
      rewrite Z.pow_add_r by lia. rewrite Z.mul_comm. apply Z.mod_mul. lia. }
  rewrite Hz, Z.land_0_r in Hnz. done.
Qed.

Lemma RANK_3_testbit (n : Z) : Z.testbit RANK_3 n = (16 <=? n) && (n <? 24).
Proof.
  change RANK_3 with (Z.shiftl (Z.ones 8) 16).
  destruct (Z.lt_ge_cases n 0).
  { rewrite Z.testbit_neg_r by lia. by destruct (Z.leb_spec 16 n); [lia|]. }
  rewrite Z.shiftl_spec by lia.
  destruct (Z.leb_spec 16 n); cbn [andb].
  - destruct (Z.ltb_spec n 24).
    + apply Z.ones_spec_low. lia.
    + apply Z.ones_spec_high. lia.
  - apply Z.testbit_neg_r. lia.
Qed.

Lemma RANK_6_testbit (n : Z) : Z.testbit RANK_6 n = (40 <=? n) && (n <? 48).
Proof.
  change RANK_6 with (Z.shiftl (Z.ones 8) 40).
  destruct (Z.lt_ge_cases n 0).
  { rewrite Z.testbit_neg_r by lia. by destruct (Z.leb_spec 40 n); [lia|]. }
  rewrite Z.shiftl_spec by lia.
  destruct (Z.leb_spec 40 n); cbn [andb].
  - destruct (Z.ltb_spec n 48).
    + apply Z.ones_spec_low. lia.
    + apply Z.ones_spec_high. lia.
  - apply Z.testbit_neg_r. lia.
Qed.

Lemma bb_not_square (b n : Z) :
  0 <= n < 64 -> Z.testbit (bb_not b) n = negb (Z.testbit b n).
Proof.
  intros Hn. rewrite bb_not_testbit by lia.
  destruct (Z.ltb_spec n 64); [|lia]. apply xorb_true_r.
Qed.

Lemma FILE_testbit (n : Z) :
  0 <= n < 64 ->
  Z.testbit FILE_A n = (SQ_FILE n =? 0) /\ Z.testbit FILE_H n = (SQ_FILE n =? 7).
Proof.
  intros Hn.
  assert (Hall : forallb (fun n => Bool.eqb (Z.testbit FILE_A n) (SQ_FILE n =? 0)
                                   && Bool.eqb (Z.testbit FILE_H n) (SQ_FILE n =? 7))
                   (range 0 64) = true) by (by vm_compute).
  rewrite forallb_forall in Hall. specialize (Hall n).
  destruct (andb_prop _ _ (Hall ltac:(apply list_elem_of_In, elem_of_seqZ; lia)))
    as [Ha Hh].
  apply Bool.eqb_prop in Ha, Hh. done.
Qed.

Lemma SQ_FILE_mod (sq : Z) : SQ_FILE sq = sq mod 8.
Proof. unfold SQ_FILE. change 7 with (Z.ones 3). by rewrite Z.land_ones. Qed.

Lemma SQ_RANK_div (sq : Z) : SQ_RANK sq = sq / 8.
Proof. unfold SQ_RANK. by rewrite Z.shiftr_div_pow2. Qed.

(** The four fields of a packed move. *)
Lemma move_fields (from to promo flag : Z) :
  0 <= from < 64 -> 0 <= to < 64 -> 0 <= promo < 16 -> 0 <= flag < 4 ->
  MOVE_FROM (MAKE_MOVE from to promo flag) = from
  /\ MOVE_TO (MAKE_MOVE from to promo flag) = to
  /\ MOVE_PROMO (MAKE_MOVE from to promo flag) = promo
  /\ MOVE_FLAG (MAKE_MOVE from to promo flag) = flag.
Proof.
  intros Hf Ht Hp Hg. rewrite MAKE_MOVE_value by done.
  unfold MOVE_FROM, MOVE_TO, MOVE_PROMO, MOVE_FLAG.
  change 0x3F with (Z.ones 6). change 0xF with (Z.ones 4). change 0x3 with (Z.ones 2).
  rewrite !field_at by lia. rewrite Z.land_ones by lia.
  change (2 ^ 6) with 64. change (2 ^ 12) with 4096. change (2 ^ 16) with 65536.
  change (2 ^ 4) with 16. change (2 ^ 2) with 4.
  repeat split; Z.div_mod_to_equations; lia.
Qed.

(** *** Membership in the move list *)

Lemma push_move_elem (lst : list Z) (x m : Z) :
  m ∈ push_move lst x -> m ∈ lst \/ m = x.
Proof.
  unfold push_move. case_match; [|by left].
  rewrite elem_of_app, list_elem_of_singleton. tauto.
Qed.

Lemma foldl_elem {A} (f : list Z -> A -> list Z) (Q : A -> Prop) (xs : list A)
    (l0 : list Z) (m : Z) :
  (forall l x, x ∈ xs -> m ∈ f l x -> m ∈ l \/ Q x) ->
  m ∈ foldl f l0 xs -> m ∈ l0 \/ exists x, x ∈ xs /\ Q x.
Proof.
  revert l0. induction xs as [|x xs IH]; intros l0 Hstep Hin; [by left|].
  cbn [foldl] in Hin.
  destruct (IH (f l0 x)) as [Hl | (y & Hy & Hq)].
  - intros l y Hy. apply Hstep. by right.
  - done.
  - destruct (Hstep l0 x ltac:(by left) Hl) as [? | ?]; [by left|].
    right. exists x. split; [by left|done].
  - right. exists y. split; [by right|done].
Qed.

Lemma add_move_elem (lst : list Z) (from to flag m : Z) :
  m ∈ add_move lst from to flag -> m ∈ lst \/ m = MAKE_MOVE from to 0 flag.
Proof. apply push_move_elem. Qed.

Lemma add_pawn_moves_elem (lst : list Z) (pos : Position) (from to flag m : Z) :
  m ∈ add_pawn_moves lst pos from to flag ->
  m ∈ lst
  \/ exists promo, promo_fits (to_move pos) to promo
                   /\ m = MAKE_MOVE from to promo flag.
Proof.
  unfold add_pawn_moves, promo_fits, last_rank. cbv zeta. case_match.
  - intros Hin. apply foldl_elem with (Q := fun promo =>
      m = MAKE_MOVE from to (promo - KNIGHT + 1) flag) in Hin.
    + destruct Hin as [?|(promo & Hp & ->)]; [by left|]. right.
      exists (promo - KNIGHT + 1). split; [|done].
      apply elem_of_seqZ in Hp. unfold KNIGHT in *. lia.
    + intros l x _. apply push_move_elem.
  - intros [?| ->]%add_move_elem; [by left|]. right. by exists 0.
Qed.
(** *** Each generator stores moves of its kind *)

Ltac bits_in H :=
  repeat first
    [ rewrite Z.land_spec in H
    | rewrite RANK_3_testbit in H
    | rewrite RANK_6_testbit in H
    | rewrite shl_testbit in H by lia
    | rewrite shr_testbit in H by lia
    | rewrite bb_not_square in H by lia
    | match type of H with
      | _ && _ = true =>
          let H' := fresh H in apply andb_prop in H as [H H']; bits_in H'
      | (_ <=? _) = true => apply Z.leb_le in H
      | (_ <? _) = true => apply Z.ltb_lt in H
      | negb _ = true => apply negb_true_iff in H
      end ].

Lemma to_move_cases (pos : Position) :
  position_ok pos = true -> to_move pos = WHITE \/ to_move pos = BLACK.
Proof. intros Hok. by destruct (position_ok_board pos Hok) as (_ & _ & _ & ?). Qed.

Lemma gen_pawn_pushes_generated (pos : Position) (lst : list Z) (m : Z) :
  position_ok pos = true ->
  m ∈ gen_pawn_pushes pos lst -> m ∈ lst \/ generated pos m.
Proof.
  intros Hok. pose proof (piece_bb_range pos (to_move pos) PAWN Hok) as Hpr.
  unfold gen_pawn_pushes. cbv zeta.
  destruct (to_move_cases pos Hok) as [Hc|Hc]; rewrite Hc;
    [change (WHITE =? WHITE) with true|change (BLACK =? WHITE) with false];
    cbv iota; intros Hin.
  - apply foldl_elem with (Q := fun sq =>
        sq ∈ bb_squares (Z.land (shl (Z.land (Z.land (shl (piece_bb pos WHITE PAWN) 8)
               (bb_not (all pos))) RANK_3) 8) (bb_not (all pos)))
        /\ m = MAKE_MOVE (sq - 16) sq 0 FLAG_QUIET) in Hin.
    2:{ intros l x Hx [?| ->]%add_move_elem; [by left|by right]. }
    destruct Hin as [Hin|(sq & _ & Hsq & ->)].
    + apply foldl_elem with (Q := fun sq =>
        sq ∈ bb_squares (Z.land (shl (piece_bb pos WHITE PAWN) 8) (bb_not (all pos)))
        /\ exists promo, promo_fits (to_move pos) sq promo
                         /\ m = MAKE_MOVE (sq - 8) sq promo FLAG_QUIET) in Hin.
      2:{ intros l x Hx [?|?]%add_pawn_moves_elem; [by left|by right]. }
      destruct Hin as [?|(sq & _ & Hsq & promo & Hp & ->)]; [by left|]. right.
      apply elem_of_bb_squares in Hsq as [Hr Hb]. bits_in Hb.
      rewrite <- Hc in Hb.
      pose proof (testbit_true_range _ _ Hpr Hb).
      apply gen_push; try done; try lia. rewrite Hc. cbn. lia.
    + right. apply elem_of_bb_squares in Hsq as [Hr Hb]. bits_in Hb.
      rewrite <- Hc in Hb.
      replace (sq - 8 - 8) with (sq - 16) in Hb by lia.
      assert (Hs : pawn_step (to_move pos) = 8) by (by rewrite Hc).
      replace sq with (sq - 16 + 2 * pawn_step (to_move pos)) at 2 by lia.
      apply gen_double_push.
      * rewrite Hc. change (WHITE =? WHITE) with true. cbv iota. lia.
      * done.
      * rewrite Hs. by replace (sq - 16 + 8) with (sq - 8) by lia.
      * rewrite Hs. by replace (sq - 16 + 2 * 8) with sq by lia.
  - apply foldl_elem with (Q := fun sq =>
        sq ∈ bb_squares (Z.land (shr (Z.land (Z.land (shr (piece_bb pos BLACK PAWN) 8)
               (bb_not (all pos))) RANK_6) 8) (bb_not (all pos)))
        /\ m = MAKE_MOVE (sq + 16) sq 0 FLAG_QUIET) in Hin.
    2:{ intros l x Hx [?| ->]%add_move_elem; [by left|by right]. }
    destruct Hin as [Hin|(sq & _ & Hsq & ->)].
    + apply foldl_elem with (Q := fun sq =>
        sq ∈ bb_squares (Z.land (shr (piece_bb pos BLACK PAWN) 8) (bb_not (all pos)))
        /\ exists promo, promo_fits (to_move pos) sq promo
                         /\ m = MAKE_MOVE (sq + 8) sq promo FLAG_QUIET) in Hin.
      2:{ intros l x Hx [?|?]%add_pawn_moves_elem; [by left|by right]. }
      destruct Hin as [?|(sq & _ & Hsq & promo & Hp & ->)]; [by left|]. right.
      apply elem_of_bb_squares in Hsq as [Hr Hb]. bits_in Hb.
      rewrite <- Hc in Hb.
      pose proof (testbit_true_range _ _ Hpr Hb).
      apply gen_push; try done; try lia. rewrite Hc. cbn. lia.
    + right. apply elem_of_bb_squares in Hsq as [Hr Hb]. bits_in Hb.
      rewrite <- Hc in Hb.
      replace (sq + 8 + 8) with (sq + 16) in Hb by lia.
      assert (Hs : pawn_step (to_move pos) = -8) by (by rewrite Hc).
      replace sq with (sq + 16 + 2 * pawn_step (to_move pos)) at 2 by lia.
      apply gen_double_push.
      * rewrite Hc. change (BLACK =? WHITE) with false. cbv iota. lia.
      * done.
      * rewrite Hs. by replace (sq + 16 + -8) with (sq + 8) by lia.
      * rewrite Hs. by replace (sq + 16 + 2 * -8) with sq by lia.
Qed.
Lemma SQ_FILE_range (sq : Z) : 0 <= SQ_FILE sq <= 7.
Proof. rewrite SQ_FILE_mod. pose proof (Z.mod_pos_bound sq 8). lia. Qed.

Lemma gen_pawn_captures_generated (pos : Position) (lst : list Z) (m : Z) :
  position_ok pos = true ->
  m ∈ gen_pawn_captures pos lst -> m ∈ lst \/ generated pos m.
Proof.
  intros Hok. pose proof (piece_bb_range pos (to_move pos) PAWN Hok) as Hpr.
  pose proof (SQ_FILE_range (enpassant pos)) as Hfile.
  unfold gen_pawn_captures. cbv zeta.
  destruct (to_move_cases pos Hok) as [Hc|Hc]; rewrite Hc;
    [change (WHITE =? WHITE) with true|change (BLACK =? WHITE) with false];
    cbv iota; intros Hin.
  - repeat match type of Hin with
    | _ ∈ (if ?b then _ else _) => destruct b eqn:?
    | _ ∈ add_move _ _ _ _ => apply add_move_elem in Hin as [Hin| ->]
    end.
    all: try match goal with
    | H : nz (Z.land _ (bit (SQ (SQ_FILE _ - 1) _))) = true |-
        _ \/ generated _ (MAKE_MOVE (SQ (SQ_FILE _ - 1) _) _ _ _) =>
        right; pose proof (land_bit_square _ _ H);
        rewrite land_bit_testbit in H by done;
        apply (gen_en_passant pos _ (-1));
          [lia|by right|lia|by rewrite Hc|by rewrite Hc]
    | H : nz (Z.land _ (bit (SQ (SQ_FILE _ + 1) _))) = true |-
        _ \/ generated _ (MAKE_MOVE (SQ (SQ_FILE _ + 1) _) _ _ _) =>
        right; pose proof (land_bit_square _ _ H);
        rewrite land_bit_testbit in H by done;
        apply (gen_en_passant pos _ 1);
          [lia|by left|lia|by rewrite Hc|by rewrite Hc]
    end.
    all: apply foldl_elem with (Q := fun sq =>
        sq ∈ bb_squares (Z.land (Z.land (shl (piece_bb pos WHITE PAWN) 9)
               (bb_not FILE_A)) (occupied_bb pos (Z.lxor WHITE 1)))
        /\ exists promo, promo_fits (to_move pos) sq promo
                         /\ m = MAKE_MOVE (sq - 9) sq promo FLAG_CAPTURE) in Hin;
      [|intros l x Hx [?|?]%add_pawn_moves_elem; [by left|by right]].
    all: destruct Hin as [Hin|(sq & _ & Hsq & promo & Hp & ->)];
      [|right; apply elem_of_bb_squares in Hsq as [Hr Hb]; bits_in Hb;
        rewrite <- Hc in Hb, Hb0;
        pose proof (testbit_true_range _ _ Hpr Hb);
        apply (gen_pawn_capture pos (sq - 9) sq promo 9 FILE_A);
          [lia|lia|lia|left; split; [done|by right]|done|done|done|done]].
    all: apply foldl_elem with (Q := fun sq =>
        sq ∈ bb_squares (Z.land (Z.land (shl (piece_bb pos WHITE PAWN) 7)
               (bb_not FILE_H)) (occupied_bb pos (Z.lxor WHITE 1)))
        /\ exists promo, promo_fits (to_move pos) sq promo
                         /\ m = MAKE_MOVE (sq - 7) sq promo FLAG_CAPTURE) in Hin;
      [|intros l x Hx [?|?]%add_pawn_moves_elem; [by left|by right]].
    all: destruct Hin as [Hin|(sq & _ & Hsq & promo & Hp & ->)]; [by left|].
    all: right; apply elem_of_bb_squares in Hsq as [Hr Hb]; bits_in Hb;
        rewrite <- Hc in Hb, Hb0;
        pose proof (testbit_true_range _ _ Hpr Hb);
        apply (gen_pawn_capture pos (sq - 7) sq promo 7 FILE_H);
          [lia|lia|lia|left; split; [done|by left]|done|done|done|done].
  - repeat match type of Hin with
    | _ ∈ (if ?b then _ else _) => destruct b eqn:?
    | _ ∈ add_move _ _ _ _ => apply add_move_elem in Hin as [Hin| ->]
    end.
    all: try match goal with
    | H : nz (Z.land _ (bit (SQ (SQ_FILE _ - 1) _))) = true |-
        _ \/ generated _ (MAKE_MOVE (SQ (SQ_FILE _ - 1) _) _ _ _) =>
        right; pose proof (land_bit_square _ _ H);
        rewrite land_bit_testbit in H by done;
        apply (gen_en_passant pos _ (-1));
          [lia|by right|lia|by rewrite Hc|by rewrite Hc]
    | H : nz (Z.land _ (bit (SQ (SQ_FILE _ + 1) _))) = true |-
        _ \/ generated _ (MAKE_MOVE (SQ (SQ_FILE _ + 1) _) _ _ _) =>
        right; pose proof (land_bit_square _ _ H);
        rewrite land_bit_testbit in H by done;
        apply (gen_en_passant pos _ 1);
          [lia|by left|lia|by rewrite Hc|by rewrite Hc]
    end.
    all: apply foldl_elem with (Q := fun sq =>
        sq ∈ bb_squares (Z.land (Z.land (shr (piece_bb pos BLACK PAWN) 9)
               (bb_not FILE_H)) (occupied_bb pos (Z.lxor BLACK 1)))
        /\ exists promo, promo_fits (to_move pos) sq promo
                         /\ m = MAKE_MOVE (sq + 9) sq promo FLAG_CAPTURE) in Hin;
      [|intros l x Hx [?|?]%add_pawn_moves_elem; [by left|by right]].
    all: destruct Hin as [Hin|(sq & _ & Hsq & promo & Hp & ->)];
      [|right; apply elem_of_bb_squares in Hsq as [Hr Hb]; bits_in Hb;
        rewrite <- Hc in Hb, Hb0;
        pose proof (testbit_true_range _ _ Hpr Hb);
        apply (gen_pawn_capture pos (sq + 9) sq promo (-9) FILE_H);
          [lia|lia|lia|right; split; [done|by right]|done|done|done|done]].
    all: apply foldl_elem with (Q := fun sq =>
        sq ∈ bb_squares (Z.land (Z.land (shr (piece_bb pos BLACK PAWN) 7)
               (bb_not FILE_A)) (occupied_bb pos (Z.lxor BLACK 1)))
        /\ exists promo, promo_fits (to_move pos) sq promo
                         /\ m = MAKE_MOVE (sq + 7) sq promo FLAG_CAPTURE) in Hin;
      [|intros l x Hx [?|?]%add_pawn_moves_elem; [by left|by right]].
    all: destruct Hin as [Hin|(sq & _ & Hsq & promo & Hp & ->)]; [by left|].
    all: right; apply elem_of_bb_squares in Hsq as [Hr Hb]; bits_in Hb;
        rewrite <- Hc in Hb, Hb0;
        pose proof (testbit_true_range _ _ Hpr Hb);
        apply (gen_pawn_capture pos (sq + 7) sq promo (-7) FILE_A);
          [lia|lia|lia|right; split; [done|by left]|done|done|done|done].
Qed.
Lemma gen_piece_moves_generated (pos : Position) (piece from_bb : Z)
    (lst : list Z) (m : Z) :
  position_ok pos = true -> KNIGHT <= piece <= KING ->
  (forall sq, 0 <= sq < 64 -> Z.testbit from_bb sq = true ->
     Z.testbit (piece_bb pos (to_move pos) piece) sq = true) ->
  m ∈ gen_piece_moves pos (piece_attacks pos piece) from_bb lst ->
  m ∈ lst \/ generated pos m.
Proof.
  intros Hok Hp Hfrom. unfold gen_piece_moves. cbv zeta. intros Hin.
  apply foldl_elem with (Q := fun sq =>
      sq ∈ bb_squares from_bb
      /\ exists to,
           to ∈ bb_squares (Z.land (piece_attacks pos piece sq)
                              (bb_not (occupied_bb pos (to_move pos))))
           /\ m = MAKE_MOVE sq to 0
                    (if nz (Z.land (occupied_bb pos (Z.lxor (to_move pos) 1)) (bit to))
                     then FLAG_CAPTURE else FLAG_QUIET)) in Hin.
  - destruct Hin as [?|(sq & _ & Hsq & to & Hto & ->)]; [by left|]. right.
    apply elem_of_bb_squares in Hsq as [Hr Hb].
    apply elem_of_bb_squares in Hto as [Hr' Hb']. bits_in Hb'.
    rewrite land_bit_testbit by done.
    apply (gen_piece pos piece); try done. by apply Hfrom.
  - intros l sq Hsq Hin'.
    apply foldl_elem with (Q := fun to =>
      to ∈ bb_squares (Z.land (piece_attacks pos piece sq)
                         (bb_not (occupied_bb pos (to_move pos))))
      /\ m = MAKE_MOVE sq to 0
               (if nz (Z.land (occupied_bb pos (Z.lxor (to_move pos) 1)) (bit to))
                then FLAG_CAPTURE else FLAG_QUIET)) in Hin'.
    + destruct Hin' as [?|(to & _ & Hto & ->)]; [by left|]. right.
      split; [done|]. by exists to.
    + intros l' to Hto [?| ->]%add_move_elem; [by left|by right].
Qed.

(** A path walk that is not blocked ends on its target. *)
Lemma path_blocked_reaches (n : nat) (pos : Position)
    (king_sq rook_sq s step target : Z) :
  path_blocked n pos king_sq rook_sq s step target = false ->
  exists j, 0 <= j < Z.of_nat n /\ target = s + j * step.
Proof.
  revert s. induction n as [|n IH]; intros s; cbn [path_blocked]; [done|].
  destruct (_ && _); [done|].
  destruct (Z.eqb_spec s target) as [<-|Hne].
  - intros _. exists 0. lia.
  - intros (j & Hj & ->)%IH. exists (j + 1). lia.
Qed.

Lemma castle_target_differs (pos : Position) (king_sq rook_sq sq target : Z) :
  path_blocked 64 pos king_sq rook_sq
    (sq + (if sq <? target then 1 else -1)) (if sq <? target then 1 else -1)
    target = false ->
  sq <> target.
Proof.
  intros (j & Hj & Heq)%path_blocked_reaches.
  destruct (Z.ltb_spec sq target); lia.
Qed.

Lemma gen_castling_generated (pos : Position) (king_sq : Z) (lst : list Z) (m : Z) :
  position_ok pos = true -> 0 <= king_sq < 64 ->
  Z.testbit (piece_bb pos (to_move pos) KING) king_sq = true ->
  m ∈ gen_castling pos king_sq lst -> m ∈ lst \/ generated pos m.
Proof.
  intros Hok Hk Hking. unfold gen_castling. cbv zeta. intros Hin.
  apply foldl_elem with (Q := fun i => generated pos m) in Hin.
  { destruct Hin as [?|(i & _ & ?)]; [by left|by right]. }
  intros l i Hi Hin'. apply elem_of_seqZ in Hi.
  repeat match type of Hin' with
  | _ ∈ (if ?b then _ else _) => destruct b eqn:?
  | _ ∈ add_move _ _ _ _ => apply add_move_elem in Hin' as [Hin'| ->]
  end; try (by left).
  right.
  match goal with
  | H : negb (nz (Z.land _ (bit ?r))) = false |- _ =>
      apply negb_false_iff in H; pose proof (land_bit_square _ _ H);
      rewrite land_bit_testbit in H by done
  end.
  apply (gen_castle pos king_sq _ i); try done.
  - lia.
  - by eapply castle_target_differs.
  - by eapply castle_target_differs.
Qed.

(** Every move [movegen_all] stores is of one of the six kinds. *)
Lemma movegen_all_generated (pos : Position) (m : Z) :
  position_ok pos = true -> m ∈ movegen_all pos -> generated pos m.
Proof.
  intros Hok. unfold movegen_all. cbv zeta.
  assert (Hpieces : forall piece bb lst,
            KNIGHT <= piece <= KING ->
            (forall sq, 0 <= sq < 64 -> Z.testbit bb sq = true ->
               Z.testbit (piece_bb pos (to_move pos) piece) sq = true) ->
            (m ∈ lst -> generated pos m) ->
            m ∈ gen_piece_moves pos (piece_attacks pos piece) bb lst ->
            generated pos m).
  { intros piece bb lst Hp Hbb Hl Hin.
    destruct (gen_piece_moves_generated pos piece bb lst m Hok Hp Hbb Hin); auto. }
  assert (Hpawns : m ∈ gen_pawn_captures pos (gen_pawn_pushes pos []) ->
                   generated pos m).
  { intros [Hin|?]%gen_pawn_captures_generated; [|done..].
    apply gen_pawn_pushes_generated in Hin as [Hin|?]; [|done..].
    by apply elem_of_nil in Hin. }
  assert (Hmain : m ∈ gen_piece_moves pos (piece_attacks pos QUEEN)
                    (piece_bb pos (to_move pos) QUEEN)
                    (gen_piece_moves pos (piece_attacks pos ROOK)
                       (piece_bb pos (to_move pos) ROOK)
                       (gen_piece_moves pos (piece_attacks pos BISHOP)
                          (piece_bb pos (to_move pos) BISHOP)
                          (gen_piece_moves pos (piece_attacks pos KNIGHT)
                             (piece_bb pos (to_move pos) KNIGHT)
                             (gen_pawn_captures pos (gen_pawn_pushes pos [])))))
                  -> generated pos m).
  { intros Hin. unfold KNIGHT, BISHOP, ROOK, QUEEN, KING in *.
    repeat (apply Hpieces in Hin; [done|lia|by intros|clear Hin; intros Hin]).
    by apply Hpawns. }
  destruct (nz _) eqn:Hnz; [|exact Hmain].
  pose proof (piece_bb_range pos (to_move pos) KING Hok) as Hkr.
  destruct (piece_bb pos (to_move pos) KING) as [|p|p] eqn:Hkings; [done| |lia].
  destruct (bb_squares_step p ltac:(lia)) as [Hsq _].
  destruct (ctz_pos_spec p) as [Hset _].
  cbn [LSB].
  intros [Hin|?]%gen_castling_generated; [|done..|by rewrite Hkings].
  change king_attacks with (piece_attacks pos KING) in Hin.
  apply Hpieces in Hin; [done|unfold KNIGHT, KING; lia| |exact Hmain].
  intros sq Hr Hb. rewrite bit_testbit in Hb by lia.
  apply bool_decide_eq_true in Hb as ->. by rewrite Hkings.
Qed.
(** ** movegen.c: generated moves and [movegen_is_pseudo_legal] *)

Lemma ep_square_facts (pos : Position) :
  ep_square_ok pos = true -> 0 <= enpassant pos ->
  enpassant pos < 64
  /\ enpassant pos
     = 8 * (if to_move pos =? WHITE then 5 else 2) + SQ_FILE (enpassant pos)
  /\ Z.testbit (all pos) (enpassant pos) = false
  /\ Z.testbit (piece_bb pos (Z.lxor (to_move pos) 1) PAWN)
       (enpassant pos - pawn_step (to_move pos)) = true.
Proof.
  unfold ep_square_ok. cbv zeta. intros Hep H0.
  destruct (Z.ltb_spec (enpassant pos) 0); [lia|]. cbn [orb] in Hep.
  apply andb_prop in Hep as [Hep Hpawn]. apply andb_prop in Hep as [Hep Hall].
  apply andb_prop in Hep as [Hlt Hrank].
  apply Z.ltb_lt in Hlt. apply Z.eqb_eq in Hrank. apply negb_true_iff in Hall.
  repeat split; try done.
  rewrite SQ_FILE_mod. rewrite SQ_RANK_div in Hrank. rewrite <- Hrank.
  apply Z.div_mod. lia.
Qed.

Ltac bits_goal :=
  rewrite ?land_bit_testbit by lia;
  repeat first
    [ rewrite Z.land_spec
    | rewrite shl_testbit by lia
    | rewrite shr_testbit by lia
    | rewrite bb_not_square by lia
    | rewrite bit_testbit by lia ].

Ltac skip_branch :=
  match goal with
  | |- (if ?a then true else _) = true => destruct a eqn:?; [reflexivity|]
  end.

Ltac take_branch :=
  match goal with
  | |- (if ?a then true else _) = true =>
      replace a with true; [reflexivity|symmetry]
  end.

Lemma generated_pseudo_legal (pos : Position) (m : Z) :
  position_ok pos = true -> ep_square_ok pos = true ->
  generated pos m ->
  movegen_is_pseudo_legal pos m = negb (MOVE_IS_SPECIAL m).
Proof.
  intros Hok Hep Hgen.
  pose proof (to_move_cases pos Hok) as Hc.
  assert (Hc' : Z.lxor (to_move pos) 1 = WHITE \/ Z.lxor (to_move pos) 1 = BLACK)
    by (destruct Hc as [-> | ->]; [by right|by left]).
  destruct Hgen as
    [from to promo Hf Ht Hto Hpawn Hempty Hpr
    |from Hf Hpawn Hmid Hempty
    |from to promo d mask Hf Ht Hto Hdir Hmask Hpawn Henemy Hpr
    |from s Hep0 Hs Hfile Hfrom Hpawn
    |piece from to Hpiece Hf Ht Hbb Hatt Hown
    |from to i Hi Hto Hf Ht Hking Hrook Hkt Hrt].
  - (* push *)
    assert (Hp : 0 <= promo < 16).
    { unfold promo_fits in Hpr. destruct (last_rank _ _); lia. }
    destruct (move_fields from to promo FLAG_QUIET) as (Hm1 & Hm2 & _ & Hm4);
      [done..|unfold FLAG_QUIET; lia|].
    unfold movegen_is_pseudo_legal, MOVE_IS_SPECIAL. cbv zeta.
    rewrite Hm1, Hm2, Hm4.
    rewrite (piece_on_is pos _ PAWN from) by (done || unfold PAWN; lia).
    change (PAWN =? -1) with false. change (PAWN =? PAWN) with true.
    change (FLAG_QUIET =? FLAG_SPECIAL) with false. cbv iota. cbn [negb].
    assert (Hno : Z.testbit (occupied_bb pos (to_move pos)) to = false).
    { rewrite position_ok_all in Hempty by done.
      apply orb_false_elim in Hempty as [? ?].
      by destruct Hc as [Hw|Hb]; [rewrite Hw in *|rewrite Hb in *]. }
    rewrite land_bit_testbit, Hno by done. cbv iota.
    destruct Hc as [Hw|Hb]; rewrite Hw || rewrite Hb;
      [change (WHITE =? WHITE) with true|change (BLACK =? WHITE) with false];
      cbv iota; rewrite ?Hw, ?Hb in Hto; cbn in Hto.
    + take_branch. bits_goal. rewrite Hempty. cbn [negb andb].
      rewrite ?andb_true_r. apply bool_decide_eq_true. lia.
    + take_branch. bits_goal. rewrite Hempty. cbn [negb andb].
      rewrite ?andb_true_r. apply bool_decide_eq_true. lia.
  - (* double push *)
    assert (Hr : 0 <= from < 64) by (destruct (_ =? _); lia).
    assert (Hr' : 0 <= from + 2 * pawn_step (to_move pos) < 64).
    { unfold pawn_step. destruct (_ =? _); lia. }
    destruct (move_fields from (from + 2 * pawn_step (to_move pos)) 0 FLAG_QUIET)
      as (Hm1 & Hm2 & _ & Hm4); [done..|lia|unfold FLAG_QUIET; lia|].
    unfold movegen_is_pseudo_legal, MOVE_IS_SPECIAL. cbv zeta.
    rewrite Hm1, Hm2, Hm4.
    rewrite (piece_on_is pos _ PAWN from) by (done || unfold PAWN; lia).
    change (PAWN =? -1) with false. change (PAWN =? PAWN) with true.
    change (FLAG_QUIET =? FLAG_SPECIAL) with false. cbv iota. cbn [negb].
    assert (Hno : Z.testbit (occupied_bb pos (to_move pos))
                    (from + 2 * pawn_step (to_move pos)) = false).
    { rewrite position_ok_all in Hempty by done.
      apply orb_false_elim in Hempty as [? ?].
      by destruct Hc as [Hw|Hb]; [rewrite Hw in *|rewrite Hb in *]. }
    rewrite land_bit_testbit, Hno by done. cbv iota.
    revert Hempty Hmid Hf Hr'.
    destruct Hc as [Hw|Hb]; rewrite Hw || rewrite Hb;
      [change (WHITE =? WHITE) with true|change (BLACK =? WHITE) with false];
      cbv iota; change (pawn_step WHITE) with 8; change (pawn_step BLACK) with (-8);
      intros Hempty Hmid Hf Hr'.
    + skip_branch. take_branch.
      assert (Hrank : SQ_RANK from = 1)
        by (rewrite SQ_RANK_div; Z.div_mod_to_equations; lia).
      rewrite Hrank. change (1 =? 1) with true. cbn [andb].
      bits_goal. rewrite RANK_3_testbit.
      replace (from + 2 * 8 - 8) with (from + 8) by lia.
      rewrite Hempty, Hmid. cbn [negb andb].
      destruct (Z.leb_spec 16 (from + 8)); [|lia].
      destruct (Z.ltb_spec (from + 8) 24); [|lia].
      cbn [andb negb]. rewrite ?andb_true_r. apply bool_decide_eq_true. lia.
    + skip_branch. take_branch.
      assert (Hrank : SQ_RANK from = 6)
        by (rewrite SQ_RANK_div; Z.div_mod_to_equations; lia).
      rewrite Hrank. change (6 =? 6) with true. cbn [andb].
      bits_goal. rewrite RANK_6_testbit.
      replace (from + 2 * -8 + 8) with (from + -8) by lia.
      rewrite Hempty, Hmid. cbn [negb andb].
      destruct (Z.leb_spec 40 (from + -8)); [|lia].
      destruct (Z.ltb_spec (from + -8) 48); [|lia].
      cbn [andb negb]. rewrite ?andb_true_r. apply bool_decide_eq_true. lia.
  - (* pawn capture *)
    assert (Hp : 0 <= promo < 16).
    { unfold promo_fits in Hpr. destruct (last_rank _ _); lia. }
    destruct (move_fields from to promo FLAG_CAPTURE) as (Hm1 & Hm2 & _ & Hm4);
      [done..|unfold FLAG_CAPTURE; lia|].
    unfold movegen_is_pseudo_legal, MOVE_IS_SPECIAL. cbv zeta.
    rewrite Hm1, Hm2, Hm4.
    rewrite (piece_on_is pos _ PAWN from) by (done || unfold PAWN; lia).
    change (PAWN =? -1) with false. change (PAWN =? PAWN) with true.
    change (FLAG_CAPTURE =? FLAG_SPECIAL) with false. cbv iota. cbn [negb].
    assert (Hno : Z.testbit (occupied_bb pos (to_move pos)) to = false).
    { destruct (Z.testbit (occupied_bb pos (to_move pos)) to) eqn:Hown; [|done].
      apply occupied_disjoint in Hown; try done. congruence. }
    rewrite land_bit_testbit, Hno by done. cbv iota.
    destruct Hdir as [[Hw [[-> ->]|[-> ->]]]|[Hb [[-> ->]|[-> ->]]]];
      rewrite ?Hw, ?Hb in *;
      [change (WHITE =? WHITE) with true|change (WHITE =? WHITE) with true
      |change (BLACK =? WHITE) with false|change (BLACK =? WHITE) with false];
      cbv iota.
    + do 2 skip_branch. take_branch. bits_goal.
      rewrite Hmask, Henemy. cbn [negb andb]. rewrite ?andb_true_r.
      apply bool_decide_eq_true. lia.
    + do 3 skip_branch. take_branch. bits_goal.
      rewrite Hmask, Henemy. cbn [negb andb]. rewrite ?andb_true_r.
      apply bool_decide_eq_true. lia.
    + do 2 skip_branch. take_branch. bits_goal.
      rewrite Hmask, Henemy. cbn [negb andb]. rewrite ?andb_true_r.
      apply bool_decide_eq_true. lia.
    + do 3 skip_branch. take_branch. bits_goal.
      rewrite Hmask, Henemy. cbn [negb andb]. rewrite ?andb_true_r.
      apply bool_decide_eq_true. lia.
  - (* en passant *)
    destruct (ep_square_facts pos Hep Hep0) as (Hlt & Hsq & Hempty & _).
    pose proof (SQ_FILE_range (enpassant pos)) as Hfr.
    set (ep := enpassant pos) in *.
    assert (Hr : 0 <= from < 64).
    { subst from. unfold SQ. destruct (_ =? _); lia. }
    destruct (move_fields from ep 0 FLAG_CAPTURE) as (Hm1 & Hm2 & _ & Hm4);
      [done|lia|lia|unfold FLAG_CAPTURE; lia|].
    unfold movegen_is_pseudo_legal, MOVE_IS_SPECIAL. cbv zeta.
    rewrite Hm1, Hm2, Hm4.
    rewrite (piece_on_is pos _ PAWN from) by (done || unfold PAWN; lia).
    change (PAWN =? -1) with false. change (PAWN =? PAWN) with true.
    change (FLAG_CAPTURE =? FLAG_SPECIAL) with false. cbv iota. cbn [negb].
    assert (Hno : Z.testbit (occupied_bb pos (to_move pos)) ep = false).
    { rewrite position_ok_all in Hempty by done.
      apply orb_false_elim in Hempty as [? ?].
      by destruct Hc as [Hw|Hb]; [rewrite Hw in *|rewrite Hb in *]. }
    rewrite land_bit_testbit, Hno by lia. cbv iota.
    fold ep. rewrite Z.eqb_refl.
    destruct (Z.eqb_spec ep (-1)); [lia|]. cbn [negb andb].
    destruct (FILE_testbit ep ltac:(lia)) as [HA HH].
    revert Hsq Hfrom.
    destruct Hc as [Hw|Hb]; rewrite Hw || rewrite Hb;
      [change (WHITE =? WHITE) with true|change (BLACK =? WHITE) with false];
      cbv iota; unfold SQ; intros Hsq Hfrom.
    + do 4 skip_branch. destruct Hs as [-> | ->].
      * take_branch. bits_goal. rewrite HH.
        destruct (Z.eqb_spec (SQ_FILE ep) 7); [lia|]. cbn [negb].
        rewrite ?andb_true_r. apply bool_decide_eq_true. lia.
      * skip_branch. bits_goal. rewrite HA.
        destruct (Z.eqb_spec (SQ_FILE ep) 0); [lia|]. cbn [negb].
        rewrite ?andb_true_r. apply bool_decide_eq_true. lia.
    + do 4 skip_branch. destruct Hs as [-> | ->].
      * skip_branch. bits_goal. rewrite HH.
        destruct (Z.eqb_spec (SQ_FILE ep) 7); [lia|]. cbn [negb].
        rewrite ?andb_true_r. apply bool_decide_eq_true. lia.
      * take_branch. bits_goal. rewrite HA.
        destruct (Z.eqb_spec (SQ_FILE ep) 0); [lia|]. cbn [negb].
        rewrite ?andb_true_r. apply bool_decide_eq_true. lia.
  - (* piece move *)
    unfold KNIGHT, KING in Hpiece.
    assert (Hg : 0 <= (if Z.testbit (occupied_bb pos (Z.lxor (to_move pos) 1)) to
                       then FLAG_CAPTURE else FLAG_QUIET) < 2)
      by (case_match; unfold FLAG_CAPTURE, FLAG_QUIET; lia).
    set (flag := if Z.testbit (occupied_bb pos (Z.lxor (to_move pos) 1)) to
                 then FLAG_CAPTURE else FLAG_QUIET) in *.
    destruct (move_fields from to 0 flag) as (Hm1 & Hm2 & _ & Hm4);
      [done|done|lia|lia|].
    unfold movegen_is_pseudo_legal, MOVE_IS_SPECIAL. cbv zeta.
    rewrite Hm1, Hm2, Hm4.
    rewrite (piece_on_is pos _ piece from) by (done || lia).
    destruct (Z.eqb_spec piece (-1)); [lia|].
    rewrite land_bit_testbit, Hown by done. cbv iota.
    destruct (Z.eqb_spec piece PAWN); [unfold PAWN in *; lia|].
    fold (piece_attacks pos piece from).
    rewrite land_bit_testbit, Hatt by done.
    destruct (Z.eqb_spec flag FLAG_SPECIAL) as [Heq|]; [|done].
    unfold FLAG_SPECIAL in Heq. lia.
  - (* castling *)
    destruct (move_fields from to 0 FLAG_SPECIAL) as (Hm1 & Hm2 & _ & Hm4);
      [done|done|lia|unfold FLAG_SPECIAL; lia|].
    unfold movegen_is_pseudo_legal, MOVE_IS_SPECIAL. cbv zeta.
    rewrite Hm1, Hm2, Hm4.
    rewrite (piece_on_is pos _ KING from) by (done || unfold KING; lia).
    change (KING =? -1) with false. cbv iota.
    rewrite land_bit_testbit by done.
    rewrite (piece_bb_occupied pos _ ROOK to) by (done || unfold ROOK; lia).
    reflexivity.
Qed.
Lemma piece_on_empty (p : Position) (c sq : Z) :
  position_ok p = true -> c = WHITE \/ c = BLACK -> 0 <= sq < 64 ->
  Z.testbit (occupied_bb p c) sq = false -> (piece_on p c sq <? 0) = true.
Proof.
  intros Hok Hc Hsq Hb. rewrite piece_on_occupied in Hb by done.
  apply Z.leb_gt in Hb. by apply Z.ltb_lt.
Qed.

Lemma all_empty_sides (p : Position) (sq : Z) :
  position_ok p = true -> Z.testbit (all p) sq = false ->
  forall c, c = WHITE \/ c = BLACK -> Z.testbit (occupied_bb p c) sq = false.
Proof.
  intros Hok Hempty c Hc. rewrite position_ok_all in Hempty by done.
  apply orb_false_elim in Hempty as [? ?]. by destruct Hc as [-> | ->].
Qed.

Lemma generated_fits (pos : Position) (m : Z) :
  position_ok pos = true -> ep_square_ok pos = true ->
  castling_rooks_differ pos = true ->
  generated pos m ->
  move_fits pos m = true /\ move_squares_differ pos m = true.
Proof.
  intros Hok Hep Hrooks Hgen.
  pose proof (to_move_cases pos Hok) as Hc.
  assert (Hc' : Z.lxor (to_move pos) 1 = WHITE \/ Z.lxor (to_move pos) 1 = BLACK)
    by (destruct Hc as [-> | ->]; [by right|by left]).
  assert (Hne : Z.lxor (to_move pos) 1 <> to_move pos)
    by (destruct Hc as [-> | ->]; done).
  destruct Hgen as
    [from to promo Hf Ht Hto Hpawn Hempty Hpr
    |from Hf Hpawn Hmid Hempty
    |from to promo d mask Hf Ht Hto Hdir Hmask Hpawn Henemy Hpr
    |from s Hep0 Hs Hfile Hfrom Hpawn
    |piece from to Hpiece Hf Ht Hbb Hatt Hown
    |from to i Hi Hto Hf Ht Hking Hrook Hkt Hrt].
  - (* push *)
    assert (Hp : 0 <= promo <= 4).
    { unfold promo_fits in Hpr. destruct (last_rank _ _); lia. }
    destruct (move_fields from to promo FLAG_QUIET) as (Hm1 & Hm2 & Hm3 & Hm4);
      [done|done|lia|unfold FLAG_QUIET; lia|].
    unfold move_fits, move_squares_differ, MOVE_IS_SPECIAL. cbv zeta.
    rewrite Hm1, Hm2, Hm3, Hm4.
    rewrite (piece_on_is pos _ PAWN from) by (done || unfold PAWN; lia).
    change (0 <=? PAWN) with true. change (PAWN =? PAWN) with true.
    change (PAWN =? KING) with false. cbn [andb].
    rewrite (piece_on_empty pos (to_move pos) to)
      by (done || by apply all_empty_sides).
    destruct (Z.ltb_spec promo 6); [|lia].
    assert (Hnep : (to =? enpassant pos) = false).
    { destruct (Z.eqb_spec to (enpassant pos)) as [Heq|]; [|done]. exfalso.
      destruct (ep_square_facts pos Hep ltac:(lia)) as (_ & _ & _ & Hpe).
      rewrite <- Heq, Hto in Hpe.
      replace (from + pawn_step (to_move pos) - pawn_step (to_move pos))
        with from in Hpe by lia.
      destruct (piece_bb_disjoint pos (to_move pos) PAWN
                  (Z.lxor (to_move pos) 1) PAWN from); try done;
        unfold PAWN; lia. }
    rewrite Hnep.
    split; [by destruct (0 <? promo)|].
    destruct (Z.eqb_spec from to); [|done].
    unfold pawn_step in Hto. destruct (_ =? _); lia.
  - (* double push *)
    assert (Hr : 0 <= from < 64) by (destruct (_ =? _); lia).
    assert (Hr' : 0 <= from + 2 * pawn_step (to_move pos) < 64).
    { unfold pawn_step. destruct (_ =? _); lia. }
    destruct (move_fields from (from + 2 * pawn_step (to_move pos)) 0 FLAG_QUIET)
      as (Hm1 & Hm2 & Hm3 & Hm4); [done..|lia|unfold FLAG_QUIET; lia|].
    unfold move_fits, move_squares_differ, MOVE_IS_SPECIAL. cbv zeta.
    rewrite Hm1, Hm2, Hm3, Hm4.
    rewrite (piece_on_is pos _ PAWN from) by (done || unfold PAWN; lia).
    change (0 <=? PAWN) with true. change (PAWN =? PAWN) with true.
    change (PAWN =? KING) with false. change (0 <? 0) with false. cbn [andb].
    assert (Hnep : (from + 2 * pawn_step (to_move pos) =? enpassant pos) = false).
    { destruct (Z.eqb_spec (from + 2 * pawn_step (to_move pos)) (enpassant pos))
        as [Heq|]; [|done]. exfalso.
      destruct (ep_square_facts pos Hep ltac:(lia)) as (_ & Hsq & _).
      pose proof (SQ_FILE_range (enpassant pos)).
      unfold pawn_step in Heq. destruct (to_move pos =? WHITE); lia. }
    rewrite Hnep. split; [done|].
    destruct (Z.eqb_spec from (from + 2 * pawn_step (to_move pos))); [|done].
    unfold pawn_step in *. destruct (_ =? _); lia.
  - (* pawn capture *)
    assert (Hp : 0 <= promo <= 4).
    { unfold promo_fits in Hpr. destruct (last_rank _ _); lia. }
    destruct (move_fields from to promo FLAG_CAPTURE) as (Hm1 & Hm2 & Hm3 & Hm4);
      [done|done|lia|unfold FLAG_CAPTURE; lia|].
    unfold move_fits, move_squares_differ, MOVE_IS_SPECIAL. cbv zeta.
    rewrite Hm1, Hm2, Hm3, Hm4.
    rewrite (piece_on_is pos _ PAWN from) by (done || unfold PAWN; lia).
    change (0 <=? PAWN) with true. change (PAWN =? PAWN) with true.
    change (PAWN =? KING) with false. cbn [andb].
    assert (Hno : Z.testbit (occupied_bb pos (to_move pos)) to = false).
    { destruct (Z.testbit (occupied_bb pos (to_move pos)) to) eqn:Hown; [|done].
      apply occupied_disjoint in Hown; try done. congruence. }
    rewrite (piece_on_empty pos (to_move pos) to) by done.
    destruct (Z.ltb_spec promo 6); [|lia].
    assert (Hnep : (to =? enpassant pos) = false).
    { destruct (Z.eqb_spec to (enpassant pos)) as [Heq|]; [|done]. exfalso.
      destruct (ep_square_facts pos Hep ltac:(lia)) as (_ & _ & Hpe & _).
      rewrite <- Heq in Hpe.
      rewrite (all_empty_sides pos to Hok Hpe _ Hc') in Henemy. done. }
    rewrite Hnep.
    split; [by destruct (0 <? promo)|].
    destruct (Z.eqb_spec from to); [|done].
    destruct Hdir as [[_ [[-> _]|[-> _]]]|[_ [[-> _]|[-> _]]]]; lia.
  - (* en passant *)
    destruct (ep_square_facts pos Hep Hep0) as (Hlt & Hsq & Hempty & Hpe).
    pose proof (SQ_FILE_range (enpassant pos)) as Hfr.
    set (ep := enpassant pos) in *.
    assert (Hr : 0 <= from < 64).
    { subst from. unfold SQ. destruct (_ =? _); lia. }
    destruct (move_fields from ep 0 FLAG_CAPTURE) as (Hm1 & Hm2 & Hm3 & Hm4);
      [done|lia|lia|unfold FLAG_CAPTURE; lia|].
    unfold move_fits, move_squares_differ, MOVE_IS_SPECIAL. cbv zeta.
    rewrite Hm1, Hm2, Hm3, Hm4.
    rewrite (piece_on_is pos _ PAWN from) by (done || unfold PAWN; lia).
    change (0 <=? PAWN) with true. change (PAWN =? PAWN) with true.
    change (PAWN =? KING) with false. change (0 <? 0) with false. cbn [andb].
    fold ep. rewrite Z.eqb_refl.
    rewrite (piece_on_empty pos _ ep)
      by (done || lia || by apply all_empty_sides).
    assert (Hbehind : SQ (SQ_FILE ep) (SQ_RANK from) = ep - pawn_step (to_move pos)).
    { rewrite SQ_RANK_div. unfold SQ, pawn_step in *.
      destruct (to_move pos =? WHITE); Z.div_mod_to_equations; lia. }
    rewrite Hbehind.
    assert (Hbr : 0 <= ep - pawn_step (to_move pos) < 64).
    { unfold pawn_step. destruct (to_move pos =? WHITE); lia. }
    rewrite land_bit_testbit, Hpe by done.
    split; [done|].
    destruct (Z.eqb_spec from ep); [|done].
    unfold SQ in Hfrom. destruct (to_move pos =? WHITE); lia.
  - (* piece move *)
    unfold KNIGHT, KING in Hpiece.
    set (flag := if Z.testbit (occupied_bb pos (Z.lxor (to_move pos) 1)) to
                 then FLAG_CAPTURE else FLAG_QUIET) in *.
    assert (Hg : 0 <= flag < 2)
      by (unfold flag; case_match; unfold FLAG_CAPTURE, FLAG_QUIET; lia).
    destruct (move_fields from to 0 flag) as (Hm1 & Hm2 & Hm3 & Hm4);
      [done|done|lia|lia|].
    unfold move_fits, move_squares_differ, MOVE_IS_SPECIAL. cbv zeta.
    rewrite Hm1, Hm2, Hm3, Hm4.
    rewrite (piece_on_is pos _ piece from) by (done || lia).
    destruct (Z.leb_spec 0 piece); [|lia].
    destruct (Z.eqb_spec piece PAWN); [unfold PAWN in *; lia|].
    destruct (Z.eqb_spec flag FLAG_SPECIAL) as [Heq|];
      [unfold FLAG_SPECIAL in Heq; lia|].
    change (0 <? 0) with false. rewrite andb_false_r. cbn [andb].
    split; [done|].
    destruct (Z.eqb_spec from to) as [->|]; [|done].
    rewrite (piece_bb_occupied pos _ piece to) in Hown by (done || lia). done.
  - (* castling *)
    destruct (move_fields from to 0 FLAG_SPECIAL) as (Hm1 & Hm2 & Hm3 & Hm4);
      [done|done|lia|unfold FLAG_SPECIAL; lia|].
    unfold move_fits, move_squares_differ, MOVE_IS_SPECIAL. cbv zeta.
    rewrite Hm1, Hm2, Hm3, Hm4.
    rewrite (piece_on_is pos _ KING from) by (done || unfold KING; lia).
    change (0 <=? KING) with true. change (KING =? PAWN) with false.
    change (KING =? KING) with true. change (0 <? 0) with false.
    change (FLAG_SPECIAL =? FLAG_SPECIAL) with true. cbn [andb].
    split; [done|].
    assert (Hside : (to =? castling_rook pos (if to_move pos =? WHITE then 0 else 2))
                    = (i =? 0)).
    { unfold castling_rooks_differ in Hrooks.
      apply andb_prop in Hrooks as [Hw Hb].
      apply negb_true_iff in Hw, Hb. rewrite Z.eqb_sym in Hw, Hb.
      subst to. destruct Hi as [-> | ->]; change (2 + 0) with 2; change (2 + 1) with 3;
        destruct (to_move pos =? WHITE); by rewrite ?Z.eqb_refl. }
    rewrite Hside.
    destruct (Z.eqb_spec from (castle_king_to (to_move pos) (i =? 0))); [done|].
    destruct (Z.eqb_spec to (castle_rook_to (to_move pos) (i =? 0))); done.
Qed.

(** ** movegen.c: the moves of [movegen_all] *)

(** X22 (generated moves and the pseudo-legality test).  In a position
    that satisfies the sanity conditions and whose en-passant square, if
    any, is an empty square of the right rank, [movegen_is_pseudo_legal]
    accepts every move [movegen_all] stores that is no castling move, and
    rejects every castling move [movegen_all] stores (the king would
    land on its own rook). *)
Theorem movegen_all_pseudo_legal (pos : Position) (m : Z) :
  position_ok pos = true -> ep_square_ok pos = true ->
  m ∈ movegen_all pos ->
  movegen_is_pseudo_legal pos m = negb (MOVE_IS_SPECIAL m).
Proof.
  intros Hok Hep Hin. apply generated_pseudo_legal; [done..|].
  by apply movegen_all_generated.
Qed.

(** 1... e5 in the position after 1. e4, and castling king-side with king
    and rook alone. *)
Lemma movegen_all_pseudo_legal_witness :
  (position_ok pos_after_e4 = true /\ ep_square_ok pos_after_e4 = true
   /\ move_e7e5 ∈ movegen_all pos_after_e4
   /\ movegen_is_pseudo_legal pos_after_e4 move_e7e5
      = negb (MOVE_IS_SPECIAL move_e7e5))
  /\ (position_ok pos_castle = true /\ ep_square_ok pos_castle = true
      /\ move_castle ∈ movegen_all pos_castle
      /\ movegen_is_pseudo_legal pos_castle move_castle
         = negb (MOVE_IS_SPECIAL move_castle)).
Proof.
  assert (H1 : move_e7e5 ∈ movegen_all pos_after_e4).
  { apply list_elem_of_In. vm_compute. tauto. }
  assert (H2 : move_castle ∈ movegen_all pos_castle).
  { apply list_elem_of_In. vm_compute. tauto. }
  split.
  - split; [by vm_compute|]. split; [by vm_compute|]. split; [exact H1|].
    apply (movegen_all_pseudo_legal pos_after_e4 move_e7e5); [by vm_compute..|exact H1].
  - split; [by vm_compute|]. split; [by vm_compute|]. split; [exact H2|].
    apply (movegen_all_pseudo_legal pos_castle move_castle); [by vm_compute..|exact H2].
Defined.

Section GeneratedRoundTrip.

Variable nnue_available : bool.
Variable nnue_refresh_accumulator : Position -> Accumulator.
Variable nnue_update_accumulator :
  Accumulator -> Z -> Z -> Z -> Z -> Z -> Z -> Accumulator.

Local Abbreviation make :=
  (position_make_move nnue_available nnue_refresh_accumulator
     nnue_update_accumulator).
Local Abbreviation round_trip :=
  (make_unmake nnue_available nnue_refresh_accumulator
     nnue_update_accumulator).

(** X23 (generated moves can be made and unmade).  In a position that
    satisfies the sanity conditions, whose en-passant square, if any, is an
    empty square of the right rank with the enemy pawn behind it, and whose
    castling rooks stand on different squares, every move [movegen_all]
    stores fits the position and flips two different squares; so making
    it and unmaking it gives back the position (up to the full-move
    number after a move by Black), and the Zobrist key after making it is
    the key computed from scratch.  (A king or rook that already stands on
    its castling destination makes the path loop of the C code leave the
    board; [path_blocked] counts that as blocked, so no such castling move
    is stored.) *)
Theorem movegen_all_make_unmake (pos : Position) (m : Z) :
  position_ok pos = true -> ep_square_ok pos = true ->
  castling_rooks_differ pos = true ->
  m ∈ movegen_all pos ->
  move_fits pos m = true
  /\ move_squares_differ pos m = true
  /\ round_trip pos m
     = with_fullmove (if to_move pos =? BLACK then fullmove pos + 1
                      else fullmove pos) pos
  /\ (let pos' := (make pos m undo_blank).1 in
      zobrist pos' = position_hash pos').
Proof.
  intros Hok Hep Hrooks Hin.
  destruct (generated_fits pos m Hok Hep Hrooks
              (movegen_all_generated pos m Hok Hin)) as [Hfits Hdiff].
  split; [done|]. split; [done|]. split.
  - by apply round_trip_restores.
  - by apply make_keeps_hash.
Qed.

End GeneratedRoundTrip.

(** Castling king-side with king and rook alone. *)
Lemma movegen_all_make_unmake_witness :
  position_ok pos_castle = true /\ ep_square_ok pos_castle = true
  /\ castling_rooks_differ pos_castle = true
  /\ move_castle ∈ movegen_all pos_castle
  /\ move_fits pos_castle move_castle = true
  /\ move_squares_differ pos_castle move_castle = true
  /\ make_unmake0 pos_castle move_castle
     = with_fullmove (if to_move pos_castle =? BLACK
                      then fullmove pos_castle + 1
                      else fullmove pos_castle) pos_castle
  /\ (let pos' := (make_move0 pos_castle move_castle undo_blank).1 in
      zobrist pos' = position_hash pos').
Proof.
  assert (Hin : move_castle ∈ movegen_all pos_castle).
  { apply list_elem_of_In. vm_compute. tauto. }
  split; [by vm_compute|]. split; [by vm_compute|]. split; [by vm_compute|].
  split; [exact Hin|].
  apply (movegen_all_make_unmake false no_network_refresh no_network_update
           pos_castle move_castle); [by vm_compute..|exact Hin].
Defined.
